(* ===== verification/_CoqProject ===== *)
-Q . S2P
Prelude.v
GoStrings.v
Sha256.v
Names.v
HostRegexp.v
HostManager.v
Semaphore.v
Breaker.v
K8sHelper.v
Throttler.v
Transport.v
Types.v
Memory.v
DeepCopy.v
ProbeMatch.v
CrdCache.v
RpcClient.v
Json.v
JsonText.v
JsonCodec.v
Handler.v
BufferPool.v
Logger.v
Cron.v
PromScaler.v
Cluster.v
Goroutines.v
Scaling.v
Config.v
Startup.v
Process.v
Informer.v
Metrics.v
Controller.v
ControllerFacts.v
ControllerProps.v
Concurrency.v
JsonCache.v
InformerRefines.v
Events.v
Operator.v
OperatorProps.v
WakeUp.v
