(* ===== verification/Prelude.v ===== *)
(** * KubeElasti: a verification development

    KubeElasti scales Kubernetes workloads to zero and wakes them up on the
    first request.  It is two Go programs.

    The resolver ([src/resolver]) is a reverse proxy.  While a service has no
    pods its traffic arrives at the resolver, which finds the service behind the
    host of the request, answers health probes itself, tells the operator that
    there is traffic, holds the request in a bounded queue until the service has
    a ready endpoint, and proxies it to the private copy of the service.

    The operator ([src/operator], with [src/pkg]) is a controller of the custom
    resource ElastiService.  Every polling interval it evaluates the triggers of
    each service and scales idle targets to zero and busy ones up; it watches
    the targets and switches a service to proxy mode (an endpoint slice to the
    resolver) when no pod is ready and to serve mode when one is; it serves the
    resolver's wake-up calls and its own directory of services; and it undoes
    everything when an ElastiService is deleted.

    ** The files

    Shared: [Prelude] (Go strings as byte lists, results, errors with wrapping,
    fixed-width integers, tactics and hints), [GoStrings] (the functions of
    package [strings]), [Sha256].

    The resolver, bottom up:
    - [Names]: [pkg/utils/utils.go], generated names.
    - [HostRegexp], [HostManager]: [hostmanager/hostManager.go].  The state is
      the map of hosts and the timers that have not fired; an operation is a
      function on it, and [hm_step] interleaves operations and timers.
    - [Semaphore], [Breaker]: [throttler/semaphore.go] and [breaker.go].  A
      goroutine is a program counter; every atomic access is one step, and the
      steps of all goroutines interleave.
    - [Throttler], [Transport]: [throttler/throttler.go], [transport.go].
    - [ProbeMatch], [CrdCache]: [crdcache/spec.go], [cache.go].
    - [RpcClient]: [operator/RPCClient.go].
    - [Json]: the notification of [pkg/messages/operator.go] as the resolver
      encodes it and the operator decodes it, with a parser of JSON.
    - [JsonText], [JsonCodec], [JsonCache]: the answer of [/crd-cache].  [JsonText]
      has the printer of JSON values and the round trip for all of them;
      [JsonCodec] has combinators for the rules of [encoding/json] (structs with
      [omitempty], pointers, slices, maps, raw messages) and the law [conveys]
      between an encoder and a decoder; [JsonCache] has the codec of every struct
      of the API and of the answer, by the tags of [elastiservice_types.go].
    - [Handler]: [handler/handler.go], [writer.go], the composition.  It uses
      the host manager through the class [HostManagerOps], the interface that
      [handler.go] declares.
    - [BufferPool]: the pool of copy buffers at the end of [handler.go].
    - [Logger]: [pkg/logger/logger.go], the core that sends errors to Sentry.

    The operator:
    - [K8sHelper], [Types]: [pkg/k8shelper], [pkg/values], the API types.
    - [Memory], [DeepCopy]: [zz_generated.deepcopy.go] on a heap.  [Memory] has
      locations, slices as views of arrays and the representation of a value in
      a part of the heap; [DeepCopy] has every generated function.
    - [Goroutines], [Concurrency]: computations of the operator as programs that
      yield at every API call and every access to shared memory.  [Goroutines] has
      pools of such programs, their schedules, and a pool behind a mutex;
      [Concurrency] has the four goroutines of [finalizeCRD] and [switchMode].
    - [Cron], [PromScaler]: [pkg/cronutil], [pkg/scaling/scalers].  A scaler is
      an instance of the class [Scaler], the interface of [scaler.go].
    - [Cluster]: the objects behind the API server, the operator's memory, and
      the state-and-error monad [M] of the operator's functions.  Each API call
      consumes one entry of a script of faults, so that a theorem for all
      states covers every pattern of failing calls.
    - [Scaling]: [pkg/scaling/scale_handler.go].
    - [Config]: [pkg/config/config.go] and the scope logic of
      [operator/cmd/main.go].
    - [Startup]: [resolver/cmd/main.go], the routes of [elastiServer.go], the URLs
      of [RPCClient.go] and the order of [operator/cmd/main.go].
    - [Process]: both processes: the flags of the operator and the options of its
      manager, the graceful shutdown of [elastiServer.go], [mainWithError] with
      its goroutines as a step relation, the ways the resolver ends, and the
      mutexes kept by key.
    - [Informer]: [internal/informer/informer.go] as steps.
    - [Metrics]: the collectors of both [prom.go] and every use of one.
    - [Controller]: [internal/controller], [internal/crddirectory] and
      [internal/elastiserver]; [ControllerFacts] has the lemmas on each
      operation and [ControllerProps] the guarantees.
    - [InformerRefines]: the set of informers in the controller's state is a view
      of the informer manager of [Informer].
    - [Events]: the handlers the informers call, the filter of events, the start
      of the controller and the ticker of the scale-down watcher.
    - [Operator], [OperatorProps]: the operator as one relation [op_step] over all
      its entry points, with [env_step] for users, Kubernetes, time and restarts.
      A computation [respects] a relation on states when every run of it is in
      the relation; [footprint] is the relation of what the operator may change.

    Both together: [WakeUp] composes handler, client, message, server, scale
    handler and retries over the first request to a sleeping service.

    ** The theorems

    A property has its number Cn in the comment before it.  They are grouped by
    component:
    - Traffic: after an update of the workload the service is redirected to the
      resolver exactly when no pod is ready ([traffic_follows_target]); the
      resolver turns every in-cluster host into the private service
      ([get_host_resolves_private]), keeps at most one timer of each kind per
      host ([one_timer_per_host]) and re-enables traffic in time
      ([traffic_is_reenabled]).
    - Scaling: the decision ([scale_down_iff_idle]), the periodic check under
      failing calls ([only_idle_targets_go_to_zero]), KEDA, the wake-up
      ([wake_up_scales]), enabled periods, where queries may go.
    - Queueing: the bounds of the breaker in every interleaving, its refinement
      to an abstract semaphore on the set of holders, absence of lost wake-ups,
      the outcome and the termination of [Try].
    - Requests: what the client gets, what is proxied and what is notified, for
      served, unserved and probe requests; how probe rules match.
    - Whole runs: after any sequence of steps of the operator the state is well
      formed ([always_well_formed]) and nothing was written that is not the
      operator's own ([operator_writes_only_its_own]); a restart rebuilds the
      directory, a change of the resolver repoints all redirected services, the
      watcher starts with a positive interval and stops with its context.
    - Both programs: the first request to a service at zero replicas is reported,
      decoded, acted upon and finally served ([first_request_is_served]); the
      notification and every spec survive their encoding ([message_roundtrip],
      [spec_roundtrip]), and through the bytes of the cache answer the resolver
      answers probes by the rules the operator holds ([probes_reach_resolver]);
      the URLs of the client reach the handlers of the server
      ([client_reaches_server]).
    - Concurrency: the goroutines of the finalizer may interleave in any way
      ([finalize_interleavings]), switches of one service exclude each other
      ([concurrent_switches]), copies share no memory with the original
      ([deep_copy_is_independent]).
    - Processes: the server stops gracefully ([shutdown_is_graceful]), [main] with
      its goroutines does what the sequence of its calls says
      ([process_refines_main]), metrics do not panic and the gauge of informers
      is right ([informer_gauge_counts]).
    - Life cycle: registration, finalization ([finalize_cleans_up]) and its
      retry, the informer map, and the resolver's cache as a mirror of the
      operator's directory.
    - Defects that the model exhibits, as theorems on the code as it is, without
      a number: lost
      scale-ups while pods terminate, the shared buffer of Prometheus answers,
      a status that reports a mode not in force, a watch lost when service and
      target change together, a double close of an informer's channel, leaking
      queue slots, a late answer that is corrupted, notifications dropped across
      namespaces, hosts that are not redirected, a switch of the mode that
      survives the finalizer.

    ** Bounds and fuel

    Integers that can overflow are wrapped to their width ([int32], [int64], and
    the two packed halves of the semaphore's word).  Loops with fuel return
    [None] when it runs out, and the theorems show that it does not: the trigger
    loop advances by at least a minute ([trigger_fuel]), the dialer counts the
    steps of its backoff ([dial_fuel]).  [Try] and the poller run on a list of
    rounds, and [try_terminates] bounds the rounds needed under a deadline;
    [first_request_is_served] bounds those until a service that becomes ready is
    reached.  The parser of JSON has the length of its input as fuel, which is
    enough for every printed value ([jsize_print]); decimal printing has twenty
    digits, more than a 64-bit number ([Itoa_number]); the parser of flags has the
    number of arguments.

    ** What is a parameter

    Third-party code and the parsers of the standard library: [cron.Parse],
    [ParseGroupVersion], JSON decoding of the answers of Prometheus, the copies
    and the JSON of the metadata types ([metav1]), [envconfig], the core and the
    flags of zap, [url.Parse], [ParseFloat], regular
    expressions of the user, label selectors, the backoff of apimachinery, the
    backend behind the proxy.  Hypotheses on them are stated at the theorems and
    hold of the instances in the witnesses.

    ** What is not modelled

    The clients of Kubernetes and the manager of controller-runtime behind their
    calls, the options given to zap and Sentry, the sockets below the servers,
    and the registration of types with a scheme.  In [Cluster] the API server
    applies an update to the current object (a conflict is one of the faults),
    the clock stands still during one operation, and an operation of the
    controller is one step of [op_step]; [Concurrency] takes the finalizer and
    the switches apart into their calls and shows when that makes no difference.
    A workload exists for the informers when its scale does.  JSON texts are
    ASCII in the round trips.  The handlers and services of the end-to-end tests
    are left out.

    ** Left for later

    Interleavings of the other handlers of the controller below the level of whole
    operations, and the shared informers that turn changes of objects into
    events. *)

From stdpp Require Export gmap strings list fin_maps sets relations.
From Stdlib Require Export Ascii ZArith Lia.

(** ** Byte strings *)

(** A Go [string] is a sequence of bytes. *)
Abbreviation gostring := (list ascii).

(** [lit "abc"] is a Go string literal. *)
Definition lit (s : string) : gostring := String.list_ascii_of_string s.
Arguments lit _%_string : simpl never.

(** ** Results *)

(** What a fallible Go call returns: a value with a nil error, or an error. *)
Inductive result (E A : Type) : Type :=
| Ok (a : A)
| Err (e : E).
Arguments Ok {E A} a.
Arguments Err {E A} e.

#[export] Instance result_ret {E} : MRet (result E) := @Ok E.
#[export] Instance result_bind {E} : MBind (result E) :=
  fun A B f m => match m with Ok a => f a | Err e => Err e end.

#[export] Instance result_eq_dec {E A} `{EqDecision E, EqDecision A} :
  EqDecision (result E A).
Proof. solve_decision. Defined.

Definition is_ok {E A} (r : result E A) : bool :=
  match r with Ok _ => true | Err _ => false end.

(** ** Errors *)

(** The errors the code tests for, and the two ways it builds new ones:
    [ErrWrap] is [fmt.Errorf("...%w", err)] (the constant part of the message
    and the wrapped error), [ErrJoin] holds two errors wrapped by one. *)
Inductive error : Type :=
| ErrText (msg : gostring)
| ErrDeadlineExceeded
| ErrCanceled
| ErrNotFound
| ErrNoMatch
| ErrOther (code : nat)
| ErrWrap (msg : gostring) (e : error)
| ErrJoin (e1 e2 : error).

#[export] Instance error_eq_dec : EqDecision error.
Proof. solve_decision. Defined.

(** [errors.Is]/[errors.As] walk the wrapped errors. *)
Fixpoint error_is (p : error -> bool) (e : error) : bool :=
  p e || match e with
         | ErrWrap _ e' => error_is p e'
         | ErrJoin e1 e2 => error_is p e1 || error_is p e2
         | _ => false
         end.

Definition is_deadline (e : error) : bool :=
  match e with ErrDeadlineExceeded => true | _ => false end.
Definition is_not_found (e : error) : bool :=
  match e with ErrNotFound => true | _ => false end.
Definition is_no_match (e : error) : bool :=
  match e with ErrNoMatch => true | _ => false end.

(** ** Machine integers *)

(** Integers are kept in [Z]; these are Go's conversions to a fixed width. *)
Definition uint_of (w : Z) (z : Z) : Z := (z mod 2 ^ w)%Z.
Definition int_of (w : Z) (z : Z) : Z :=
  ((z + 2 ^ (w - 1)) mod 2 ^ w - 2 ^ (w - 1))%Z.

Arguments uint_of : simpl never.
Arguments int_of : simpl never.

Definition uint16 := uint_of 16.
Definition uint64 := uint_of 64.
Definition int32 := int_of 32.
Definition int64 := int_of 64.

Lemma uint_of_bound w z : (0 <= w -> 0 <= uint_of w z < 2 ^ w)%Z.
Proof. intros Hw. apply Z.mod_pos_bound, Z.pow_pos_nonneg; lia. Qed.

Lemma uint_of_id w z : (0 <= z < 2 ^ w -> uint_of w z = z)%Z.
Proof. apply Z.mod_small. Qed.

Lemma int_of_id w z :
  (0 < w -> - 2 ^ (w - 1) <= z < 2 ^ (w - 1) -> int_of w z = z)%Z.
Proof.
  intros Hw Hz. unfold int_of. rewrite Z.mod_small; [lia|].
  replace w with (Z.succ (w - 1)) at 3 by lia.
  rewrite Z.pow_succ_r by lia. lia.
Qed.

(** ** Counting the entries of a finite map *)

Section count.
Context `{Countable K} {A : Type}.
Implicit Types (m : gmap K A) (P Q : A -> bool).

Definition cnt P m : nat := size (filter (fun kv => P kv.2 = true) m).

Lemma cnt_empty P : cnt P (∅ : gmap K A) = 0.
Proof. unfold cnt. by rewrite map_filter_empty, map_size_empty. Qed.

Lemma cnt_insert_new P m i a :
  m !! i = None -> cnt P (<[i:=a]> m) = Nat.b2n (P a) + cnt P m.
Proof.
  intros Hi. unfold cnt. destruct (P a) eqn:Ha; simpl.
  - rewrite map_filter_insert_True by done.
    rewrite map_size_insert_None; [done|]. apply map_lookup_filter_None; auto.
  - rewrite map_filter_insert_False by (simpl; congruence).
    by rewrite delete_id.
Qed.

Lemma cnt_insert P m i a b :
  m !! i = Some a ->
  cnt P (<[i:=b]> m) + Nat.b2n (P a) = cnt P m + Nat.b2n (P b).
Proof.
  intros Hi. rewrite <- (insert_id m i a Hi) at 2.
  rewrite <- (insert_delete_eq m i b), <- (insert_delete_eq m i a).
  rewrite !cnt_insert_new by apply lookup_delete_eq. lia.
Qed.

Lemma cnt_pos P m i a : m !! i = Some a -> P a = true -> 0 < cnt P m.
Proof.
  intros Hi HP. rewrite <- (insert_delete_id m i a Hi).
  rewrite cnt_insert_new by apply lookup_delete_eq. rewrite HP. simpl; lia.
Qed.

Lemma cnt_pos_inv P m : 0 < cnt P m -> exists i a, m !! i = Some a /\ P a = true.
Proof.
  unfold cnt. intros Hpos.
  destruct (map_choose (filter (fun kv => P kv.2 = true) m)) as (i & a & Hia).
  { intros Heq. rewrite Heq, map_size_empty in Hpos. lia. }
  apply map_lookup_filter_Some in Hia. eauto.
Qed.

Lemma cnt_le P Q m : (forall a, P a = true -> Q a = true) -> cnt P m <= cnt Q m.
Proof.
  intros HPQ. unfold cnt. apply map_subseteq_size, map_filter_subseteq_ext.
  intros i a _. apply HPQ.
Qed.

End count.

(** ** Lists up to order *)

#[export] Instance filter_Permutation_Proper {A} (P : A -> bool) : Proper ((≡ₚ) ==> (≡ₚ)) (List.filter P).
Proof.
  intros l1 l2 Hl. induction Hl as [|x l1 l2 _ IH|x y l|l1 l2 l3 _ IH1 _ IH2]; simpl.
  - done.
  - destruct (P x); by rewrite IH.
  - destruct (P x), (P y); try done. constructor.
  - by rewrite IH1.
Qed.
#[export] Instance concat_Permutation_Proper {A} : Proper ((≡ₚ) ==> (≡ₚ)) (@concat A).
Proof.
  intros l1 l2 Hl. induction Hl as [|x l1 l2 _ IH|x y l|l1 l2 l3 _ IH1 _ IH2]; simpl.
  - done.
  - by rewrite IH.
  - by rewrite !app_assoc, (Permutation_app_comm x y).
  - by rewrite IH1.
Qed.
#[export] Instance map_Permutation_Proper {A B} (f : A -> B) : Proper ((≡ₚ) ==> (≡ₚ)) (map f).
Proof. intros l1 l2 Hl. by apply Permutation_map. Qed.

(** ** Tactics and hints *)

Create HintDb elasti discriminated.
#[export] Hint Constructors result : elasti.

(** Split every [if]/[match] scrutinee in the goal, keeping the equations. *)
Ltac split_cases :=
  repeat match goal with
  | |- context [match ?x with _ => _ end] => destruct x eqn:?; simplify_eq/=
  end.

(** Decide every [bool] hypothesis into its proposition. *)
Ltac bool_to_prop :=
  repeat match goal with
  | H : (_ && _)%bool = true |- _ => apply andb_true_iff in H; destruct H
  | H : (_ || _)%bool = false |- _ => apply orb_false_iff in H; destruct H
  | H : negb _ = true |- _ => apply negb_true_iff in H
  | H : negb _ = false |- _ => apply negb_false_iff in H
  | H : bool_decide _ = true |- _ => apply bool_decide_eq_true in H
  | H : bool_decide _ = false |- _ => apply bool_decide_eq_false in H
  | H : (_ <? _)%Z = true |- _ => apply Z.ltb_lt in H
  | H : (_ <? _)%Z = false |- _ => apply Z.ltb_ge in H
  | H : (_ <=? _)%Z = true |- _ => apply Z.leb_le in H
  | H : (_ <=? _)%Z = false |- _ => apply Z.leb_gt in H
  | H : (_ =? _)%Z = true |- _ => apply Z.eqb_eq in H
  | H : (_ =? _)%Z = false |- _ => apply Z.eqb_neq in H
  end.
