(* ===== verification/GoStrings.v ===== *)
(** * Go's [strings] functions

    The functions of Go's [strings] package (and of [net/textproto]) that the
    program calls, on byte strings.  Case mapping and white space are those of
    the ASCII range: bytes above 127 are letters of no case and are not white
    space.  The names the program passes to them are Kubernetes object names,
    HTTP tokens and values of enumerated fields, all ASCII. *)

From S2P Require Import Prelude.

(** ** Bytes *)

Definition code (c : ascii) : N := N_of_ascii c.

Definition in_range (lo hi : N) (c : ascii) : bool :=
  (lo <=? code c)%N && (code c <=? hi)%N.

Definition is_upper : ascii -> bool := in_range 65 90.
Definition is_lower : ascii -> bool := in_range 97 122.
Definition is_digit : ascii -> bool := in_range 48 57.

(** [\t \n \v \f \r] and the blank. *)
Definition is_space (c : ascii) : bool := in_range 9 13 c || (code c =? 32)%N.

Definition lower (c : ascii) : ascii :=
  if is_upper c then ascii_of_N (code c + 32) else c.
Definition upper (c : ascii) : ascii :=
  if is_lower c then ascii_of_N (code c - 32) else c.

(** ** Prefixes and suffixes *)

Definition HasPrefix (s p : gostring) : bool :=
  bool_decide (length p <= length s) && bool_decide (take (length p) s = p).
Definition HasSuffix (s x : gostring) : bool :=
  bool_decide (length x <= length s)
  && bool_decide (drop (length s - length x) s = x).
Definition TrimSuffix (s x : gostring) : gostring :=
  if HasSuffix s x then take (length s - length x) s else s.
Definition TrimPrefix (s p : gostring) : gostring :=
  if HasPrefix s p then drop (length p) s else s.

(** ** Trimming *)

Fixpoint trim_left (p : ascii -> bool) (s : gostring) : gostring :=
  match s with
  | c :: s' => if p c then trim_left p s' else s
  | [] => []
  end.
Definition trim_right (p : ascii -> bool) (s : gostring) : gostring :=
  reverse (trim_left p (reverse s)).

Definition TrimSpace (s : gostring) : gostring :=
  trim_right is_space (trim_left is_space s).
(** [strings.TrimRight(s, cutset)] *)
Definition TrimRight (s cutset : gostring) : gostring :=
  trim_right (fun c => bool_decide (c ∈ cutset)) s.

(** ** Case *)

Definition ToLower (s : gostring) : gostring := map lower s.
Definition ToUpper (s : gostring) : gostring := map upper s.
Definition EqualFold (s t : gostring) : bool :=
  bool_decide (ToLower s = ToLower t).

(** ** Searching, splitting and joining on one byte *)

Fixpoint IndexByte (s : gostring) (c : ascii) : option nat :=
  match s with
  | [] => None
  | d :: s' => if bool_decide (c = d) then Some 0 else S <$> IndexByte s' c
  end.

(** [strings.Split] by a one-byte separator: the pieces between the
    separators, one more than there are separators. *)
Fixpoint Split (s : gostring) (sep : ascii) : list gostring :=
  match s with
  | [] => [[]]
  | c :: s' =>
      if bool_decide (c = sep) then [] :: Split s' sep
      else match Split s' sep with
           | piece :: rest => (c :: piece) :: rest
           | [] => [[c]]
           end
  end.

Fixpoint Join (parts : list gostring) (sep : gostring) : gostring :=
  match parts with
  | [] => []
  | [p] => p
  | p :: rest => p ++ sep ++ Join rest sep
  end.

(** ** Canonical MIME header keys *)

(** The bytes of an HTTP token (RFC 7230). *)
Definition is_token_byte (c : ascii) : bool :=
  is_upper c || is_lower c || is_digit c
  || bool_decide (c ∈ lit "!#$%&'*+-.^_`|~").

Fixpoint canonical_from (up : bool) (s : gostring) : gostring :=
  match s with
  | [] => []
  | c :: s' =>
      (if up then upper c else lower c) :: canonical_from (bool_decide (c = "-"%char)) s'
  end.

(** [http.CanonicalHeaderKey]: the first letter and any letter following a
    hyphen in upper case, the rest in lower case; a key with a byte that is
    not a token byte is left alone. *)
Definition CanonicalHeaderKey (s : gostring) : gostring :=
  if forallb is_token_byte s then canonical_from true s else s.

(** ** Decimal numbers *)

(** [strconv.Itoa]: the digits of a number, the last one first; 20 digits are
    enough for the 64 bits of an [int]. *)
Fixpoint itoa_digits (fuel : nat) (n : Z) (acc : gostring) : gostring :=
  match fuel with
  | O => acc
  | S fuel =>
      let acc := ascii_of_N (Z.to_N (48 + n mod 10)) :: acc in
      if (n <? 10)%Z then acc else itoa_digits fuel (n / 10) acc
  end.
Definition Itoa (n : Z) : gostring :=
  if (n <? 0)%Z then "-"%char :: itoa_digits 20 (- n) [] else itoa_digits 20 n [].

(** ** Lemmas *)

Lemma HasPrefix_spec s p : HasPrefix s p = true <-> exists r, s = p ++ r.
Proof.
  unfold HasPrefix. rewrite andb_true_iff, !bool_decide_eq_true. split.
  - intros [_ Ht]. exists (drop (length p) s). rewrite <- Ht at 1.
    by rewrite take_drop.
  - intros [r ->]. rewrite length_app, take_app_length. split; [lia|done].
Qed.

Lemma HasSuffix_spec s x : HasSuffix s x = true <-> exists r, s = r ++ x.
Proof.
  unfold HasSuffix. rewrite andb_true_iff, !bool_decide_eq_true. split.
  - intros [_ Hd]. exists (take (length s - length x) s).
    transitivity (take (length s - length x) s ++ drop (length s - length x) s);
      [by rewrite take_drop|by rewrite Hd].
  - intros [r ->]. rewrite length_app. split; [lia|].
    replace (length r + length x - length x) with (length r) by lia.
    by rewrite drop_app_length.
Qed.

Lemma HasPrefix_app p r : HasPrefix (p ++ r) p = true.
Proof. apply HasPrefix_spec; eauto. Qed.

Lemma HasPrefix_false s p : HasPrefix s p = false <-> forall r, s <> p ++ r.
Proof.
  rewrite <- not_true_iff_false, HasPrefix_spec. naive_solver.
Qed.

Lemma TrimSuffix_app r x : TrimSuffix (r ++ x) x = r.
Proof.
  unfold TrimSuffix. assert (HasSuffix (r ++ x) x = true) as ->.
  { apply HasSuffix_spec; eauto. }
  rewrite length_app.
  replace (length r + length x - length x) with (length r) by lia.
  by rewrite take_app_length.
Qed.

Lemma trim_left_suffix p s : exists r, s = r ++ trim_left p s /\ Forall (fun c => p c = true) r.
Proof.
  induction s as [|c s (r & Hs & Hr)]; [by exists []|]. simpl.
  destruct (p c) eqn:Hc.
  - exists (c :: r). split; [simpl; congruence|]. by constructor.
  - by exists [].
Qed.

Lemma trim_right_prefix p s :
  exists r, s = trim_right p s ++ r /\ Forall (fun c => p c = true) r.
Proof.
  destruct (trim_left_suffix p (reverse s)) as (r & Hs & Hr).
  exists (reverse r). split; [|by apply Forall_reverse].
  unfold trim_right. rewrite <- reverse_app, <- Hs. by rewrite reverse_involutive.
Qed.

Lemma trim_right_length p s : length (trim_right p s) <= length s.
Proof.
  destruct (trim_right_prefix p s) as (r & Hs & _).
  rewrite Hs at 2. rewrite length_app. lia.
Qed.

Lemma trim_left_head p s c : head (trim_left p s) = Some c -> p c = false.
Proof.
  induction s as [|d s IH]; simpl; [done|]. destruct (p d) eqn:Hd; [done|].
  simpl. congruence.
Qed.

(** The last byte of a trimmed string is not one that is trimmed. *)
Lemma trim_right_last p s c : last (trim_right p s) = Some c -> p c = false.
Proof.
  unfold trim_right. rewrite last_reverse. apply trim_left_head.
Qed.

Lemma trim_left_id p s c : head s = Some c -> p c = false -> trim_left p s = s.
Proof. destruct s as [|d s]; simpl; [done|]. intros [= ->] ->. done. Qed.

Lemma trim_left_none p s : Forall (fun c => p c = false) s -> trim_left p s = s.
Proof. destruct 1 as [|c s Hc _]; simpl; [done|]. by rewrite Hc. Qed.

Lemma trim_right_none p s : Forall (fun c => p c = false) s -> trim_right p s = s.
Proof.
  intros Hs. unfold trim_right. rewrite trim_left_none by by apply Forall_reverse.
  apply reverse_involutive.
Qed.

Lemma TrimSpace_none s : Forall (fun c => is_space c = false) s -> TrimSpace s = s.
Proof.
  intros Hs. unfold TrimSpace. rewrite trim_left_none by done.
  by apply trim_right_none.
Qed.

Lemma Split_not_nil s sep : Split s sep <> [].
Proof.
  destruct s as [|c s]; simpl; [done|]. case_bool_decide; [done|].
  by destruct (Split s sep).
Qed.

(** Joining the pieces with the separator gives the string back. *)
Lemma Join_Split s sep : Join (Split s sep) [sep] = s.
Proof.
  induction s as [|c s IH]; [done|]. simpl.
  pose proof (Split_not_nil s sep) as Hne.
  case_bool_decide as Hc; destruct (Split s sep) as [|p rest] eqn:Hs; try done.
  - subst c. change ([] ++ [sep] ++ Join (p :: rest) [sep] = sep :: s).
    by rewrite IH.
  - destruct rest as [|q rest]; simpl in *; by rewrite IH.
Qed.

(** Every piece is free of the separator. *)
Lemma Split_pieces s sep : Forall (fun p => sep ∉ p) (Split s sep).
Proof.
  induction s as [|c s IH]; simpl.
  - repeat constructor. apply not_elem_of_nil.
  - case_bool_decide as Hc.
    + constructor; [apply not_elem_of_nil|done].
    + destruct (Split s sep) as [|p rest]; inversion IH; subst;
        repeat constructor; try done; set_solver.
Qed.

Lemma Split_cons_sep p s sep :
  sep ∉ p -> Split (p ++ sep :: s) sep = p :: Split s sep.
Proof.
  induction p as [|c p IH]; simpl; intros Hp.
  - by rewrite bool_decide_eq_true_2.
  - rewrite bool_decide_eq_false_2 by set_solver. rewrite IH by set_solver. done.
Qed.

Lemma Split_no_sep p sep : sep ∉ p -> Split p sep = [p].
Proof.
  induction p as [|c p IH]; simpl; intros Hp; [done|].
  rewrite bool_decide_eq_false_2 by set_solver. by rewrite IH by set_solver.
Qed.

Lemma IndexByte_app p s c : c ∉ p -> IndexByte (p ++ c :: s) c = Some (length p).
Proof.
  induction p as [|d p IH]; simpl; intros Hp.
  - by rewrite bool_decide_eq_true_2.
  - rewrite bool_decide_eq_false_2 by set_solver. by rewrite IH by set_solver.
Qed.

Lemma IndexByte_None s c : IndexByte s c = None <-> c ∉ s.
Proof.
  induction s as [|d s IH]; simpl.
  - split; [intros _; apply not_elem_of_nil|done].
  - case_bool_decide as Hd; [subst; set_solver|].
    destruct (IndexByte s c) eqn:E; simpl; set_solver.
Qed.

Lemma ToLower_app s t : ToLower (s ++ t) = ToLower s ++ ToLower t.
Proof. apply map_app. Qed.

Lemma lower_idem c : lower (lower c) = lower c.
Proof. destruct c as [[] [] [] [] [] [] [] []]; vm_compute; reflexivity. Qed.

Lemma ToLower_idem s : ToLower (ToLower s) = ToLower s.
Proof.
  unfold ToLower. rewrite map_map. apply map_ext. apply lower_idem.
Qed.

Lemma EqualFold_spec s t : EqualFold s t = true <-> ToLower s = ToLower t.
Proof. apply bool_decide_eq_true. Qed.

Lemma EqualFold_refl s : EqualFold s s = true.
Proof. by apply EqualFold_spec. Qed.

Lemma trim_right_id p s c : last s = Some c -> p c = false -> trim_right p s = s.
Proof.
  intros Hl Hc. unfold trim_right. rewrite (trim_left_id p (reverse s) c);
    [apply reverse_involutive|by rewrite head_reverse|done].
Qed.

Lemma trim_right_idem p s : trim_right p (trim_right p s) = trim_right p s.
Proof.
  destruct (last (trim_right p s)) as [c|] eqn:Hl.
  - eapply trim_right_id; [exact Hl|]. by apply trim_right_last with s.
  - apply last_None in Hl. by rewrite Hl.
Qed.

Lemma TrimSpace_idem s : TrimSpace (TrimSpace s) = TrimSpace s.
Proof.
  unfold TrimSpace at 1. assert (trim_left is_space (TrimSpace s) = TrimSpace s) as ->.
  { destruct (TrimSpace s) as [|c l] eqn:E; [done|].
    apply trim_left_id with c; [done|]. apply trim_left_head with s.
    destruct (trim_right_prefix is_space (trim_left is_space s)) as (r & Hr & _).
    unfold TrimSpace in E. rewrite E in Hr. by rewrite Hr. }
  unfold TrimSpace. apply trim_right_idem.
Qed.
