(* ===== verification/Sha256.v ===== *)
(** * SHA-256 and hexadecimal encoding

    [crypto/sha256] and [encoding/hex] as far as [pkg/utils] uses them: the
    digest of a byte string (FIPS 180-4, 32-bit words in [Z] with the
    wrap-around written out) and its encoding as 64 lower-case hexadecimal
    characters.  Everything computes, so generated names can be evaluated. *)

From S2P Require Import Prelude GoStrings.
Local Open Scope Z_scope.

(** ** 32-bit words *)

Definition w32 (z : Z) : Z := Z.land z 0xffffffff.
Definition add32 (a b : Z) : Z := w32 (a + b).
Definition rotr (n x : Z) : Z :=
  w32 (Z.lor (Z.shiftr x n) (Z.shiftl x (32 - n))).
Definition not32 (x : Z) : Z := Z.lxor x 0xffffffff.

Definition Ch (x y z : Z) : Z := Z.lxor (Z.land x y) (Z.land (not32 x) z).
Definition Maj (x y z : Z) : Z :=
  Z.lxor (Z.lxor (Z.land x y) (Z.land x z)) (Z.land y z).
Definition Sigma0 (x : Z) : Z := Z.lxor (Z.lxor (rotr 2 x) (rotr 13 x)) (rotr 22 x).
Definition Sigma1 (x : Z) : Z := Z.lxor (Z.lxor (rotr 6 x) (rotr 11 x)) (rotr 25 x).
Definition sigma0 (x : Z) : Z :=
  Z.lxor (Z.lxor (rotr 7 x) (rotr 18 x)) (Z.shiftr x 3).
Definition sigma1 (x : Z) : Z :=
  Z.lxor (Z.lxor (rotr 17 x) (rotr 19 x)) (Z.shiftr x 10).

(** The round constants are the first 32 bits of the fractional parts of the
    cube roots of the first 64 primes, the initial state those of the square
    roots of the first eight: both are computed here. *)
Fixpoint icbrt (bits : nat) (acc n : Z) : Z :=
  match bits with
  | O => acc
  | S b => let t := acc + 2 ^ Z.of_nat b in
           icbrt b (if t * t * t <=? n then t else acc) n
  end.

Definition primes : list Z :=
  List.filter (fun n => forallb (fun d => negb (n mod Z.of_nat d =? 0))
                          (seq 2 (Z.to_nat (Z.sqrt n) - 1)))
    (map Z.of_nat (seq 2 310)).

Definition K256 : list Z :=
  Eval vm_compute in map (fun p => w32 (icbrt 36 0 (p * 2 ^ 96))) primes.

Definition IV256 : list Z :=
  Eval vm_compute in map (fun p => w32 (Z.sqrt (p * 2 ^ 64))) (take 8 primes).

(** ** The compression function *)

Record hstate := HState { ha : Z; hb : Z; hc : Z; hd : Z; he : Z; hf : Z; hg : Z; hh : Z }.

Definition H0 : hstate :=
  let iv i := nth i IV256 0 in
  HState (iv 0%nat) (iv 1%nat) (iv 2%nat) (iv 3%nat) (iv 4%nat) (iv 5%nat) (iv 6%nat) (iv 7%nat).

(** [ws] holds the schedule so far, latest word first. *)
Fixpoint schedule (n : nat) (ws : list Z) : list Z :=
  match n with
  | O => reverse ws
  | S n' =>
      let w := add32 (add32 (sigma1 (nth 1 ws 0)) (nth 6 ws 0))
                     (add32 (sigma0 (nth 14 ws 0)) (nth 15 ws 0)) in
      schedule n' (w :: ws)
  end.

Definition round (s : hstate) (kw : Z * Z) : hstate :=
  let t1 := add32 (add32 (hh s) (Sigma1 (he s)))
                  (add32 (Ch (he s) (hf s) (hg s)) (add32 kw.1 kw.2)) in
  let t2 := add32 (Sigma0 (ha s)) (Maj (ha s) (hb s) (hc s)) in
  HState (add32 t1 t2) (ha s) (hb s) (hc s) (add32 (hd s) t1) (he s) (hf s) (hg s).

Definition compress (s : hstate) (block : list Z) : hstate :=
  let r := fold_left round (zip K256 (schedule 48 (reverse block))) s in
  HState (add32 (ha s) (ha r)) (add32 (hb s) (hb r)) (add32 (hc s) (hc r))
         (add32 (hd s) (hd r)) (add32 (he s) (he r)) (add32 (hf s) (hf r))
         (add32 (hg s) (hg r)) (add32 (hh s) (hh r)).

(** ** Padding and blocks *)

Definition be_bytes (n : nat) (z : Z) : list Z :=
  map (fun i => Z.land (Z.shiftr z (8 * Z.of_nat i)) 255) (reverse (seq 0 n)).

Arguments be_bytes : simpl never.

Definition pad (m : list Z) : list Z :=
  let l := Z.of_nat (length m) in
  m ++ [128] ++ repeat 0 (Z.to_nat ((55 - l) mod 64)) ++ be_bytes 8 (8 * l).

Fixpoint words (m : list Z) : list Z :=
  match m with
  | a :: b :: c :: d :: m' =>
      Z.lor (Z.shiftl a 24) (Z.lor (Z.shiftl b 16) (Z.lor (Z.shiftl c 8) d)) :: words m'
  | _ => []
  end.

Fixpoint run_blocks (n : nat) (s : hstate) (ws : list Z) : hstate :=
  match n with
  | O => s
  | S n' => run_blocks n' (compress s (take 16 ws)) (drop 16 ws)
  end.

(** The 32 bytes of the digest. *)
Definition Sum256 (m : gostring) : list Z :=
  let ws := words (pad (map (fun c => Z.of_N (code c)) m)) in
  let s := run_blocks (length ws / 16) H0 ws in
  concat (map (be_bytes 4) [ha s; hb s; hc s; hd s; he s; hf s; hg s; hh s]).

(** ** [hex.EncodeToString] *)

Definition hex_digits : gostring := lit "0123456789abcdef".
Definition hex_digit (z : Z) : ascii := nth (Z.to_nat (Z.land z 15)) hex_digits "0"%char.
Definition EncodeToString (bs : list Z) : gostring :=
  concat (map (fun b => [hex_digit (Z.shiftr b 4); hex_digit b]) bs).

(** ** Lemmas *)

Lemma be_bytes_length n z : length (be_bytes n z) = n.
Proof. unfold be_bytes. by rewrite length_map, length_reverse, length_seq. Qed.

Lemma Sum256_length m : length (Sum256 m) = 32%nat.
Proof.
  unfold Sum256. cbv zeta. generalize (words (pad (map (fun c => Z.of_N (code c)) m))).
  intros ws. destruct (run_blocks (length ws / 16) H0 ws). cbn [map concat ha hb hc hd he hf hg hh].
  rewrite !length_app, !be_bytes_length. reflexivity.
Qed.

Lemma EncodeToString_length bs : length (EncodeToString bs) = (2 * length bs)%nat.
Proof. unfold EncodeToString. induction bs as [|b bs IH]; simpl; [done|]. rewrite IH. lia. Qed.

Lemma hex_digit_in z : hex_digit z ∈ hex_digits.
Proof.
  unfold hex_digit. apply list_elem_of_In, nth_In.
  change (length hex_digits) with 16%nat.
  change 15 with (Z.ones 4). rewrite Z.land_ones by lia.
  pose proof (Z.mod_pos_bound z (2 ^ 4)). lia.
Qed.

Lemma EncodeToString_hex bs : Forall (fun c => c ∈ hex_digits) (EncodeToString bs).
Proof.
  unfold EncodeToString. induction bs as [|b bs IH]; simpl; [constructor|].
  repeat (constructor; [apply hex_digit_in|]). exact IH.
Qed.

(** The digest of ["abc"] (FIPS 180-4, appendix B.1). *)
Example Sum256_abc :
  EncodeToString (Sum256 (lit "abc"))
  = lit "ba7816bf8f01cfea414140de5dae2223b00361a396177a9cb410ff61f20015ad".
Proof. vm_compute. reflexivity. Qed.
