(* ===== verification/Names.v ===== *)
(** * Generated object names ([pkg/utils/utils.go])

    The operator derives the names of the private service and of the
    EndpointSlice that points to the resolver from the name of the public
    service; the resolver derives the same private name when it proxies. *)

From S2P Require Import Prelude GoStrings Sha256.

(** ** Constants *)

Definition prefix : gostring := lit "elasti-".
Definition privateServicePostfix : gostring := lit "-pvt".
Definition endpointSlicePostfix : gostring := lit "-endpointslice-to-resolver".
Definition hashLength : nat := 10.
Definition maxServiceNameLength : Z := 63.
Definition maxEndpointSliceNameLength : Z := 253.

(** ** Operations *)

(** The hash part: the first [hashLength] hexadecimal characters of the
    SHA-256 digest of the whole name. *)
Definition name_hash (name : gostring) : gostring :=
  take hashLength (EncodeToString (Sum256 name)).

(** The (possibly shortened) source name kept in a generated name. *)
Definition name_segment (name postfix : gostring) (maxLength : Z) : gostring :=
  let overhead :=
    Z.of_nat (length prefix + length postfix + 1 + hashLength) in
  let maxNameLength := Z.to_nat (Z.max (maxLength - overhead) 0) in
  if bool_decide (maxNameLength < length name)
  then TrimRight (take maxNameLength name) (lit "-")
  else name.

Definition buildName (name postfix : gostring) (maxLength : Z) : gostring :=
  prefix ++ name_segment name postfix maxLength ++ postfix ++ lit "-" ++ name_hash name.

Definition GetPrivateServiceName (publicSVCName : gostring) : gostring :=
  buildName publicSVCName privateServicePostfix maxServiceNameLength.

Definition GetEndpointSliceToResolverName (serviceName : gostring) : gostring :=
  buildName serviceName endpointSlicePostfix maxEndpointSliceNameLength.

(** ** Well-formed names *)

(** The bytes of an RFC 1035 label. *)
Definition label_byte (c : ascii) : bool :=
  is_lower c || is_digit c || bool_decide (c = "-"%char).

(** An RFC 1035 label of at most [n] bytes: what the API server accepts as the
    name of a Service for [n = 63]. *)
Definition dns_label (n : nat) (s : gostring) : bool :=
  forallb label_byte s
  && bool_decide (length s <= n)
  && match head s with Some c => is_lower c | None => false end
  && match last s with Some c => is_lower c || is_digit c | None => false end.

(** ** Lemmas *)

Lemma name_hash_length name : length (name_hash name) = hashLength.
Proof.
  unfold name_hash. rewrite length_take, EncodeToString_length, Sum256_length.
  reflexivity.
Qed.

Lemma name_hash_hex name : Forall (fun c => c ∈ hex_digits) (name_hash name).
Proof. apply Forall_take, EncodeToString_hex. Qed.

Lemma name_segment_length name postfix maxLength :
  (Z.of_nat (length (name_segment name postfix maxLength))
   <= Z.max (maxLength - Z.of_nat (length prefix + length postfix + 1 + hashLength)) 0)%Z.
Proof.
  unfold name_segment. case_bool_decide as Hlen; [|lia].
  unfold TrimRight.
  match goal with |- context [trim_right ?p ?s] =>
    pose proof (trim_right_length p s) as Ht end.
  rewrite length_take in Ht. lia.
Qed.

Lemma buildName_length name postfix maxLength :
  length (buildName name postfix maxLength)
  = length prefix + length (name_segment name postfix maxLength)
    + length postfix + 1 + hashLength.
Proof.
  unfold buildName. rewrite !length_app, name_hash_length.
  change (length (lit "-")) with 1. lia.
Qed.

Lemma name_segment_short name postfix maxLength :
  (Z.of_nat (length name + length prefix + length postfix + 1 + hashLength) <= maxLength)%Z ->
  name_segment name postfix maxLength = name.
Proof.
  intros Hlen. unfold name_segment. rewrite bool_decide_eq_false_2; [done|]. lia.
Qed.

Lemma name_segment_bytes (P : ascii -> Prop) name postfix maxLength :
  Forall P name -> Forall P (name_segment name postfix maxLength).
Proof.
  intros HP. unfold name_segment. case_bool_decide; [|done].
  unfold TrimRight.
  match goal with |- Forall _ (trim_right ?p ?s) =>
    destruct (trim_right_prefix p s) as (r & Hs & _) end.
  assert (Forall P (take (Z.to_nat (Z.max (maxLength
    - Z.of_nat (length prefix + length postfix + 1 + hashLength)) 0)) name)) as Ht
    by by apply Forall_take.
  rewrite Hs in Ht. by apply Forall_app in Ht as [? _].
Qed.

Lemma hex_digit_label c : c ∈ hex_digits -> is_lower c || is_digit c = true.
Proof.
  intros Hc. assert (forallb (fun c => is_lower c || is_digit c) hex_digits = true) as Hall
    by (vm_compute; reflexivity).
  rewrite forallb_forall in Hall. by apply Hall, list_elem_of_In.
Qed.

Lemma hex_label_byte c : c ∈ hex_digits -> label_byte c = true.
Proof. intros Hc%hex_digit_label. unfold label_byte. by rewrite Hc. Qed.

Lemma label_bytes_forall s : forallb label_byte s = true <-> Forall (fun c => label_byte c = true) s.
Proof. rewrite forallb_forall, Forall_forall. by setoid_rewrite list_elem_of_In. Qed.

Lemma buildName_last name postfix maxLength c :
  last (buildName name postfix maxLength) = Some c -> c ∈ hex_digits.
Proof.
  pose proof (name_hash_length name) as Hlen. pose proof (name_hash_hex name) as Hhex.
  unfold buildName. rewrite !app_assoc.
  destruct (name_hash name) as [|a h] eqn:E using rev_ind; [done|].
  rewrite app_assoc, last_snoc. intros [= <-].
  apply Forall_app in Hhex as [_ Hhex]. by inversion Hhex.
Qed.

Lemma buildName_label name postfix maxLength n :
  forallb label_byte name = true -> forallb label_byte postfix = true ->
  length (buildName name postfix maxLength) <= n ->
  dns_label n (buildName name postfix maxLength) = true.
Proof.
  intros Hname Hpost Hlen. unfold dns_label.
  rewrite (bool_decide_eq_true_2 _ Hlen).
  assert (forallb label_byte (buildName name postfix maxLength) = true) as ->.
  { apply label_bytes_forall in Hname, Hpost. apply label_bytes_forall. unfold buildName.
    rewrite !Forall_app. split_and!.
    - apply label_bytes_forall. vm_compute. reflexivity.
    - by apply name_segment_bytes.
    - done.
    - apply label_bytes_forall. vm_compute. reflexivity.
    - eapply Forall_impl; [apply name_hash_hex|]. intros c. apply hex_label_byte. }
  destruct (last (buildName name postfix maxLength)) as [c|] eqn:Hlast.
  - apply buildName_last, hex_digit_label in Hlast. by rewrite Hlast.
  - apply last_None, (f_equal length) in Hlast. rewrite buildName_length in Hlast.
    simpl in Hlast. lia.
Qed.

Lemma buildName_segment_inj n1 n2 postfix maxLength :
  buildName n1 postfix maxLength = buildName n2 postfix maxLength ->
  name_segment n1 postfix maxLength = name_segment n2 postfix maxLength
  /\ name_hash n1 = name_hash n2.
Proof.
  unfold buildName. intros Heq%app_inv_head.
  apply app_inj_2 in Heq as [Hseg Htail].
  - split; [done|]. by apply app_inv_head, app_inv_head in Htail.
  - by rewrite !length_app, !name_hash_length.
Qed.

(** ** Properties *)

(** For every public service name, the private service name fits the
    63-byte limit of Service names and the EndpointSlice name fits the
    253-byte limit of EndpointSlice names. *)
Theorem generated_names_fit name :
  (Z.of_nat (length (GetPrivateServiceName name)) <= maxServiceNameLength)%Z
  /\ (Z.of_nat (length (GetEndpointSliceToResolverName name)) <= maxEndpointSliceNameLength)%Z.
Proof.
  unfold GetPrivateServiceName, GetEndpointSliceToResolverName.
  rewrite !buildName_length.
  pose proof (name_segment_length name privateServicePostfix maxServiceNameLength) as H1.
  pose proof (name_segment_length name endpointSlicePostfix maxEndpointSliceNameLength) as H2.
  revert H1 H2. unfold maxServiceNameLength, maxEndpointSliceNameLength.
  change (length prefix) with 7. change (length privateServicePostfix) with 4.
  change (length endpointSlicePostfix) with 26. change hashLength with 10. lia.
Qed.

(** From a public service name made of label bytes, the private service
    name is an RFC 1035 label the API server accepts: at most 63 bytes, label
    bytes only, first byte a letter, last byte a letter or digit. *)
Theorem private_name_is_label name (Hname : forallb label_byte name = true) :
  dns_label 63 (GetPrivateServiceName name) = true.
Proof.
  apply buildName_label; [done|vm_compute; reflexivity|].
  rewrite buildName_length.
  pose proof (name_segment_length name privateServicePostfix maxServiceNameLength) as H1.
  revert H1. unfold maxServiceNameLength.
  change (length prefix) with 7. change (length privateServicePostfix) with 4.
  change hashLength with 10. lia.
Qed.

Lemma private_name_is_label_witness :
  dns_label 63 (GetPrivateServiceName
    (lit "my-very-long-application-backend-service-v2-with-extra-suffix")) = true.
Proof. apply private_name_is_label. vm_compute. reflexivity. Defined.

(** Two public services whose private names coincide have the same hash
    and the same kept segment; up to 41 bytes the name is kept whole, so
    distinct services get distinct private names, different from their own. *)
Theorem private_name_injective n1 n2
    (Heq : GetPrivateServiceName n1 = GetPrivateServiceName n2) :
  name_hash n1 = name_hash n2
  /\ (length n1 <= 41 -> length n2 <= 41 -> n1 = n2)
  /\ (length n1 <= 41 -> GetPrivateServiceName n1 <> n1).
Proof.
  apply buildName_segment_inj in Heq as [Hseg Hhash]. split; [done|].
  assert (forall n, length n <= 41 ->
    name_segment n privateServicePostfix maxServiceNameLength = n) as Hshort.
  { intros n Hn. apply name_segment_short. unfold maxServiceNameLength.
    change (length prefix) with 7. change (length privateServicePostfix) with 4.
    change hashLength with 10. lia. }
  split.
  - intros H1 H2. rewrite !Hshort in Hseg by done. done.
  - intros H1 Hfix. apply (f_equal length) in Hfix.
    unfold GetPrivateServiceName in Hfix. rewrite buildName_length, Hshort in Hfix by done.
    revert Hfix. change (length prefix) with 7. lia.
Qed.

Lemma private_name_injective_witness :
  name_hash (lit "svc") = name_hash (lit "svc")
  /\ (length (lit "svc") <= 41 -> length (lit "svc") <= 41 -> lit "svc" = lit "svc")
  /\ (length (lit "svc") <= 41 -> GetPrivateServiceName (lit "svc") <> lit "svc").
Proof. apply private_name_injective. reflexivity. Defined.

(** The value the unit test of the host manager expects. *)
Example private_name_service :
  GetPrivateServiceName (lit "service") = lit "elasti-service-pvt-9df6b026a8".
Proof. vm_compute. reflexivity. Qed.
