(* ===== verification/HostRegexp.v ===== *)
(** * Matching service URLs ([hostManager.go], [extractNamespaceAndService])

    The sixteen regular expressions of the host manager use literals, the
    group [([a-zA-Z0-9-]+)] and [\d+] only.  Go's [regexp] returns the
    leftmost match a backtracking engine would find first, so the matcher
    below backtracks: a repetition tries the longest run first, and the search
    tries the start positions from the left. *)

From S2P Require Import Prelude GoStrings.

(** ** The matcher *)

Inductive atom : Type :=
| Lit (c : ascii)
| Label                     (* ([a-zA-Z0-9-]+), captured *)
| Digits.                   (* \d+ *)

Definition regex := list atom.

(** [[a-zA-Z0-9-]] *)
Definition is_label (c : ascii) : bool :=
  is_lower c || is_upper c || is_digit c || bool_decide (c = "-"%char).

Fixpoint run (p : ascii -> bool) (s : gostring) : nat :=
  match s with
  | c :: s' => if p c then S (run p s') else 0
  | [] => 0
  end.

(** Try [k] on the splits of [s] after [n], [n - 1], ..., [1] bytes. *)
Fixpoint try_splits (k : gostring -> gostring -> option (list gostring))
    (n : nat) (s : gostring) : option (list gostring) :=
  match n with
  | O => None
  | S n' => match k (take n s) (drop n s) with
            | Some caps => Some caps
            | None => try_splits k n' s
            end
  end.

(** A match of the expression at the start of [s]: the captured groups. *)
Fixpoint match_here (p : regex) (s : gostring) : option (list gostring) :=
  match p with
  | [] => Some []
  | Lit c :: p' =>
      match s with
      | d :: s' => if bool_decide (c = d) then match_here p' s' else None
      | [] => None
      end
  | Label :: p' =>
      try_splits (fun w rest => cons w <$> match_here p' rest) (run is_label s) s
  | Digits :: p' =>
      try_splits (fun _ rest => match_here p' rest) (run is_digit s) s
  end.

(** [FindStringSubmatch], without the whole match. *)
Fixpoint find (p : regex) (s : gostring) : option (list gostring) :=
  match match_here p s with
  | Some caps => Some caps
  | None => match s with [] => None | _ :: s' => find p s' end
  end.

Definition text (s : string) : regex := map Lit (lit s).

Definition patterns : list regex :=
  let two := [Label; Lit "."%char; Label] in
  let port := text ":" ++ [Digits] in
  [ text "http://" ++ two ++ text ".svc.cluster.local" ++ port ++ text "/*";
    two ++ text ".svc.cluster.local" ++ port ++ text "/*";
    text "http://" ++ two ++ text ".svc.cluster.local" ++ port;
    two ++ text ".svc.cluster.local" ++ port;
    text "http://" ++ two ++ text ".svc.cluster.local";
    two ++ text ".svc.cluster.local";
    text "http://" ++ two ++ text ".svc";
    two ++ text ".svc";
    text "http://" ++ two;
    two;
    text "http://" ++ [Label] ++ text ".svc.cluster.local";
    [Label] ++ text ".svc.cluster.local";
    text "http://" ++ [Label] ++ text ".svc";
    [Label] ++ text ".svc";
    text "http://" ++ [Label];
    [Label] ].

(** ** Lemmas on the matcher *)

Definition label_word (w : gostring) : Prop := w <> [] /\ Forall (fun c => is_label c = true) w.

#[export] Instance label_word_dec w : Decision (label_word w).
Proof. unfold label_word. apply _. Defined.

Definition not_label_head (s : gostring) : Prop :=
  match s with c :: _ => is_label c = false | [] => True end.

#[export] Instance not_label_head_dec s : Decision (not_label_head s).
Proof. destruct s; simpl; apply _. Defined.

Lemma dot_not_label : is_label "."%char = false.
Proof. reflexivity. Qed.

Lemma label_word_no_dot w : label_word w -> "."%char ∉ w.
Proof.
  intros [_ Hw] Hin. rewrite Forall_forall in Hw. apply Hw in Hin. discriminate.
Qed.

Lemma label_word_no_slash w : label_word w -> "/"%char ∉ w.
Proof.
  intros [_ Hw] Hin. rewrite Forall_forall in Hw. apply Hw in Hin. discriminate.
Qed.

Lemma run_app w s :
  Forall (fun c => is_label c = true) w -> not_label_head s ->
  run is_label (w ++ s) = length w.
Proof.
  induction 1 as [|c w Hc Hw IH]; simpl; intros Hs.
  - destruct s; simpl in *; [done|]. by rewrite Hs.
  - by rewrite Hc, IH.
Qed.

Lemma try_splits_None k n s :
  (forall i, 0 < i <= n -> k (take i s) (drop i s) = None) -> try_splits k n s = None.
Proof.
  induction n as [|n IH]; intros Hk; [done|]. simpl.
  rewrite Hk by lia. apply IH. intros i Hi. apply Hk. lia.
Qed.

(** A literal that follows a group must be the byte after the whole run. *)
Lemma match_group w c p s :
  label_word w -> not_label_head s -> is_label c = false ->
  match_here (Label :: Lit c :: p) (w ++ s)
  = match s with
    | d :: s' => if bool_decide (c = d) then cons w <$> match_here p s' else None
    | [] => None
    end.
Proof.
  intros [Hne Hw] Hs Hc. cbn [match_here].
  rewrite run_app by done.
  destruct (length w) as [|n] eqn:Hlen; [by destruct w|]. cbn [try_splits].
  rewrite <- Hlen, take_app_length, drop_app_length.
  assert (try_splits (fun w0 rest => cons w0 <$>
      match rest with
      | [] => None
      | d :: s' => if bool_decide (c = d) then match_here p s' else None
      end) n (w ++ s) = None) as Hrest.
  { apply try_splits_None. intros i Hi.
    rewrite drop_app_le by lia.
    destruct (drop i w) as [|d w'] eqn:Hd.
    { apply (f_equal length) in Hd. rewrite length_drop in Hd. simpl in Hd. lia. }
    simpl. rewrite bool_decide_eq_false_2; [done|]. intros <-.
    assert (is_label c = true); [|congruence].
    rewrite Forall_forall in Hw. apply Hw.
    rewrite <- (take_drop i w), Hd. set_solver. }
  destruct s as [|d s']; cbn; [exact Hrest|].
  case_bool_decide; [|exact Hrest].
  destruct (match_here p s'); [done|exact Hrest].
Qed.

(** Searching for a group followed by a dot, in a string that starts with a
    word and a dot: either the match is at the start, or it is after the dot. *)
Lemma find_group w p s :
  label_word w ->
  find (Label :: Lit "."%char :: p) (w ++ "."%char :: s)
  = match match_here p s with
    | Some caps => Some (w :: caps)
    | None => find (Label :: Lit "."%char :: p) s
    end.
Proof.
  intros [Hne Hw].
  assert (forall w', label_word w' ->
    match_here (Label :: Lit "."%char :: p) (w' ++ "."%char :: s)
    = cons w' <$> match_here p s) as Hm.
  { intros w' Hw'. rewrite match_group by done. by rewrite bool_decide_eq_true_2. }
  destruct (match_here p s) as [caps|] eqn:Hp.
  - assert (match_here (Label :: Lit "."%char :: p) (w ++ "."%char :: s) = Some (w :: caps)) as Hw0.
    { rewrite Hm by done. reflexivity. }
    destruct w as [|c w]; [done|]. simpl in Hw0 |- *. by rewrite Hw0.
  - clear Hne. induction Hw as [|c w Hc Hw IH].
    + reflexivity.
    + assert (match_here (Label :: Lit "."%char :: p) ((c :: w) ++ "."%char :: s) = None) as Hw0.
      { rewrite Hm; [reflexivity|]. split; [done|]. by constructor. }
      simpl in Hw0, IH |- *. rewrite Hw0. exact IH.
Qed.

(** An expression with a literal dot matches no string without one. *)
Lemma match_no_dot p s :
  Lit "."%char ∈ p -> "."%char ∉ s -> match_here p s = None.
Proof.
  revert s. induction p as [|a p IH]; intros s Hp Hs; [by apply not_elem_of_nil in Hp|].
  assert (forall n, "."%char ∉ drop n s) as Hd.
  { intros n Hin. apply Hs. rewrite <- (take_drop n s). set_solver. }
  destruct a as [c| |]; cbn.
  - destruct s as [|d s]; [done|]. case_bool_decide as Hcd; [|done].
    apply IH; [|set_solver]. subst d.
    apply elem_of_cons in Hp as [[= <-]|]; [set_solver|done].
  - apply try_splits_None. intros i _. rewrite IH; [done| |apply Hd]. set_solver.
  - apply try_splits_None. intros i _. apply IH; [|apply Hd]. set_solver.
Qed.

Lemma find_no_dot p s : Lit "."%char ∈ p -> "."%char ∉ s -> find p s = None.
Proof.
  intros Hp. induction s as [|c s IH]; simpl; intros Hs.
  - by rewrite match_no_dot.
  - rewrite match_no_dot by done. apply IH. set_solver.
Qed.

(** No expression that starts with [http:] matches inside a word that a dot ends. *)
Lemma match_http w p s :
  Forall (fun c => is_label c = true) w ->
  match_here (text "http:" ++ p) (w ++ "."%char :: s) = None.
Proof.
  intros Hw.
  assert (forall c, is_label c = true -> bool_decide (":"%char = c) = false) as Hcol.
  { intros c Hc. rewrite bool_decide_eq_false_2; [done|]. intros <-. discriminate. }
  change (text "http:") with
    [Lit "h"%char; Lit "t"%char; Lit "t"%char; Lit "p"%char; Lit ":"%char].
  cbn [app match_here].
  do 4 (destruct Hw as [|? ? ? Hw]; cbn [app]; [reflexivity|];
        case_bool_decide; [|reflexivity]).
  destruct Hw as [|? ? ? Hw]; cbn [app]; [reflexivity|]. by rewrite Hcol.
Qed.

Lemma find_http_word w p s :
  Forall (fun c => is_label c = true) w ->
  find (text "http:" ++ p) (w ++ "."%char :: s) = find (text "http:" ++ p) s.
Proof.
  induction 1 as [|c w Hc Hw IH].
  - reflexivity.
  - pose proof (match_http (c :: w) p s) as Hm. simpl app in Hm |- *.
    cbn [find]. rewrite Hm by by constructor. exact IH.
Qed.

Lemma find_http_None w1 w2 p s :
  label_word w1 -> label_word w2 -> "."%char ∉ s -> Lit "."%char ∈ p ->
  find (text "http:" ++ p) (w1 ++ "."%char :: w2 ++ s) = None.
Proof.
  intros [_ H1] H2 Hs Hp. rewrite find_http_word by done.
  apply find_no_dot; [set_solver|].
  apply label_word_no_dot in H2. set_solver.
Qed.

(** ** What the expressions can match *)

(** A dot with a label byte on each side. *)
Definition dotted (s : gostring) : Prop :=
  exists pre a b post, s = pre ++ a :: "."%char :: b :: post
    /\ is_label a = true /\ is_label b = true.

Lemma dotted_app pre s : dotted s -> dotted (pre ++ s).
Proof.
  intros (pre' & a & b & post & -> & ? & ?).
  exists (pre ++ pre'), a, b, post. by rewrite <- app_assoc.
Qed.

Lemma dotted_drop n s : dotted (drop n s) -> dotted s.
Proof. intros H. rewrite <- (take_drop n s). by apply dotted_app. Qed.

Lemma try_splits_Some k n s caps :
  try_splits k n s = Some caps ->
  exists i, 0 < i <= n /\ k (take i s) (drop i s) = Some caps.
Proof.
  induction n as [|n IH]; simpl; [done|].
  destruct (k (take (S n) s) (drop (S n) s)) as [caps'|] eqn:E.
  - intros [= <-]. exists (S n). split; [lia|done].
  - intros (i & Hi & Hk)%IH. exists i. split; [lia|done].
Qed.

Lemma run_take p s i : i <= run p s -> Forall (fun c => p c = true) (take i s).
Proof.
  revert i. induction s as [|c s IH]; intros [|i]; simpl; try constructor.
  - destruct (p c) eqn:E; [done|]. lia.
  - apply IH. destruct (p c); lia.
Qed.

Definition label_start (q : regex) : bool :=
  match q with Label :: _ => true | Lit c :: _ => is_label c | _ => false end.

Lemma match_label_start q s caps :
  label_start q = true -> match_here q s = Some caps ->
  exists b s', s = b :: s' /\ is_label b = true.
Proof.
  destruct q as [|[c| |] q]; try done; simpl.
  - intros Hc. destruct s as [|d s]; [done|]. case_bool_decide; [|done]. subst. eauto.
  - intros _ (i & Hi & _)%try_splits_Some.
    destruct s as [|d s]; simpl in *; [lia|]. destruct (is_label d) eqn:E; [eauto|lia].
Qed.

Lemma match_dotted q1 q2 s caps :
  label_start q2 = true ->
  match_here (q1 ++ Label :: Lit "."%char :: q2) s = Some caps -> dotted s.
Proof.
  intros Hq2. revert s caps. induction q1 as [|[c| |] q1 IH]; intros s caps; cbn.
  - intros (i & Hi & Hm)%try_splits_Some.
    destruct (drop i s) as [|d s'] eqn:Hd; [done|]. case_bool_decide; [subst d|done].
    destruct (match_here q2 s') eqn:Hm2; [|done].
    destruct (match_label_start _ _ _ Hq2 Hm2) as (b & s'' & -> & Hb).
    pose proof (run_take is_label s i ltac:(lia)) as Hrun.
    rewrite <- (take_drop i s), Hd.
    destruct (take i s) as [|a w _] eqn:Ht using rev_ind.
    { apply (f_equal length) in Ht, Hd. rewrite length_take in Ht.
      rewrite length_drop in Hd. simpl in *. lia. }
    apply Forall_app in Hrun as [_ Hrun]. inversion Hrun; subst.
    exists w, a, b, s''. by rewrite <- app_assoc.
  - destruct s as [|d s]; [done|]. case_bool_decide; [|done].
    intros Hm%IH. by apply (dotted_app [d]).
  - intros (i & Hi & Hm)%try_splits_Some.
    destruct (match_here _ (drop i s)) eqn:E; [|done]. by eapply dotted_drop, IH.
  - intros (i & Hi & Hm)%try_splits_Some. by eapply dotted_drop, IH.
Qed.

Lemma find_Some p s caps :
  find p s = Some caps -> exists pre s', s = pre ++ s' /\ match_here p s' = Some caps.
Proof.
  induction s as [|c s IH]; simpl; destruct (match_here p _) eqn:E.
  - intros [= <-]. by exists [], [].
  - done.
  - intros [= <-]. by exists [], (c :: s).
  - intros (pre & s' & -> & Hm)%IH. by exists (c :: pre), s'.
Qed.

Lemma find_match p pre s : is_Some (match_here p s) -> is_Some (find p (pre ++ s)).
Proof.
  intros Hm. induction pre as [|c pre IH]; simpl.
  - destruct s; simpl; destruct (match_here p _); try done; by destruct Hm.
  - by destruct (match_here p (c :: pre ++ s)).
Qed.

Lemma find_dotted q1 q2 s caps :
  label_start q2 = true ->
  find (q1 ++ Label :: Lit "."%char :: q2) s = Some caps -> dotted s.
Proof.
  intros Hq (pre & s' & -> & Hm)%find_Some. apply dotted_app.
  by eapply match_dotted.
Qed.

Lemma find_two_dotted s :
  dotted s -> is_Some (find [Label; Lit "."%char; Label] s).
Proof.
  intros (pre & a & b & post & -> & Ha & Hb). apply find_match.
  change (a :: "."%char :: b :: post) with ([a] ++ "."%char :: b :: post).
  rewrite match_group; [|split; [done|by repeat constructor]|done|done].
  rewrite bool_decide_eq_true_2 by done. simpl. rewrite Hb. simpl. eauto.
Qed.

(** A match captures one string per group. *)
Definition groups (p : regex) : nat :=
  length (List.filter (fun a => match a with Label => true | _ => false end) p).

Lemma match_groups p s caps : match_here p s = Some caps -> length caps = groups p.
Proof.
  revert s caps. induction p as [|[c| |] p IH]; intros s caps; cbn.
  - by intros [= <-].
  - destruct s as [|d s]; [done|]. case_bool_decide; [|done]. apply IH.
  - intros (i & _ & Hm)%try_splits_Some.
    destruct (match_here p (drop i s)) eqn:E; [|done]. simplify_eq/=.
    f_equal. by eapply IH.
  - intros (i & _ & Hm)%try_splits_Some. by eapply IH.
Qed.

Lemma find_groups p s caps : find p s = Some caps -> length caps = groups p.
Proof. intros (pre & s' & -> & Hm)%find_Some. by eapply match_groups. Qed.

(** The group alone matches as soon as there is a label byte. *)
Lemma find_label s : is_Some (find [Label] s) <-> exists c, c ∈ s /\ is_label c = true.
Proof.
  split.
  - intros [caps (pre & s' & -> & Hm)%find_Some].
    destruct (match_label_start [Label] s' caps) as (b & s'' & -> & Hb); [done..|].
    exists b. set_solver.
  - intros (c & Hin & Hc). apply list_elem_of_split in Hin as (l1 & l2 & ->).
    apply find_match. simpl. rewrite Hc. simpl. eauto.
Qed.
