(* ===== verification/HostManager.v ===== *)
(** * The host manager ([resolver/internal/hostmanager/hostManager.go])

    Maps the host of an incoming request to the service behind it and to the
    private service the resolver proxies to, and switches the traffic of a
    host off and on again.

    [hosts] models the [sync.Map] of [*messages.Host] together with the host
    structs it points to: a struct is reached through its key only, and no
    operation replaces the pointer stored under a key.  [timers] are the
    callbacks registered with [time.AfterFunc] that have not run.  Logging and
    Prometheus counters are not modelled. *)

From S2P Require Import Prelude GoStrings Sha256 Names HostRegexp.

(** ** Data *)

(** [messages.Host] *)
Record Host := mkHost {
  IncomingHost : gostring;
  Namespace : gostring;
  SourceService : gostring;
  TargetService : gostring;
  SourceHost : gostring;
  TargetHost : gostring;
  TrafficAllowed : bool;
  TrafficDisableScheduled : bool
}.

Definition emptyHost : Host := mkHost [] [] [] [] [] [] false false.

Definition set_allowed (b : bool) (h : Host) : Host :=
  mkHost (IncomingHost h) (Namespace h) (SourceService h) (TargetService h)
    (SourceHost h) (TargetHost h) b (TrafficDisableScheduled h).
Definition set_scheduled (b : bool) (h : Host) : Host :=
  mkHost (IncomingHost h) (Namespace h) (SourceService h) (TargetService h)
    (SourceHost h) (TargetHost h) (TrafficAllowed h) b.

(** The parts of [http.Request] the host manager reads. *)
Record HostRequest := { req_Host : gostring; req_Header : gmap gostring (list gostring) }.

(** The two kinds of pending [time.AfterFunc] callbacks. *)
Inductive timer_kind := GraceOver | ReEnable.
#[export] Instance timer_kind_eq_dec : EqDecision timer_kind.
Proof. solve_decision. Defined.

Record timer := Timer { t_kind : timer_kind; t_host : gostring; t_due : Z }.

Record HMConfig := {
  trafficReEnableDuration : Z;
  trafficDisableGraceDuration : Z;
  headerForHost : gostring
}.

Record HostManager := mkHM {
  hosts : gmap gostring Host;
  timers : list timer;
  now : Z
}.

(** [NewHostManager], at time [t]. *)
Definition NewHostManager (t : Z) : HostManager := mkHM ∅ [] t.

(** ** Rewriting of host names *)

Definition addHTTPIfNeeded (serviceURL : gostring) : gostring :=
  if negb (HasPrefix serviceURL (lit "http://"))
     && negb (HasPrefix serviceURL (lit "https://"))
  then lit "http://" ++ serviceURL
  else serviceURL.

Definition removeTrailingWildcardIfNeeded (serviceURL : gostring) : gostring :=
  if HasSuffix serviceURL (lit "/*") then TrimSuffix serviceURL (lit "/*") else serviceURL.

Definition removeTrailingPathIfNeeded (serviceURL : gostring) : gostring :=
  match IndexByte serviceURL "/"%char with
  | Some idx => take idx serviceURL
  | None => serviceURL
  end.

Definition replaceServiceName (serviceURL newServiceName : gostring) : gostring :=
  let parts := Split serviceURL "."%char in
  if bool_decide (length parts < 3) then serviceURL
  else Join (<[0:=newServiceName]> parts) (lit ".").

(** ** Extraction of service and namespace *)

Fixpoint extract_loop (ps : list regex) (url : gostring)
    : gostring * gostring * option error :=
  match ps with
  | [] => ([], [], Some (ErrText (lit "invalid Kubernetes URL")))
  | p :: ps' =>
      match find p url with
      | Some [serviceName; namespace] => (serviceName, namespace, None)
      | Some [serviceName] =>
          (serviceName, lit "default", Some (ErrText (lit "namespace not found in URL")))
      | _ => extract_loop ps' url
      end
  end.

Definition extractNamespaceAndService (url : gostring)
    : gostring * gostring * option error :=
  extract_loop patterns url.

(** ** Operations *)

(** The name a request is filed under; [None] is the run-time panic of
    [values[0]] on an empty list of header values. *)
Definition incoming_host (c : HMConfig) (req : HostRequest) : option gostring :=
  match req_Header req !! headerForHost c with
  | Some values => head values
  | None => Some (req_Host req)
  end.

(** The host built on a cache miss, from the extracted names. *)
Definition new_host (incomingHost sourceService namespace : gostring) : Host :=
  let targetService := GetPrivateServiceName sourceService in
  let sourceHost := removeTrailingWildcardIfNeeded incomingHost in
  let sourceHost := removeTrailingPathIfNeeded sourceHost in
  let sourceHost := addHTTPIfNeeded sourceHost in
  let targetHost := replaceServiceName sourceHost targetService in
  let targetHost := addHTTPIfNeeded targetHost in
  mkHost incomingHost namespace sourceService targetService sourceHost targetHost
    true false.

Definition GetHost (c : HMConfig) (hm : HostManager) (req : HostRequest)
    : option (Host * option error * HostManager) :=
  incomingHost ← incoming_host c req;
  match hosts hm !! incomingHost with
  | Some host => Some (host, None, hm)
  | None =>
      match extractNamespaceAndService incomingHost with
      | (_, _, Some err) => Some (emptyHost, Some err, hm)
      | (sourceService, namespace, None) =>
          let newHost := new_host incomingHost sourceService namespace in
          Some (newHost, None,
                mkHM (<[incomingHost := newHost]> (hosts hm)) (timers hm) (now hm))
      end
  end.

Definition disableTrafficForHost (c : HMConfig) (hostName : gostring)
    (hm : HostManager) : HostManager :=
  match hosts hm !! hostName with
  | Some host =>
      if TrafficAllowed host then
        mkHM (<[hostName := set_allowed false host]> (hosts hm))
             (Timer ReEnable hostName (now hm + trafficReEnableDuration c) :: timers hm)
             (now hm)
      else hm
  | None => hm
  end.

Definition enableTrafficForHost (hostName : gostring) (hm : HostManager) : HostManager :=
  match hosts hm !! hostName with
  | Some host =>
      if negb (TrafficAllowed host) then
        mkHM (<[hostName := set_allowed true host]> (hosts hm)) (timers hm) (now hm)
      else hm
  | None => hm
  end.

Definition ScheduleDisableTrafficForHost (c : HMConfig) (hostName : gostring)
    (hm : HostManager) : HostManager :=
  match hosts hm !! hostName with
  | None => hm
  | Some h =>
      if TrafficDisableScheduled h then hm
      else mkHM (<[hostName := set_scheduled true h]> (hosts hm))
                (Timer GraceOver hostName (now hm + trafficDisableGraceDuration c)
                   :: timers hm)
                (now hm)
  end.

(** The callback [ScheduleDisableTrafficForHost] registers. *)
Definition grace_callback (c : HMConfig) (hostName : gostring) (hm : HostManager)
    : HostManager :=
  let hm :=
    match hosts hm !! hostName with
    | Some h => mkHM (<[hostName := set_scheduled false h]> (hosts hm)) (timers hm) (now hm)
    | None => hm
    end in
  disableTrafficForHost c hostName hm.

Definition fire (c : HMConfig) (t : timer) (hm : HostManager) : HostManager :=
  match t_kind t with
  | GraceOver => grace_callback c (t_host t) hm
  | ReEnable => enableTrafficForHost (t_host t) hm
  end.

(** ** Steps *)

(** What can happen to the host manager: a request is looked up, a proxied
    request schedules a switch-off, a due timer runs its callback, time passes. *)
Inductive hm_step (c : HMConfig) : HostManager -> HostManager -> Prop :=
| step_get req host err hm hm' :
    GetHost c hm req = Some (host, err, hm') -> hm_step c hm hm'
| step_schedule name hm :
    hm_step c hm (ScheduleDisableTrafficForHost c name hm)
| step_fire l1 t l2 hm :
    timers hm = l1 ++ t :: l2 -> (t_due t <= now hm)%Z ->
    hm_step c hm (fire c t (mkHM (hosts hm) (l1 ++ l2) (now hm)))
| step_tick d hm :
    (0 <= d)%Z -> hm_step c hm (mkHM (hosts hm) (timers hm) (now hm + d)).

Definition hm_reachable (c : HMConfig) (hm : HostManager) : Prop :=
  exists t, rtc (hm_step c) (NewHostManager t) hm.

(** The number of pending callbacks of one kind for one host. *)
Definition pending (k : timer_kind) (name : gostring) (ts : list timer) : nat :=
  length (filter (fun t => t_kind t = k /\ t_host t = name) ts).

Definition duration_of (c : HMConfig) (k : timer_kind) : Z :=
  match k with
  | GraceOver => trafficDisableGraceDuration c
  | ReEnable => trafficReEnableDuration c
  end.

(** The invariant: the flags of a host count its pending callbacks. *)
Definition host_ok (ts : list timer) (name : gostring) (o : option Host) : Prop :=
  match o with
  | None => pending GraceOver name ts = 0 /\ pending ReEnable name ts = 0
  | Some h =>
      pending GraceOver name ts = Nat.b2n (TrafficDisableScheduled h)
      /\ pending ReEnable name ts = Nat.b2n (negb (TrafficAllowed h))
      /\ IncomingHost h = name
  end.

Definition hm_inv (c : HMConfig) (hm : HostManager) : Prop :=
  (forall name, host_ok (timers hm) name (hosts hm !! name))
  /\ Forall (fun t => (t_due t <= now hm + duration_of c (t_kind t))%Z) (timers hm).

(** ** Lemmas: extraction *)

Definition suffixes : list gostring := [lit ""; lit ".svc"; lit ".svc.cluster.local"].

(** A string after which the host name is over: no dot in it, and no label
    byte at its start (a port, a path, or nothing). *)
Definition host_end (u : gostring) : Prop := "."%char ∉ u /\ not_label_head u.

#[export] Instance host_end_dec u : Decision (host_end u).
Proof. unfold host_end. apply _. Defined.

Lemma host_end_not_dot u : host_end u -> match u with d :: _ => d <> "."%char | [] => True end.
Proof. intros [Hu _]. destruct u; set_solver. Qed.

Lemma match_text_end t q u :
  host_end u -> match_here (Lit "."%char :: t ++ q) u = None.
Proof.
  intros Hu%host_end_not_dot. destruct u as [|d u]; cbn; [done|].
  by rewrite bool_decide_eq_false_2 by done.
Qed.

Lemma find_two_end w1 w2 q u :
  label_word w1 -> label_word w2 -> host_end u ->
  find ([Label; Lit "."%char; Label; Lit "."%char] ++ q) (w1 ++ "."%char :: w2 ++ u) = None.
Proof.
  intros H1 H2 Hu. simpl app at 1. rewrite find_group by done.
  rewrite match_group by (done || apply Hu).
  apply host_end_not_dot in Hu as Hd.
  assert (find (Label :: Lit "."%char :: Label :: Lit "."%char :: q) (w2 ++ u) = None) as ->.
  { apply find_no_dot; [set_solver|]. apply label_word_no_dot in H2.
    destruct Hu as [Hu _]. set_solver. }
  destruct u as [|d u]; [done|]. by rewrite bool_decide_eq_false_2 by done.
Qed.

Lemma word_svc : label_word (lit "svc"). Proof. by apply (bool_decide_unpack _). Qed.
Lemma word_cluster : label_word (lit "cluster"). Proof. by apply (bool_decide_unpack _). Qed.
Lemma word_local : label_word (lit "local"). Proof. by apply (bool_decide_unpack _). Qed.
#[local] Hint Resolve word_svc word_cluster word_local : elasti.

(** [<w1>.<w2>.svc] followed by the expression [q] *)
Lemma find_two_svc w1 w2 q s :
  label_word w1 -> label_word w2 ->
  find ([Label; Lit "."%char; Label] ++ text ".svc" ++ q)
       (w1 ++ "."%char :: w2 ++ "."%char :: lit "svc" ++ s)
  = match match_here q s with
    | Some caps => Some (w1 :: w2 :: caps)
    | None => find ([Label; Lit "."%char; Label] ++ text ".svc" ++ q)
                   (w2 ++ "."%char :: lit "svc" ++ s)
    end.
Proof.
  intros H1 H2.
  change ([Label; Lit "."%char; Label] ++ text ".svc" ++ q)
    with (Label :: Lit "."%char :: Label :: Lit "."%char :: text "svc" ++ q).
  rewrite find_group by done. rewrite match_group by done.
  rewrite bool_decide_eq_true_2 by done.
  change (match_here (text "svc" ++ q) (lit "svc" ++ s)) with (match_here q s).
  by destruct (match_here q s).
Qed.

(** A word that is not [svc] after the second dot: no match at the first word. *)
Lemma find_two_not_svc w1 w2 q s :
  label_word w1 -> label_word w2 -> match_here (text "svc" ++ q) s = None ->
  find ([Label; Lit "."%char; Label] ++ text ".svc" ++ q)
       (w1 ++ "."%char :: w2 ++ "."%char :: s)
  = find ([Label; Lit "."%char; Label] ++ text ".svc" ++ q) (w2 ++ "."%char :: s).
Proof.
  intros H1 H2 Hs.
  change ([Label; Lit "."%char; Label] ++ text ".svc" ++ q)
    with (Label :: Lit "."%char :: Label :: Lit "."%char :: text "svc" ++ q).
  rewrite find_group by done. rewrite match_group by done.
  rewrite bool_decide_eq_true_2 by done. by rewrite Hs.
Qed.

Lemma find_short_cluster w1 w2 q u :
  label_word w1 -> label_word w2 -> host_end u ->
  find ([Label; Lit "."%char; Label] ++ text ".svc" ++ text ".cluster.local" ++ q)
       (w1 ++ "."%char :: w2 ++ lit ".svc" ++ u) = None.
Proof.
  intros H1 H2 Hu.
  change (lit ".svc" ++ u) with ("."%char :: lit "svc" ++ u).
  rewrite find_two_svc by done.
  change (text ".cluster.local" ++ q) with (Lit "."%char :: text "cluster.local" ++ q).
  rewrite match_text_end by done.
  apply (find_two_end w2 (lit "svc")); auto with elasti.
Qed.

Lemma find_full_cluster w1 w2 q u :
  label_word w1 -> label_word w2 -> host_end u ->
  find ([Label; Lit "."%char; Label] ++ text ".svc" ++ text ".cluster.local" ++ q)
       (w1 ++ "."%char :: w2 ++ lit ".svc.cluster.local" ++ u)
  = cons w1 <$> (cons w2 <$> match_here q u).
Proof.
  intros H1 H2 Hu.
  change (lit ".svc.cluster.local" ++ u)
    with ("."%char :: lit "svc" ++ "."%char :: lit "cluster" ++ "."%char :: lit "local" ++ u).
  rewrite find_two_svc by done.
  change (match_here (text ".cluster.local" ++ q)
    ("."%char :: lit "cluster" ++ "."%char :: lit "local" ++ u)) with (match_here q u).
  destruct (match_here q u); [done|].
  rewrite find_two_not_svc by (auto with elasti || reflexivity).
  rewrite find_two_not_svc by (auto with elasti || reflexivity).
  apply (find_two_end (lit "cluster") (lit "local")); auto with elasti.
Qed.

Lemma find_two_host w1 w2 u :
  label_word w1 -> label_word w2 -> not_label_head u ->
  find [Label; Lit "."%char; Label] (w1 ++ "."%char :: w2 ++ u) = Some [w1; w2].
Proof.
  intros H1 [Hne H2] Hu. rewrite find_group by done. cbn [match_here].
  rewrite run_app by done. destruct (length w2) as [|n] eqn:Hn; [by destruct w2|].
  cbn [try_splits]. rewrite <- Hn, take_app_length. reflexivity.
Qed.

Lemma find_http_group w p rest :
  label_word w ->
  find (text "http:" ++ p) (w ++ "."%char :: rest) = find (text "http:" ++ p) rest.
Proof. intros [_ H]. by apply find_http_word. Qed.

Lemma find_http_host q w1 w2 suf u :
  label_word w1 -> label_word w2 -> suf ∈ suffixes -> host_end u ->
  find (text "http:" ++ text "//" ++ [Label; Lit "."%char; Label] ++ q)
       (w1 ++ "."%char :: w2 ++ suf ++ u) = None.
Proof.
  intros H1 H2 Hsuf Hu.
  assert (forall p, Lit "."%char ∈ text "http:" ++ text "//" ++ [Label; Lit "."%char; Label] ++ p) as Hdot.
  { intros p. set_solver. }
  rewrite find_http_group by done.
  repeat (apply elem_of_cons in Hsuf as [->|Hsuf]); [..|by apply not_elem_of_nil in Hsuf].
  - apply find_no_dot; [apply Hdot|]. apply label_word_no_dot in H2. destruct Hu as [Hu _]. set_solver.
  - change (lit ".svc" ++ u) with ("."%char :: lit "svc" ++ u).
    rewrite find_http_group by done.
    apply find_no_dot; [apply Hdot|]. pose proof (label_word_no_dot _ word_svc).
    destruct Hu as [Hu _]. set_solver.
  - change (lit ".svc.cluster.local" ++ u)
      with ("."%char :: lit "svc" ++ "."%char :: lit "cluster" ++ "."%char :: lit "local" ++ u).
    rewrite !find_http_group by auto with elasti.
    apply find_no_dot; [apply Hdot|]. pose proof (label_word_no_dot _ word_local).
    destruct Hu as [Hu _]. set_solver.
Qed.

Lemma extract_loop_None p ps url :
  find p url = None -> extract_loop (p :: ps) url = extract_loop ps url.
Proof. intros H. simpl. by rewrite H. Qed.

Lemma extract_loop_two p ps url w1 w2 :
  find p url = None \/ find p url = Some [w1; w2] ->
  extract_loop ps url = (w1, w2, None) ->
  extract_loop (p :: ps) url = (w1, w2, None).
Proof. intros [H|H] Hps; simpl; rewrite H; done. Qed.

Lemma extract_host w1 w2 suf u :
  label_word w1 -> label_word w2 -> suf ∈ suffixes -> host_end u ->
  extractNamespaceAndService (w1 ++ lit "." ++ w2 ++ suf ++ u) = (w1, w2, None).
Proof.
  intros H1 H2 Hsuf Hu. change (lit "." ++ w2 ++ suf ++ u) with ("."%char :: w2 ++ suf ++ u).
  assert (forall q, find ([Label; Lit "."%char; Label] ++ text ".svc" ++ text ".cluster.local" ++ q)
      (w1 ++ "."%char :: w2 ++ suf ++ u) = None
    \/ find ([Label; Lit "."%char; Label] ++ text ".svc" ++ text ".cluster.local" ++ q)
      (w1 ++ "."%char :: w2 ++ suf ++ u) = cons w1 <$> (cons w2 <$> match_here q u)) as Hcl.
  { intros q. repeat (apply elem_of_cons in Hsuf as [->|Hsuf]); [..|by apply not_elem_of_nil in Hsuf].
    - left. by apply (find_two_end w1 w2).
    - left. by apply find_short_cluster.
    - right. by apply find_full_cluster. }
  assert (not_label_head (suf ++ u)) as Hhead.
  { repeat (apply elem_of_cons in Hsuf as [->|Hsuf]); [..|by apply not_elem_of_nil in Hsuf];
      [apply Hu|reflexivity..]. }
  unfold extractNamespaceAndService, patterns.
  assert (forall q, groups q = 0 ->
    find ([Label; Lit "."%char; Label] ++ text ".svc" ++ text ".cluster.local" ++ q)
      (w1 ++ "."%char :: w2 ++ suf ++ u) = None
    \/ find ([Label; Lit "."%char; Label] ++ text ".svc" ++ text ".cluster.local" ++ q)
      (w1 ++ "."%char :: w2 ++ suf ++ u) = Some [w1; w2]) as Hcl'.
  { intros q Hq. destruct (Hcl q) as [Hn|Hn]; [by left|]. rewrite Hn.
    destruct (match_here q u) as [caps|] eqn:Hm; [|by left].
    apply match_groups in Hm. rewrite Hq in Hm. destruct caps; [by right|done]. }
  apply extract_loop_two; [left; by apply find_http_host|].
  apply extract_loop_two; [by apply (Hcl' ((text ":" ++ [Digits]) ++ text "/*"))|].
  apply extract_loop_two; [left; by apply find_http_host|].
  apply extract_loop_two; [by apply (Hcl' (text ":" ++ [Digits]))|].
  apply extract_loop_two; [left; by apply find_http_host|].
  apply extract_loop_two; [by apply (Hcl' [])|].
  apply extract_loop_two; [left; by apply find_http_host|].
  apply extract_loop_two.
  { repeat (apply elem_of_cons in Hsuf as [->|Hsuf]); [..|by apply not_elem_of_nil in Hsuf].
    - left. by apply (find_two_end w1 w2).
    - right. by apply (find_two_svc w1 w2 [] u).
    - right. by apply (find_two_svc w1 w2 [] (lit ".cluster.local" ++ u)). }
  apply extract_loop_two; [left; by apply (find_http_host [])|].
  simpl. by rewrite find_two_host.
Qed.

(** *** Success exactly on dotted names *)

Lemma patterns_dotted :
  Forall (fun p => forall s, is_Some (find p s) -> dotted s) (take 14 patterns).
Proof.
  assert (forall q1 q2, label_start q2 = true ->
    forall s, is_Some (find (q1 ++ Label :: Lit "."%char :: q2) s) -> dotted s) as Hd.
  { intros q1 q2 Hq s [caps Hf]. by eapply find_dotted. }
  unfold patterns. cbn [take].
  repeat (constructor; [first [by apply (Hd (text "http://")) | by apply (Hd [])]|]).
  constructor.
Qed.

Lemma extract_loop_skip ps qs url :
  Forall (fun p => find p url = None) ps ->
  extract_loop (ps ++ qs) url = extract_loop qs url.
Proof. induction 1 as [|p ps Hp _ IH]; simpl; [done|]. by rewrite Hp. Qed.

Lemma extract_not_dotted url :
  ~ dotted url ->
  extractNamespaceAndService url = extract_loop (drop 14 patterns) url.
Proof.
  intros Hnd. unfold extractNamespaceAndService.
  rewrite <- (take_drop 14 patterns) at 1. apply extract_loop_skip.
  eapply Forall_impl; [apply patterns_dotted|]. intros p Hp. simpl in Hp.
  destruct (find p url) eqn:E; [|done]. exfalso. apply Hnd, Hp. by rewrite E.
Qed.

Lemma extract_loop_groups ps url :
  Forall (fun p => groups p = 2) ps ->
  (exists p, p ∈ ps /\ is_Some (find p url)) ->
  exists svc ns, forall qs, extract_loop (ps ++ qs) url = (svc, ns, None).
Proof.
  induction 1 as [|p ps Hp Hps IH]; intros (q & Hq & Hf); [by apply not_elem_of_nil in Hq|].
  destruct (find p url) as [caps|] eqn:E.
  - pose proof (find_groups _ _ _ E) as Hlen. rewrite Hp in Hlen.
    destruct caps as [|svc [|ns [|]]]; try done. exists svc, ns. intros qs. simpl. by rewrite E.
  - apply elem_of_cons in Hq as [->|Hq]; [rewrite E in Hf; by destruct Hf|].
    destruct IH as (svc & ns & HIH); [eauto|]. exists svc, ns. intros qs. simpl. by rewrite E.
Qed.

Lemma extract_dotted url :
  dotted url -> exists svc ns, extractNamespaceAndService url = (svc, ns, None).
Proof.
  intros Hd. destruct (extract_loop_groups (take 10 patterns) url) as (svc & ns & H).
  - unfold patterns. cbn [take]. by repeat constructor.
  - exists [Label; Lit "."%char; Label]. split; [|by apply find_two_dotted].
    unfold patterns. cbn [take]. set_solver.
  - exists svc, ns. unfold extractNamespaceAndService.
    rewrite <- (take_drop 10 patterns). apply H.
Qed.

Lemma dotted_dec url : dotted url \/ ~ dotted url.
Proof.
  destruct (find [Label; Lit "."%char; Label] url) as [caps|] eqn:E.
  - left. by apply (find_dotted [] [Label] url caps).
  - right. intros [caps Hc]%find_two_dotted. congruence.
Qed.

Lemma find_one_group p url :
  groups p = 1 -> find p url = None \/ exists svc, find p url = Some [svc].
Proof.
  intros Hp. destruct (find p url) as [caps|] eqn:E; [right|by left].
  apply find_groups in E. rewrite Hp in E. destruct caps as [|svc [|]]; try done. eauto.
Qed.

Lemma extract_not_dotted_label url :
  ~ dotted url -> (exists c, c ∈ url /\ is_label c = true) ->
  exists svc, extractNamespaceAndService url
    = (svc, lit "default", Some (ErrText (lit "namespace not found in URL"))).
Proof.
  intros Hnd Hl%find_label. rewrite extract_not_dotted by done.
  change (drop 14 patterns) with [text "http://" ++ [Label]; [Label]]. cbn [extract_loop].
  destruct (find_one_group (text "http://" ++ [Label]) url eq_refl) as [Ea|[a Ea]];
    rewrite Ea; [|eauto].
  destruct (find_one_group [Label] url eq_refl) as [Eb|[b Eb]]; rewrite Eb in *; [|eauto].
  by destruct Hl.
Qed.

Lemma extract_no_label url :
  (forall c, c ∈ url -> is_label c = false) ->
  extractNamespaceAndService url = ([], [], Some (ErrText (lit "invalid Kubernetes URL"))).
Proof.
  intros Hno.
  assert (forall p, label_start p = true -> find p url = None) as Hnone.
  { intros p Hp. destruct (find p url) eqn:E; [|done]. exfalso.
    apply find_Some in E as (pre & s' & -> & Hm).
    destruct (match_label_start _ _ _ Hp Hm) as (b & s'' & -> & Hb).
    rewrite Hno in Hb by set_solver. done. }
  rewrite extract_not_dotted.
  - change (drop 14 patterns) with [text "http://" ++ [Label]; [Label]]. cbn [extract_loop].
    by rewrite !Hnone.
  - intros (pre & a & b & post & -> & Ha & _). rewrite Hno in Ha by set_solver. done.
Qed.

(** ** Lemmas: rewriting of host names *)

(** What comes after the port: nothing, or a path. *)
Definition is_path (p : gostring) : Prop := p = [] \/ exists q, p = "/"%char :: q.

Lemma strip_host h p :
  "/"%char ∉ h -> is_path p ->
  removeTrailingPathIfNeeded (removeTrailingWildcardIfNeeded (h ++ p)) = h.
Proof.
  intros Hh Hp.
  assert (forall q, is_path q -> removeTrailingPathIfNeeded (h ++ q) = h) as Hstrip.
  { intros q [->|[q' ->]]; unfold removeTrailingPathIfNeeded.
    - rewrite app_nil_r. assert (IndexByte h "/"%char = None) as -> by by apply IndexByte_None. done.
    - rewrite IndexByte_app by done. by rewrite take_app_length. }
  unfold removeTrailingWildcardIfNeeded.
  destruct (HasSuffix (h ++ p) (lit "/*")) eqn:Hs; [|by apply Hstrip].
  apply HasSuffix_spec in Hs as [r Hr]. rewrite Hr, TrimSuffix_app.
  apply app_eq_inv in Hr as [(k & -> & Hk)|(k & -> & Hk)].
  - destruct k as [|d k].
    + rewrite app_nil_r in *. rewrite <- (app_nil_r r) at 1. apply Hstrip. by left.
    + injection Hk as <- _. exfalso. apply Hh. set_solver.
  - apply Hstrip. destruct Hp as [->|[q ->]]; [by destruct k|].
    destruct k as [|d k]; [by left|]. injection Hk as <- _. right. eauto.
Qed.

Lemma addHTTP_no_slash h : "/"%char ∉ h -> addHTTPIfNeeded h = lit "http://" ++ h.
Proof.
  intros Hh. unfold addHTTPIfNeeded.
  assert (HasPrefix h (lit "http://") = false) as ->.
  { apply HasPrefix_false. intros r ->. apply Hh. set_solver. }
  assert (HasPrefix h (lit "https://") = false) as ->.
  { apply HasPrefix_false. intros r ->. apply Hh. set_solver. }
  done.
Qed.

Lemma addHTTP_private svc s :
  addHTTPIfNeeded (GetPrivateServiceName svc ++ s)
  = lit "http://" ++ GetPrivateServiceName svc ++ s.
Proof.
  unfold addHTTPIfNeeded, GetPrivateServiceName, buildName.
  rewrite <- !app_assoc.
  assert (forall x, HasPrefix (Names.prefix ++ x) (lit "http://") = false) as ->.
  { intros x. apply HasPrefix_false. intros r. discriminate. }
  assert (forall x, HasPrefix (Names.prefix ++ x) (lit "https://") = false) as ->.
  { intros x. apply HasPrefix_false. intros r. discriminate. }
  done.
Qed.

Lemma Join_cons p parts sep : parts <> [] -> Join (p :: parts) sep = p ++ sep ++ Join parts sep.
Proof. by destruct parts. Qed.

Lemma replaceServiceName_three w1 w2 rest new :
  "."%char ∉ w1 -> "."%char ∉ w2 ->
  replaceServiceName (w1 ++ "."%char :: w2 ++ "."%char :: rest) new
  = new ++ "."%char :: w2 ++ "."%char :: rest.
Proof.
  intros H1 H2. unfold replaceServiceName.
  rewrite Split_cons_sep by done. rewrite Split_cons_sep by done.
  rewrite bool_decide_eq_false_2.
  2:{ pose proof (Split_not_nil rest "."%char). destruct (Split rest "."%char); simpl; [done|lia]. }
  simpl insert. rewrite Join_cons by done.
  rewrite <- (Split_cons_sep w2) by done. change (lit ".") with ["."%char].
  by rewrite Join_Split.
Qed.

Lemma replaceServiceName_two w1 w2 new :
  "."%char ∉ w1 -> "."%char ∉ w2 ->
  replaceServiceName (w1 ++ "."%char :: w2) new = w1 ++ "."%char :: w2.
Proof.
  intros H1 H2. unfold replaceServiceName.
  rewrite Split_cons_sep, Split_no_sep by done. done.
Qed.

(** A port, possibly empty: no dot, no slash, not starting with a label byte. *)
Definition is_port (p : gostring) : Prop := host_end p /\ "/"%char ∉ p.

Lemma port_path_end port path :
  is_port port -> is_path path -> "."%char ∉ path -> host_end (port ++ path).
Proof.
  intros [[Hd Hl] _] Hpath Hdot. split; [set_solver|].
  destruct port; [|done]. by destruct Hpath as [->|[q ->]].
Qed.

Lemma new_host_private svc ns suf port path :
  label_word svc -> label_word ns -> suf ∈ [lit ".svc"; lit ".svc.cluster.local"] ->
  is_port port -> is_path path -> "."%char ∉ path ->
  let rest := lit "." ++ ns ++ suf ++ port in
  new_host (svc ++ rest ++ path) svc ns
  = mkHost (svc ++ rest ++ path) ns svc (GetPrivateServiceName svc)
      (lit "http://" ++ svc ++ rest)
      (lit "http://" ++ GetPrivateServiceName svc ++ rest) true false.
Proof.
  intros Hsvc Hns Hsuf [_ Hport] Hpath Hdot rest.
  assert ("/"%char ∉ svc ++ rest) as Hslash.
  { apply label_word_no_slash in Hsvc, Hns. unfold rest.
    repeat (apply elem_of_cons in Hsuf as [->|Hsuf]); set_solver. }
  assert (exists tl, suf ++ port = "."%char :: tl) as [tl Htl].
  { repeat (apply elem_of_cons in Hsuf as [->|Hsuf]); [eexists; reflexivity..|].
    by apply not_elem_of_nil in Hsuf. }
  unfold new_host. rewrite (app_assoc svc rest path), strip_host by done.
  rewrite addHTTP_no_slash by done.
  assert (replaceServiceName (lit "http://" ++ svc ++ rest) (GetPrivateServiceName svc)
          = GetPrivateServiceName svc ++ rest) as ->.
  { unfold rest. rewrite Htl, app_assoc. apply replaceServiceName_three.
    - apply label_word_no_dot in Hsvc. set_solver.
    - by apply label_word_no_dot. }
  rewrite addHTTP_private. done.
Qed.

Lemma new_host_two_labels svc ns port path :
  label_word svc -> label_word ns -> is_port port -> is_path path ->
  let h := svc ++ lit "." ++ ns ++ port in
  SourceHost (new_host (h ++ path) svc ns) = lit "http://" ++ h
  /\ TargetHost (new_host (h ++ path) svc ns) = lit "http://" ++ h.
Proof.
  intros Hsvc Hns [[Hpd _] Hps] Hpath h.
  assert ("/"%char ∉ h) as Hslash.
  { apply label_word_no_slash in Hsvc, Hns. unfold h. set_solver. }
  assert (replaceServiceName (lit "http://" ++ h) (GetPrivateServiceName svc) = lit "http://" ++ h) as Hr.
  { unfold h. rewrite app_assoc. apply replaceServiceName_two.
    - apply label_word_no_dot in Hsvc. set_solver.
    - apply label_word_no_dot in Hns. set_solver. }
  unfold new_host. simpl. rewrite strip_host, addHTTP_no_slash by done.
  split; [done|]. rewrite Hr. unfold addHTTPIfNeeded. by rewrite HasPrefix_app.
Qed.

(** ** Lemmas: the traffic switch *)

Lemma pending_cons k name t ts :
  pending k name (t :: ts)
  = Nat.b2n (bool_decide (t_kind t = k /\ t_host t = name)) + pending k name ts.
Proof.
  unfold pending. rewrite filter_cons. case_decide as H.
  - by rewrite bool_decide_eq_true_2.
  - by rewrite bool_decide_eq_false_2.
Qed.

Lemma pending_same k name due ts :
  pending k name (Timer k name due :: ts) = S (pending k name ts).
Proof. by rewrite pending_cons, bool_decide_eq_true_2. Qed.

Lemma pending_kind k k' name name' due ts :
  k <> k' -> pending k name (Timer k' name' due :: ts) = pending k name ts.
Proof. intros Hk. rewrite pending_cons, bool_decide_eq_false_2; naive_solver. Qed.

Lemma pending_app k name l1 l2 :
  pending k name (l1 ++ l2) = pending k name l1 + pending k name l2.
Proof. unfold pending. by rewrite filter_app, length_app. Qed.

(** The timers of other hosts do not matter to a host. *)
Lemma host_ok_other ts t name o :
  t_host t <> name -> host_ok (t :: ts) name o <-> host_ok ts name o.
Proof.
  intros Hne. unfold host_ok.
  assert (forall k, pending k name (t :: ts) = pending k name ts) as Hp.
  { intros k. rewrite pending_cons, bool_decide_eq_false_2; [done|]. naive_solver. }
  by rewrite !Hp.
Qed.

(** Removing a timer from the middle or from the front is the same to a host. *)
Lemma host_ok_swap l1 t l2 name o :
  host_ok (l1 ++ t :: l2) name o <-> host_ok (t :: l1 ++ l2) name o.
Proof.
  unfold host_ok.
  assert (forall k, pending k name (l1 ++ t :: l2) = pending k name (t :: l1 ++ l2)) as Hp.
  { intros k. rewrite pending_app, !pending_cons, pending_app. lia. }
  by rewrite !Hp.
Qed.

(** Changing one host and its timers leaves the invariant on the others. *)
Lemma hosts_ok_insert (ts : list timer) (m : gmap gostring Host) (name : gostring) (h : Host) :
  (forall name', host_ok ts name' (m !! name')) -> host_ok ts name (Some h) ->
  forall name', host_ok ts name' (<[name:=h]> m !! name').
Proof.
  intros Hm Hh name'. destruct (decide (name = name')) as [->|].
  - by rewrite lookup_insert_eq.
  - by rewrite lookup_insert_ne.
Qed.

Lemma hosts_ok_insert_timer (ts : list timer) (m : gmap gostring Host) (t : timer) (h : Host) :
  (forall name', host_ok ts name' (m !! name')) ->
  host_ok (t :: ts) (t_host t) (Some h) ->
  forall name', host_ok (t :: ts) name' (<[t_host t:=h]> m !! name').
Proof.
  intros Hm Hh name'. destruct (decide (t_host t = name')) as [<-|].
  - by rewrite lookup_insert_eq.
  - rewrite lookup_insert_ne by done. by apply host_ok_other.
Qed.

Section hm_invariant.
Context (c : HMConfig).

Lemma GetHost_inv req host err hm hm' :
  hm_inv c hm -> GetHost c hm req = Some (host, err, hm') -> hm_inv c hm'.
Proof.
  intros [Hh Ht]. unfold GetHost. destruct (incoming_host c req) as [name|]; [simpl|done].
  destruct (hosts hm !! name) as [h|] eqn:Hn; [by intros [= <- <- <-]|].
  destruct (extractNamespaceAndService name) as [[svc ns] [e|]]; intros [= <- <- <-];
    [done|]. split; [|done]. simpl. apply hosts_ok_insert; [done|].
  specialize (Hh name). rewrite Hn in Hh. simpl. naive_solver.
Qed.

Lemma disable_inv name hm :
  hm_inv c hm -> hm_inv c (disableTrafficForHost c name hm).
Proof.
  intros [Hh Ht]. unfold disableTrafficForHost.
  destruct (hosts hm !! name) as [h|] eqn:Hn; [|done].
  destruct (TrafficAllowed h) eqn:Ha; [|done]. split; simpl.
  - apply (hosts_ok_insert_timer _ _ (Timer ReEnable name _)); [done|].
    specialize (Hh name). rewrite Hn in Hh. unfold host_ok in *. simpl.
    rewrite pending_same, pending_kind by done. rewrite Ha in Hh.
    simpl in Hh. naive_solver lia.
  - constructor; [simpl; lia|done].
Qed.

Lemma schedule_inv name hm :
  hm_inv c hm -> hm_inv c (ScheduleDisableTrafficForHost c name hm).
Proof.
  intros [Hh Ht]. unfold ScheduleDisableTrafficForHost.
  destruct (hosts hm !! name) as [h|] eqn:Hn; [|done].
  destruct (TrafficDisableScheduled h) eqn:Ha; [done|]. split; simpl.
  - apply (hosts_ok_insert_timer _ _ (Timer GraceOver name _)); [done|].
    specialize (Hh name). rewrite Hn in Hh. unfold host_ok in *. simpl.
    rewrite pending_same, pending_kind by done. rewrite Ha in Hh.
    simpl in Hh. naive_solver lia.
  - constructor; [simpl; lia|done].
Qed.

(** A timer about to fire has its host in the map, with the flag it stands for. *)
Lemma fire_inv l1 t l2 hm :
  hm_inv c hm -> timers hm = l1 ++ t :: l2 ->
  hm_inv c (fire c t (mkHM (hosts hm) (l1 ++ l2) (now hm))).
Proof.
  intros [Hh Ht] Hts. rewrite Hts in Hh, Ht.
  assert (Forall (fun t => (t_due t <= now hm + duration_of c (t_kind t))%Z) (l1 ++ l2)) as Ht'.
  { apply Forall_app in Ht as [? Ht]. inversion Ht. by apply Forall_app. }
  assert (forall name o, host_ok (l1 ++ t :: l2) name o -> t_host t <> name ->
    host_ok (l1 ++ l2) name o) as Hother.
  { intros name o H1%host_ok_swap Hne. by eapply host_ok_other. }
  pose proof (Hh (t_host t)) as Hn. apply host_ok_swap in Hn.
  destruct t as [k name due]. simpl in *.
  destruct (hosts hm !! name) as [h|] eqn:Hl;
    unfold host_ok in Hn; destruct k; rewrite pending_same, pending_kind in Hn by done;
    simpl in Hn; try (exfalso; lia).
  - assert (TrafficDisableScheduled h = true) as Hs
      by (destruct (TrafficDisableScheduled h); [done|simpl in Hn; lia]).
    unfold fire, grace_callback. simpl. rewrite Hl. apply disable_inv. split; [|done]. simpl.
    intros name'. destruct (decide (name = name')) as [<-|].
    + rewrite lookup_insert_eq. simpl. rewrite Hs in Hn. simpl in Hn. naive_solver lia.
    + rewrite lookup_insert_ne by done. by apply Hother.
  - assert (TrafficAllowed h = false) as Hs
      by (destruct (TrafficAllowed h); [simpl in Hn; lia|done]).
    unfold fire, enableTrafficForHost. simpl. rewrite Hl, Hs. simpl. split; [|done]. simpl.
    intros name'. destruct (decide (name = name')) as [<-|].
    + rewrite lookup_insert_eq. simpl. rewrite Hs in Hn. simpl in Hn. naive_solver lia.
    + rewrite lookup_insert_ne by done. by apply Hother.
Qed.

Lemma hm_step_inv hm hm' : hm_inv c hm -> hm_step c hm hm' -> hm_inv c hm'.
Proof.
  intros Hinv Hstep. destruct Hstep as [req host err hm hm' Hg|name hm|l1 t l2 hm Hts Hdue|d hm Hd].
  - by eapply GetHost_inv.
  - by apply schedule_inv.
  - by apply fire_inv.
  - destruct Hinv as [Hh Ht]. split; [done|]. simpl. eapply Forall_impl; [exact Ht|].
    simpl. intros t Hle. lia.
Qed.

Lemma hm_reachable_inv hm : hm_reachable c hm -> hm_inv c hm.
Proof.
  intros [t0 Hr]. revert Hr. apply (rtc_ind_r (fun x => hm_inv c x)).
  - split; [|constructor]. intros name. simpl. by rewrite lookup_empty.
  - intros x y _ Hstep Hinv. by eapply hm_step_inv.
Qed.

Lemma pending_split k name ts :
  0 < pending k name ts ->
  exists l1 t l2, ts = l1 ++ t :: l2 /\ t_kind t = k /\ t_host t = name.
Proof.
  unfold pending. intros Hpos.
  destruct (filter _ ts) as [|t l] eqn:Hf; [simpl in Hpos; lia|].
  assert (t ∈ filter (fun t => t_kind t = k /\ t_host t = name) ts) as Hin by (rewrite Hf; set_solver).
  apply list_elem_of_filter in Hin as [[? ?] Hin].
  apply list_elem_of_split in Hin as (l1 & l2 & ->). naive_solver.
Qed.

End hm_invariant.

(** ** Properties *)

(** On every in-cluster host name [svc.ns], [svc.ns.svc] or
    [svc.ns.svc.cluster.local], followed by any port and path without dots,
    extraction yields exactly [svc] and [ns]. *)
Theorem extract_in_cluster_host svc ns suf u
    (Hsvc : label_word svc) (Hns : label_word ns)
    (Hsuf : suf ∈ suffixes) (Hu : host_end u) :
  extractNamespaceAndService (svc ++ lit "." ++ ns ++ suf ++ u) = (svc, ns, None).
Proof. by apply extract_host. Qed.

Lemma extract_in_cluster_host_witness :
  extractNamespaceAndService
    (lit "service" ++ lit "." ++ lit "namespace" ++ lit ".svc.cluster.local" ++ lit ":8080/test/*")
  = (lit "service", lit "namespace", None).
Proof.
  apply extract_in_cluster_host; [by apply (bool_decide_unpack _)..|].
  by apply (bool_decide_unpack _).
Defined.

(** Extraction succeeds exactly when the host has a dot between two label
    bytes; otherwise it reports a missing namespace when there is a label byte
    at all, and an invalid URL when there is none.  In particular the
    expressions for single-label [.svc] hosts never decide the result. *)
Theorem extract_succeeds_iff_dotted url :
  (dotted url <-> exists svc ns, extractNamespaceAndService url = (svc, ns, None))
  /\ (~ dotted url ->
      (exists c, c ∈ url /\ is_label c = true) ->
      exists svc, extractNamespaceAndService url
        = (svc, lit "default", Some (ErrText (lit "namespace not found in URL"))))
  /\ ((forall c, c ∈ url -> is_label c = false) ->
      extractNamespaceAndService url = ([], [], Some (ErrText (lit "invalid Kubernetes URL")))).
Proof.
  split; [split; [apply extract_dotted|]|split;
    [apply extract_not_dotted_label|apply extract_no_label]].
  intros (svc & ns & He). destruct (dotted_dec url) as [|Hnd]; [done|].
  destruct (decide (is_Some (find [Label] url))) as [Hl|Hl]; exfalso.
  - destruct (extract_not_dotted_label url Hnd) as [svc' He']; [by apply find_label|]. congruence.
  - rewrite extract_no_label in He; [congruence|]. intros c Hc.
    destruct (is_label c) eqn:E; [|done]. exfalso. apply Hl, find_label. eauto.
Qed.


Definition example_config : HMConfig :=
  {| trafficReEnableDuration := 30; trafficDisableGraceDuration := 15;
     headerForHost := lit "X-Envoy-Decorator-Operation" |}.

Definition example_request (h : gostring) : HostRequest :=
  {| req_Host := lit "target.com";
     req_Header := {[ lit "X-Envoy-Decorator-Operation" := [h] ]} |}.


(** A host of the form [svc.ns[:port][/path]], which extraction accepts, is
    not redirected to the private service: its target is the public service
    itself, the very address the resolver stands in for. *)
Theorem two_label_host_not_redirected c hm req svc ns port path
    (Hsvc : label_word svc) (Hns : label_word ns)
    (Hport : is_port port) (Hpath : is_path path) (Hdot : "."%char ∉ path)
    (Hreq : incoming_host c req = Some ((svc ++ lit "." ++ ns ++ port) ++ path))
    (Hmiss : hosts hm !! ((svc ++ lit "." ++ ns ++ port) ++ path) = None) :
  exists host hm', GetHost c hm req = Some (host, None, hm')
    /\ TargetService host = GetPrivateServiceName svc
    /\ TargetHost host = lit "http://" ++ svc ++ lit "." ++ ns ++ port
    /\ TargetHost host = SourceHost host.
Proof.
  unfold GetHost. rewrite Hreq. cbn [mbind option_bind]. rewrite Hmiss.
  assert (extractNamespaceAndService ((svc ++ lit "." ++ ns ++ port) ++ path)
          = (svc, ns, None)) as ->.
  { rewrite <- !app_assoc. apply (extract_host svc ns (lit "") (port ++ path));
      [done..| |by apply port_path_end]. unfold suffixes. set_solver. }
  destruct (new_host_two_labels svc ns port path) as [Hs Ht]; [done..|].
  eexists _, _. split; [reflexivity|]. by rewrite Hs, Ht.
Qed.

Lemma two_label_host_not_redirected_witness :
  exists host hm', GetHost example_config (NewHostManager 0)
      (example_request ((lit "service" ++ lit "." ++ lit "namespace" ++ lit ":8080") ++ lit ""))
      = Some (host, None, hm')
    /\ TargetService host = GetPrivateServiceName (lit "service")
    /\ TargetHost host = lit "http://" ++ lit "service" ++ lit "." ++ lit "namespace" ++ lit ":8080"
    /\ TargetHost host = SourceHost host.
Proof.
  apply (two_label_host_not_redirected example_config (NewHostManager 0) _ (lit "service")
    (lit "namespace") (lit ":8080") (lit "")).
  - by apply (bool_decide_unpack _).
  - by apply (bool_decide_unpack _).
  - by apply (bool_decide_unpack _ : bool_decide (host_end (lit ":8080") /\ "/"%char ∉ lit ":8080") -> _).
  - by left.
  - by apply (bool_decide_unpack _).
  - reflexivity.
  - reflexivity.
Defined.

(** A host given with its scheme, as eight of the sixteen expressions allow,
    is cut at the first slash, the one of [http://]: whatever follows, both the
    source and the target host become the unusable ["http://http:"]. *)
Theorem scheme_host_is_mangled x svc ns :
  SourceHost (new_host (lit "http://" ++ x) svc ns) = lit "http://http:"
  /\ TargetHost (new_host (lit "http://" ++ x) svc ns) = lit "http://http:".
Proof.
  assert (removeTrailingPathIfNeeded (removeTrailingWildcardIfNeeded (lit "http://" ++ x))
          = lit "http:") as Hstrip.
  { apply (strip_host (lit "http:") ("/"%char :: "/"%char :: x)); [|right; eauto].
    by apply (bool_decide_unpack _). }
  unfold new_host. cbn [SourceHost TargetHost]. rewrite Hstrip.
  split; vm_compute; reflexivity.
Qed.



(** Traffic that is off comes back: from every reachable state in which a
    host is switched off, letting at most the re-enable duration pass and its
    pending callback run leads to a state in which traffic is allowed again. *)
Theorem traffic_is_reenabled c hm (Hr : hm_reachable c hm) name h
    (Hpos : (0 <= trafficReEnableDuration c)%Z)
    (Hh : hosts hm !! name = Some h) (Hoff : TrafficAllowed h = false) :
  exists d hm' h', (0 <= d <= trafficReEnableDuration c)%Z
    /\ rtc (hm_step c) hm hm' /\ now hm' = (now hm + d)%Z
    /\ hosts hm' !! name = Some h' /\ TrafficAllowed h' = true.
Proof.
  destruct (hm_reachable_inv c hm Hr) as [Hok Hdue].
  pose proof (Hok name) as Hn. rewrite Hh in Hn. destruct Hn as (_ & Hp & _).
  rewrite Hoff in Hp. simpl in Hp.
  destruct (pending_split ReEnable name (timers hm)) as (l1 & t & l2 & Hts & Hk & Ht); [lia|].
  rewrite Hts in Hdue. apply Forall_app in Hdue as [_ Hdue]. inversion Hdue as [|? ? Hd _]; subst.
  rewrite Hk in Hd. simpl in Hd.
  set (d := Z.max 0 (t_due t - now hm)).
  exists d, (fire c t (mkHM (hosts hm) (l1 ++ l2) (now hm + d))).
  unfold fire, enableTrafficForHost. rewrite Hk. simpl. rewrite Hh, Hoff. simpl.
  eexists. split_and!.
  - lia.
  - lia.
  - eapply rtc_l; [apply (step_tick c d); lia|].
    apply rtc_once.
    pose proof (step_fire c l1 t l2 (mkHM (hosts hm) (timers hm) (now hm + d)) Hts) as Hf.
    unfold fire, enableTrafficForHost in Hf. rewrite Hk in Hf. simpl in Hf.
    rewrite Hh, Hoff in Hf. apply Hf. lia.
  - done.
  - apply lookup_insert_eq.
  - done.
Qed.

(** A manager in which one host has been looked up, scheduled and switched off. *)
Definition example_off : HostManager :=
  match GetHost example_config (NewHostManager 0) (example_request (lit "a.b.svc")) with
  | Some (_, _, hm) =>
      fire example_config (Timer GraceOver (lit "a.b.svc") 15)
        (mkHM (hosts (ScheduleDisableTrafficForHost example_config (lit "a.b.svc") hm)) [] 15)
  | None => NewHostManager 0
  end.

Lemma traffic_is_reenabled_witness :
  exists d hm' h', (0 <= d <= trafficReEnableDuration example_config)%Z
    /\ rtc (hm_step example_config) example_off hm' /\ now hm' = (now example_off + d)%Z
    /\ hosts hm' !! lit "a.b.svc" = Some h' /\ TrafficAllowed h' = true.
Proof.
  eapply traffic_is_reenabled.
  - exists 0%Z.
    eapply rtc_l; [eapply (step_get _ (example_request (lit "a.b.svc"))); reflexivity|].
    eapply rtc_l; [apply (step_schedule _ (lit "a.b.svc"))|].
    eapply rtc_l; [apply (step_tick _ 15); lia|].
    apply rtc_once. unfold example_off.
    eapply (step_fire _ [] _ []); [reflexivity|by apply Z.leb_le; vm_compute].
  - simpl. lia.
  - reflexivity.
  - reflexivity.
Defined.
