(* ===== verification/Semaphore.v ===== *)
(** * The semaphore ([resolver/internal/throttler/semaphore.go])

    Capacity and number of holders are packed into one 64-bit word that is
    only changed by compare-and-swap; a buffered channel carries the wake-ups.
    Here: the packing, the construction and [updateCapacity] run without
    interference.  The interleaved runs of [acquire] and [release] are in
    [Breaker.v], whose threads execute them. *)

From S2P Require Import Prelude.
Local Open Scope Z_scope.

(** ** Packing *)

Definition unpack (w : Z) : Z * Z := (Z.shiftr w 32, Z.land w 0xffffffff).

Arguments unpack : simpl never.

(** [left<<32 | right] on [uint64]. *)
Definition pack (left right : Z) : Z := Z.lor (uint64 (Z.shiftl left 32)) right.

(** ** State *)

(** [queue] is the number of pokes buffered in the channel, [bufsize] its size. *)
Record semaphore := Sem { state : Z; queue : nat; bufsize : nat }.

(** [select { case s.queue <- struct{}{}: default: }] *)
Definition poke (s : semaphore) : semaphore :=
  Sem (state s) (if bool_decide (queue s < bufsize s)%nat then S (queue s) else queue s) (bufsize s).

Definition updateCapacity (size : Z) (s : semaphore) : semaphore :=
  let s64 := uint64 size in
  let '(capacity, inn) := unpack (state s) in
  if s64 =? capacity then s
  else
    let s' := Sem (pack s64 inn) (queue s) (bufsize s) in
    if capacity <? s64 then Nat.iter (Z.to_nat (s64 - capacity)) poke s' else s'.

(** [None] is the run-time panic of [make(chan struct{}, maxCapacity)] on a
    negative size. *)
Definition newSemaphore (maxCapacity initialCapacity : Z) : option semaphore :=
  if maxCapacity <? 0 then None
  else Some (updateCapacity initialCapacity (Sem 0 0 (Z.to_nat maxCapacity))).

Definition Capacity (s : semaphore) : Z := int64 (unpack (state s)).1.

(** ** Lemmas *)

Lemma pack_eq l r : 0 <= l < 2 ^ 32 -> 0 <= r < 2 ^ 32 -> pack l r = l * 2 ^ 32 + r.
Proof.
  intros Hl Hr. unfold pack, uint64. rewrite Z.shiftl_mul_pow2 by lia.
  rewrite uint_of_id by lia.
  rewrite Z.add_nocarry_lxor, Z.lxor_lor; [done| |];
    apply Z.bits_inj'; intros n Hn; rewrite Z.land_spec, Z.bits_0;
    (destruct (decide (n < 32)) as [Hn'|Hn'];
     [rewrite Z.mul_pow2_bits_low by lia; done|]);
    (rewrite (Z.bits_above_log2 r); [apply andb_false_r|lia|]);
    (destruct (decide (r = 0)) as [->|]; [simpl; lia|]);
    (apply Z.lt_le_trans with 32; [apply Z.log2_lt_pow2; lia|lia]).
Qed.

Lemma unpack_pack l r :
  0 <= l < 2 ^ 32 -> 0 <= r < 2 ^ 32 -> unpack (pack l r) = (l, r).
Proof.
  intros Hl Hr. rewrite pack_eq by done. unfold unpack.
  change 0xffffffff with (Z.ones 32). rewrite Z.land_ones by lia.
  rewrite Z.shiftr_div_pow2 by lia. f_equal.
  - rewrite Z.div_add_l by lia. rewrite Z.div_small by lia. lia.
  - rewrite Z.add_comm, Z.mod_add by lia. by apply Z.mod_small.
Qed.

Lemma pack_bound l r : 0 <= l < 2 ^ 32 -> 0 <= r < 2 ^ 32 -> 0 <= pack l r < 2 ^ 64.
Proof. intros Hl Hr. rewrite pack_eq by done. lia. Qed.

Lemma pack_unpack w :
  0 <= w < 2 ^ 64 ->
  0 <= (unpack w).1 < 2 ^ 32 /\ 0 <= (unpack w).2 < 2 ^ 32
  /\ pack (unpack w).1 (unpack w).2 = w.
Proof.
  intros Hw. unfold unpack. simpl fst. simpl snd.
  change 0xffffffff with (Z.ones 32). rewrite Z.land_ones, Z.shiftr_div_pow2 by lia.
  pose proof (Z.mod_pos_bound w (2 ^ 32) ltac:(lia)).
  assert (0 <= w / 2 ^ 32 < 2 ^ 32).
  { split; [apply Z.div_pos; lia|]. apply Z.div_lt_upper_bound; lia. }
  split_and!; try lia. rewrite pack_eq by lia.
  rewrite (Z.div_mod w (2 ^ 32)) at 3 by lia. lia.
Qed.

Lemma pokes_queue n s :
  (queue s <= bufsize s)%nat ->
  Nat.iter n poke s = Sem (state s) (Nat.min (bufsize s) (queue s + n)) (bufsize s).
Proof.
  intros Hq. induction n as [|n IH]; simpl.
  - destruct s; simpl in *. f_equal; lia.
  - rewrite IH. unfold poke. simpl. case_bool_decide; f_equal; lia.
Qed.

Lemma newSemaphore_spec maxCapacity initialCapacity :
  0 <= maxCapacity -> 0 <= initialCapacity < 2 ^ 32 ->
  newSemaphore maxCapacity initialCapacity
  = Some (Sem (pack initialCapacity 0)
              (Z.to_nat (Z.min maxCapacity initialCapacity)) (Z.to_nat maxCapacity)).
Proof.
  intros Hm Hi. unfold newSemaphore.
  destruct (Z.ltb_spec maxCapacity 0); [lia|]. f_equal.
  unfold updateCapacity. unfold uint64. rewrite uint_of_id by lia.
  change (unpack (state _)) with (0, 0). cbv beta iota.
  destruct (Z.eqb_spec initialCapacity 0) as [->|Hne].
  { rewrite Z.min_r by lia. reflexivity. }
  destruct (Z.ltb_spec 0 initialCapacity); [|lia].
  rewrite pokes_queue by (simpl; lia). simpl. f_equal. lia.
Qed.

(** ** Properties *)

(** Packing and unpacking are inverse to each other: two 32-bit fields
    survive in one 64-bit word, and every 64-bit word is the packing of its
    fields. *)
Theorem pack_unpack_roundtrip :
  (forall l r, 0 <= l < 2 ^ 32 -> 0 <= r < 2 ^ 32 ->
     unpack (pack l r) = (l, r) /\ 0 <= pack l r < 2 ^ 64)
  /\ (forall w, 0 <= w < 2 ^ 64 -> pack (unpack w).1 (unpack w).2 = w).
Proof.
  split.
  - intros l r Hl Hr. split; [by apply unpack_pack|by apply pack_bound].
  - intros w Hw. by apply pack_unpack.
Qed.
