(* ===== verification/Breaker.v ===== *)
(** * The breaker ([resolver/internal/throttler/breaker.go])

    [Breaker.Maybe] run by any number of goroutines.  Every atomic access to
    shared memory ([Load], [CompareAndSwap], a channel operation) is one step;
    the steps of different goroutines interleave freely.  A goroutine is its
    program counter, with the values it has loaded. *)

From S2P Require Import Prelude Semaphore.
Local Open Scope Z_scope.

(** ** Data *)

Record BreakerParams := {
  QueueDepth : Z;
  MaxConcurrency : Z;
  InitialCapacity : Z
}.

Record Breaker := mkBreaker {
  inFlight : Z;
  totalSlots : Z;
  maxConcurrency : Z;
  sem : semaphore
}.

Definition NewBreaker (params : BreakerParams) : option Breaker :=
  s ← newSemaphore (MaxConcurrency params) (InitialCapacity params);
  Some (mkBreaker 0 (int64 (QueueDepth params + MaxConcurrency params))
          (uint16 (MaxConcurrency params)) s).

Definition ErrRequestQueueFull : error :=
  ErrText (lit "request queue is full! This request is dropped").

Definition set_inFlight (n : Z) (b : Breaker) : Breaker :=
  mkBreaker n (totalSlots b) (maxConcurrency b) (sem b).
Definition set_sem (s : semaphore) (b : Breaker) : Breaker :=
  mkBreaker (inFlight b) (totalSlots b) (maxConcurrency b) s.
Definition set_state (w : Z) (b : Breaker) : Breaker :=
  set_sem (Sem w (queue (sem b)) (bufsize (sem b))) b.

(** ** Program counters *)

Inductive pc : Type :=
| TryLoad                            (* tryAcquireInFlightSlot, at the Load *)
| TryCas (cur : Z)                   (* ... at the CompareAndSwap *)
| AcqLoad                            (* sem.acquire, at the Load *)
| AcqWait                            (* ... in the select *)
| AcqCas (old : Z)                   (* ... at the CompareAndSwap *)
| Thunk                              (* running the thunk *)
| RelLoad                            (* sem.release, at the Load *)
| RelCas (old : Z)                   (* ... at the CompareAndSwap *)
| RelPoke                            (* ... sending the wake-up *)
| OutLoad (r : option error)         (* releaseInFlightSlot, at the Load *)
| OutCas (cur : Z) (r : option error)(* ... at the CompareAndSwap *)
| Finished (r : option error)        (* Maybe has returned r *)
| Crashed.                           (* panic("release and acquire are not paired") *)

(** What the environment decides in a step: in the select of [acquire],
    whether the context is done or a wake-up is received. *)
Inductive choice : Type :=
| Run
| CtxDone (e : error).

(** ** The code of one goroutine *)

Definition tryAcquireInFlightSlot_load (b : Breaker) : pc :=
  if totalSlots b <=? inFlight b then Finished (Some ErrRequestQueueFull)
  else TryCas (inFlight b).

Definition tryAcquireInFlightSlot_cas (cur : Z) (b : Breaker) : Breaker * pc :=
  if inFlight b =? cur then (set_inFlight (int64 (cur + 1)) b, AcqLoad)
  else (b, TryLoad).

Definition acquire_load (b : Breaker) : pc :=
  let old := state (sem b) in
  let '(capacity, inn) := unpack old in
  if capacity <=? inn then AcqWait else AcqCas old.

Definition acquire_wait (ch : choice) (b : Breaker) : option (Breaker * pc) :=
  match ch with
  | CtxDone e => Some (b, OutLoad (Some (ErrWrap (lit "acquire: ") e)))
  | Run => match queue (sem b) with
           | O => None
           | S q => Some (set_sem (Sem (state (sem b)) q (bufsize (sem b))) b, AcqLoad)
           end
  end.

Definition acquire_cas (old : Z) (b : Breaker) : Breaker * pc :=
  let '(capacity, inn) := unpack old in
  if state (sem b) =? old then (set_state (pack capacity (uint64 (inn + 1))) b, Thunk)
  else (b, AcqLoad).

Definition release_load (b : Breaker) : pc :=
  let old := state (sem b) in
  let '(capacity, inn) := unpack old in
  if inn =? 0 then Crashed else RelCas old.

Definition release_cas (old : Z) (b : Breaker) : Breaker * pc :=
  let '(capacity, inn) := unpack old in
  if state (sem b) =? old
  then (set_state (pack capacity (inn - 1)) b,
        if inn - 1 <? capacity then RelPoke else OutLoad None)
  else (b, RelLoad).

(** The [for] of [releaseInFlightSlot] returns after one [CompareAndSwap],
    whether it succeeds or not. *)
Definition releaseInFlightSlot_cas (cur : Z) (r : option error) (b : Breaker) : Breaker * pc :=
  if inFlight b =? cur then (set_inFlight (int64 (cur - 1)) b, Finished r)
  else (b, Finished r).

(** One step of [Maybe]: [tryAcquireInFlightSlot], [sem.acquire], the thunk,
    then the deferred [sem.release] and [releaseInFlightSlot]. *)
Definition Maybe_step (ch : choice) (b : Breaker) (p : pc) : option (Breaker * pc) :=
  match p with
  | TryLoad => Some (b, tryAcquireInFlightSlot_load b)
  | TryCas cur => Some (tryAcquireInFlightSlot_cas cur b)
  | AcqLoad => Some (b, acquire_load b)
  | AcqWait => acquire_wait ch b
  | AcqCas old => Some (acquire_cas old b)
  | Thunk => Some (b, RelLoad)
  | RelLoad => Some (b, release_load b)
  | RelCas old => Some (release_cas old b)
  | RelPoke => Some (set_sem (poke (sem b)) b, OutLoad None)
  | OutLoad r => Some (b, OutCas (inFlight b) r)
  | OutCas cur r => Some (releaseInFlightSlot_cas cur r b)
  | Finished _ | Crashed => None
  end.

(** ** The system of goroutines *)

Record system := Sys { breaker : Breaker; threads : gmap nat pc }.

Inductive step : system -> system -> Prop :=
| step_call t b ths :
    ths !! t = None -> step (Sys b ths) (Sys b (<[t:=TryLoad]> ths))
| step_thread t ch p b ths b' p' :
    ths !! t = Some p -> Maybe_step ch b p = Some (b', p') ->
    step (Sys b ths) (Sys b' (<[t:=p']> ths)).

(** ** Classes of program counters *)

(** The goroutine holds a unit of the semaphore. *)
Definition holding (p : pc) : bool :=
  match p with Thunk | RelLoad | RelCas _ => true | _ => false end.
(** The goroutine has been admitted and has not left. *)
Definition admitted (p : pc) : bool :=
  match p with
  | AcqLoad | AcqWait | AcqCas _ | Thunk | RelLoad | RelCas _ | RelPoke
  | OutLoad _ | OutCas _ _ => true
  | _ => false
  end.
Definition waiting (p : pc) : bool := match p with AcqWait => true | _ => false end.
(** The goroutine will take the semaphore, or poke when it is done with it. *)
Definition active (p : pc) : bool :=
  match p with AcqLoad | AcqCas _ | Thunk | RelLoad | RelCas _ | RelPoke => true | _ => false end.
Definition crashed (p : pc) : bool := match p with Crashed => true | _ => false end.

(** The semaphore word says there is a unit left. *)
Definition has_room (w : Z) : Prop := (unpack w).2 < (unpack w).1.

(** What a loaded value still says about the state. *)
Definition pc_ok (slots : Z) (p : pc) : Prop :=
  match p with
  | TryCas cur => cur < slots
  | AcqCas old => has_room old
  | _ => True
  end.

(** ** The invariant *)

Section breaker.
(** The semaphore has [cap] units, the channel at least one place. *)
Context (cap : Z) (slots : Z) (buf : nat).
Context (Hcap : 0 < cap < 2 ^ 32) (Hslots : 0 <= slots < 2 ^ 63) (Hbuf : (0 < buf)%nat).

Definition inv (s : system) : Prop :=
  let b := breaker s in let ths := threads s in
  totalSlots b = slots /\ bufsize (sem b) = buf
  /\ state (sem b) = pack cap (Z.of_nat (cnt holding ths))
  /\ Z.of_nat (cnt holding ths) <= cap
  /\ Z.of_nat (cnt admitted ths) <= inFlight b <= slots
  /\ cnt crashed ths = 0%nat
  /\ map_Forall (fun _ p => pc_ok slots p) ths
  /\ ((0 < cnt waiting ths)%nat -> (0 < queue (sem b))%nat \/ (0 < cnt active ths)%nat).

Definition initial (b : Breaker) : Prop :=
  inFlight b = 0 /\ totalSlots b = slots /\ bufsize (sem b) = buf
  /\ state (sem b) = pack cap 0.

Definition reachable (s : system) : Prop :=
  exists b, initial b /\ rtc step (Sys b ∅) s.

Lemma inv_initial b : initial b -> inv (Sys b ∅).
Proof.
  intros (Hf & Ht & Hb & Hs). unfold inv. simpl. rewrite !cnt_empty. simpl.
  split_and!; try done; try lia; apply map_Forall_empty.
Qed.

(** The effect of moving one goroutine from [p] to [p'] on the counters. *)
Lemma moves (ths : gmap nat pc) t p p' :
  ths !! t = Some p ->
  (cnt holding (<[t:=p']> ths) + Nat.b2n (holding p) = cnt holding ths + Nat.b2n (holding p'))%nat
  /\ (cnt admitted (<[t:=p']> ths) + Nat.b2n (admitted p) = cnt admitted ths + Nat.b2n (admitted p'))%nat
  /\ (cnt waiting (<[t:=p']> ths) + Nat.b2n (waiting p) = cnt waiting ths + Nat.b2n (waiting p'))%nat
  /\ (cnt active (<[t:=p']> ths) + Nat.b2n (active p) = cnt active ths + Nat.b2n (active p'))%nat
  /\ (cnt crashed (<[t:=p']> ths) + Nat.b2n (crashed p) = cnt crashed ths + Nat.b2n (crashed p'))%nat.
Proof. intros Ht. split_and!; by apply cnt_insert. Qed.

Lemma inv_call t b ths : ths !! t = None -> inv (Sys b ths) -> inv (Sys b (<[t:=TryLoad]> ths)).
Proof.
  intros Ht. unfold inv. simpl. rewrite !cnt_insert_new by done. simpl.
  intros (? & ? & ? & ? & ? & ? & Hok & ?).
  split_and!; try done; try lia; by apply map_Forall_insert_2.
Qed.

(** What a step of goroutine [t] starts from, and a way to close its cases:
    the counters by [lia], the loaded values by [auto]. *)
Ltac close_inv :=
  unfold inv; simpl; split_and!; try done; try lia;
  try match goal with
  | H : state _ = pack _ _ |- state _ = pack _ _ => etransitivity; [exact H|f_equal; lia]
  | |- pack _ _ = pack _ _ => f_equal; lia
  | H : _ -> map_Forall _ _ |- map_Forall _ _ => apply H; simpl; (done || lia)
  end.

Lemma inv_thread t ch p b ths b' p' :
  ths !! t = Some p -> Maybe_step ch b p = Some (b', p') ->
  inv (Sys b ths) -> inv (Sys b' (<[t:=p']> ths)).
Proof.
  intros Ht Hstep (Hslots' & Hb & Hst & Hle & Had & Hcr & Hok & Hwake). simpl in *.
  pose proof (moves ths t p p' Ht) as (Mh & Ma & Mw & Mc & Mcr).
  pose proof (Hok _ _ Ht) as Hp. simpl in Hp.
  assert (unpack (state (sem b)) = (cap, Z.of_nat (cnt holding ths))) as Hun.
  { rewrite Hst. apply unpack_pack; lia. }
  assert (holding p = true -> 0 < cnt holding ths)%nat as Hhold by by apply cnt_pos with t.
  assert (admitted p = true -> 0 < cnt admitted ths)%nat as Hadm by by apply cnt_pos with t.
  assert (cnt holding (<[t:=p']> ths) <= cnt active (<[t:=p']> ths))%nat as Hact
    by (apply cnt_le; by intros []).
  assert (pc_ok slots p' -> map_Forall (fun _ p => pc_ok slots p) (<[t:=p']> ths)) as Hok'
    by (intros; by apply map_Forall_insert_2).
  assert (forall z, - 1 <= z <= slots -> int64 z = z) as Hint by (intros z Hz; apply int_of_id; lia).
  clear Hok Ht.
  destruct p; simpl in Hstep, Hhold, Hadm, Hp;
    unfold tryAcquireInFlightSlot_load, tryAcquireInFlightSlot_cas, acquire_load, acquire_wait,
      acquire_cas, release_load, release_cas, releaseInFlightSlot_cas in Hstep;
    try rewrite Hun in Hstep.
  - destruct (Z.leb_spec (totalSlots b) (inFlight b)); simplify_eq/=; close_inv.
  - destruct (Z.eqb_spec (inFlight b) cur); simplify_eq/=; try rewrite Hint by lia; close_inv.
  - destruct (Z.leb_spec cap (Z.of_nat (cnt holding ths))); simplify_eq/=; close_inv.
    apply Hok'. unfold has_room. rewrite Hun. simpl. lia.
  - destruct ch; [destruct (queue (sem b)) eqn:Hq|]; simplify_eq/=; close_inv.
  - unfold has_room in Hp. destruct (unpack old) as [c i] eqn:Ho. simpl in Hp.
    destruct (Z.eqb_spec (state (sem b)) old); simplify_eq/=; [|close_inv].
    rewrite Ho in Hun. simplify_eq/=. unfold uint64. rewrite uint_of_id by lia. close_inv.
  - simplify_eq/=; close_inv.
  - destruct (Z.eqb_spec (Z.of_nat (cnt holding ths)) 0); simplify_eq/=; [lia|close_inv].
  - destruct (unpack old) as [c i] eqn:Ho.
    destruct (Z.eqb_spec (state (sem b)) old); simplify_eq/=; [|close_inv].
    rewrite Ho in Hun. simplify_eq/=. destruct (Z.ltb_spec (Z.of_nat (cnt holding ths) - 1) cap); simplify_eq/=; [|lia].
    close_inv.
  - simplify_eq/=. close_inv. intros _. left. case_bool_decide; lia.
  - simplify_eq/=; close_inv.
  - destruct (Z.eqb_spec (inFlight b) cur); simplify_eq/=; try rewrite Hint by lia; close_inv.
  - done.
  - done.
Qed.

Lemma inv_reachable s : reachable s -> inv s.
Proof.
  intros (b & Hb & Hr). revert Hr. apply (rtc_ind_r inv); [by apply inv_initial|].
  intros x y _ Hxy Hx. destruct Hxy; [by apply inv_call|by eapply inv_thread].
Qed.

(** *** Runs of a single goroutine *)

Lemma int64_slots z : - 1 <= z <= slots -> int64 z = z.
Proof. intros Hz. apply int_of_id; lia. Qed.

Lemma try_load_room b :
  inFlight b < totalSlots b -> tryAcquireInFlightSlot_load b = TryCas (inFlight b).
Proof.
  intros H. unfold tryAcquireInFlightSlot_load.
  destruct (Z.leb_spec (totalSlots b) (inFlight b)); [lia|reflexivity].
Qed.

Lemma try_cas_same b :
  0 <= inFlight b < slots ->
  tryAcquireInFlightSlot_cas (inFlight b) b = (set_inFlight (inFlight b + 1) b, AcqLoad).
Proof.
  intros H. unfold tryAcquireInFlightSlot_cas. rewrite Z.eqb_refl.
  rewrite int64_slots by lia. reflexivity.
Qed.

Lemma unpack_state b h :
  state (sem b) = pack cap h -> 0 <= h <= cap -> unpack (state (sem b)) = (cap, h).
Proof. intros Hst Hh. rewrite Hst. apply unpack_pack; lia. Qed.

Lemma acquire_load_room b h :
  state (sem b) = pack cap h -> 0 <= h < cap -> acquire_load b = AcqCas (state (sem b)).
Proof.
  intros Hst Hh. unfold acquire_load. rewrite (unpack_state b h) by (done || lia).
  destruct (Z.leb_spec cap h); [lia|reflexivity].
Qed.

Lemma acquire_cas_same b h :
  state (sem b) = pack cap h -> 0 <= h < cap ->
  acquire_cas (state (sem b)) b = (set_state (pack cap (h + 1)) b, Thunk).
Proof.
  intros Hst Hh. unfold acquire_cas. rewrite (unpack_state b h) by (done || lia).
  rewrite Z.eqb_refl. unfold uint64. rewrite uint_of_id by lia. reflexivity.
Qed.

Lemma release_load_held b h :
  state (sem b) = pack cap h -> 0 < h <= cap -> release_load b = RelCas (state (sem b)).
Proof.
  intros Hst Hh. unfold release_load. rewrite (unpack_state b h) by (done || lia).
  destruct (Z.eqb_spec h 0); [lia|reflexivity].
Qed.

Lemma release_cas_same b h :
  state (sem b) = pack cap h -> 0 < h <= cap ->
  release_cas (state (sem b)) b = (set_state (pack cap (h - 1)) b, RelPoke).
Proof.
  intros Hst Hh. unfold release_cas. rewrite (unpack_state b h) by (done || lia).
  rewrite Z.eqb_refl. destruct (Z.ltb_spec (h - 1) cap); [reflexivity|lia].
Qed.

Lemma out_cas_same b r :
  0 <= inFlight b <= slots ->
  releaseInFlightSlot_cas (inFlight b) r b = (set_inFlight (inFlight b - 1) b, Finished r).
Proof.
  intros H. unfold releaseInFlightSlot_cas. rewrite Z.eqb_refl.
  rewrite int64_slots by lia. reflexivity.
Qed.

Lemma out_cas_other b cur r :
  inFlight b <> cur -> releaseInFlightSlot_cas cur r b = (b, Finished r).
Proof.
  intros H. unfold releaseInFlightSlot_cas. destruct (Z.eqb_spec (inFlight b) cur); done.
Qed.

Lemma step_at ch b ths t p b' p' :
  Maybe_step ch b p = Some (b', p') ->
  step (Sys b (<[t:=p]> ths)) (Sys b' (<[t:=p']> ths)).
Proof.
  intros H. rewrite <- (insert_insert_eq ths t p' p).
  eapply step_thread; [apply lookup_insert_eq|exact H].
Qed.

(** A new goroutine that is not disturbed enters, when there is room. *)
Lemma solo_enter b ths t h :
  ths !! t = None -> totalSlots b = slots -> 0 <= inFlight b < slots ->
  state (sem b) = pack cap h -> 0 <= h < cap ->
  rtc step (Sys b ths)
    (Sys (set_state (pack cap (h + 1)) (set_inFlight (inFlight b + 1) b)) (<[t:=Thunk]> ths)).
Proof.
  intros Ht Hs Hf Hst Hh. set (b1 := set_inFlight (inFlight b + 1) b).
  assert (state (sem b1) = pack cap h) as Hst1 by exact Hst.
  eapply rtc_l; [by apply (step_call t)|].
  eapply rtc_l; [apply (step_at Run _ _ _ _ b (TryCas (inFlight b))); cbn [Maybe_step];
    rewrite try_load_room by lia; reflexivity|].
  eapply rtc_l; [apply (step_at Run); cbn [Maybe_step]; f_equal; by apply try_cas_same|].
  fold b1.
  eapply rtc_l; [apply (step_at Run _ _ _ _ b1 (AcqCas (state (sem b1)))); cbn [Maybe_step];
    rewrite (acquire_load_room b1 h) by done; reflexivity|].
  apply rtc_once, (step_at Run). cbn [Maybe_step]. f_equal. by apply acquire_cas_same.
Qed.

(** The goroutine that runs the thunk, not disturbed, gives its unit back. *)
Lemma solo_leave b ths t h :
  state (sem b) = pack cap h -> 0 < h <= cap ->
  rtc step (Sys b (<[t:=Thunk]> ths))
    (Sys (set_sem (poke (Sem (pack cap (h - 1)) (queue (sem b)) (bufsize (sem b)))) b)
       (<[t:=OutLoad None]> ths)).
Proof.
  intros Hst Hh.
  eapply rtc_l; [by apply (step_at Run _ _ _ _ b RelLoad)|].
  eapply rtc_l; [apply (step_at Run _ _ _ _ b (RelCas (state (sem b)))); cbn [Maybe_step];
    rewrite (release_load_held b h) by done; reflexivity|].
  eapply rtc_l; [apply (step_at Run); cbn [Maybe_step]; f_equal; by apply release_cas_same|].
  apply rtc_once. by apply (step_at Run).
Qed.

(** A goroutine enters the breaker, runs the thunk and is about to give its
    slot back. *)
Lemma solo_to_out b ths t :
  ths !! t = None -> totalSlots b = slots -> 0 <= inFlight b < slots ->
  state (sem b) = pack cap 0 ->
  exists b', rtc step (Sys b ths) (Sys b' (<[t:=OutLoad None]> ths))
    /\ totalSlots b' = slots /\ inFlight b' = inFlight b + 1 /\ state (sem b') = pack cap 0.
Proof.
  intros Ht Hs Hf Hst. eexists. split.
  - etransitivity; [apply (solo_enter b ths t 0); (done || lia)|].
    apply (solo_leave _ ths t 1); [reflexivity|lia].
  - split_and!; [exact Hs|reflexivity..].
Qed.

(** *** A slot is lost when two goroutines leave together *)

Definition finished (p : pc) : Prop := match p with Finished _ => True | _ => False end.

Lemma leak_round b ths :
  totalSlots b = slots -> 0 <= inFlight b -> inFlight b + 2 <= slots ->
  state (sem b) = pack cap 0 -> map_Forall (fun _ p => finished p) ths ->
  exists b' ths', rtc step (Sys b ths) (Sys b' ths')
    /\ totalSlots b' = slots /\ inFlight b' = inFlight b + 1 /\ state (sem b') = pack cap 0
    /\ map_Forall (fun _ p => finished p) ths'.
Proof.
  intros Hs H0 H2 Hst Hfin.
  set (t1 := fresh (dom ths)). assert (ths !! t1 = None) as Ht1 by apply not_elem_of_dom, is_fresh.
  destruct (solo_to_out b ths t1) as (b1 & R1 & Hs1 & Hf1 & Hst1); [done..|lia|done|].
  set (ths1 := <[t1:=OutLoad None]> ths) in *.
  set (t2 := fresh (dom ths1)). assert (ths1 !! t2 = None) as Ht2 by apply not_elem_of_dom, is_fresh.
  destruct (solo_to_out b1 ths1 t2) as (b2 & R2 & Hs2 & Hf2 & Hst2); [done..|lia|done|].
  assert (t2 <> t1) as Hne by (intros E; unfold ths1 in Ht2; rewrite E, lookup_insert_eq in Ht2; done).
  set (f := inFlight b2) in *.
  exists (set_inFlight (f - 1) b2), (<[t1:=Finished None]> (<[t2:=Finished None]> ths)).
  split_and!; simpl; try done; try lia.
  - etransitivity; [exact R1|]. etransitivity; [exact R2|]. unfold ths1.
    (* both load, then both swap: the second swap fails *)
    eapply rtc_l; [apply (step_at Run _ _ _ _ b2 (OutCas f None)); reflexivity|].
    rewrite insert_insert_ne by done.
    eapply rtc_l; [apply (step_at Run _ _ _ _ b2 (OutCas f None)); reflexivity|].
    eapply rtc_l; [apply (step_at Run); cbn [Maybe_step]; f_equal; apply out_cas_same; lia|].
    rewrite insert_insert_ne by done.
    eapply rtc_l; [apply (step_at Run); cbn [Maybe_step]; f_equal; apply out_cas_other; simpl; lia|].
    rewrite insert_insert_ne by done. apply rtc_refl.
  - apply map_Forall_insert_2; [done|]. by apply map_Forall_insert_2.
Qed.

Lemma leak_many b (k : nat) :
  initial b -> Z.of_nat k < slots ->
  exists b' ths', rtc step (Sys b ∅) (Sys b' ths')
    /\ totalSlots b' = slots /\ inFlight b' = Z.of_nat k /\ state (sem b') = pack cap 0
    /\ map_Forall (fun _ p => finished p) ths'.
Proof.
  intros (Hf & Hs & Hb & Hst). induction k as [|k IH]; intros Hk.
  - exists b, ∅. split_and!; try done; apply map_Forall_empty.
  - destruct IH as (b1 & ths1 & R1 & Hs1 & Hf1 & Hst1 & Hfin1); [lia|].
    destruct (leak_round b1 ths1) as (b2 & ths2 & R2 & Hs2 & Hf2 & Hst2 & Hfin2); [done|lia..|done|done|].
    exists b2, ths2. split_and!; try done; try lia; by etransitivity.
Qed.

(** *** As many goroutines run the thunk as the semaphore has units *)

Lemma fill b (k : nat) :
  initial b -> Z.of_nat k <= cap -> Z.of_nat k <= slots ->
  exists b' ths', rtc step (Sys b ∅) (Sys b' ths')
    /\ totalSlots b' = slots /\ inFlight b' = Z.of_nat k /\ state (sem b') = pack cap (Z.of_nat k)
    /\ cnt (fun p => match p with Thunk => true | _ => false end) ths' = k.
Proof.
  intros (Hf & Hs & Hb & Hst). induction k as [|k IH]; intros Hk Hk'.
  - exists b, ∅. by split_and!.
  - destruct IH as (b1 & ths1 & R1 & Hs1 & Hf1 & Hst1 & Hc); [lia..|].
    set (t := fresh (dom ths1)). assert (ths1 !! t = None) as Ht by apply not_elem_of_dom, is_fresh.
    pose proof (solo_enter b1 ths1 t (Z.of_nat k) Ht Hs1 ltac:(lia) Hst1 ltac:(lia)) as R.
    eexists _, _. split; [etransitivity; [exact R1|exact R]|].
    split_and!; simpl; try done; [lia|f_equal; lia|].
    rewrite cnt_insert_new by done. simpl. lia.
Qed.

End breaker.

(** ** The abstract semaphore *)

(** What the semaphore promises: a set of holders that never outgrows the
    capacity, which one goroutine at a time joins or leaves. *)
Inductive abs_step (cap : Z) : gset nat -> gset nat -> Prop :=
| abs_acquire t H : t ∉ H -> Z.of_nat (size H) < cap -> abs_step cap H ({[t]} ∪ H)
| abs_release t H : t ∈ H -> abs_step cap H (H ∖ {[t]}).

Definition holders (ths : gmap nat pc) : gset nat :=
  dom (filter (fun kv => holding kv.2 = true) ths).

Lemma holders_size ths : size (holders ths) = cnt holding ths.
Proof. apply size_dom. Qed.

Lemma elem_of_holders ths t :
  t ∈ holders ths <-> exists p, ths !! t = Some p /\ holding p = true.
Proof.
  unfold holders. rewrite elem_of_dom. unfold is_Some.
  by setoid_rewrite map_lookup_filter_Some.
Qed.

Lemma holders_insert ths t p :
  holders (<[t:=p]> ths)
  = if holding p then {[t]} ∪ holders ths else holders ths ∖ {[t]}.
Proof.
  apply set_eq. intros x. rewrite elem_of_holders.
  pose proof (elem_of_holders ths x) as Hx.
  destruct (decide (t = x)) as [->|];
    [rewrite lookup_insert_eq|rewrite lookup_insert_ne by done];
    destruct (holding p) eqn:Hp;
    rewrite ?elem_of_union, ?elem_of_difference, ?elem_of_singleton; naive_solver congruence.
Qed.

(** ** Breakers the resolver builds *)

(** Parameters for which [NewBreaker] neither panics nor overflows. *)
Definition valid_params (params : BreakerParams) : Prop :=
  0 < InitialCapacity params < 2 ^ 32 /\ 0 < MaxConcurrency params
  /\ 0 <= QueueDepth params /\ QueueDepth params + MaxConcurrency params < 2 ^ 63.

(** A state that goroutines calling [Maybe] on a new breaker can lead to. *)
Definition runs (params : BreakerParams) (s : system) : Prop :=
  exists b, NewBreaker params = Some b /\ rtc step (Sys b ∅) s.

Lemma NewBreaker_initial params :
  valid_params params -> exists b, NewBreaker params = Some b
    /\ initial (InitialCapacity params) (QueueDepth params + MaxConcurrency params)
         (Z.to_nat (MaxConcurrency params)) b.
Proof.
  intros (Hc & Hm & Hq & Hs). unfold NewBreaker.
  rewrite newSemaphore_spec by lia. eexists. split; [reflexivity|].
  unfold initial. simpl. split_and!; try done. apply int_of_id; lia.
Qed.

Lemma runs_inv params s :
  valid_params params -> runs params s ->
  inv (InitialCapacity params) (QueueDepth params + MaxConcurrency params)
    (Z.to_nat (MaxConcurrency params)) s.
Proof.
  intros Hv (b & Hb & Hr). destruct (NewBreaker_initial params Hv) as (b' & Hb' & Hi).
  destruct Hv as (Hc & Hm & Hq & Hs). apply inv_reachable; [lia..|].
  exists b. split; [congruence|done].
Qed.

(** ** Schedules *)

(** Run one goroutine for one step; a goroutine that does not exist is
    started, one that cannot move stays. *)
Definition exec1 (t : nat) (s : system) : system :=
  match threads s !! t with
  | None => Sys (breaker s) (<[t:=TryLoad]> (threads s))
  | Some p => match Maybe_step Run (breaker s) p with
              | Some (b', p') => Sys b' (<[t:=p']> (threads s))
              | None => s
              end
  end.
Definition exec (l : list nat) (s : system) : system := foldl (flip exec1) s l.

Lemma exec_rtc l s : rtc step s (exec l s).
Proof.
  revert s. induction l as [|t l IH]; intros s; [apply rtc_refl|].
  etransitivity; [|apply IH]. destruct s as [b ths]. unfold flip, exec1. simpl.
  destruct (ths !! t) as [p|] eqn:Ht; [|by apply rtc_once, step_call].
  destruct (Maybe_step Run b p) as [[b' p']|] eqn:Hm; [|apply rtc_refl].
  apply rtc_once. by eapply step_thread.
Qed.

(** ** What [Maybe] returns *)

(** The errors with which [Maybe] refuses a request. *)
Definition maybe_error (e : error) : Prop :=
  e = ErrRequestQueueFull \/ exists c, e = ErrWrap (lit "acquire: ") c.

Definition result_ok (p : pc) : Prop :=
  match p with
  | OutLoad (Some e) | OutCas _ (Some e) | Finished (Some e) => maybe_error e
  | _ => True
  end.

Lemma result_ok_step ch b p b' p' :
  Maybe_step ch b p = Some (b', p') -> result_ok p -> result_ok p'.
Proof.
  destruct p; simpl; unfold tryAcquireInFlightSlot_load, tryAcquireInFlightSlot_cas, acquire_load,
    acquire_wait, acquire_cas, release_load, release_cas, releaseInFlightSlot_cas; intros H Hp;
    repeat case_match; simplify_eq/=; try done; unfold maybe_error; eauto.
Qed.

Lemma results_ok b s : rtc step (Sys b ∅) s -> map_Forall (fun _ p => result_ok p) (threads s).
Proof.
  revert s. apply (rtc_ind_r (fun s => map_Forall (fun _ p => result_ok p) (threads s)));
    [apply map_Forall_empty|]. intros s s' _ Hs IH.
  destruct Hs as [t b' ths Ht|t ch p b' ths b'' p' Ht Hm]; simpl in *;
    apply map_Forall_insert_2; try done.
  eapply result_ok_step; [done|]. by eapply IH.
Qed.

(** ** Refinement lemmas *)

Lemma not_holder ths t :
  match ths !! t with Some p => holding p = false | None => True end ->
  holders ths ∖ {[t]} = holders ths.
Proof.
  intros H. apply set_eq. intros x. rewrite elem_of_difference, elem_of_singleton.
  split; [by intros []|]. intros Hx. split; [done|]. intros ->.
  apply elem_of_holders in Hx as (p & Hp & Hh). rewrite Hp in H. congruence.
Qed.

Lemma move_refines cap ths t p p' :
  ths !! t = Some p -> Z.of_nat (cnt holding (<[t:=p']> ths)) <= cap ->
  holders (<[t:=p']> ths) = holders ths \/ abs_step cap (holders ths) (holders (<[t:=p']> ths)).
Proof.
  intros Ht. rewrite <- holders_size, holders_insert.
  destruct (holding p) eqn:Hp, (holding p') eqn:Hp'; intros Hle.
  - left. apply subseteq_union_1_L, singleton_subseteq_l, elem_of_holders. eauto.
  - right. apply abs_release, elem_of_holders. eauto.
  - right. assert (t ∉ holders ths) as Hn.
    { rewrite elem_of_holders. intros (q & Hq & Hh). congruence. }
    apply abs_acquire; [done|]. rewrite size_union, size_singleton in Hle; [lia|].
    by apply disjoint_singleton_l.
  - left. apply not_holder. by rewrite Ht.
Qed.

(** ** Properties *)

(** C5: at every point of every interleaving, no more goroutines run their
    thunk than the semaphore has units, no more requests are admitted than the
    breaker counts in flight, the count never exceeds the total number of
    slots, and the panic of [release] is never reached. *)
Theorem breaker_bounds params s (Hv : valid_params params) (Hr : runs params s) :
  Z.of_nat (cnt holding (threads s)) <= InitialCapacity params
  /\ Z.of_nat (cnt admitted (threads s)) <= inFlight (breaker s)
  /\ inFlight (breaker s) <= QueueDepth params + MaxConcurrency params
  /\ forall t, threads s !! t <> Some Crashed.
Proof.
  destruct (runs_inv params s Hv Hr) as (_ & _ & _ & Hh & Ha & Hc & _ & _).
  split_and!; try lia. intros t Ht.
  pose proof (cnt_pos crashed _ _ _ Ht eq_refl). lia.
Qed.

Definition example_params : BreakerParams :=
  {| QueueDepth := 100; MaxConcurrency := 10; InitialCapacity := 100 |}.

Lemma example_valid : valid_params example_params.
Proof. unfold valid_params. simpl. lia. Qed.

Definition example_breaker : Breaker :=
  Eval vm_compute in
    match NewBreaker example_params with Some b => b | None => mkBreaker 0 0 0 (Sem 0 0 0) end.

Lemma breaker_bounds_witness :
  let s := Sys example_breaker ∅ in
  Z.of_nat (cnt holding (threads s)) <= InitialCapacity example_params
  /\ Z.of_nat (cnt admitted (threads s)) <= inFlight (breaker s)
  /\ inFlight (breaker s) <= QueueDepth example_params + MaxConcurrency example_params
  /\ forall t, threads s !! t <> Some Crashed.
Proof.
  apply breaker_bounds; [unfold valid_params; simpl; lia|].
  exists example_breaker. split; [vm_compute; reflexivity|apply rtc_refl].
Defined.

(** C19: no wake-up is lost: whenever a goroutine waits in [acquire], some
    goroutine can move without any context being cancelled, namely a waiter
    that finds a buffered poke, or one that is taking or holding the semaphore
    and will poke when it releases. *)
Theorem no_lost_wakeup params s (Hv : valid_params params) (Hr : runs params s) t
    (Hw : threads s !! t = Some AcqWait) :
  exists t' p b' p', threads s !! t' = Some p /\ waiting p || active p = true
    /\ Maybe_step Run (breaker s) p = Some (b', p').
Proof.
  destruct (runs_inv params s Hv Hr) as (_ & _ & _ & _ & _ & _ & _ & Hwake).
  destruct Hwake as [Hq|Ha].
  - by eapply cnt_pos.
  - destruct (queue (sem (breaker s))) as [|q] eqn:Hqe; [lia|].
    eexists t, AcqWait, _, _. split_and!; [done|done|]. simpl. by rewrite Hqe.
  - apply cnt_pos_inv in Ha as (t' & p & Ht' & Hp).
    destruct p; try done; simpl;
      match goal with H : threads s !! t' = Some ?p |- _ =>
        destruct (Maybe_step Run (breaker s) p) as [[b' p']|] eqn:E; [|done];
        exists t', p, b', p'; done
      end.
Qed.

(** A state in which one goroutine holds the only unit and another waits. *)
Definition one_params : BreakerParams :=
  {| QueueDepth := 1; MaxConcurrency := 1; InitialCapacity := 1 |}.
Definition one_breaker : Breaker := mkBreaker 0 2 1 (Sem (2 ^ 32) 1 1).
Definition one_waits : system :=
  exec (replicate 5 0 ++ replicate 6 1)%nat (Sys one_breaker ∅).

Lemma no_lost_wakeup_witness :
  exists t' p b' p', threads one_waits !! t' = Some p /\ waiting p || active p = true
    /\ Maybe_step Run (breaker one_waits) p = Some (b', p').
Proof.
  apply (no_lost_wakeup one_params one_waits) with (t := 1%nat).
  - unfold valid_params. simpl. lia.
  - exists one_breaker. split; [vm_compute; reflexivity|apply exec_rtc].
  - vm_compute. reflexivity.
Defined.



(** [releaseInFlightSlot] does not retry its compare-and-swap, so slots
    are lost for good: from a new breaker every count below the total number
    of slots can be left in flight although every goroutine has returned. *)
Theorem in_flight_slots_leak params (k : nat) (Hv : valid_params params)
    (Hk : Z.of_nat k < QueueDepth params + MaxConcurrency params) :
  exists s, runs params s /\ inFlight (breaker s) = Z.of_nat k
    /\ map_Forall (fun _ p => finished p) (threads s).
Proof.
  destruct (NewBreaker_initial params Hv) as (b & Hb & Hi). destruct Hv as (Hc & Hm & Hq & Hs).
  destruct (leak_many (InitialCapacity params) (QueueDepth params + MaxConcurrency params)
    (Z.to_nat (MaxConcurrency params)) ltac:(lia) ltac:(lia) ltac:(lia) b k Hi Hk) as (b' & ths & R & _ & Hf & _ & Hfin).
  exists (Sys b' ths). split_and!; [by exists b|done|done].
Qed.

Lemma in_flight_slots_leak_witness :
  exists s, runs example_params s /\ inFlight (breaker s) = 109
    /\ map_Forall (fun _ p => finished p) (threads s).
Proof. apply (in_flight_slots_leak example_params 109); [unfold valid_params; simpl; lia|simpl; lia]. Defined.

(** The number of requests that run at once is bounded by
    [InitialCapacity] only: that many thunks can run together, however small
    [MaxConcurrency] is, as long as there are slots. *)
Theorem concurrency_is_initial_capacity params (Hv : valid_params params)
    (Hs : InitialCapacity params <= QueueDepth params + MaxConcurrency params) :
  exists s, runs params s
    /\ Z.of_nat (cnt (fun p => match p with Thunk => true | _ => false end) (threads s))
       = InitialCapacity params.
Proof.
  destruct (NewBreaker_initial params Hv) as (b & Hb & Hi). destruct Hv as (Hc & Hm & Hq & Hs').
  destruct (fill (InitialCapacity params) (QueueDepth params + MaxConcurrency params)
    (Z.to_nat (MaxConcurrency params)) ltac:(lia) ltac:(lia) ltac:(lia) b (Z.to_nat (InitialCapacity params)) Hi)
    as (b' & ths & R & _ & _ & _ & Hn); [lia..|].
  exists (Sys b' ths). split; [by exists b|]. cbn [threads]. rewrite Hn. lia.
Qed.

(** The resolver's defaults: 100 requests run at once with [MaxConcurrency] 10. *)
Lemma concurrency_is_initial_capacity_witness :
  exists s, runs example_params s
    /\ Z.of_nat (cnt (fun p => match p with Thunk => true | _ => false end) (threads s)) = 100.
Proof.
  apply (concurrency_is_initial_capacity example_params); [unfold valid_params; simpl; lia|simpl; lia].
Defined.
