(* ===== verification/K8sHelper.v ===== *)
(** * Kubernetes helpers ([pkg/k8shelper], [pkg/values], [pkg/logger.MaskMiddle])

    The resource identifiers, the readiness test on endpoint slices and the
    masking of names in log lines. *)

From S2P Require Import Prelude GoStrings.

(** ** Identifiers ([pkg/values/values.go]) *)

Definition ServeMode : gostring := lit "serve".
Definition ProxyMode : gostring := lit "proxy".
Definition NullMode : gostring := [].

(** [900s], in nanoseconds. *)
Definition DefaultCooldownPeriod : Z := (900 * 1000000000)%Z.

Record GroupVersionResource := GVR { gvr_Group : gostring; gvr_Version : gostring; gvr_Resource : gostring }.
Record GroupVersionKind := GVK { gvk_Group : gostring; gvk_Version : gostring; gvk_Kind : gostring }.

#[export] Instance gvr_eq_dec : EqDecision GroupVersionResource.
Proof. solve_decision. Defined.

Definition ServiceGVR := GVR (lit "") (lit "v1") (lit "services").
Definition ElastiServiceGVR := GVR (lit "elasti.truefoundry.com") (lit "v1alpha1") (lit "elastiservices").
Definition ScaledObjectGVR := GVR (lit "keda.sh") (lit "v1alpha1") (lit "scaledobjects").

(** ** [utils.go] *)

Definition KindToResource (kind : gostring) : gostring :=
  let k := ToLower kind in
  if HasSuffix k (lit "s") then k else k ++ lit "s".

(** [schema.ParseGroupVersion] is a parameter. *)
Definition APIVersionStrToGVK (ParseGroupVersion : gostring -> result error (gostring * gostring))
    (apiVersion kind : gostring) : result error GroupVersionKind :=
  match ParseGroupVersion apiVersion with
  | Err err => Err (ErrWrap (lit "failed to parse API version: ") err)
  | Ok (g, v) => Ok (GVK g v kind)
  end.

(** ** [ops.go] *)

(** An endpoint, by its [Conditions.Ready] pointer; a slice, by its endpoints. *)
Abbreviation Endpoint := (option bool).
Abbreviation EndpointSlice := (list Endpoint).

Definition endpoint_ready (e : Endpoint) : bool :=
  match e with None => true | Some b => b end.

(** [listed] is what the API server answers to the list call. *)
Definition CheckIfServiceEndpointSliceActive (listed : result error (list EndpointSlice))
    : result error bool :=
  match listed with
  | Err err => Err (ErrWrap (lit "CheckIfServiceEndpointSliceActive - GET: ") err)
  | Ok items => Ok (existsb (existsb endpoint_ready) items)
  end.

Lemma active_iff items :
  CheckIfServiceEndpointSliceActive (Ok items) = Ok true
  <-> exists slice e, slice ∈ items /\ e ∈ slice /\ e <> Some false.
Proof.
  simpl. split.
  - intros [= H]. apply existsb_exists in H as (sl & Hsl & He).
    apply existsb_exists in He as (e & Hin & Hr). exists sl, e.
    split_and!; [by apply list_elem_of_In|by apply list_elem_of_In|].
    intros ->. done.
  - intros (sl & e & Hsl & He & Hr). f_equal. apply existsb_exists. exists sl.
    split; [by apply list_elem_of_In|]. apply existsb_exists. exists e.
    split; [by apply list_elem_of_In|]. by destruct e as [[]|].
Qed.

(** ** [MaskMiddle] ([pkg/logger/logger.go]) *)

(** On the runes of the input, for lengths to keep whose sum is an [int] (every
    caller passes 3 and 3). *)
Definition MaskMiddle {rune} (star : rune) (runes : list rune) (unmaskedPrefix unmaskedSuffix : Z)
    : list rune :=
  let unmaskedPrefix := if (unmaskedPrefix <? 0)%Z then 0%Z else unmaskedPrefix in
  let unmaskedSuffix := if (unmaskedSuffix <? 0)%Z then 0%Z else unmaskedSuffix in
  let n := length runes in
  if (Z.of_nat n <=? unmaskedPrefix + unmaskedSuffix)%Z then replicate n star
  else
    take (Z.to_nat unmaskedPrefix) runes
    ++ replicate (n - Z.to_nat unmaskedPrefix - Z.to_nat unmaskedSuffix) star
    ++ drop (n - Z.to_nat unmaskedSuffix) runes.

(** ** Lemmas *)

Lemma KindToResource_suffix kind : HasSuffix (KindToResource kind) (lit "s") = true.
Proof.
  unfold KindToResource. destruct (HasSuffix (ToLower kind) _) eqn:H; [done|].
  apply HasSuffix_spec. by eexists.
Qed.

Lemma KindToResource_lower kind : ToLower (KindToResource kind) = KindToResource kind.
Proof.
  unfold KindToResource. destruct (HasSuffix (ToLower kind) _).
  - apply ToLower_idem.
  - by rewrite ToLower_app, ToLower_idem.
Qed.

Lemma MaskMiddle_nat {rune} (star : rune) s (p q : nat) :
  MaskMiddle star s (Z.of_nat p) (Z.of_nat q)
  = if decide (length s <= p + q) then replicate (length s) star
    else take p s ++ replicate (length s - p - q) star ++ drop (length s - q) s.
Proof.
  unfold MaskMiddle. destruct (Z.ltb_spec (Z.of_nat p) 0), (Z.ltb_spec (Z.of_nat q) 0); try lia.
  rewrite !Nat2Z.id.
  destruct (Z.leb_spec (Z.of_nat (length s)) (Z.of_nat p + Z.of_nat q)), (decide (length s <= p + q)); done || lia.
Qed.

(** ** Properties *)

(** [KindToResource] gives a lower-case name that ends in [s], and applying
    it to its own result changes nothing, so that already-plural input is
    accepted. *)
Theorem kind_to_resource_idempotent kind :
  KindToResource (KindToResource kind) = KindToResource kind
  /\ HasSuffix (KindToResource kind) (lit "s") = true
  /\ ToLower (KindToResource kind) = KindToResource kind.
Proof.
  split_and!; [|apply KindToResource_suffix|apply KindToResource_lower].
  unfold KindToResource at 1. by rewrite KindToResource_lower, KindToResource_suffix.
Qed.

(** A masked name keeps its length, shows nothing when it is no longer than
    the parts to keep, and otherwise shows exactly the kept prefix and suffix:
    two names of the same length that agree there are masked alike. *)
Theorem mask_hides_middle {rune} (star : rune) (s1 s2 : list rune) (p q : nat)
    (Hlen : length s1 = length s2)
    (Hpre : take p s1 = take p s2)
    (Hsuf : drop (length s1 - q) s1 = drop (length s2 - q) s2) :
  length (MaskMiddle star s1 (Z.of_nat p) (Z.of_nat q)) = length s1
  /\ MaskMiddle star s1 (Z.of_nat p) (Z.of_nat q) = MaskMiddle star s2 (Z.of_nat p) (Z.of_nat q).
Proof.
  rewrite !MaskMiddle_nat, <- Hlen. destruct (decide _); split; try done.
  - apply length_replicate.
  - rewrite !length_app, length_take, length_replicate, length_drop. lia.
  - rewrite Hpre, Hsuf, Hlen. done.
Qed.

Lemma mask_hides_middle_witness :
  length (MaskMiddle 42%Z [0; 1; 2; 3; 4; 5; 6; 7; 8]%Z 3 3) = 9
  /\ MaskMiddle 42%Z [0; 1; 2; 3; 4; 5; 6; 7; 8]%Z 3 3
     = MaskMiddle 42%Z [0; 1; 2; 77; 77; 77; 6; 7; 8]%Z 3 3.
Proof.
  exact (mask_hides_middle 42%Z [0; 1; 2; 3; 4; 5; 6; 7; 8]%Z
    [0; 1; 2; 77; 77; 77; 6; 7; 8]%Z 3 3 eq_refl eq_refl eq_refl).
Defined.
