(* ===== verification/Throttler.v ===== *)
(** * The throttler ([resolver/internal/throttler/throttler.go])

    [Try] retries a request through the breaker until the target service has a
    ready endpoint, [checkIfServiceReady] caches readiness for a while, and the
    queue sizes count the requests of each service.  [Breaker.Maybe] is used
    through what [Breaker.v] proves of it: it either refuses with an error and
    does not run the thunk, or runs it once and returns nil. *)

From S2P Require Import Prelude GoStrings K8sHelper HostManager Breaker.
Local Open Scope Z_scope.

(** ** State *)

(** [expiries] are the pending [time.AfterFunc] deletions: when, and which key. *)
Record Throttler := mkThrottler {
  serviceReadyMap : gmap gostring bool;
  queueSizeMap : gmap gostring Z;
  expiries : list (Z * gostring);
  clock : Z
}.

(** The durations of [Params]; the rest of [Params] configures the breaker. *)
Record ThrottlerParams := {
  QueueRetryDuration : Z;
  TrafficReEnableDuration : Z
}.

Definition NewThrottler (t : Z) : Throttler := mkThrottler ∅ ∅ [] t.

Definition service_key (namespace service : gostring) : gostring :=
  namespace ++ lit "/" ++ service.

(** ** Queue sizes *)

Definition GetQueueSize (namespace service : gostring) (t : Throttler) : Z :=
  default 0 (queueSizeMap t !! service_key namespace service).

Definition store_queue_size (namespace service : gostring) (n : Z) (t : Throttler) : Throttler :=
  mkThrottler (serviceReadyMap t) (<[service_key namespace service := n]> (queueSizeMap t))
    (expiries t) (clock t).

Definition incrementQueueSize (namespace service : gostring) (t : Throttler) : Throttler :=
  store_queue_size namespace service (int64 (GetQueueSize namespace service t + 1)) t.

Definition decrementQueueSize (namespace service : gostring) (t : Throttler) : Throttler :=
  store_queue_size namespace service (int64 (GetQueueSize namespace service t - 1)) t.

(** ** Readiness *)

(** [Store(key, true)] and the timer that deletes the key again. *)
Definition store_ready (p : ThrottlerParams) (key : gostring) (t : Throttler) : Throttler :=
  mkThrottler (<[key := true]> (serviceReadyMap t)) (queueSizeMap t)
    ((clock t + TrafficReEnableDuration p, key) :: expiries t) (clock t).

(** [listed] is the API server's answer should it be asked. *)
Definition checkIfServiceReady (p : ThrottlerParams) (namespace service : gostring)
    (listed : result error (list EndpointSlice)) (t : Throttler)
    : result error bool * Throttler :=
  let key := service_key namespace service in
  match serviceReadyMap t !! key with
  | Some ready => (Ok ready, t)
  | None =>
      match CheckIfServiceEndpointSliceActive listed with
      | Err err => (Err (ErrWrap (lit "unable to get target active endpoints: ") err), t)
      | Ok false =>
          (Err (ErrText (lit "no active endpoints found for namespace: " ++ namespace
                         ++ lit " service: " ++ service)), t)
      | Ok true => (Ok true, store_ready p key t)
      end
  end.

(** The callback of the timer. *)
Definition expire (key : gostring) (t : Throttler) : Throttler :=
  mkThrottler (delete key (serviceReadyMap t)) (queueSizeMap t) (expiries t) (clock t).

Definition set_clock (now : Z) (t : Throttler) : Throttler :=
  mkThrottler (serviceReadyMap t) (queueSizeMap t) (expiries t) now.

(** ** [Try] *)

(** What one round of the loop meets: what other goroutines did to the
    throttler before it, the breaker's refusal if any, when the round runs, the
    API server's answer, how the backend would behave if the request reached
    it, and the error of the context when the round ends. *)
Record attempt (X : Type) := mkAttempt {
  interference : Throttler -> Throttler;
  refused : option error;
  at_time : Z;
  listing : result error (list EndpointSlice);
  backend : X;
  ctx_err : option error
}.
Arguments mkAttempt {X}.
Arguments interference {X}.
Arguments refused {X}.
Arguments at_time {X}.
Arguments listing {X}.
Arguments backend {X}.
Arguments ctx_err {X}.

(** What the loop does, in order: it calls [resolve] with the number of the
    try, starts the error callback, sleeps. *)
Inductive effect (X : Type) : Type :=
| Resolve (tryCount : Z) (x : X)
| ErrCallback
| Sleep (d : Z).
Arguments Resolve {X}.
Arguments ErrCallback {X}.
Arguments Sleep {X}.

(** The variables the closure of [Try] shares with the loop. *)
Record vars := mkVars { tryErr : option error; reenqueue : bool; tryCount : Z }.

Section try_.
(** [resolve], the closure the caller passes: its error, for each behaviour of
    the backend. *)
Context {X : Type} (resolve : X -> option error).
Implicit Types (a : attempt X) (rounds : list (attempt X)).

(** The readiness check and, for a ready service, [resolve]. *)
Definition thunk_serve (p : ThrottlerParams) (host : Host) (a : attempt X) (n : Z) (t : Throttler)
    : vars * list (effect X) * Throttler :=
  match checkIfServiceReady p (Namespace host) (TargetService host) (listing a) t with
  | (Err err, t') => (mkVars (Some err) true n, [ErrCallback], t')
  | (Ok true, t') =>
      (mkVars (option_map (ErrWrap (lit "resolve error: ")) (resolve (backend a))) false n,
       [Resolve n (backend a)], t')
  | (Ok false, t') => (mkVars None true n, [], t')
  end.

(** The closure given to [Maybe]. *)
Definition thunk (p : ThrottlerParams) (host : Host) (a : attempt X) (n : Z) (t : Throttler)
    : vars * list (effect X) * Throttler :=
  let '(v, es, t') := thunk_serve p host a n t in
  match ctx_err a with
  | Some e => (mkVars (Some (ErrWrap (lit "context done error: ") e)) false (tryCount v), es, t')
  | None =>
      if reenqueue v
      then (mkVars (tryErr v) true (int64 (tryCount v + 1)), es ++ [Sleep (QueueRetryDuration p)], t')
      else (v, es, t')
  end.

(** [Try] has returned, or the given rounds are over and it is still looping. *)
Inductive outcome : Type :=
| Returned (r : option error)
| Looping (tryCount : Z).

Fixpoint Try_loop (p : ThrottlerParams) (host : Host) (rounds : list (attempt X)) (n : Z) (t : Throttler)
    : outcome * list (effect X) * Throttler :=
  match rounds with
  | [] => (Looping n, [], t)
  | a :: rounds =>
      let t := set_clock (at_time a) (interference a t) in
      match refused a with
      | Some e => (Returned (Some (ErrWrap (lit "breaker error: ") e)), [], t)
      | None =>
          let '(v, es, t) := thunk p host a n t in
          if reenqueue v then
            let '(o, es', t) := Try_loop p host rounds (tryCount v) t in (o, es ++ es', t)
          else (Returned (option_map (ErrWrap (lit "thunk error: ")) (tryErr v)), es, t)
      end
  end.

(** The deferred decrement runs when the loop returns. *)
Definition Try (p : ThrottlerParams) (host : Host) (rounds : list (attempt X)) (t : Throttler)
    : outcome * list (effect X) * Throttler :=
  let t := incrementQueueSize (Namespace host) (SourceService host) t in
  match Try_loop p host rounds 1 t with
  | (Returned r, es, t) => (Returned r, es, decrementQueueSize (Namespace host) (SourceService host) t)
  | (Looping n, es, t) => (Looping n, es, t)
  end.

(** ** Lemmas: the loop *)

Definition resolves (es : list (effect X)) : list (Z * X) :=
  omap (fun e => match e with Resolve n x => Some (n, x) | _ => None end) es.

(** The round ends with another try. *)
Definition retried (a : attempt X) : Prop := refused a = None /\ ctx_err a = None.

Lemma int64_add x y : int64 (int64 x + y) = int64 (x + y).
Proof.
  unfold int64, int_of. f_equal.
  replace ((x + 2 ^ (64 - 1)) mod 2 ^ 64 - 2 ^ (64 - 1) + y + 2 ^ (64 - 1))
    with ((x + 2 ^ (64 - 1)) mod 2 ^ 64 + y) by lia.
  rewrite Zplus_mod_idemp_l. f_equal. lia.
Qed.

Lemma resolves_app es1 es2 : resolves (es1 ++ es2) = resolves es1 ++ resolves es2.
Proof. apply omap_app. Qed.

Lemma thunk_cases p host a n t v es t' :
  thunk p host a n t = (v, es, t') ->
  (reenqueue v = true /\ ctx_err a = None /\ tryCount v = int64 (n + 1) /\ resolves es = [])
  \/ (exists c, reenqueue v = false /\ ctx_err a = Some c
       /\ tryErr v = Some (ErrWrap (lit "context done error: ") c)
       /\ (resolves es = [] \/ resolves es = [(n, backend a)]))
  \/ (reenqueue v = false /\ ctx_err a = None /\ resolves es = [(n, backend a)]
       /\ tryErr v = option_map (ErrWrap (lit "resolve error: ")) (resolve (backend a))).
Proof.
  unfold thunk, thunk_serve.
  destruct (checkIfServiceReady _ _ _ _ _) as [[[]|e] t1], (ctx_err a) as [c|];
    intros [= <- <- <-]; simpl; naive_solver.
Qed.

(** What a run of the loop over the given rounds amounts to, for a request that
    has been tried [k] times before. *)
Definition loop_spec (rounds : list (attempt X)) (k : Z) (o : outcome) (es : list (effect X)) : Prop :=
  match o with
  | Looping n =>
      n = int64 (k + Z.of_nat (length rounds)) /\ resolves es = [] /\ Forall retried rounds
  | Returned r =>
      exists pre a post, rounds = pre ++ a :: post /\ Forall retried pre
        /\ let n := int64 (k + Z.of_nat (length pre)) in
           match refused a, ctx_err a with
           | Some e, _ => r = Some (ErrWrap (lit "breaker error: ") e) /\ resolves es = []
           | None, Some c =>
               r = Some (ErrWrap (lit "thunk error: ") (ErrWrap (lit "context done error: ") c))
               /\ (resolves es = [] \/ resolves es = [(n, backend a)])
           | None, None =>
               r = option_map (fun e => ErrWrap (lit "thunk error: ") (ErrWrap (lit "resolve error: ") e))
                     (resolve (backend a))
               /\ resolves es = [(n, backend a)]
           end
  end.

Lemma loop_spec_cons a rounds k o es es' :
  retried a -> resolves es' = [] -> loop_spec rounds (k + 1) o es ->
  loop_spec (a :: rounds) k o (es' ++ es).
Proof.
  intros Ha Hes H. destruct o as [r|n]; simpl in *; rewrite resolves_app, Hes; simpl.
  - destruct H as (pre & b & post & -> & Hpre & H). exists (a :: pre), b, post.
    split_and!; [done|by constructor|].
    simpl. replace (k + Z.of_nat (S (length pre))) with (k + 1 + Z.of_nat (length pre)) by lia. done.
  - destruct H as (-> & Hr & Hall). split_and!; [f_equal; lia|done|by constructor].
Qed.

Lemma Try_loop_spec p host rounds k t :
  let '(o, es, _) := Try_loop p host rounds (int64 k) t in loop_spec rounds k o es.
Proof.
  revert k t. induction rounds as [|a rounds IH]; intros k t; simpl.
  { rewrite Z.add_0_r. split_and!; done. }
  destruct (refused a) as [e|] eqn:Href.
  { exists [], a, rounds. split_and!; try done. by rewrite Href. }
  destruct (thunk _ _ _ _ _) as [[v es] t'] eqn:Hth.
  apply thunk_cases in Hth as [(Hv & Hc & Hn & Hr)|[(c & Hv & Hc & He & Hr)|(Hv & Hc & Hr & He)]]; rewrite Hv.
  - rewrite Hn, int64_add. specialize (IH (k + 1) t').
    destruct (Try_loop _ _ _ _ _) as [[o es'] t'']. by apply loop_spec_cons.
  - exists [], a, rounds. rewrite Href, Hc, He. simpl. rewrite Z.add_0_r. split_and!; done.
  - exists [], a, rounds. rewrite Href, Hc, He. simpl. rewrite Z.add_0_r.
    split_and!; try done. by destruct (resolve (backend a)).
Qed.

(** *** The loop ends *)

(** Rounds in which the context has the deadline [D] and a round that is retried
    sleeps before the next. *)
Definition paced (p : ThrottlerParams) (D : Z) (env : nat -> attempt X) : Prop :=
  forall i, (ctx_err (env i) = None -> at_time (env i) < D)
            /\ at_time (env i) + QueueRetryDuration p <= at_time (env (S i)).

Lemma paced_time p D env i :
  paced p D env -> at_time (env 0%nat) + Z.of_nat i * QueueRetryDuration p <= at_time (env i).
Proof.
  intros Hp. induction i as [|i IH]; [lia|]. destruct (Hp i) as [_ Hs].
  rewrite Nat2Z.inj_succ, Z.mul_succ_l. lia.
Qed.

Lemma rounds_looping p D env n :
  0 < QueueRetryDuration p -> paced p D env ->
  Forall retried (map env (seq 0 (S n))) ->
  Z.of_nat n * QueueRetryDuration p < D - at_time (env 0%nat).
Proof.
  intros Hpos Hp Hall.
  assert (retried (env n)) as [_ Hc].
  { eapply Forall_forall; [exact Hall|]. apply list_elem_of_In, in_map, in_seq. lia. }
  apply (Hp n) in Hc. pose proof (paced_time p D env n Hp). lia.
Qed.

(** *** Queue sizes *)

(** The other goroutines leave one entry of the queue sizes alone. *)
Definition keeps_queue (key : gostring) (a : attempt X) : Prop :=
  forall t, queueSizeMap (interference a t) !! key = queueSizeMap t !! key.

Lemma thunk_queue p host a n t v es t' :
  thunk p host a n t = (v, es, t') -> queueSizeMap t' = queueSizeMap t.
Proof.
  unfold thunk, thunk_serve, checkIfServiceReady.
  repeat case_match; intros; simplify_eq/=; done.
Qed.

Lemma Try_loop_queue p host rounds key n t o es t' :
  Forall (keeps_queue key) rounds -> Try_loop p host rounds n t = (o, es, t') ->
  queueSizeMap t' !! key = queueSizeMap t !! key.
Proof.
  intros Hk. revert n t es. induction Hk as [|a rounds Ha Hk IH]; intros n t es; simpl.
  { by intros [= _ _ <-]. }
  destruct (refused a).
  { intros [= _ _ <-]. simpl. apply Ha. }
  destruct (thunk _ _ _ _ _) as [[v es1] t1] eqn:Hth.
  apply thunk_queue in Hth. assert (queueSizeMap t1 !! key = queueSizeMap t !! key) as H1.
  { rewrite Hth. apply Ha. }
  destruct (reenqueue v); [|by intros [= _ _ <-]].
  destruct (Try_loop _ _ _ _ _) as [[o' es'] t2] eqn:HL.
  intros [= -> _ <-]. rewrite <- H1. by eapply IH.
Qed.

End try_.

Lemma store_get namespace service n t :
  GetQueueSize namespace service (store_queue_size namespace service n t) = n.
Proof. unfold GetQueueSize. simpl. by rewrite lookup_insert_eq. Qed.

(** ** Queue sizes under interleaving *)

(** The queue-size entry of one service, with any number of goroutines that run
    [Try] for it: the [Load] and the [Store] of an update are separate steps. *)
Inductive qpc : Type :=
| IncLoad | IncStore (size : Z) | Queued | DecLoad | DecStore (size : Z) | Left.

Record qsys := QSys { entry : option Z; goroutines : gmap nat qpc }.

Definition q_step1 (e : option Z) (c : qpc) : option (option Z * qpc) :=
  match c with
  | IncLoad => Some (e, IncStore (default 0 e))
  | IncStore size => Some (Some (int64 (size + 1)), Queued)
  | Queued => Some (e, DecLoad)
  | DecLoad => Some (e, DecStore (default 0 e))
  | DecStore size => Some (Some (int64 (size - 1)), Left)
  | Left => None
  end.

Inductive q_step : qsys -> qsys -> Prop :=
| q_call t e gs : gs !! t = None -> q_step (QSys e gs) (QSys e (<[t:=IncLoad]> gs))
| q_run t c e gs e' c' :
    gs !! t = Some c -> q_step1 e c = Some (e', c') ->
    q_step (QSys e gs) (QSys e' (<[t:=c']> gs)).

Definition all_left (s : qsys) : Prop := map_Forall (fun _ c => c = Left) (goroutines s).

Lemma q_at e gs t c e' c' :
  q_step1 e c = Some (e', c') -> q_step (QSys e (<[t:=c]> gs)) (QSys e' (<[t:=c']> gs)).
Proof.
  intros H. rewrite <- (insert_insert_eq gs t c' c).
  eapply q_run; [apply lookup_insert_eq|exact H].
Qed.

Lemma fresh_pair (gs : gmap nat qpc) : exists t1 t2, gs !! t1 = None /\ (<[t1:=IncLoad]> gs) !! t2 = None /\ t1 <> t2.
Proof.
  set (t1 := fresh (dom gs)). set (t2 := fresh (dom (<[t1:=IncLoad]> gs))).
  assert ((<[t1:=IncLoad]> gs) !! t2 = None) as H2 by apply not_elem_of_dom, is_fresh.
  exists t1, t2. split_and!; [apply not_elem_of_dom, is_fresh|done|].
  intros E. by rewrite <- E, lookup_insert_eq in H2.
Qed.

(** Run the goroutine [t] for one step. *)
Ltac q_go t :=
  eapply rtc_l; [eapply (q_run t); [by simplify_map_eq|reflexivity]|].

Lemma all_left_insert e e' gs t1 t2 gs' :
  all_left (QSys e gs) ->
  gs' !! t1 = Some Left -> gs' !! t2 = Some Left ->
  (forall i, i <> t1 -> i <> t2 -> gs' !! i = gs !! i) -> all_left (QSys e' gs').
Proof.
  intros Hall H1 H2 Hrest i c Hi. simpl in *.
  destruct (decide (i = t1)) as [E1|N1]; [by rewrite E1, H1 in Hi; injection Hi|].
  destruct (decide (i = t2)) as [E2|N2]; [by rewrite E2, H2 in Hi; injection Hi|].
  rewrite Hrest in Hi by done. by apply (Hall i c).
Qed.

(** Two goroutines that leave together: one decrement is lost. *)
Lemma drift_up e gs :
  all_left (QSys e gs) -> exists gs',
    rtc q_step (QSys e gs) (QSys (Some (int64 (default 0 e + 1))) gs')
    /\ all_left (QSys (Some (int64 (default 0 e + 1))) gs').
Proof.
  intros Hall. destruct (fresh_pair gs) as (t1 & t2 & H1 & H2 & Hne). eexists. split.
  - eapply rtc_l; [by apply (q_call t1)|]. eapply rtc_l; [by apply (q_call t2)|].
    q_go t1. q_go t1. q_go t2. q_go t2.
    q_go t1. q_go t2. q_go t1. q_go t2. q_go t1. q_go t2.
    simpl. rewrite int64_add. unfold Z.sub. rewrite int64_add.
    replace (default 0 e + 1 + 1 + - (1)) with (default 0 e + 1) by lia. apply rtc_refl.
  - eapply (all_left_insert e _ gs t1 t2); [done|by simplify_map_eq..|].
    intros i Hi1 Hi2. by simplify_map_eq.
Qed.

(** Two goroutines that enter together: one increment is lost. *)
Lemma drift_down e gs :
  all_left (QSys e gs) -> exists gs',
    rtc q_step (QSys e gs) (QSys (Some (int64 (default 0 e - 1))) gs')
    /\ all_left (QSys (Some (int64 (default 0 e - 1))) gs').
Proof.
  intros Hall. destruct (fresh_pair gs) as (t1 & t2 & H1 & H2 & Hne). eexists. split.
  - eapply rtc_l; [by apply (q_call t1)|]. eapply rtc_l; [by apply (q_call t2)|].
    q_go t1. q_go t2. q_go t1. q_go t2.
    q_go t1. q_go t1. q_go t1. q_go t2. q_go t2. q_go t2.
    simpl. unfold Z.sub. rewrite !int64_add, <- Z.add_assoc, int64_add.
    replace (default 0 e + 1 + (- (1) + - (1))) with (default 0 e + - (1)) by lia. apply rtc_refl.
  - eapply (all_left_insert e _ gs t1 t2); [done|by simplify_map_eq..|].
    intros i Hi1 Hi2. by simplify_map_eq.
Qed.

Lemma drift_to (n : nat) :
  (exists e gs, rtc q_step (QSys None ∅) (QSys e gs) /\ all_left (QSys e gs)
     /\ default 0 e = int64 (Z.of_nat n))
  /\ (exists e gs, rtc q_step (QSys None ∅) (QSys e gs) /\ all_left (QSys e gs)
     /\ default 0 e = int64 (- Z.of_nat n)).
Proof.
  induction n as [|n [(e1 & gs1 & R1 & A1 & E1) (e2 & gs2 & R2 & A2 & E2)]].
  { split; exists None, ∅; (split; [apply rtc_refl|split; [apply map_Forall_empty|reflexivity]]). }
  split.
  - destruct (drift_up e1 gs1 A1) as (gs' & R & A). eexists _, gs'.
    split_and!; [etransitivity; [exact R1|exact R]|exact A|]. simpl. rewrite E1, int64_add. f_equal. lia.
  - destruct (drift_down e2 gs2 A2) as (gs' & R & A). eexists _, gs'.
    split_and!; [etransitivity; [exact R2|exact R]|exact A|]. simpl. unfold Z.sub. rewrite E2, int64_add. f_equal. lia.
Qed.

(** ** Readiness under interleaving *)

(** The throttler with the times at which a listing showed a ready endpoint. *)
Record rsys := RSys { thr : Throttler; seen : list (Z * gostring) }.

(** A goroutine that missed the cache earlier stores a key it has just seen
    ready, a due deletion runs, time passes up to the next deletion. *)
Inductive r_step (p : ThrottlerParams) : rsys -> rsys -> Prop :=
| r_store key t l :
    r_step p (RSys t l) (RSys (store_ready p key t) ((clock t, key) :: l))
| r_fire l1 due key l2 t l :
    expiries t = l1 ++ (due, key) :: l2 -> due <= clock t ->
    r_step p (RSys t l)
      (RSys (expire key (mkThrottler (serviceReadyMap t) (queueSizeMap t) (l1 ++ l2) (clock t))) l)
| r_tick d t l :
    0 <= d -> Forall (fun x => clock t + d <= x.1) (expiries t) ->
    r_step p (RSys t l) (RSys (set_clock (clock t + d) t) l)
| r_queue f t l :
    r_step p (RSys t l) (RSys (mkThrottler (serviceReadyMap t) (f (queueSizeMap t)) (expiries t) (clock t)) l).

(** A cached key is true, waits for a deletion, and was seen ready not longer
    than the cache duration before that deletion. *)
Definition r_inv (p : ThrottlerParams) (s : rsys) : Prop :=
  (forall key v, serviceReadyMap (thr s) !! key = Some v ->
     v = true /\ exists due at', (due, key) ∈ expiries (thr s) /\ (at', key) ∈ seen s
       /\ due = at' + TrafficReEnableDuration p)
  /\ Forall (fun x => clock (thr s) <= x.1) (expiries (thr s))
  /\ Forall (fun x => x.1 <= clock (thr s)) (seen s).

Lemma r_inv_step p s s' : 0 <= TrafficReEnableDuration p -> r_step p s s' -> r_inv p s -> r_inv p s'.
Proof.
  intros Hpos Hs (Hmap & Hdue & Hseen). destruct Hs as [key t l|l1 due key l2 t l Hex Hd|d t l Hd Hall|f t l];
    unfold r_inv in *; simpl in *.
  - split_and!; [|constructor; simpl; [lia|done]|constructor; simpl; [lia|done]].
    intros k v [[-> <-]|[Hk Hv]]%lookup_insert_Some.
    + split; [done|]. eexists _, _. split_and!; [constructor|constructor|done].
    + destruct (Hmap k v Hv) as (-> & d & a & Hd & Ha & E). split; [done|].
      exists d, a. split_and!; [by constructor|by constructor|done].
  - rewrite Hex in *. split_and!; [|by apply Forall_app in Hdue as [? [? ?]%Forall_cons];
      apply Forall_app|done].
    intros k v [Hk Hv]%lookup_delete_Some.
    destruct (Hmap k v Hv) as (-> & d' & a & Hd' & Ha & E). split; [done|]. exists d', a.
    split_and!; [|done|done].
    apply elem_of_app in Hd' as [?|[[=]|?]%elem_of_cons]; [by apply elem_of_app; left|congruence|by apply elem_of_app; right].
  - split_and!; [done|done|]. eapply Forall_impl; [exact Hseen|]. simpl. lia.
  - by split_and!.
Qed.

Lemma r_inv_reachable p t0 s :
  0 <= TrafficReEnableDuration p -> rtc (r_step p) (RSys (NewThrottler t0) []) s -> r_inv p s.
Proof.
  intros Hpos. revert s. apply (rtc_ind_r (r_inv p)); [|intros; by eapply r_inv_step].
  unfold r_inv. simpl. split_and!; [by intros ? ? ?%lookup_empty_Some|constructor..].
Qed.

(** ** Properties *)

(** C16: what [Try] does on every sequence of rounds.  As long as rounds are
    admitted, not served and end with the context alive it retries and [resolve]
    is not called; it returns at the first round that is refused (breaker error),
    that ends with the context done (context error, whether or not the round was
    served), or that is served: then the result is that of [resolve], called
    exactly once in the whole run, with the number of that try. *)
Theorem try_outcome {X} (resolve : X -> option error) p host rounds t :
  let '(o, es, _) := Try resolve p host rounds t in loop_spec resolve rounds 1 o es.
Proof.
  unfold Try. pose proof (Try_loop_spec resolve p host rounds 1) as H.
  change (int64 1) with 1 in H. specialize (H (incrementQueueSize (Namespace host) (SourceService host) t)).
  by destruct (Try_loop _ _ _ _ _) as [[[r|n] es] t'].
Qed.

(** C17: [Try] returns: under a context with a deadline, when every call of the
    breaker returns and a retry sleeps for a positive duration, some number of
    rounds within the deadline is enough. *)
Theorem try_terminates {X} (resolve : X -> option error) p host t D env
    (Hpos : 0 < QueueRetryDuration p) (Hp : paced p D env) :
  exists n r, Z.of_nat n <= Z.max 0 ((D - at_time (env 0%nat)) / QueueRetryDuration p) + 2
    /\ (Try resolve p host (map env (seq 0 n)) t).1.1 = Returned r.
Proof.
  set (k := Z.to_nat (Z.max 0 ((D - at_time (env 0%nat)) / QueueRetryDuration p) + 1)).
  exists (S k). pose proof (Try_loop_spec resolve p host (map env (seq 0 (S k))) 1
    (incrementQueueSize (Namespace host) (SourceService host) t)) as H.
  change (int64 1) with 1 in H. unfold Try.
  destruct (Try_loop _ _ _ _ _) as [[[r|n] es] t']; [exists r; split; [lia|done]|].
  destruct H as (_ & _ & Hall). exfalso.
  pose proof (rounds_looping p D env k Hpos Hp Hall) as Hk.
  pose proof (Z.mul_succ_div_gt (D - at_time (env 0%nat)) (QueueRetryDuration p) Hpos).
  assert (Z.of_nat k >= Z.succ ((D - at_time (env 0%nat)) / QueueRetryDuration p)) by lia. nia.
Qed.

Definition example_throttler_params : ThrottlerParams :=
  {| QueueRetryDuration := 3; TrafficReEnableDuration := 5 |}.
Definition waiting_round (i : nat) : attempt unit :=
  mkAttempt id None (3 * Z.of_nat i) (Ok []) tt
    (if 3 * Z.of_nat i <? 30 then None else Some ErrDeadlineExceeded).

Lemma try_terminates_witness :
  exists n r, Z.of_nat n <= Z.max 0 ((30 - at_time (waiting_round 0)) / 3) + 2
    /\ (Try (X:=unit) (fun _ => None) example_throttler_params emptyHost (map waiting_round (seq 0 n)) (NewThrottler 0)).1.1
       = Returned r.
Proof.
  apply (try_terminates (fun _ => None) example_throttler_params); [simpl; lia|].
  intros i. unfold waiting_round. simpl. split; [|lia].
  destruct (Z.ltb_spec (3 * Z.of_nat i) 30); [done|discriminate].
Defined.

(** A call of [Try] that returns leaves the queue size of its service as it
    found it, whatever the outcome, when no other goroutine updates that entry
    meanwhile. *)
Theorem try_balances_queue {X} (resolve : X -> option error) p host rounds t r es t'
    (Hrange : - 2 ^ 63 <= GetQueueSize (Namespace host) (SourceService host) t < 2 ^ 63)
    (Hk : Forall (keeps_queue (service_key (Namespace host) (SourceService host))) rounds)
    (Ht : Try resolve p host rounds t = (Returned r, es, t')) :
  GetQueueSize (Namespace host) (SourceService host) t' = GetQueueSize (Namespace host) (SourceService host) t.
Proof.
  unfold Try in Ht. destruct (Try_loop _ _ _ _ _) as [[[r'|n] es'] t1] eqn:HL; [|discriminate].
  injection Ht as <- <- <-. unfold decrementQueueSize. rewrite store_get.
  apply Try_loop_queue with (key := service_key (Namespace host) (SourceService host)) in HL; [|done].
  assert (GetQueueSize (Namespace host) (SourceService host) t1
          = int64 (GetQueueSize (Namespace host) (SourceService host) t + 1)) as ->.
  { unfold GetQueueSize at 1. rewrite HL. apply store_get. }
  unfold Z.sub. rewrite int64_add, <- Z.add_assoc, Z.add_0_r. apply int_of_id; lia.
Qed.

Lemma try_balances_queue_witness :
  let out := Try (fun _ => None) example_throttler_params emptyHost (map waiting_round (seq 0 12)) (NewThrottler 0) in
  GetQueueSize [] [] out.2 = 0.
Proof.
  refine (try_balances_queue (fun _ => None) example_throttler_params emptyHost (map waiting_round (seq 0 12))
    (NewThrottler 0) _ _ _ _ _ _).
  - split; [by apply Z.leb_le|by apply Z.ltb_lt].
  - apply Forall_forall. intros a Ha. apply list_elem_of_In, in_map_iff in Ha as (i & <- & _). done.
  - vm_compute. reflexivity.
Defined.

(** [incrementQueueSize] and [decrementQueueSize] are not atomic: goroutines
    that only ever increment and decrement in pairs can leave every [int] as the
    queue size of a service for which no request is left. *)
Theorem queue_size_drifts (z : Z) (Hz : - 2 ^ 63 <= z < 2 ^ 63) :
  exists s, rtc q_step (QSys None ∅) s /\ all_left s /\ default 0 (entry s) = z.
Proof.
  destruct (drift_to (Z.to_nat (Z.abs z))) as [(e1 & g1 & R1 & A1 & E1) (e2 & g2 & R2 & A2 & E2)].
  rewrite Z2Nat.id in E1, E2 by lia.
  destruct (Z.le_ge_cases 0 z).
  - exists (QSys e1 g1). split_and!; [done..|]. simpl. rewrite E1, Z.abs_eq by lia. apply int_of_id; lia.
  - exists (QSys e2 g2). split_and!; [done..|]. simpl. rewrite E2, Z.abs_neq by lia.
    rewrite Z.opp_involutive. apply int_of_id; lia.
Qed.

Lemma queue_size_drifts_witness :
  exists s, rtc q_step (QSys None ∅) s /\ all_left s /\ default 0 (entry s) = -1.
Proof. apply queue_size_drifts. lia. Defined.


