(* ===== verification/Transport.v ===== *)
(** * The dialer ([resolver/internal/throttler/transport.go])

    [dialBackOffHelper] dials until it succeeds, fails for a reason other than
    a timeout or a refused connection, or has used up the steps of the backoff.
    The proxy transport picks a transport by protocol version. *)

From S2P Require Import Prelude.
Local Open Scope Z_scope.

Definition ErrTimeoutDialing : error := ErrText (lit "timed out dialing").

(** What [errors.As]/[errors.Is] find in the error of a dial. *)
Record dial_error := DialError { is_timeout : bool; is_conn_refused : bool; cause : error }.

Section dialer.
(** Connections, and [wait.Backoff] of apimachinery with its fields and its
    method [Step], which gives the next duration and the updated backoff. *)
Context {conn Backoff : Type}.
Context (Steps Duration : Backoff -> Z) (Step : Backoff -> Z * Backoff).
(** The [n]-th dial of this call, with the given timeout. *)
Context (dial : nat -> Z -> result dial_error conn).

Inductive dial_event := Dial (timeout : Z) | DialSleep.

(** The [for] loop; [None] when the fuel is used up. *)
Fixpoint dial_loop (fuel n : nat) (timeout : Z) (bo : Backoff)
    : option (result error conn * list dial_event) :=
  match fuel with
  | O => None
  | S fuel =>
      match dial n timeout with
      | Ok c => Some (Ok c, [Dial timeout])
      | Err e =>
          if is_timeout e || is_conn_refused e then
            if Steps bo <? 1 then Some (Err ErrTimeoutDialing, [Dial timeout])
            else
              let '(d, bo) := Step bo in
              match dial_loop fuel (S n) d bo with
              | Some (r, es) => Some (r, Dial timeout :: DialSleep :: es)
              | None => None
              end
          else Some (Err (ErrWrap (lit "dialBackOffHelper: ") (cause e)), [Dial timeout])
      end
  end.

Definition is_dial (e : dial_event) : bool := match e with Dial _ => true | DialSleep => false end.
Definition dials (es : list dial_event) : nat := length (List.filter is_dial es).

(** One dial more than there are steps is the most the loop makes. *)
Definition dial_fuel (bo : Backoff) : nat := S (Z.to_nat (Steps bo)).

Definition dialBackOffHelper (bo : Backoff) : option (result error conn * list dial_event) :=
  dial_loop (dial_fuel bo) 0 (Duration bo) bo.

Definition retryable (r : result dial_error conn) : bool :=
  match r with Ok _ => false | Err e => is_timeout e || is_conn_refused e end.

(** The timeout of the [i]-th dial after one with [timeout]. *)
Fixpoint timeout_at (timeout : Z) (bo : Backoff) (i : nat) : Z :=
  match i with
  | O => timeout
  | S i => timeout_at (Step bo).1 (Step bo).2 i
  end.

(** The documented effect of [Step]: one step is used. *)
Context (Step_uses : forall bo, 1 <= Steps bo -> Steps (Step bo).2 = Steps bo - 1).

Lemma dial_loop_spec fuel n timeout bo :
  (Z.to_nat (Steps bo) < fuel)%nat ->
  exists r es k, dial_loop fuel n timeout bo = Some (r, es) /\ dials es = S k
    /\ (k <= Z.to_nat (Steps bo))%nat
    /\ (forall i, (i < k)%nat -> retryable (dial (n + i) (timeout_at timeout bo i)) = true)
    /\ match dial (n + k) (timeout_at timeout bo k) with
       | Ok c => r = Ok c
       | Err e => if is_timeout e || is_conn_refused e
                  then k = Z.to_nat (Steps bo) /\ r = Err ErrTimeoutDialing
                  else r = Err (ErrWrap (lit "dialBackOffHelper: ") (cause e))
       end.
Proof.
  revert n timeout bo. induction fuel as [|fuel IH]; intros n timeout bo Hf; [lia|]. simpl.
  destruct (dial n timeout) as [c|e] eqn:Hd;
    [exists (Ok c), [Dial timeout], 0%nat; rewrite Nat.add_0_r; simpl; rewrite Hd;
     split_and!; (done || lia)|].
  destruct (is_timeout e || is_conn_refused e) eqn:Hr;
    [|eexists _, [Dial timeout], 0%nat; rewrite Nat.add_0_r; simpl; rewrite Hd, Hr;
      split_and!; (done || lia)].
  destruct (Z.ltb_spec (Steps bo) 1) as [H1|H1];
    [eexists _, [Dial timeout], 0%nat; rewrite Nat.add_0_r; simpl; rewrite Hd, Hr;
     split_and!; (done || lia)|].
  pose proof (Step_uses bo H1) as Hu. destruct (Step bo) as [d bo'] eqn:HS. simpl in Hu.
  destruct (IH (S n) d bo') as (r & es & k & -> & Hk & Hle & Hall & Hlast); [lia|].
  exists r, (Dial timeout :: DialSleep :: es), (S k). simpl. rewrite HS. simpl.
  rewrite <- Nat.add_succ_comm. split_and!; [done|by rewrite <- Hk|lia| |].
  - intros [|i] Hi; [rewrite Nat.add_0_r; simpl; by rewrite Hd|].
    rewrite <- Nat.add_succ_comm. simpl. rewrite HS. apply Hall. lia.
  - destruct (dial (S n + k) (timeout_at d bo' k)) as [c|e']; [done|].
    destruct (is_timeout e' || is_conn_refused e'); [|done].
    destruct Hlast as [-> ->]. split; [lia|done].
Qed.
End dialer.

(** ** The transports of the proxy *)

(** [backOffTemplate]: fifteen steps from fifty milliseconds on. *)
Definition backOffTemplate_Duration : Z := 50 * 1000000.
Definition backOffTemplate_Steps : Z := 15.

Record http_transport := mkHTTPTransport {
  DisableKeepAlives : bool;
  DisableCompression : bool;
  MaxIdleConns : Z;
  MaxIdleConnsPerHost : Z;
  ForceAttemptHTTP2 : bool
}.

(** Both dial with [DialWithBackOff]. *)
Inductive transport := HTTP1 (t : http_transport) | H2C (AllowHTTP disableCompression : bool).

Definition newHTTPTransport (disableKeepAlives disableCompression : bool) (maxIdle maxIdlePerHost : Z) : transport :=
  HTTP1 (mkHTTPTransport disableKeepAlives disableCompression maxIdle maxIdlePerHost false).
Definition newH2CTransport (disableCompression : bool) : transport := H2C true disableCompression.

(** The transport that carries a request of the given protocol version. *)
Definition NewProxyAutoTransport (maxIdleProxyConns maxIdleProxyConnsPerHost ProtoMajor : Z) : transport :=
  let v1 := newHTTPTransport false true maxIdleProxyConns maxIdleProxyConnsPerHost in
  let v2 := newH2CTransport true in
  if ProtoMajor =? 2 then v2 else v1.

(** [DialWithBackOff]: the dials of a connection that is made with the template,
    for the backoffs of the given reading of its fields. *)
Definition DialWithBackOff {conn Backoff : Type} (Steps Duration : Backoff -> Z) (Step : Backoff -> Z * Backoff)
    (dial : nat -> Z -> result dial_error conn) (backoffConfig : Backoff) : option (result error conn * list dial_event) :=
  dialBackOffHelper Steps Duration Step dial backoffConfig.

(** ** Properties *)

(** The dialer always returns, after at most one dial more than the backoff
    has steps.  It dials again only after a timeout or a refused connection, and
    its result is that of its last dial: the connection, the wrapped error, or
    [ErrTimeoutDialing] when the steps are used up. *)
Theorem dial_returns {conn Backoff : Type} (Steps Duration : Backoff -> Z)
    (Step : Backoff -> Z * Backoff) (dial : nat -> Z -> result dial_error conn) bo
    (Step_uses : forall bo, 1 <= Steps bo -> Steps (Step bo).2 = Steps bo - 1) :
  exists r es k, dialBackOffHelper Steps Duration Step dial bo = Some (r, es)
    /\ dials es = S k /\ (k <= Z.to_nat (Steps bo))%nat
    /\ (forall i, (i < k)%nat -> retryable (dial i (timeout_at Step (Duration bo) bo i)) = true)
    /\ match dial k (timeout_at Step (Duration bo) bo k) with
       | Ok c => r = Ok c
       | Err e => if is_timeout e || is_conn_refused e
                  then k = Z.to_nat (Steps bo) /\ r = Err ErrTimeoutDialing
                  else r = Err (ErrWrap (lit "dialBackOffHelper: ") (cause e))
       end.
Proof. apply (dial_loop_spec Steps Step dial Step_uses). unfold dial_fuel. lia. Qed.

(** A backoff as a pair of steps and duration, on a host that refuses twice. *)
Lemma dial_returns_witness :
  exists r es k,
    dialBackOffHelper fst snd (fun bo => (bo.2, (bo.1 - 1, bo.2 * 2)))
      (fun n _ => if (n <? 2)%nat then Err (DialError false true ErrCanceled) else Ok n)
      (15, 50) = Some (r, es)
    /\ dials es = S k /\ (k <= 15)%nat
    /\ (forall i, (i < k)%nat -> retryable (if (i <? 2)%nat then Err (DialError false true ErrCanceled) else Ok i) = true)
    /\ match (if (k <? 2)%nat then Err (DialError false true ErrCanceled) else Ok k) with
       | Ok c => r = Ok c
       | Err e => if is_timeout e || is_conn_refused e
                  then k = 15%nat /\ r = Err ErrTimeoutDialing
                  else r = Err (ErrWrap (lit "dialBackOffHelper: ") (cause e))
       end.
Proof.
  refine (dial_returns fst snd (fun bo => (bo.2, (bo.1 - 1, bo.2 * 2))) _ (15, 50) _).
  intros [n d] _. reflexivity.
Defined.
