(* ===== verification/Types.v ===== *)
(** * The ElastiService resource ([operator/api/v1alpha1/elastiservice_types.go])

    The Go structs of the custom resource.  Raw JSON fields are byte strings;
    a pointer is an [option]. *)

From S2P Require Import Prelude.
Local Open Scope Z_scope.

Definition ElastiServiceFinalizer : gostring := lit "elasti.truefoundry.com/finalizer".

Record EnabledPeriod := mkEnabledPeriod { ep_Schedule : gostring; ep_Duration : gostring }.

(** ** Probe responses *)

Record ProbeResponsePathMatch := mkPathMatch { pm_Type : gostring; pm_Value : gostring }.

(** [ProbeResponseHeaderMatch] and [ProbeResponseQueryParamMatch] have the same
    three fields. *)
Record ProbeResponseValueMatch := mkValueMatch { vm_Name : gostring; vm_Type : gostring; vm_Value : gostring }.
Abbreviation ProbeResponseHeaderMatch := ProbeResponseValueMatch.
Abbreviation ProbeResponseQueryParamMatch := ProbeResponseValueMatch.

Record ProbeResponse := mkProbeResponse { pr_Status : Z; pr_Body : gostring }.

Record ProbeResponseRule := mkProbeRule {
  rule_Path : option ProbeResponsePathMatch;
  rule_Headers : list ProbeResponseHeaderMatch;
  rule_QueryParams : list ProbeResponseQueryParamMatch;
  rule_Method : option gostring;
  rule_Response : ProbeResponse
}.

(** ** The spec *)

Record ScaleTargetRef := mkScaleTargetRef {
  str_APIVersion : gostring;
  str_Kind : gostring;
  str_Name : gostring
}.
#[export] Instance ScaleTargetRef_eq_dec : EqDecision ScaleTargetRef.
Proof. solve_decision. Defined.

Record ScaleTrigger := mkScaleTrigger { trig_Type : gostring; trig_Metadata : gostring }.
Record AutoscalerSpec := mkAutoscaler { as_Type : gostring; as_Name : gostring }.

Record ElastiServiceSpec := mkSpec {
  spec_ScaleTargetRef : ScaleTargetRef;
  spec_Service : gostring;
  spec_ProbeResponse : list ProbeResponseRule;
  spec_MinTargetReplicas : Z;
  spec_CooldownPeriod : Z;
  spec_Triggers : list ScaleTrigger;
  spec_Autoscaler : option AutoscalerSpec;
  spec_EnabledPeriod : option EnabledPeriod
}.

(** Times are nanoseconds. *)
Record ElastiServiceStatus := mkStatus {
  st_LastReconciledTime : Z;
  st_LastScaledUpTime : option Z;
  st_Mode : gostring
}.

(** The object, with the metadata the operator uses. *)
Record ElastiService := mkElastiService {
  es_Name : gostring;
  es_Namespace : gostring;
  es_CreationTimestamp : Z;
  es_DeletionTimestamp : option Z;
  es_Finalizers : list gostring;
  es_Spec : ElastiServiceSpec;
  es_Status : ElastiServiceStatus
}.

(** ** Legacy kinds *)

(** The rewritten [ScaleTargetRef.Kind]. *)
Definition canonical_kind (kind : gostring) : gostring :=
  if decide (kind = lit "deployments") then lit "Deployment"
  else if decide (kind = lit "rollouts") then lit "Rollout"
  else kind.

Definition set_ScaleTargetRef (r : ScaleTargetRef) (es : ElastiServiceSpec) : ElastiServiceSpec :=
  mkSpec r (spec_Service es) (spec_ProbeResponse es) (spec_MinTargetReplicas es)
    (spec_CooldownPeriod es) (spec_Triggers es) (spec_Autoscaler es) (spec_EnabledPeriod es).

(** The receiver is a pointer: the reference is returned and the spec updated. *)
Definition GetScaleTargetRef (es : ElastiServiceSpec) : ScaleTargetRef * ElastiServiceSpec :=
  let r := spec_ScaleTargetRef es in
  let r := mkScaleTargetRef (str_APIVersion r) (canonical_kind (str_Kind r)) (str_Name r) in
  (r, set_ScaleTargetRef r es).

Definition GetSpec (es : ElastiService) : ElastiServiceSpec * ElastiService :=
  let spec := (GetScaleTargetRef (es_Spec es)).2 in
  (spec, mkElastiService (es_Name es) (es_Namespace es) (es_CreationTimestamp es)
           (es_DeletionTimestamp es) (es_Finalizers es) spec (es_Status es)).

Lemma canonical_kind_idem kind : canonical_kind (canonical_kind kind) = canonical_kind kind.
Proof.
  unfold canonical_kind. repeat (destruct (decide _); try done).
Qed.

Lemma GetSpec_idem es : GetSpec (GetSpec es).2 = GetSpec es.
Proof. unfold GetSpec, GetScaleTargetRef. simpl. by rewrite canonical_kind_idem. Qed.
