(* ===== verification/Memory.v ===== *)
(** * Go memory

    Addresses, arrays and slices, the copies of pointers and slices that
    generated code is made of, and what it means that a copy is deep: [R h x v F]
    says that in the memory [h] the struct [x] stands for the value [v] and
    reaches the addresses [F]. *)

From S2P Require Import Prelude.
Local Open Scope nat_scope.

Abbreviation loc := nat.

(** A slice that is not nil. *)
Record slice := mkSliceHeader { s_ptr : loc; s_off : nat; s_len : nat }.

(** ** Memory *)

Section memory.
Context {Cell : Type}.
Abbreviation heap := (gmap loc Cell).

(** The element types of arrays. *)
Class Boxed (T : Type) := {
  to_cell : list T -> Cell;
  of_cell : Cell -> option (list T);
  of_to_cell : forall l, of_cell (to_cell l) = Some l
}.

Context {T : Type} `{Boxed T}.

Definition load (l : loc) (h : heap) : option (list T) := h !! l ≫= of_cell.
Definition alloc (xs : list T) (h : heap) : loc * heap := let l := fresh (dom h) in (l, <[l := to_cell xs]> h).
(** [*p] and [( *s)[i]]; [None] is a nil or dangling pointer. *)
Definition deref (l : loc) (h : heap) : option T := xs ← load l h; xs !! 0.
Definition index (s : slice) (i : nat) (h : heap) : option T := xs ← load (s_ptr s) h; xs !! (s_off s + i).
Definition store (l : loc) (i : nat) (x : T) (h : heap) : option heap :=
  xs ← load l h; if decide (i < length xs) then Some (<[l := to_cell (<[i := x]> xs)]> h) else None.
(** The elements of a slice. *)
Definition elements (s : slice) (h : heap) : option (list T) :=
  xs ← load (s_ptr s) h;
  if decide (s_off s + s_len s <= length xs) then Some (take (s_len s) (drop (s_off s) xs)) else None.

(** [if in != nil { *out = new(T); **out = **in }] *)
Definition copy_pointer (p : option loc) (h : heap) : option (option loc * heap) :=
  match p with
  | None => Some (None, h)
  | Some l => x ← deref l h; let '(l, h) := alloc [x] h in Some (Some l, h)
  end.

(** [if in != nil { *out = make([]T, len( *in)); copy( *out, *in) }] *)
Definition copy_flat (s : option slice) (h : heap) : option (option slice * heap) :=
  match s with
  | None => Some (None, h)
  | Some s => xs ← elements s h; let '(l, h) := alloc xs h in Some (Some (mkSliceHeader l 0 (s_len s)), h)
  end.

Context (DeepCopyInto : T -> heap -> option (T * heap)) (zero : T).

(** [for i := range *in { ( *in)[i].DeepCopyInto(&( *out)[i]) }] *)
Fixpoint copy_range (s : slice) (out : loc) (i n : nat) (h : heap) : option heap :=
  match n with
  | O => Some h
  | S n => x ← index s i h; '(y, h) ← DeepCopyInto x h; h ← store out i y h; copy_range s out (S i) n h
  end.
Definition copy_slice (s : option slice) (h : heap) : option (option slice * heap) :=
  match s with
  | None => Some (None, h)
  | Some s =>
      let '(l, h) := alloc (replicate (s_len s) zero) h in
      h ← copy_range s l 0 (s_len s) h; Some (Some (mkSliceHeader l 0 (s_len s)), h)
  end.

(** [func (in *T) DeepCopy() *T] *)
Definition deep_copy (in_ : option loc) (h : heap) : option (option loc * heap) :=
  match in_ with
  | None => Some (None, h)
  | Some l =>
      x ← deref l h;
      let '(out, h) := alloc [zero] h in
      '(y, h) ← DeepCopyInto x h; h ← store out 0 y h; Some (Some out, h)
  end.
End memory.
Arguments Boxed : clear implicits.

(** ** What a struct stands for *)

Section values.
Context {Cell : Type}.
Abbreviation heap := (gmap loc Cell).

(** [R h x v F]: in the memory [h] the struct [x] stands for [v] and reaches the
    addresses [F]. *)
Definition representation (T V : Type) : Type := heap -> T -> V -> gset loc -> Prop.

(** It depends on the memory it reaches only. *)
Class Rep {T V} (R : representation T V) : Prop := {
  rep_dom : forall h x v F, R h x v F -> F ⊆ dom h;
  rep_agree : forall h h' x v F, R h x v F -> (forall l, l ∈ F -> h' !! l = h !! l) -> R h' x v F
}.

(** A struct without pointers. *)
Definition flat {T} : representation T T := fun h x v F => x = v /\ F = ∅.

Definition pointer {T V} `{Boxed Cell T} (R : representation T V) : representation (option loc) (option V) :=
  fun h p v F =>
    match p, v with
    | None, None => F = ∅
    | Some l, Some v => exists x F1, load l h = Some [x] /\ R h x v F1 /\ F = {[l]} ∪ F1
    | _, _ => False
    end.

(** A nil slice stands for the empty list, like an empty one. *)
Definition slice_of {T V} `{Boxed Cell T} (R : representation T V) : representation (option slice) (list V) :=
  fun h s vs F =>
    match s with
    | None => vs = [] /\ F = ∅
    | Some s => exists xs Fs, elements s h = Some xs /\ Forall3 (R h) xs vs Fs /\ F = {[s_ptr s]} ∪ ⋃ Fs
    end.

(** A copy is deep when it stands for the same value and reaches fresh memory
    only; what was there is not written. *)
Definition deep {T V} (R : representation T V) (copy : T -> heap -> option (T * heap)) : Prop :=
  forall h x v F, R h x v F ->
    exists y h' F', copy x h = Some (y, h') /\ h ⊆ h' /\ R h' y v F' /\ F' ## dom h.

(** ** Lemmas *)

Lemma rep_mono {T V} (R : representation T V) `{!Rep R} h h' x v F : R h x v F -> h ⊆ h' -> R h' x v F.
Proof.
  intros HR Hsub. apply (rep_agree h); [done|]. intros l Hl. apply (rep_dom _ _ _ _ HR) in Hl.
  apply elem_of_dom in Hl as [c Hc]. rewrite Hc. by eapply lookup_weaken.
Qed.

#[export] Instance flat_Rep {T} : Rep (@flat T).
Proof. split; [intros h x v F [-> ->]; set_solver|by intros h h' x v F [-> ->]]. Qed.

Section boxed.
Context {T : Type} `{Boxed Cell T}.

Lemma load_dom (l : loc) (h : heap) (xs : list T) : load l h = Some xs -> l ∈ dom h.
Proof. unfold load. intros Hl. destruct (h !! l) eqn:E; [|done]. by apply elem_of_dom_2 in E. Qed.
Lemma load_agree (l : loc) (h h' : heap) : h' !! l = h !! l -> load (T := T) l h' = load l h.
Proof. unfold load. by intros ->. Qed.
Lemma load_eq (l : loc) (xs : list T) (h : heap) : load l (<[l := to_cell xs]> h) = Some xs.
Proof. unfold load. rewrite lookup_insert_eq. simpl. apply of_to_cell. Qed.
Lemma load_ne (l l' : loc) c (h : heap) : l <> l' -> load (T := T) l (<[l' := c]> h) = load l h.
Proof. intros Hne. apply load_agree. by rewrite lookup_insert_ne. Qed.

Lemma alloc_fresh (xs : list T) (h : heap) : fresh (dom h) ∉ dom h.
Proof. apply is_fresh. Qed.
Lemma alloc_sub (l : loc) c (h : heap) : l ∉ dom h -> h ⊆ <[l := c]> h.
Proof. intros Hl. apply insert_subseteq. by apply not_elem_of_dom. Qed.

#[export] Instance pointer_Rep {V} (R : representation T V) `{!Rep R} : Rep (pointer R).
Proof.
  split.
  - intros h [l|] [v|] F HF; try done; [|simpl in HF; set_solver]. destruct HF as (x & F1 & Hl & HR & ->).
    apply load_dom in Hl. apply rep_dom in HR. set_solver.
  - intros h h' [l|] [v|] F HF Hag; try done. destruct HF as (x & F1 & Hl & HR & ->). exists x, F1.
    rewrite (load_agree l h h') by (apply Hag; set_solver). split; [done|]. split; [|done].
    apply (rep_agree h); [done|]. intros k Hk. apply Hag. set_solver.
Qed.

Lemma elements_agree (s : slice) (h h' : heap) : h' !! s_ptr s = h !! s_ptr s -> elements (T := T) s h' = elements s h.
Proof. unfold elements. intros E. by rewrite (load_agree _ _ _ E). Qed.
Lemma elements_dom (s : slice) (h : heap) (xs : list T) : elements s h = Some xs -> s_ptr s ∈ dom h.
Proof. unfold elements. destruct (load (s_ptr s) h) eqn:E; [|done]. intros _. by apply load_dom in E. Qed.

Lemma Forall3_rep_agree {V} (R : representation T V) `{!Rep R} h h' xs vs Fs :
  Forall3 (R h) xs vs Fs -> (forall l, l ∈ ⋃ Fs -> h' !! l = h !! l) -> Forall3 (R h') xs vs Fs.
Proof.
  induction 1 as [|x v F xs vs Fs HR _ IH]; intros Hag; constructor.
  - apply (rep_agree h); [done|]. intros l Hl. apply Hag. simpl. set_solver.
  - apply IH. intros l Hl. apply Hag. simpl. set_solver.
Qed.
Lemma Forall3_rep_dom {V} (R : representation T V) `{!Rep R} h xs vs Fs : Forall3 (R h) xs vs Fs -> ⋃ Fs ⊆ dom h.
Proof.
  induction 1 as [|x v F xs vs Fs HR _ IH]; simpl; [set_solver|]. apply rep_dom in HR. set_solver.
Qed.

#[export] Instance slice_Rep {V} (R : representation T V) `{!Rep R} : Rep (slice_of R).
Proof.
  split.
  - intros h [s|] vs F; [|intros [_ ->]; set_solver]. intros (xs & Fs & He & HR & ->).
    apply elements_dom in He. apply Forall3_rep_dom in HR; [|done]. set_solver.
  - intros h h' [s|] vs F; [|done]. intros (xs & Fs & He & HR & ->) Hag. exists xs, Fs.
    rewrite (elements_agree s h h') by (apply Hag; set_solver). split; [done|]. split; [|done].
    apply (Forall3_rep_agree R h); [done|]. intros l Hl. apply Hag. set_solver.
Qed.

Lemma deref_one (l : loc) (h : heap) (x : T) : load l h = Some [x] -> deref l h = Some x.
Proof. unfold deref. by intros ->. Qed.

Lemma copy_pointer_deep : deep (pointer (@flat T)) copy_pointer.
Proof.
  intros h [l|] [v|] F HF; try done.
  - destruct HF as (x & F1 & Hl & [-> ->] & ->). unfold copy_pointer. rewrite (deref_one _ _ _ Hl). simpl.
    eexists _, _, ({[fresh (dom h)]} ∪ ∅). split; [reflexivity|]. pose proof (is_fresh (dom h)). split_and!.
    + by apply alloc_sub.
    + exists v, ∅. split; [apply load_eq|done].
    + set_solver.
  - exists None, h, ∅. simpl in *. set_solver.
Qed.

Lemma Forall3_flat (xs vs : list T) Fs (h : heap) : Forall3 (flat h) xs vs Fs -> xs = vs /\ Fs = replicate (length xs) ∅.
Proof. induction 1 as [|x v F xs vs Fs [-> ->] _ [-> ->]]; done. Qed.
Lemma Forall3_flat_of (xs : list T) (h : heap) : Forall3 (flat h) xs xs (replicate (length xs) ∅).
Proof. induction xs; simpl; constructor; [done|done]. Qed.
Lemma union_empties n : ⋃ (replicate n (∅ : gset loc)) = ∅.
Proof. induction n as [|n IH]; simpl; [done|]. rewrite IH. set_solver. Qed.

Lemma elements_length (s : slice) (h : heap) (xs : list T) : elements s h = Some xs -> length xs = s_len s.
Proof.
  unfold elements. destruct (load (s_ptr s) h); [simpl|done]. destruct (decide _); [|done]. intros [= <-].
  rewrite length_take, length_drop. lia.
Qed.
Lemma elements_whole (l : loc) (h : heap) (xs : list T) :
  load l h = Some xs -> elements (mkSliceHeader l 0 (length xs)) h = Some xs.
Proof. unfold elements. simpl. intros ->. simpl. rewrite decide_True by lia. by rewrite drop_0, take_ge. Qed.

Lemma copy_flat_deep : deep (slice_of (@flat T)) copy_flat.
Proof.
  intros h [s|] vs F.
  - intros (xs & Fs & He & HR & ->). destruct (Forall3_flat _ _ _ _ HR) as [-> ->]. unfold copy_flat. rewrite He. simpl.
    eexists _, _, _. split; [reflexivity|]. pose proof (is_fresh (dom h)). split_and!; [by apply alloc_sub| |].
    + exists vs, (replicate (length vs) ∅). rewrite <- (elements_length _ _ _ He). split; [apply elements_whole, load_eq|].
      split; [apply Forall3_flat_of|reflexivity].
    + simpl. rewrite union_empties. set_solver.
  - intros [-> ->]. exists None, h, ∅. set_solver.
Qed.

Lemma index_elements (s : slice) (h : heap) (xs : list T) i :
  elements s h = Some xs -> i < length xs -> index s i h = xs !! i.
Proof.
  intros He Hi. pose proof (elements_length _ _ _ He) as Hlen. revert He. unfold elements, index.
  destruct (load (s_ptr s) h) as [ys|]; [simpl|done]. destruct (decide _); [|done]. intros [= <-].
  rewrite lookup_take_lt by lia. by rewrite lookup_drop.
Qed.

Lemma store_ok (l : loc) i (x : T) (h : heap) xs :
  load l h = Some xs -> i < length xs -> store l i x h = Some (<[l := to_cell (<[i := x]> xs)]> h).
Proof. unfold store. intros -> Hi. simpl. by rewrite decide_True. Qed.

Lemma load_mono (l : loc) (h h' : heap) (xs : list T) : h ⊆ h' -> load l h = Some xs -> load l h' = Some xs.
Proof.
  unfold load. intros Hs. destruct (h !! l) as [c|] eqn:E; [|done]. by rewrite (lookup_weaken h h' l c E Hs).
Qed.
Lemma elements_mono (s : slice) (h h' : heap) (xs : list T) : h ⊆ h' -> elements s h = Some xs -> elements s h' = Some xs.
Proof.
  unfold elements. intros Hs. destruct (load (s_ptr s) h) eqn:E; [|done]. by rewrite (load_mono _ h h' _ Hs E).
Qed.
Lemma sub_insert (l : loc) c (h h' : heap) : h ⊆ h' -> l ∉ dom h -> h ⊆ <[l := c]> h'.
Proof. intros Hs Hl. etransitivity; [|by apply insert_subseteq_r; [apply not_elem_of_dom|exact Hs]]. done. Qed.

Section deep_elements.
Context {V : Type} (R : representation T V) `{!Rep R} (into : T -> heap -> option (T * heap)) (zero : T).
Context (Hinto : deep R into).

(** The loop, from index [i] on: the elements copied so far are [ds]. *)
Lemma copy_range_ok (h0 : heap) s xs vs Fs out :
  elements s h0 = Some xs -> Forall3 (R h0) xs vs Fs -> out ∉ dom h0 ->
  forall n (h : heap) ds Ds,
    length ds + n = length xs -> h0 ⊆ h -> load out h = Some (ds ++ replicate n zero) ->
    Forall3 (R h) ds (take (length ds) vs) Ds -> ⋃ Ds ## {[out]} ∪ dom h0 ->
    exists h' ys Ds', copy_range into s out (length ds) n h = Some h' /\ h0 ⊆ h' /\ load out h' = Some ys
      /\ length ys = length xs /\ Forall3 (R h') ys vs Ds' /\ ⋃ Ds' ## {[out]} ∪ dom h0.
Proof.
  intros He HF Hout. induction n as [|n IH]; intros h ds Ds Hlen Hsub Hload HD Hdis.
  - exists h, ds, Ds. rewrite app_nil_r in Hload. rewrite take_ge in HD; [|by rewrite <- (Forall3_length_lm _ _ _ _ HF); lia].
    split_and!; try done. lia.
  - set (i := length ds) in *. assert (i < length xs) as Hi by lia.
    destruct (lookup_lt_is_Some_2 xs i Hi) as [x Hx]. destruct (Forall3_lookup_l _ _ _ _ _ _ HF Hx) as (v & F & Hv & HFi & HR).
    destruct (Hinto h x v F) as (y & h1 & F1 & Ey & Hs1 & HR1 & Hd1); [by apply (rep_mono R h0)|].
    pose proof (load_mono _ _ _ _ Hs1 Hload) as Hl1. pose proof (load_dom _ _ _ Hload) as Hod.
    assert (length (ds ++ replicate (S n) zero) = length xs) as Hlen1 by (rewrite length_app, length_replicate; lia).
    simpl. rewrite (index_elements s h xs i), Hx by (done || by eapply elements_mono). simpl. rewrite Ey. simpl.
    rewrite (store_ok out i y h1 _ Hl1) by lia. simpl.
    assert (<[i:=y]> (ds ++ zero :: replicate n zero) = (ds ++ [y]) ++ replicate n zero) as ->.
    { unfold i. rewrite insert_app_r_alt, Nat.sub_diag by done. simpl. by rewrite <- app_assoc. }
    set (h2 := <[out := _]> h1).
    assert (forall l, l <> out -> h2 !! l = h1 !! l) as Hag by (intros l Hl; by apply lookup_insert_ne).
    replace (S i) with (length (ds ++ [y])) by (rewrite length_app; simpl; unfold i; lia).
    apply (IH h2 (ds ++ [y]) (Ds ++ [F1])).
    + rewrite length_app. simpl. unfold i in *. lia.
    + apply sub_insert; [by etransitivity|done].
    + apply load_eq.
    + assert (take (length (ds ++ [y])) vs = take i vs ++ [v]) as ->.
      { rewrite length_app. simpl. rewrite Nat.add_1_r. by apply take_S_r. }
      apply Forall3_app.
      * apply (Forall3_rep_agree R h); [done|]. intros l Hl. rewrite Hag by set_solver.
        assert (l ∈ dom h) as [c Hc]%elem_of_dom by (by apply (Forall3_rep_dom R h _ _ _ HD)). by rewrite Hc, (lookup_weaken h h1 l c).
      * constructor; [|constructor]. apply (rep_agree h1); [done|]. intros l Hl. apply Hag. set_solver.
    + rewrite union_list_app. simpl. pose proof (subseteq_dom _ _ Hsub). set_solver.
Qed.

Lemma copy_slice_deep : deep (slice_of R) (copy_slice into zero).
Proof.
  intros h [s|] vs F.
  - intros (xs & Fs & He & HF & ->). unfold copy_slice. simpl. set (l := fresh (dom h)).
    pose proof (is_fresh (dom h) : l ∉ dom h) as Hl. set (h1 := <[l := _]> h).
    destruct (copy_range_ok h s xs vs Fs l He HF Hl (s_len s) h1 [] []) as (h' & ys & Ds & E & Hs & Hld & Hlen & HR & Hd).
    + simpl. by rewrite (elements_length _ _ _ He).
    + by apply alloc_sub.
    + apply load_eq.
    + constructor.
    + simpl. set_solver.
    + simpl in E. rewrite E. simpl. eexists _, h', _. split; [reflexivity|]. split; [done|]. split.
      * exists ys, Ds. rewrite <- (elements_length _ _ _ He), <- Hlen. split; [by apply elements_whole|]. split; [done|reflexivity].
      * simpl. set_solver.
  - intros [-> ->]. exists None, h, ∅. set_solver.
Qed.

Lemma deep_copy_deep : deep (pointer R) (deep_copy into zero).
Proof.
  intros h [l|] [v|] F HF; try done.
  - destruct HF as (x & F1 & Hl & HR & ->). unfold deep_copy. rewrite (deref_one _ _ _ Hl). simpl.
    set (out := fresh (dom h)). pose proof (is_fresh (dom h) : out ∉ dom h) as Ho. set (h1 := <[out := _]> h).
    pose proof (alloc_sub out (to_cell [zero]) h Ho : h ⊆ h1) as Hs1.
    destruct (Hinto h1 x v F1) as (y & h2 & F2 & E & Hs2 & HR2 & Hd2); [by apply (rep_mono R h)|]. rewrite E. simpl.
    assert (load out h2 = Some [zero]) as Hl2 by (apply (load_mono _ h1); [done|apply load_eq]).
    rewrite (store_ok out 0 y h2 _ Hl2) by (simpl; lia). simpl. set (h3 := <[out := _]> h2).
    assert (out ∈ dom h1) as Hin by (unfold h1; set_solver).
    eexists _, h3, ({[out]} ∪ F2). split; [reflexivity|]. split_and!.
    + apply sub_insert; [by etransitivity|done].
    + exists y, F2. split; [apply load_eq|]. split; [|done]. apply (rep_agree h2); [done|].
      intros k Hk. apply lookup_insert_ne. set_solver.
    + pose proof (subseteq_dom _ _ Hs1). set_solver.
  - exists None, h, ∅. simpl in *. set_solver.
Qed.
End deep_elements.
End boxed.

Lemma sub_refl (h : heap) : h ⊆ h.
Proof. reflexivity. Qed.

(** A struct is unaffected by what is written elsewhere; [w ∪ h] is the memory
    [h] overwritten by [w]. *)
Lemma rep_elsewhere {T V} (R : representation T V) `{!Rep R} h w x v F :
  R h x v F -> dom w ## F -> R (w ∪ h) x v F.
Proof.
  intros HR Hd. apply (rep_agree h); [done|]. intros l Hl. apply lookup_union_r, not_elem_of_dom. set_solver.
Qed.

Lemma rep_insert {T V} (R : representation T V) `{!Rep R} h l c x v F :
  R h x v F -> l ∉ F -> R (<[l := c]> h) x v F.
Proof. intros HR Hl. apply (rep_agree h); [done|]. intros k Hk. apply lookup_insert_ne. set_solver. Qed.

(** A deep copy and its original are independent. *)
Lemma deep_independent {T V} (R : representation T V) `{!Rep R} copy h x v F :
  deep R copy -> R h x v F ->
  exists y h' F', copy x h = Some (y, h') /\ h ⊆ h' /\ F ## F'
    /\ (forall w, dom w ## F' -> R (w ∪ h') y v F') /\ (forall w, dom w ## F -> R (w ∪ h') x v F).
Proof.
  intros Hd HR. destruct (Hd _ _ _ _ HR) as (y & h' & F' & E & Hs & HR' & Hdis). exists y, h', F'.
  pose proof (rep_dom _ _ _ _ HR). split_and!; try done; [set_solver| |].
  - intros w Hw. by apply rep_elsewhere.
  - intros w Hw. apply rep_elsewhere; [done| |done]. by apply (rep_mono _ h).
Qed.

(** One field after others: the struct was read in [h0], the copy starts in [h]. *)
Lemma deep_step {T V} (R : representation T V) `{!Rep R} copy h0 h x v F :
  deep R copy -> R h0 x v F -> h0 ⊆ h ->
  exists y h' F', copy x h = Some (y, h') /\ h0 ⊆ h' /\ h ⊆ h' /\ R h' y v F' /\ F' ## dom h0.
Proof.
  intros Hd HR Hs. destruct (Hd h x v F) as (y & h' & F' & E & Hs' & HR' & Hd'); [by apply (rep_mono R h0)|].
  exists y, h', F'. split_and!; try done; [by etransitivity|]. apply subseteq_dom in Hs. set_solver.
Qed.
End values.

(** Copy the next field by [lem] and name what is known of it. *)
Ltac copy_field lem HR Hs y h F E Hs' Hm R' D :=
  destruct (deep_step _ _ _ _ _ _ _ lem HR Hs) as (y & h & F & E & Hs' & Hm & R' & D).
