(* ===== verification/DeepCopy.v ===== *)
(** * Deep copies of the resource ([operator/api/v1alpha1/zz_generated.deepcopy.go])

    The structs of [Types.v] as they lie in memory, where several may share an
    array, and the generated copies of them.  The copies of the metadata and of
    times belong to apimachinery: they are parameters, which are assumed to be
    deep. *)

From S2P Require Import Prelude Types Memory.
Local Open Scope nat_scope.

(** ** Structs in memory *)

Record mProbeResponseRule := mkMRule {
  mr_Path : option loc; mr_Headers : option slice; mr_QueryParams : option slice;
  mr_Method : option loc; mr_Response : ProbeResponse
}.
Record mScaleTrigger := mkMTrigger { mt_Type : gostring; mt_Metadata : option slice }.
Record mElastiServiceSpec := mkMSpec {
  ms_ScaleTargetRef : ScaleTargetRef; ms_Service : gostring; ms_ProbeResponse : option slice;
  ms_MinTargetReplicas : Z; ms_CooldownPeriod : Z; ms_Triggers : option slice;
  ms_Autoscaler : option loc; ms_EnabledPeriod : option loc
}.

Section structs.
(** [metav1.Time], [metav1.ObjectMeta] and [metav1.ListMeta] as they lie in memory. *)
Context (Time Meta ListMeta : Type).

Record mElastiServiceStatus := mkMStatus {
  mst_LastReconciledTime : Time; mst_LastScaledUpTime : option loc; mst_Mode : gostring
}.
(** [TypeMeta] has two strings. *)
Record mElastiService := mkMService {
  me_TypeMeta : gostring * gostring; me_ObjectMeta : Meta; me_Spec : mElastiServiceSpec; me_Status : mElastiServiceStatus
}.
Record mElastiServiceList := mkMList {
  ml_TypeMeta : gostring * gostring; ml_ListMeta : ListMeta; ml_Items : option slice
}.

(** An allocated array; [new(T)] is an array of one element.  The metadata may
    have memory of its own. *)
Inductive cell :=
| CAutoscaler (l : list AutoscalerSpec) | CPeriod (l : list EnabledPeriod) | CResponse (l : list ProbeResponse)
| CValueMatch (l : list ProbeResponseValueMatch) | CPath (l : list ProbeResponsePathMatch)
| CTargetRef (l : list ScaleTargetRef) | CString (l : list gostring) | CBytes (l : list ascii)
| CTime (l : list Time) | CRule (l : list mProbeResponseRule) | CTrigger (l : list mScaleTrigger)
| CSpec (l : list mElastiServiceSpec) | CStatus (l : list mElastiServiceStatus)
| CService (l : list mElastiService) | CList (l : list mElastiServiceList).
End structs.

Arguments mkMStatus {Time}.
Arguments mst_LastReconciledTime {Time}.
Arguments mst_LastScaledUpTime {Time}.
Arguments mst_Mode {Time}.
Arguments mkMService {Time Meta}.
Arguments me_TypeMeta {Time Meta}.
Arguments me_ObjectMeta {Time Meta}.
Arguments me_Spec {Time Meta}.
Arguments me_Status {Time Meta}.
Arguments mkMList {ListMeta}.
Arguments ml_TypeMeta {ListMeta}.
Arguments ml_ListMeta {ListMeta}.
Arguments ml_Items {ListMeta}.


(** ** The generated code *)

Section generated.
Context {Time Meta ListMeta : Type}.
Abbreviation Cell := (cell Time Meta ListMeta).
Abbreviation heap := (gmap loc Cell).

#[export] Instance Boxed_Autoscaler : Boxed Cell AutoscalerSpec :=
  {| to_cell := CAutoscaler _ _ _; of_cell c := match c with CAutoscaler _ _ _ l => Some l | _ => None end; of_to_cell _ := eq_refl |}.
#[export] Instance Boxed_Period : Boxed Cell EnabledPeriod :=
  {| to_cell := CPeriod _ _ _; of_cell c := match c with CPeriod _ _ _ l => Some l | _ => None end; of_to_cell _ := eq_refl |}.
#[export] Instance Boxed_Response : Boxed Cell ProbeResponse :=
  {| to_cell := CResponse _ _ _; of_cell c := match c with CResponse _ _ _ l => Some l | _ => None end; of_to_cell _ := eq_refl |}.
#[export] Instance Boxed_ValueMatch : Boxed Cell ProbeResponseValueMatch :=
  {| to_cell := CValueMatch _ _ _; of_cell c := match c with CValueMatch _ _ _ l => Some l | _ => None end; of_to_cell _ := eq_refl |}.
#[export] Instance Boxed_Path : Boxed Cell ProbeResponsePathMatch :=
  {| to_cell := CPath _ _ _; of_cell c := match c with CPath _ _ _ l => Some l | _ => None end; of_to_cell _ := eq_refl |}.
#[export] Instance Boxed_TargetRef : Boxed Cell ScaleTargetRef :=
  {| to_cell := CTargetRef _ _ _; of_cell c := match c with CTargetRef _ _ _ l => Some l | _ => None end; of_to_cell _ := eq_refl |}.
#[export] Instance Boxed_String : Boxed Cell gostring :=
  {| to_cell := CString _ _ _; of_cell c := match c with CString _ _ _ l => Some l | _ => None end; of_to_cell _ := eq_refl |}.
#[export] Instance Boxed_Byte : Boxed Cell ascii :=
  {| to_cell := CBytes _ _ _; of_cell c := match c with CBytes _ _ _ l => Some l | _ => None end; of_to_cell _ := eq_refl |}.
#[export] Instance Boxed_Time : Boxed Cell Time :=
  {| to_cell := CTime _ _ _; of_cell c := match c with CTime _ _ _ l => Some l | _ => None end; of_to_cell _ := eq_refl |}.
#[export] Instance Boxed_Rule : Boxed Cell mProbeResponseRule :=
  {| to_cell := CRule _ _ _; of_cell c := match c with CRule _ _ _ l => Some l | _ => None end; of_to_cell _ := eq_refl |}.
#[export] Instance Boxed_Trigger : Boxed Cell mScaleTrigger :=
  {| to_cell := CTrigger _ _ _; of_cell c := match c with CTrigger _ _ _ l => Some l | _ => None end; of_to_cell _ := eq_refl |}.
#[export] Instance Boxed_Spec : Boxed Cell mElastiServiceSpec :=
  {| to_cell := CSpec _ _ _; of_cell c := match c with CSpec _ _ _ l => Some l | _ => None end; of_to_cell _ := eq_refl |}.
#[export] Instance Boxed_Status : Boxed Cell (mElastiServiceStatus Time) :=
  {| to_cell := CStatus _ _ _; of_cell c := match c with CStatus _ _ _ l => Some l | _ => None end; of_to_cell _ := eq_refl |}.
#[export] Instance Boxed_Service : Boxed Cell (mElastiService Time Meta) :=
  {| to_cell := CService _ _ _; of_cell c := match c with CService _ _ _ l => Some l | _ => None end; of_to_cell _ := eq_refl |}.
#[export] Instance Boxed_List : Boxed Cell (mElastiServiceList ListMeta) :=
  {| to_cell := CList _ _ _; of_cell c := match c with CList _ _ _ l => Some l | _ => None end; of_to_cell _ := eq_refl |}.

(** The copies of apimachinery: [Time.DeepCopyInto], [( *Time).DeepCopy],
    [ObjectMeta.DeepCopyInto], [ListMeta.DeepCopyInto]; and the zero values that
    [new] and [make] fill memory with. *)
Context (Time_DeepCopyInto : Time -> heap -> option (Time * heap))
  (Time_DeepCopy : option loc -> heap -> option (option loc * heap))
  (ObjectMeta_DeepCopyInto : Meta -> heap -> option (Meta * heap))
  (ListMeta_DeepCopyInto : ListMeta -> heap -> option (ListMeta * heap))
  (zero_time : Time) (zero_meta : Meta) (zero_list_meta : ListMeta).

(** [*out = *in] *)
Definition assign {T} (in_ : T) (h : heap) : option (T * heap) := Some (in_, h).

Definition AutoscalerSpec_DeepCopyInto := @assign AutoscalerSpec.
Definition AutoscalerSpec_DeepCopy := deep_copy AutoscalerSpec_DeepCopyInto (mkAutoscaler [] []).
Definition EnabledPeriod_DeepCopyInto := @assign EnabledPeriod.
Definition EnabledPeriod_DeepCopy := deep_copy EnabledPeriod_DeepCopyInto (mkEnabledPeriod [] []).
Definition ProbeResponse_DeepCopyInto := @assign ProbeResponse.
Definition ProbeResponse_DeepCopy := deep_copy ProbeResponse_DeepCopyInto (mkProbeResponse 0 []).
Definition ProbeResponseHeaderMatch_DeepCopyInto := @assign ProbeResponseHeaderMatch.
Definition ProbeResponseHeaderMatch_DeepCopy := deep_copy ProbeResponseHeaderMatch_DeepCopyInto (mkValueMatch [] [] []).
Definition ProbeResponsePathMatch_DeepCopyInto := @assign ProbeResponsePathMatch.
Definition ProbeResponsePathMatch_DeepCopy := deep_copy ProbeResponsePathMatch_DeepCopyInto (mkPathMatch [] []).
Definition ProbeResponseQueryParamMatch_DeepCopyInto := @assign ProbeResponseQueryParamMatch.
Definition ProbeResponseQueryParamMatch_DeepCopy := deep_copy ProbeResponseQueryParamMatch_DeepCopyInto (mkValueMatch [] [] []).
Definition ScaleTargetRef_DeepCopyInto := @assign ScaleTargetRef.
Definition ScaleTargetRef_DeepCopy := deep_copy ScaleTargetRef_DeepCopyInto (mkScaleTargetRef [] [] []).

Definition zero_rule : mProbeResponseRule := mkMRule None None None None (mkProbeResponse 0 []).
Definition ProbeResponseRule_DeepCopyInto (in_ : mProbeResponseRule) (h : heap) : option (mProbeResponseRule * heap) :=
  '(path, h) ← copy_pointer (T := ProbeResponsePathMatch) (mr_Path in_) h;
  '(headers, h) ← copy_flat (T := ProbeResponseHeaderMatch) (mr_Headers in_) h;
  '(queryParams, h) ← copy_flat (T := ProbeResponseQueryParamMatch) (mr_QueryParams in_) h;
  '(method, h) ← copy_pointer (T := gostring) (mr_Method in_) h;
  Some (mkMRule path headers queryParams method (mr_Response in_), h).
Definition ProbeResponseRule_DeepCopy := deep_copy ProbeResponseRule_DeepCopyInto zero_rule.

Definition zero_trigger : mScaleTrigger := mkMTrigger [] None.
Definition ScaleTrigger_DeepCopyInto (in_ : mScaleTrigger) (h : heap) : option (mScaleTrigger * heap) :=
  '(metadata, h) ← copy_flat (T := ascii) (mt_Metadata in_) h;
  Some (mkMTrigger (mt_Type in_) metadata, h).
Definition ScaleTrigger_DeepCopy := deep_copy ScaleTrigger_DeepCopyInto zero_trigger.

Definition zero_spec : mElastiServiceSpec := mkMSpec (mkScaleTargetRef [] [] []) [] None 0 0 None None None.
Definition ElastiServiceSpec_DeepCopyInto (in_ : mElastiServiceSpec) (h : heap) : option (mElastiServiceSpec * heap) :=
  '(probeResponse, h) ← copy_slice ProbeResponseRule_DeepCopyInto zero_rule (ms_ProbeResponse in_) h;
  '(triggers, h) ← copy_slice ScaleTrigger_DeepCopyInto zero_trigger (ms_Triggers in_) h;
  '(autoscaler, h) ← copy_pointer (T := AutoscalerSpec) (ms_Autoscaler in_) h;
  '(enabledPeriod, h) ← copy_pointer (T := EnabledPeriod) (ms_EnabledPeriod in_) h;
  Some (mkMSpec (ms_ScaleTargetRef in_) (ms_Service in_) probeResponse (ms_MinTargetReplicas in_)
          (ms_CooldownPeriod in_) triggers autoscaler enabledPeriod, h).
Definition ElastiServiceSpec_DeepCopy := deep_copy ElastiServiceSpec_DeepCopyInto zero_spec.

Definition zero_status : mElastiServiceStatus Time := mkMStatus zero_time None [].
Definition ElastiServiceStatus_DeepCopyInto (in_ : mElastiServiceStatus Time) (h : heap)
    : option (mElastiServiceStatus Time * heap) :=
  '(reconciled, h) ← Time_DeepCopyInto (mst_LastReconciledTime in_) h;
  '(scaledUp, h) ← match mst_LastScaledUpTime in_ with
                   | None => Some (None, h)
                   | Some p => Time_DeepCopy (Some p) h
                   end;
  Some (mkMStatus reconciled scaledUp (mst_Mode in_), h).
Definition ElastiServiceStatus_DeepCopy := deep_copy ElastiServiceStatus_DeepCopyInto zero_status.

Definition zero_service : mElastiService Time Meta := mkMService ([], []) zero_meta zero_spec zero_status.
Definition ElastiService_DeepCopyInto (in_ : mElastiService Time Meta) (h : heap) : option (mElastiService Time Meta * heap) :=
  '(meta, h) ← ObjectMeta_DeepCopyInto (me_ObjectMeta in_) h;
  '(spec, h) ← ElastiServiceSpec_DeepCopyInto (me_Spec in_) h;
  '(status, h) ← ElastiServiceStatus_DeepCopyInto (me_Status in_) h;
  Some (mkMService (me_TypeMeta in_) meta spec status, h).
Definition ElastiService_DeepCopy := deep_copy ElastiService_DeepCopyInto zero_service.

Definition zero_list : mElastiServiceList ListMeta := mkMList ([], []) zero_list_meta None.
Definition ElastiServiceList_DeepCopyInto (in_ : mElastiServiceList ListMeta) (h : heap)
    : option (mElastiServiceList ListMeta * heap) :=
  '(meta, h) ← ListMeta_DeepCopyInto (ml_ListMeta in_) h;
  '(items, h) ← copy_slice ElastiService_DeepCopyInto zero_service (ml_Items in_) h;
  Some (mkMList (ml_TypeMeta in_) meta items, h).
Definition ElastiServiceList_DeepCopy := deep_copy ElastiServiceList_DeepCopyInto zero_list.

(** The object as an interface value, which is nil when the pointer is. *)
Inductive runtime_Object := ObjectService (p : loc) | ObjectList (p : loc).

Definition ElastiService_DeepCopyObject (in_ : option loc) (h : heap) : option (option runtime_Object * heap) :=
  '(c, h) ← ElastiService_DeepCopy in_ h;
  Some (match c with Some p => Some (ObjectService p) | None => None end, h).
Definition ElastiServiceList_DeepCopyObject (in_ : option loc) (h : heap) : option (option runtime_Object * heap) :=
  '(c, h) ← ElastiServiceList_DeepCopy in_ h;
  Some (match c with Some p => Some (ObjectList p) | None => None end, h).

(** [updateCRDStatus] between its read and its patch: the object is copied as
    the base of the patch, then changed in place. *)
Definition status_changed (now : Time) (mode : gostring) (x : mElastiService Time Meta) : mElastiService Time Meta :=
  mkMService (me_TypeMeta x) (me_ObjectMeta x) (me_Spec x) (mkMStatus now (mst_LastScaledUpTime (me_Status x)) mode).
Definition updateCRDStatus_change (es : loc) (now : Time) (mode : gostring) (h : heap) : option (option loc * heap) :=
  '(original, h) ← ElastiService_DeepCopy (Some es) h;
  x ← deref es h;
  h ← store es 0 (status_changed now mode x) h;
  Some (original, h).

(** ** What the structs stand for *)

Definition rule_rep : representation (Cell := Cell) mProbeResponseRule ProbeResponseRule := fun h r v F =>
  exists F1 F2 F3 F4,
    pointer flat h (mr_Path r) (rule_Path v) F1 /\ slice_of flat h (mr_Headers r) (rule_Headers v) F2
    /\ slice_of flat h (mr_QueryParams r) (rule_QueryParams v) F3 /\ pointer flat h (mr_Method r) (rule_Method v) F4
    /\ mr_Response r = rule_Response v /\ F = F1 ∪ F2 ∪ F3 ∪ F4.

Definition trigger_rep : representation (Cell := Cell) mScaleTrigger ScaleTrigger := fun h t v F =>
  slice_of (flat (T := ascii)) h (mt_Metadata t) (trig_Metadata v) F /\ mt_Type t = trig_Type v.

Definition spec_rep : representation (Cell := Cell) mElastiServiceSpec ElastiServiceSpec := fun h m v F =>
  exists F1 F2 F3 F4,
    slice_of rule_rep h (ms_ProbeResponse m) (spec_ProbeResponse v) F1
    /\ slice_of trigger_rep h (ms_Triggers m) (spec_Triggers v) F2
    /\ pointer flat h (ms_Autoscaler m) (spec_Autoscaler v) F3
    /\ pointer flat h (ms_EnabledPeriod m) (spec_EnabledPeriod v) F4
    /\ (ms_ScaleTargetRef m, ms_Service m, ms_MinTargetReplicas m, ms_CooldownPeriod m)
        = (spec_ScaleTargetRef v, spec_Service v, spec_MinTargetReplicas v, spec_CooldownPeriod v)
    /\ F = F1 ∪ F2 ∪ F3 ∪ F4.

(** What times and metadata stand for. *)
Context {MetaV ListMetaV : Type} (time_rep : representation (Cell := Cell) Time Z)
  (meta_rep : representation (Cell := Cell) Meta MetaV) (list_meta_rep : representation (Cell := Cell) ListMeta ListMetaV).

Definition status_rep : representation (Cell := Cell) (mElastiServiceStatus Time) ElastiServiceStatus := fun h m v F =>
  exists F1 F2,
    time_rep h (mst_LastReconciledTime m) (st_LastReconciledTime v) F1
    /\ pointer time_rep h (mst_LastScaledUpTime m) (st_LastScaledUpTime v) F2
    /\ mst_Mode m = st_Mode v /\ F = F1 ∪ F2.

(** A whole object: type, metadata, spec and status. *)
Abbreviation object := ((gostring * gostring) * MetaV * ElastiServiceSpec * ElastiServiceStatus)%type.

Definition service_rep : representation (Cell := Cell) (mElastiService Time Meta) object := fun h m '(ty, meta, spec, status) F =>
  exists F1 F2 F3,
    meta_rep h (me_ObjectMeta m) meta F1 /\ spec_rep h (me_Spec m) spec F2 /\ status_rep h (me_Status m) status F3
    /\ me_TypeMeta m = ty /\ F = F1 ∪ F2 ∪ F3.

Definition list_rep : representation (Cell := Cell) (mElastiServiceList ListMeta) ((gostring * gostring) * ListMetaV * list object) :=
  fun h m '(ty, meta, items) F =>
    exists F1 F2, list_meta_rep h (ml_ListMeta m) meta F1 /\ slice_of service_rep h (ml_Items m) items F2
      /\ ml_TypeMeta m = ty /\ F = F1 ∪ F2.
End generated.

(** ** Lemmas *)

(** A part stands for the same in a memory that agrees on what it reaches. *)
Ltac part_agree h Hag := apply (rep_agree h); [done|intros ? ?; apply Hag; set_solver].

Section proofs.
Context {Time Meta ListMeta : Type}.
Abbreviation Cell := (cell Time Meta ListMeta).
Abbreviation heap := (gmap loc Cell).

#[export] Instance rule_Rep : Rep (@rule_rep Time Meta ListMeta).
Proof.
  split.
  - intros h r v F (F1 & F2 & F3 & F4 & H1 & H2 & H3 & H4 & _ & ->).
    apply rep_dom in H1, H2, H3, H4. set_solver.
  - intros h h' r v F (F1 & F2 & F3 & F4 & H1 & H2 & H3 & H4 & ? & ->) Hag. exists F1, F2, F3, F4.
    split_and!; try done; part_agree h Hag.
Qed.
#[export] Instance trigger_Rep : Rep (@trigger_rep Time Meta ListMeta).
Proof.
  split; [intros h t v F [H1 _]; by apply rep_dom in H1|].
  intros h h' t v F [H1 ?] Hag. split; [part_agree h Hag|done].
Qed.
#[export] Instance spec_Rep : Rep (@spec_rep Time Meta ListMeta).
Proof.
  split.
  - intros h r v F (F1 & F2 & F3 & F4 & H1 & H2 & H3 & H4 & _ & ->).
    apply rep_dom in H1, H2, H3, H4. set_solver.
  - intros h h' r v F (F1 & F2 & F3 & F4 & H1 & H2 & H3 & H4 & ? & ->) Hag. exists F1, F2, F3, F4.
    split_and!; try done; part_agree h Hag.
Qed.

Lemma rule_deep : deep rule_rep (@ProbeResponseRule_DeepCopyInto Time Meta ListMeta).
Proof.
  intros h r v F (F1 & F2 & F3 & F4 & H1 & H2 & H3 & H4 & Hr & ->). unfold ProbeResponseRule_DeepCopyInto. pose proof (sub_refl h) as S0.
  copy_field (copy_pointer_deep (Cell := Cell) (T := ProbeResponsePathMatch)) H1 S0 y1 h1 G1 E1 S1 M1 R1 D1.
  copy_field (copy_flat_deep (Cell := Cell) (T := ProbeResponseHeaderMatch)) H2 S1 y2 h2 G2 E2 S2 M2 R2 D2.
  copy_field (copy_flat_deep (Cell := Cell) (T := ProbeResponseQueryParamMatch)) H3 S2 y3 h3 G3 E3 S3 M3 R3 D3.
  copy_field (copy_pointer_deep (Cell := Cell) (T := gostring)) H4 S3 y4 h4 G4 E4 S4 M4 R4 D4.
  rewrite E1. simpl. rewrite E2. simpl. rewrite E3. simpl. rewrite E4. simpl.
  eexists _, h4, (G1 ∪ G2 ∪ G3 ∪ G4). split; [reflexivity|]. split; [done|]. split; [|set_solver].
  exists G1, G2, G3, G4. simpl. split_and!; try done.
  - apply (rep_mono _ h1); [done|]. by etransitivity; [|etransitivity].
  - apply (rep_mono _ h2); [done|]. by etransitivity.
  - by apply (rep_mono _ h3).
Qed.

Lemma trigger_deep : deep trigger_rep (@ScaleTrigger_DeepCopyInto Time Meta ListMeta).
Proof.
  intros h t v F [H1 Ht]. unfold ScaleTrigger_DeepCopyInto. pose proof (sub_refl h) as S0.
  copy_field (copy_flat_deep (Cell := Cell) (T := ascii)) H1 S0 y1 h1 G1 E1 S1 M1 R1 D1.
  rewrite E1. simpl. by eexists _, h1, G1.
Qed.

Lemma spec_deep : deep spec_rep (@ElastiServiceSpec_DeepCopyInto Time Meta ListMeta).
Proof.
  intros h m v F (F1 & F2 & F3 & F4 & H1 & H2 & H3 & H4 & Hr & ->). unfold ElastiServiceSpec_DeepCopyInto. pose proof (sub_refl h) as S0.
  copy_field (copy_slice_deep _ _ zero_rule rule_deep) H1 S0 y1 h1 G1 E1 S1 M1 R1 D1.
  copy_field (copy_slice_deep _ _ zero_trigger trigger_deep) H2 S1 y2 h2 G2 E2 S2 M2 R2 D2.
  copy_field (copy_pointer_deep (Cell := Cell) (T := AutoscalerSpec)) H3 S2 y3 h3 G3 E3 S3 M3 R3 D3.
  copy_field (copy_pointer_deep (Cell := Cell) (T := EnabledPeriod)) H4 S3 y4 h4 G4 E4 S4 M4 R4 D4.
  rewrite E1. simpl. rewrite E2. simpl. rewrite E3. simpl. rewrite E4. simpl.
  eexists _, h4, (G1 ∪ G2 ∪ G3 ∪ G4). split; [reflexivity|]. split; [done|]. split; [|set_solver].
  exists G1, G2, G3, G4. simpl. split_and!; try done.
  - apply (rep_mono _ h1); [done|]. by etransitivity; [|etransitivity].
  - apply (rep_mono _ h2); [done|]. by etransitivity.
  - by apply (rep_mono _ h3).
Qed.

(** What the code relies on: the copies of apimachinery are deep. *)
Section status.
Context (time_rep : representation (Cell := Cell) Time Z) `{!Rep time_rep}.
Context (Time_DeepCopyInto : Time -> heap -> option (Time * heap)) (Htime : deep time_rep Time_DeepCopyInto)
  (Time_DeepCopy : option loc -> heap -> option (option loc * heap)) (Htimep : deep (pointer time_rep) Time_DeepCopy).

#[export] Instance status_Rep : Rep (status_rep time_rep).
Proof.
  split.
  - intros h r v F (F1 & F2 & H1 & H2 & _ & ->). apply rep_dom in H1, H2. set_solver.
  - intros h h' r v F (F1 & F2 & H1 & H2 & ? & ->) Hag. exists F1, F2. split_and!; try done; part_agree h Hag.
Qed.
Lemma status_deep : deep (status_rep time_rep) (ElastiServiceStatus_DeepCopyInto Time_DeepCopyInto Time_DeepCopy).
Proof.
  intros h m v F (F1 & F2 & H1 & H2 & Hm & ->). unfold ElastiServiceStatus_DeepCopyInto. pose proof (sub_refl h) as S0.
  copy_field Htime H1 S0 y1 h1 G1 E1 S1 M1 R1 D1. copy_field Htimep H2 S1 y2 h2 G2 E2 S2 M2 R2 D2.
  rewrite E1. simpl. destruct (mst_LastScaledUpTime m) as [p|] eqn:Ep.
  - rewrite E2. simpl. eexists _, h2, (G1 ∪ G2). split; [reflexivity|]. split; [done|]. split; [|set_solver].
    exists G1, G2. split_and!; try done. by apply (rep_mono _ h1).
  - simpl. eexists _, h1, (G1 ∪ ∅). split; [reflexivity|]. split; [done|]. split; [|set_solver].
    exists G1, ∅. split_and!; try done. by destruct (st_LastScaledUpTime v).
Qed.


Section service.
Context {MetaV : Type} (meta_rep : representation (Cell := Cell) Meta MetaV) `{!Rep meta_rep}.
Context (ObjectMeta_DeepCopyInto : Meta -> heap -> option (Meta * heap)) (Hmeta : deep meta_rep ObjectMeta_DeepCopyInto).
Context (zero_time : Time) (zero_meta : Meta).

#[export] Instance service_Rep : Rep (service_rep time_rep meta_rep).
Proof.
  split.
  - intros h r [[[ty meta] spec] status] F (F1 & F2 & F3 & H1 & H2 & H3 & _ & ->). apply rep_dom in H1, H2, H3. set_solver.
  - intros h h' r [[[ty meta] spec] status] F (F1 & F2 & F3 & H1 & H2 & H3 & ? & ->) Hag. exists F1, F2, F3.
    split_and!; try done; part_agree h Hag.
Qed.
Lemma service_deep :
  deep (service_rep time_rep meta_rep) (ElastiService_DeepCopyInto Time_DeepCopyInto Time_DeepCopy ObjectMeta_DeepCopyInto).
Proof.
  intros h m [[[ty meta] spec] status] F (F1 & F2 & F3 & H1 & H2 & H3 & Ht & ->). unfold ElastiService_DeepCopyInto. pose proof (sub_refl h) as S0.
  copy_field Hmeta H1 S0 y1 h1 G1 E1 S1 M1 R1 D1. copy_field spec_deep H2 S1 y2 h2 G2 E2 S2 M2 R2 D2.
  copy_field status_deep H3 S2 y3 h3 G3 E3 S3 M3 R3 D3.
  rewrite E1. simpl. rewrite E2. simpl. rewrite E3. simpl.
  eexists _, h3, (G1 ∪ G2 ∪ G3). split; [reflexivity|]. split; [done|]. split; [|set_solver].
  exists G1, G2, G3. simpl. split_and!; try done.
  - apply (rep_mono _ h1); [done|]. by etransitivity.
  - by apply (rep_mono _ h2).
Qed.

Abbreviation object_rep := (pointer (service_rep time_rep meta_rep)).
Abbreviation copy_object :=
  (ElastiService_DeepCopy Time_DeepCopyInto Time_DeepCopy ObjectMeta_DeepCopyInto zero_time zero_meta).

(** ** Properties *)

(** The status patch of the operator has the right base: after [updateCRDStatus]
    has changed the object in place, the copy it made still stands for the object
    as it was read and the object stands for the new status, so that the patch
    holds the time and the mode and nothing else. *)
Theorem status_patch_base h es (x : mElastiService Time Meta) ty meta spec status F now t mode
    (Hes : load es h = Some [x]) (HR : service_rep time_rep meta_rep h x (ty, meta, spec, status) F) (Hown : es ∉ F)
    (Hnow : forall h, time_rep h now t ∅) :
  exists original h' F',
    updateCRDStatus_change Time_DeepCopyInto Time_DeepCopy ObjectMeta_DeepCopyInto zero_time zero_meta es now mode h
      = Some (original, h')
    /\ object_rep h' original (Some (ty, meta, spec, status)) F'
    /\ exists G, object_rep h' (Some es) (Some (ty, meta, spec, mkStatus t (st_LastScaledUpTime status) mode)) G /\ F' ## G.
Proof.
  destruct (deep_copy_deep _ _ (zero_service zero_time zero_meta) service_deep h (Some es) (Some (ty, meta, spec, status))
    ({[es]} ∪ F)) as (q & h1 & F' & E & Hs & HR' & Hdis); [by exists x, F|].
  pose proof (load_dom _ _ _ Hes) as Hdom. pose proof (load_mono _ _ _ _ Hs Hes) as Hes1.
  pose proof (rep_mono _ h h1 _ _ _ HR Hs) as (F1 & F2 & F3 & R1 & R2 & (G1 & G2 & T1 & T2 & _ & ->) & Ht & ->).
  unfold updateCRDStatus_change, ElastiService_DeepCopy. rewrite E. simpl. rewrite (deref_one _ _ _ Hes1). simpl.
  rewrite (store_ok es 0 _ h1 _ Hes1) by (simpl; lia). simpl. eexists q, _, F'. split; [reflexivity|]. split.
  { apply rep_insert; [apply _|done|set_solver]. }
  exists ({[es]} ∪ (F1 ∪ F2 ∪ (∅ ∪ G2))). split.
  - exists (status_changed now mode x), (F1 ∪ F2 ∪ (∅ ∪ G2)). split; [exact (load_eq es [status_changed now mode x] h1)|]. split; [|done].
    exists F1, F2, (∅ ∪ G2). split_and!; [by apply rep_insert; [apply _|..|set_solver]..| |done|done].
    exists ∅, G2. split_and!; [apply Hnow| |done|done]. by apply rep_insert; [apply _|..|set_solver].
  - pose proof (rep_dom _ _ _ _ HR). set_solver.
Qed.

Section list.
Context {ListMetaV : Type} (list_meta_rep : representation (Cell := Cell) ListMeta ListMetaV) `{!Rep list_meta_rep}.
Context (ListMeta_DeepCopyInto : ListMeta -> heap -> option (ListMeta * heap)) (Hlist : deep list_meta_rep ListMeta_DeepCopyInto).
Context (zero_list_meta : ListMeta).

#[export] Instance list_Rep : Rep (list_rep time_rep meta_rep list_meta_rep).
Proof.
  split.
  - intros h r [[ty meta] items] F (F1 & F2 & H1 & H2 & _ & ->). apply rep_dom in H1, H2. set_solver.
  - intros h h' r [[ty meta] items] F (F1 & F2 & H1 & H2 & ? & ->) Hag. exists F1, F2. split_and!; try done; part_agree h Hag.
Qed.

Lemma list_deep :
  deep (list_rep time_rep meta_rep list_meta_rep)
    (ElastiServiceList_DeepCopyInto Time_DeepCopyInto Time_DeepCopy ObjectMeta_DeepCopyInto ListMeta_DeepCopyInto zero_time zero_meta).
Proof.
  intros h m [[ty meta] items] F (F1 & F2 & H1 & H2 & Ht & ->). unfold ElastiServiceList_DeepCopyInto. pose proof (sub_refl h) as S0.
  copy_field Hlist H1 S0 y1 h1 G1 E1 S1 M1 R1 D1.
  copy_field (copy_slice_deep _ _ (zero_service zero_time zero_meta) service_deep) H2 S1 y2 h2 G2 E2 S2 M2 R2 D2.
  rewrite E1. simpl. rewrite E2. simpl. eexists _, h2, (G1 ∪ G2). split; [reflexivity|]. split; [done|]. split; [|set_solver].
  exists G1, G2. simpl. split_and!; try done. by apply (rep_mono _ h1).
Qed.

Abbreviation copy_list := (ElastiServiceList_DeepCopy Time_DeepCopyInto Time_DeepCopy ObjectMeta_DeepCopyInto
  ListMeta_DeepCopyInto zero_time zero_meta zero_list_meta).

(** C12: the generated copies are deep: the copy of an ElastiService or of a list
    of them stands for the same value with every rule, trigger, header, byte and
    time in memory of its own; no memory of the original is written, and later
    writes to either, wherever they go, leave the other as it was.  This holds
    for originals whose parts share memory, and a nil pointer is copied to nil. *)
Theorem deep_copy_is_independent h :
  (forall p v F, object_rep h p v F ->
     exists q h' F', copy_object p h = Some (q, h') /\ h ⊆ h' /\ F ## F'
       /\ (forall w, dom w ## F' -> object_rep (w ∪ h') q v F')
       /\ (forall w, dom w ## F -> object_rep (w ∪ h') p v F))
  /\ (forall p v F, pointer (list_rep time_rep meta_rep list_meta_rep) h p v F ->
     exists q h' F', copy_list p h = Some (q, h') /\ h ⊆ h' /\ F ## F'
       /\ (forall w, dom w ## F' -> pointer (list_rep time_rep meta_rep list_meta_rep) (w ∪ h') q v F')
       /\ (forall w, dom w ## F -> pointer (list_rep time_rep meta_rep list_meta_rep) (w ∪ h') p v F)).
Proof.
  split; intros p v F HR; (apply deep_independent; [apply _|apply deep_copy_deep|done]);
    [apply _|exact service_deep|apply _|exact list_deep].
Qed.

End list.
End service.
End status.
End proofs.

(** ** Witnesses *)

(** Times and metadata without pointers, copied by assignment. *)
Lemma assign_deep {Cell T} : deep (Cell := Cell) (@flat Cell T) (fun x h => Some (x, h)).
Proof. intros h x v F [-> ->]. exists v, h, ∅. split_and!; [done|done|by split|set_solver]. Qed.

(** An object whose two rules share their headers. *)
Definition shared_rule : mProbeResponseRule :=
  mkMRule None (Some (mkSliceHeader 2 0 1)) None None (mkProbeResponse 200 (lit "ok")).
Definition sample_service : mElastiService Z gostring :=
  mkMService (lit "ElastiService", lit "v1alpha1") (lit "es")
    (mkMSpec (mkScaleTargetRef (lit "apps/v1") (lit "Deployment") (lit "web")) (lit "svc")
       (Some (mkSliceHeader 1 0 2)) 1 900 (Some (mkSliceHeader 3 0 1)) (Some 5) None)
    (mkMStatus 7%Z None (lit "serve")).
Definition sample : gmap loc (cell Z gostring unit) :=
  <[0 := CService _ _ _ [sample_service]]> (<[1 := CRule _ _ _ [shared_rule; shared_rule]]>
    (<[2 := CValueMatch _ _ _ [mkValueMatch (lit "A") [] (lit "b")]]>
    (<[3 := CTrigger _ _ _ [mkMTrigger (lit "prometheus") (Some (mkSliceHeader 4 0 2))]]>
    (<[4 := CBytes _ _ _ (lit "{}")]> {[ 5 := CAutoscaler _ _ _ [mkAutoscaler (lit "keda") (lit "so")] ]})))).

Definition sample_rule : ProbeResponseRule :=
  mkProbeRule None [mkValueMatch (lit "A") [] (lit "b")] [] None (mkProbeResponse 200 (lit "ok")).
Definition sample_spec : ElastiServiceSpec :=
  mkSpec (mkScaleTargetRef (lit "apps/v1") (lit "Deployment") (lit "web")) (lit "svc") [sample_rule; sample_rule] 1 900
    [mkScaleTrigger (lit "prometheus") (lit "{}")] (Some (mkAutoscaler (lit "keda") (lit "so"))) None.
Definition sample_status : ElastiServiceStatus := mkStatus 7 None (lit "serve").
Abbreviation sample_value := ((lit "ElastiService", lit "v1alpha1"), lit "es", sample_spec, sample_status).

Lemma sample_rule_rep : rule_rep sample shared_rule sample_rule ({[2]} ∪ ⋃ [∅]).
Proof.
  exists ∅, ({[2]} ∪ ⋃ [∅]), ∅, ∅.
  split; [done|]. split; [|do 3 (split; [done|]); set_solver].
  eexists _, [∅]. split; [reflexivity|]. split; [|done]. by repeat constructor.
Qed.
Lemma sample_trigger_rep :
  trigger_rep sample (mkMTrigger (lit "prometheus") (Some (mkSliceHeader 4 0 2))) (mkScaleTrigger (lit "prometheus") (lit "{}"))
    ({[4]} ∪ ⋃ [∅; ∅]).
Proof. split; [|done]. eexists _, [∅; ∅]. split; [reflexivity|]. split; [|done]. by repeat constructor. Qed.

Lemma sample_rep : exists F, service_rep flat flat sample sample_service sample_value F /\ 0 ∉ F.
Proof.
  eexists. split.
  - exists ∅. eexists _, _. split_and!; [done| | |done|reflexivity].
    + eexists _, _, _, ∅. split_and!; [| | |done|done|reflexivity].
      * eexists _, _. split; [reflexivity|]. split; [|reflexivity].
        constructor; [apply sample_rule_rep|]. constructor; [apply sample_rule_rep|constructor].
      * eexists _, _. split; [reflexivity|]. split; [|reflexivity]. constructor; [apply sample_trigger_rep|constructor].
      * eexists _, _. split; [reflexivity|]. split; [done|reflexivity].
    + exists ∅, ∅. split_and!; try done; reflexivity.
  - simpl. set_solver.
Qed.

Definition flat_time : option loc -> gmap loc (cell Z gostring unit) -> option (option loc * gmap loc (cell Z gostring unit)) :=
  deep_copy (fun x h => Some (x, h)) 0%Z.

Lemma flat_time_deep : deep (pointer (flat (T := Z))) flat_time.
Proof. apply deep_copy_deep; [apply _|apply assign_deep]. Qed.

Lemma deep_copy_is_independent_witness :
  exists F q h' F',
    ElastiService_DeepCopy (fun x h => Some (x, h)) flat_time (fun x h => Some (x, h)) 0%Z [] (Some 0) sample = Some (q, h')
    /\ sample ⊆ h' /\ F ## F'
    /\ (forall w, dom w ## F' -> pointer (service_rep flat flat) (w ∪ h') q (Some sample_value) F')
    /\ (forall w, dom w ## F -> pointer (service_rep flat flat) (w ∪ h') (Some 0) (Some sample_value) F).
Proof.
  destruct sample_rep as (F & HR & _). exists ({[0]} ∪ F).
  apply (deep_copy_is_independent flat _ assign_deep _ flat_time_deep flat _ assign_deep 0%Z [] flat _ (assign_deep (T := unit)) tt sample).
  by exists sample_service, F.
Defined.

Lemma status_patch_base_witness :
  exists original h' F',
    updateCRDStatus_change (fun x h => Some (x, h)) flat_time (fun x h => Some (x, h)) 0%Z [] 0 9%Z (lit "proxy") sample
      = Some (original, h')
    /\ pointer (service_rep flat flat) h' original (Some sample_value) F'
    /\ exists G, pointer (service_rep flat flat) h' (Some 0)
         (Some ((lit "ElastiService", lit "v1alpha1"), lit "es", sample_spec, mkStatus 9 None (lit "proxy"))) G /\ F' ## G.
Proof.
  destruct sample_rep as (F & HR & H0).
  apply (status_patch_base flat _ assign_deep _ flat_time_deep flat _ assign_deep 0%Z [] sample 0 sample_service
    (lit "ElastiService", lit "v1alpha1") (lit "es") sample_spec sample_status F 9%Z 9%Z (lit "proxy")).
  - reflexivity.
  - exact HR.
  - exact H0.
  - intros h. by split.
Defined.
