(* ===== verification/ProbeMatch.v ===== *)
(** * Probe responses ([resolver/internal/crdcache/spec.go])

    Which synthetic response a request gets while its service is scaled to
    zero.  [json.Unmarshal] into the spec and [regexp.Compile] are parameters:
    the first is a function from bytes to a spec or an error, the second from a
    pattern to a matcher or an error. *)

From S2P Require Import Prelude GoStrings HostManager Types.
Local Open Scope Z_scope.

(** The parts of [http.Request] the resolver reads; [URL_Query] is the parsed
    [URL.Query()]. *)
Record Request := mkRequest {
  Method : gostring;
  URL_Path : gostring;
  URL_Query : gmap gostring (list gostring);
  Host_ : gostring;
  Header : gmap gostring (list gostring)
}.

Definition host_request (req : Request) : HostRequest :=
  {| req_Host := Host_ req; req_Header := Header req |}.

(** [http.Header.Values] *)
Definition header_Values (h : gmap gostring (list gostring)) (key : gostring) : list gostring :=
  default [] (h !! CanonicalHeaderKey key).

Definition MatchTypePathPrefix : gostring := lit "PathPrefix".
Definition MatchTypeExact : gostring := lit "Exact".
Definition MatchTypeRegularExpression : gostring := lit "RegularExpression".

Definition StatusOK : Z := 200.

Definition methodMatchesProbeResponse (ruleMethod : option gostring) (requestMethod : gostring) : bool :=
  match ruleMethod with
  | None => true
  | Some m => bool_decide (TrimSpace m = []) || EqualFold (TrimSpace m) requestMethod
  end.

Definition canonicalPathMatchType (t : gostring) : gostring :=
  let ts := TrimSpace t in
  if bool_decide (ts = []) || EqualFold ts MatchTypePathPrefix then MatchTypePathPrefix
  else if EqualFold ts MatchTypeExact then MatchTypeExact
  else if EqualFold ts MatchTypeRegularExpression then MatchTypeRegularExpression
  else MatchTypePathPrefix.

(** [probePathMatch] has the fields of [ProbeResponsePathMatch]. *)
Definition normalizeProbePathMatch (p : option ProbeResponsePathMatch) : ProbeResponsePathMatch :=
  match p with
  | None => mkPathMatch MatchTypePathPrefix (lit "/")
  | Some p =>
      let typ := TrimSpace (pm_Type p) in
      let typ := if bool_decide (typ = []) then MatchTypePathPrefix else typ in
      let val := pm_Value p in
      let val := if bool_decide (canonicalPathMatchType typ = MatchTypePathPrefix)
                    && bool_decide (val = [])
                 then lit "/" else val in
      mkPathMatch typ val
  end.

Definition pathPrefix (path prefix : gostring) : bool :=
  if bool_decide (prefix = []) || bool_decide (prefix = lit "/") then HasPrefix path (lit "/")
  else if bool_decide (path = prefix) then true
  else if negb (HasPrefix path prefix) then false
  else if HasSuffix prefix (lit "/") then true
  else bool_decide (path !! length prefix = Some "/"%char).

Section matching.
Context (Compile : gostring -> result error (gostring -> bool)).

Definition pathMatches (reqPath : gostring) (p : option ProbeResponsePathMatch) : result error bool :=
  let pm := normalizeProbePathMatch p in
  let t := canonicalPathMatchType (pm_Type pm) in
  if bool_decide (t = lit "Exact") then Ok (bool_decide (reqPath = pm_Value pm))
  else if bool_decide (t = lit "RegularExpression") then
    match Compile (pm_Value pm) with
    | Err err => Err (ErrWrap (lit "probeResponse path regex invalid: ") err)
    | Ok re => Ok (re reqPath)
    end
  else Ok (pathPrefix reqPath (pm_Value pm)).

Definition headerValueMatches (rule : ProbeResponseHeaderMatch) (h : gmap gostring (list gostring))
    : result error bool :=
  let key := CanonicalHeaderKey (TrimSpace (vm_Name rule)) in
  let values := header_Values h key in
  if bool_decide (values = []) then Ok false
  else
    let typ := TrimSpace (vm_Type rule) in
    let exact := existsb (fun v => bool_decide (v = vm_Value rule)) values in
    if bool_decide (typ = []) || EqualFold typ MatchTypeExact then Ok exact
    else if EqualFold typ MatchTypeRegularExpression then
      match Compile (vm_Value rule) with
      | Err err => Err (ErrWrap (lit "probeResponse header regex invalid: ") err)
      | Ok re => Ok (existsb re values)
      end
    else Ok exact.

Fixpoint headersMatch (rules : list ProbeResponseHeaderMatch) (h : gmap gostring (list gostring))
    : result error bool :=
  match rules with
  | [] => Ok true
  | rule :: rules =>
      if bool_decide (TrimSpace (vm_Name rule) = []) then Err (ErrText (lit "header name is empty"))
      else
        match headerValueMatches rule h with
        | Err err => Err err
        | Ok false => Ok false
        | Ok true => headersMatch rules h
        end
  end.

Definition queryParamValueMatches (rule : ProbeResponseQueryParamMatch) (q : gmap gostring (list gostring))
    : bool :=
  let values := default [] (q !! vm_Name rule) in
  if bool_decide (values = []) then false
  else
    let typ := TrimSpace (vm_Type rule) in
    let exact := existsb (fun v => bool_decide (v = vm_Value rule)) values in
    if bool_decide (typ = []) || EqualFold typ MatchTypeExact then exact
    else if EqualFold typ MatchTypeRegularExpression then
      match Compile (vm_Value rule) with
      | Err _ => false
      | Ok re => existsb re values
      end
    else exact.

Fixpoint queryParamsMatch (rules : list ProbeResponseQueryParamMatch) (q : gmap gostring (list gostring))
    : bool :=
  match rules with
  | [] => true
  | rule :: rules =>
      if bool_decide (TrimSpace (vm_Name rule) = []) then false
      else if negb (queryParamValueMatches rule q) then false
      else queryParamsMatch rules q
  end.

(** The loop over the rules: the first rule that is not skipped answers. *)
Fixpoint match_rules (rules : list ProbeResponseRule) (req : Request) : option (gostring * Z) :=
  match rules with
  | [] => None
  | r :: rules =>
      if negb (methodMatchesProbeResponse (rule_Method r) (Method req)) then match_rules rules req
      else
        match pathMatches (URL_Path req) (rule_Path r) with
        | Err _ | Ok false => match_rules rules req
        | Ok true =>
            match headersMatch (rule_Headers r) (Header req) with
            | Err _ | Ok false => match_rules rules req
            | Ok true =>
                if negb (queryParamsMatch (rule_QueryParams r) (URL_Query req))
                then match_rules rules req
                else
                  let st := pr_Status (rule_Response r) in
                  let st := if st =? 0 then StatusOK else st in
                  Some (pr_Body (rule_Response r), st)
            end
        end
  end.

(** [None] is [matched == false]; a nil request is [None]. *)
Definition MatchProbeResponseFromSpec (Unmarshal : gostring -> result error ElastiServiceSpec)
    (specJSON : gostring) (req : option Request) : option (gostring * Z) :=
  match req with
  | None => None
  | Some req =>
      if bool_decide (specJSON = []) then None
      else
        match Unmarshal specJSON with
        | Err _ => None
        | Ok s => match_rules (spec_ProbeResponse s) req
        end
  end.

(** ** What a match means *)

(** A value matches a header or query rule: as a regular expression when the
    type says so, exactly otherwise. *)
Definition value_spec (rule : ProbeResponseValueMatch) (v : gostring) : Prop :=
  if EqualFold (TrimSpace (vm_Type rule)) MatchTypeRegularExpression
  then exists re, Compile (vm_Value rule) = Ok re /\ re v = true
  else v = vm_Value rule.

Definition header_spec (h : gmap gostring (list gostring)) (rule : ProbeResponseHeaderMatch) : Prop :=
  TrimSpace (vm_Name rule) <> []
  /\ exists v, v ∈ header_Values h (CanonicalHeaderKey (TrimSpace (vm_Name rule))) /\ value_spec rule v.

Definition query_spec (q : gmap gostring (list gostring)) (rule : ProbeResponseQueryParamMatch) : Prop :=
  TrimSpace (vm_Name rule) <> []
  /\ exists v, v ∈ default [] (q !! vm_Name rule) /\ value_spec rule v.

(** The type and value of a path rule, with the defaults. *)
Definition path_rule (p : option ProbeResponsePathMatch) : gostring * gostring :=
  match p with
  | None => (MatchTypePathPrefix, lit "/")
  | Some p =>
      let t := canonicalPathMatchType (pm_Type p) in
      (t, if bool_decide (t = MatchTypePathPrefix /\ pm_Value p = []) then lit "/" else pm_Value p)
  end.

Definition path_spec (path : gostring) (p : option ProbeResponsePathMatch) : Prop :=
  let '(t, v) := path_rule p in
  if decide (t = MatchTypeExact) then path = v
  else if decide (t = MatchTypeRegularExpression) then exists re, Compile v = Ok re /\ re path = true
  else pathPrefix path v = true.

Definition rule_spec (req : Request) (r : ProbeResponseRule) : Prop :=
  match rule_Method r with
  | None => True
  | Some m => TrimSpace m = [] \/ ToLower (TrimSpace m) = ToLower (Method req)
  end
  /\ path_spec (URL_Path req) (rule_Path r)
  /\ Forall (header_spec (Header req)) (rule_Headers r)
  /\ Forall (query_spec (URL_Query req)) (rule_QueryParams r).

(** ** Lemmas *)

Lemma method_matches m meth :
  methodMatchesProbeResponse m meth = true
  <-> match m with
      | None => True
      | Some m => TrimSpace m = [] \/ ToLower (TrimSpace m) = ToLower meth
      end.
Proof.
  destruct m as [m|]; simpl; [|done].
  by rewrite orb_true_iff, bool_decide_eq_true, EqualFold_spec.
Qed.

(** The tail shared by the header and the query matcher. *)
Lemma values_match rule values :
  let typ := TrimSpace (vm_Type rule) in
  (exists v, v ∈ values /\ value_spec rule v)
  <-> (if bool_decide (typ = []) || EqualFold typ MatchTypeExact
       then existsb (fun v => bool_decide (v = vm_Value rule)) values = true
       else if EqualFold typ MatchTypeRegularExpression
       then exists re, Compile (vm_Value rule) = Ok re /\ existsb re values = true
       else existsb (fun v => bool_decide (v = vm_Value rule)) values = true).
Proof.
  assert (forall f, existsb f values = true <-> exists v, v ∈ values /\ f v = true) as Hex.
  { intros f. rewrite existsb_exists. by setoid_rewrite list_elem_of_In. }
  assert (existsb (fun v => bool_decide (v = vm_Value rule)) values = true
          <-> exists v, v ∈ values /\ v = vm_Value rule) as Hexact.
  { rewrite Hex. by setoid_rewrite bool_decide_eq_true. }
  simpl. unfold value_spec.
  destruct (EqualFold (TrimSpace (vm_Type rule)) MatchTypeRegularExpression) eqn:Hr.
  - assert (bool_decide (TrimSpace (vm_Type rule) = []) || EqualFold (TrimSpace (vm_Type rule)) MatchTypeExact = false)
      as ->.
    { apply EqualFold_spec in Hr. apply orb_false_iff. split.
      - apply bool_decide_eq_false. intros E. by rewrite E in Hr.
      - apply not_true_is_false. intros E%EqualFold_spec. by rewrite E in Hr. }
    setoid_rewrite Hex. naive_solver.
  - destruct (_ || _); by rewrite Hexact.
Qed.

Lemma header_matches h rule rules :
  headersMatch (rule :: rules) h = Ok true
  <-> header_spec h rule /\ headersMatch rules h = Ok true.
Proof.
  simpl. unfold header_spec, headerValueMatches. rewrite values_match.
  case_bool_decide as Hn; [split; [discriminate|tauto]|].
  destruct (bool_decide (header_Values h _ = [])) eqn:Hv.
  - apply bool_decide_eq_true in Hv. rewrite Hv. simpl.
    split; [discriminate|]. intros [[_ H] _]. simpl in H.
    repeat case_match; try discriminate. by destruct H as (re & _ & ?).
  - destruct (bool_decide (TrimSpace (vm_Type rule) = []) || _);
      [destruct (existsb _ _); cbn [negb]; intuition congruence|].
    destruct (EqualFold _ MatchTypeRegularExpression); [|destruct (existsb _ _); cbn [negb]; intuition congruence].
    destruct (Compile _) as [re|]; [|split; [discriminate|intros [[_ (re & [=] & _)] _]]].
    destruct (existsb re _) eqn:E; split; try discriminate.
    + intros H. split_and!; try done. by exists re.
    + by intros [_ H].
    + intros [[_ (re' & [= <-] & H)] _]. congruence.
Qed.

Lemma headers_match h rules :
  headersMatch rules h = Ok true <-> Forall (header_spec h) rules.
Proof.
  induction rules as [|rule rules IH]; [by split; [constructor|]|].
  by rewrite header_matches, Forall_cons, IH.
Qed.

Lemma query_matches q rules :
  queryParamsMatch rules q = true <-> Forall (query_spec q) rules.
Proof.
  induction rules as [|rule rules IH]; [by split; [constructor|]|].
  rewrite Forall_cons, <- IH. simpl. unfold query_spec, queryParamValueMatches. rewrite values_match.
  case_bool_decide as Hn; [split; [discriminate|tauto]|].
  destruct (bool_decide (default [] (q !! vm_Name rule) = [])) eqn:Hv.
  - apply bool_decide_eq_true in Hv. rewrite Hv. simpl.
    split; [discriminate|]. intros [[_ H] _]. simpl in H.
    repeat case_match; try discriminate. by destruct H as (re & _ & ?).
  - destruct (bool_decide (TrimSpace (vm_Type rule) = []) || _);
      [destruct (existsb _ _); cbn [negb]; intuition congruence|].
    destruct (EqualFold (TrimSpace (vm_Type rule)) MatchTypeRegularExpression); [|destruct (existsb _ _); cbn [negb]; intuition congruence].
    destruct (Compile _) as [re|]; [|split; [discriminate|intros [[_ (re & [=] & _)] _]]].
    destruct (existsb re _) eqn:E; cbn [negb]; split; try discriminate.
    + intros H. split_and!; try done. by exists re.
    + by intros [_ H].
    + intros [[_ (re' & [= <-] & H)] _]. congruence.
Qed.

Lemma canonical_trim t : canonicalPathMatchType (TrimSpace t) = canonicalPathMatchType t.
Proof. unfold canonicalPathMatchType. by rewrite TrimSpace_idem. Qed.

Lemma path_matches path p : pathMatches path p = Ok true <-> path_spec path p.
Proof.
  unfold pathMatches, path_spec.
  assert (path_rule p = (canonicalPathMatchType (pm_Type (normalizeProbePathMatch p)),
                         pm_Value (normalizeProbePathMatch p))) as ->.
  { destruct p as [p|]; [|reflexivity]. unfold path_rule, normalizeProbePathMatch.
    assert (canonicalPathMatchType
      (if bool_decide (TrimSpace (pm_Type p) = []) then MatchTypePathPrefix else TrimSpace (pm_Type p))
      = canonicalPathMatchType (pm_Type p)) as E.
    { case_bool_decide as H; [|apply canonical_trim].
      rewrite <- (canonical_trim (pm_Type p)), H. reflexivity. }
    cbn [pm_Type pm_Value]. rewrite E. f_equal. by rewrite <- bool_decide_and. }
  set (t := canonicalPathMatchType _). set (v := pm_Value _).
  unfold MatchTypeExact, MatchTypeRegularExpression.
  destruct (decide (t = lit "Exact")).
  { rewrite bool_decide_eq_true_2 by done. split; [intros [= H]|intros H; f_equal]; by apply bool_decide_eq_true in H || apply bool_decide_eq_true. }
  rewrite (bool_decide_eq_false_2 (t = lit "Exact")) by done.
  destruct (decide (t = lit "RegularExpression")).
  { rewrite bool_decide_eq_true_2 by done. destruct (Compile v) as [re|]; [|naive_solver].
    split; [intros [= H]; by exists re|by intros (re' & [= <-] & ->)]. }
  rewrite bool_decide_eq_false_2 by done. split; [by intros [= ->]|by intros ->].
Qed.

Lemma match_rules_cons r rules req :
  match_rules (r :: rules) req
  = if bool_decide (methodMatchesProbeResponse (rule_Method r) (Method req) = true
                    /\ pathMatches (URL_Path req) (rule_Path r) = Ok true
                    /\ headersMatch (rule_Headers r) (Header req) = Ok true
                    /\ queryParamsMatch (rule_QueryParams r) (URL_Query req) = true)
    then Some (pr_Body (rule_Response r),
               if pr_Status (rule_Response r) =? 0 then StatusOK else pr_Status (rule_Response r))
    else match_rules rules req.
Proof.
  simpl. destruct (methodMatchesProbeResponse _ _), (pathMatches _ _) as [[]|],
    (headersMatch _ _) as [[]|], (queryParamsMatch _ _);
    case_bool_decide; destruct_and?; try done; exfalso; tauto.
Qed.

Lemma rule_spec_iff req r :
  rule_spec req r
  <-> (methodMatchesProbeResponse (rule_Method r) (Method req) = true
       /\ pathMatches (URL_Path req) (rule_Path r) = Ok true
       /\ headersMatch (rule_Headers r) (Header req) = Ok true
       /\ queryParamsMatch (rule_QueryParams r) (URL_Query req) = true).
Proof. unfold rule_spec. by rewrite method_matches, path_matches, headers_match, query_matches. Qed.

Lemma match_rules_spec rules req body st :
  match_rules rules req = Some (body, st)
  <-> exists pre r post, rules = pre ++ r :: post
      /\ Forall (fun r => ~ rule_spec req r) pre /\ rule_spec req r
      /\ body = pr_Body (rule_Response r)
      /\ st = (if pr_Status (rule_Response r) =? 0 then 200 else pr_Status (rule_Response r)).
Proof.
  induction rules as [|r rules IH].
  { split; [done|]. by intros ([] & ? & ? & ? & _). }
  rewrite match_rules_cons. case_bool_decide as H; rewrite <- rule_spec_iff in H.
  - split.
    + intros [= <- <-]. by exists [], r, rules.
    + intros (pre & r' & post & E & Hpre & Hr & -> & ->). destruct pre as [|x pre].
      * by injection E as -> ->.
      * injection E as -> ->. by inversion Hpre.
  - rewrite IH. split.
    + intros (pre & r' & post & -> & Hpre & Hr & Hb). exists (r :: pre), r', post.
      split_and!; [done|by constructor|done|apply Hb|apply Hb].
    + intros (pre & r' & post & E & Hpre & Hr & Hb). destruct pre as [|x pre].
      * by injection E as -> ->.
      * injection E as -> ->. inversion Hpre; subst. by exists pre, r', post.
Qed.
End matching.

(** *** Path prefixes by segments *)

Lemma Split_app_sep p r sep : Split (p ++ sep :: r) sep = Split p sep ++ Split r sep.
Proof.
  induction p as [|c p IH]; simpl.
  - by rewrite bool_decide_eq_true_2.
  - rewrite IH. case_bool_decide; [done|].
    pose proof (Split_not_nil p sep). by destruct (Split p sep).
Qed.

Lemma Join_app l1 l2 sep :
  l1 <> [] -> l2 <> [] -> Join (l1 ++ l2) sep = Join l1 sep ++ sep ++ Join l2 sep.
Proof.
  intros H1 H2. induction l1 as [|x l1 IH]; [done|].
  destruct l1 as [|y l1]; simpl in *.
  - by destruct l2.
  - rewrite IH by done. by rewrite !app_assoc.
Qed.

Lemma segments_prefix path prefix sep :
  Split prefix sep `prefix_of` Split path sep
  <-> path = prefix \/ exists r, path = prefix ++ sep :: r.
Proof.
  split.
  - intros [l Hl]. pose proof (Join_Split path sep) as HJ. rewrite Hl in HJ.
    destruct l as [|x l].
    + left. rewrite app_nil_r, Join_Split in HJ. congruence.
    + right. rewrite Join_app, Join_Split in HJ by (done || apply Split_not_nil).
      by eexists.
  - intros [->|[r ->]]; [done|]. rewrite Split_app_sep. by apply prefix_app_r.
Qed.

Lemma pathPrefix_proper path prefix :
  prefix <> [] -> prefix <> lit "/" -> HasSuffix prefix (lit "/") = false ->
  pathPrefix path prefix = true <-> path = prefix \/ exists r, path = prefix ++ "/"%char :: r.
Proof.
  intros H1 H2 H3. unfold pathPrefix.
  rewrite (bool_decide_eq_false_2 (prefix = [])), (bool_decide_eq_false_2 (prefix = lit "/")), H3 by done. simpl.
  case_bool_decide as Hp; [by split; [left|]|].
  destruct (HasPrefix path prefix) eqn:Hpre; simpl.
  - apply HasPrefix_spec in Hpre as [r ->]. rewrite bool_decide_eq_true.
    rewrite lookup_app_r, Nat.sub_diag by done. split.
    + intros Hr. destruct r as [|c r]; simplify_eq/=. right. by exists r.
    + intros [?|[r' Hr]]; [done|]. apply app_inv_head in Hr as ->. done.
  - split; [done|]. intros [->|[r ->]]; [done|]. by rewrite HasPrefix_app in Hpre.
Qed.

(** ** Properties *)

(** C26: [MatchProbeResponseFromSpec] answers with the first rule that matches,
    where a rule matches when its method, its path, every header rule and every
    query rule do, each as documented, and a missing status means 200.  Without
    a spec, with one that does not decode, or with no matching rule there is no
    answer. *)
Theorem probe_first_match_wins Compile Unmarshal specJSON req body st :
  MatchProbeResponseFromSpec Compile Unmarshal specJSON (Some req) = Some (body, st)
  <-> specJSON <> [] /\ exists s pre r post, Unmarshal specJSON = Ok s
      /\ spec_ProbeResponse s = pre ++ r :: post
      /\ Forall (fun r => ~ rule_spec Compile req r) pre /\ rule_spec Compile req r
      /\ body = pr_Body (rule_Response r)
      /\ st = (if pr_Status (rule_Response r) =? 0 then 200 else pr_Status (rule_Response r)).
Proof.
  simpl. case_bool_decide as He; [by split; [|intros []]|].
  destruct (Unmarshal specJSON) as [s|] eqn:Hu.
  - rewrite match_rules_spec. split.
    + intros (pre & r & post & H). split; [done|]. by exists s, pre, r, post.
    + intros (_ & s' & pre & r & post & [= <-] & H). by exists pre, r, post.
  - split; [done|]. by intros (_ & s & _ & _ & _ & ? & _).
Qed.

(** C27: a [PathPrefix] rule matches by whole path segments: [/foo] matches
    [/foo] and [/foo/bar] but not [/foobar], an empty prefix and [/] match every
    absolute path, and a prefix written with a trailing slash matches only the
    paths that contain that slash, so that [/foo/] does not match [/foo]. *)
Theorem path_prefix_by_segments path prefix :
  pathPrefix path prefix = true <->
  if decide (prefix = [] \/ prefix = lit "/") then exists r, path = lit "/" ++ r
  else if HasSuffix prefix (lit "/") then exists r, path = prefix ++ r
  else Split prefix "/"%char `prefix_of` Split path "/"%char.
Proof.
  destruct (decide _) as [H|H].
  - unfold pathPrefix. rewrite <- HasPrefix_spec.
    destruct (bool_decide (prefix = []) || bool_decide (prefix = lit "/")) eqn:E; [done|].
    exfalso. apply orb_false_iff in E as [E1%bool_decide_eq_false E2%bool_decide_eq_false]. tauto.
  - apply Decidable.not_or in H as [H1 H2].
    destruct (HasSuffix prefix (lit "/")) eqn:Hs.
    + unfold pathPrefix. rewrite (bool_decide_eq_false_2 (prefix = [])), (bool_decide_eq_false_2 (prefix = lit "/")), Hs by done.
      simpl. rewrite <- HasPrefix_spec. case_bool_decide as Hp.
      * subst. split; [|done]. intros _. rewrite <- (app_nil_r prefix) at 1. apply HasPrefix_app.
      * by destruct (HasPrefix path prefix).
    + rewrite segments_prefix. by apply pathPrefix_proper.
Qed.
