(* ===== verification/CrdCache.v ===== *)
(** * The resolver's copy of the ElastiServices ([resolver/internal/crdcache/cache.go])

    A map that each successful poll of the operator replaces as a whole. *)

From stdpp Require Import sorting.
From S2P Require Import Prelude GoStrings.

(** [messages.ElastiServiceEntry]: the two raw JSON messages are byte strings. *)
Record ElastiServiceEntry := mkEntry { ent_Name : gostring; ent_Spec : gostring; ent_Status : gostring }.

(** [pollInterval] is in nanoseconds; [stopped] says that [stopCh] is closed. *)
Record Cache := mkCache {
  cache : gmap gostring ElastiServiceEntry;
  pollInterval : Z;
  stopped : bool
}.

Definition defaultPollInterval : Z := (5 * 60 * 1000000000)%Z.

Definition New (interval : Z) : Cache :=
  mkCache ∅ (if (interval <=? 0)%Z then defaultPollInterval else interval) false.

(** [resp] is the answer of the operator. *)
Definition fetch (resp : result error (gmap gostring ElastiServiceEntry)) (c : Cache)
    : option error * Cache :=
  match resp with
  | Err err => (Some (ErrWrap (lit "fetch: ") err), c)
  | Ok services => (None, mkCache services (pollInterval c) (stopped c))
  end.

Definition GetElastiService (namespacedServiceName : gostring) (c : Cache) : option ElastiServiceEntry :=
  cache c !! namespacedServiceName.

(** The order of Go strings: lexicographic on bytes. *)
Fixpoint string_le (s t : gostring) : bool :=
  match s, t with
  | [], _ => true
  | _ :: _, [] => false
  | a :: s, b :: t => (code a <? code b)%N || (code a =? code b)%N && string_le s t
  end.
Definition str_le (s t : gostring) : Prop := string_le s t = true.
#[export] Instance str_le_dec s t : Decision (str_le s t).
Proof. unfold str_le. apply _. Defined.

(** The keys [Range] visits, in the order of the map. *)
Definition range_keys (m : gmap gostring ElastiServiceEntry) : list gostring := (map_to_list m).*1.

Record CachedService := mkCached { NamespacedName : gostring; Entry : ElastiServiceEntry }.

Definition ListCachedServices (c : Cache) : list CachedService :=
  let keys := merge_sort str_le (range_keys (cache c)) in
  omap (fun k => mkCached k <$> (cache c !! k)) keys.

(** [Stop] closes the channel once. *)
Definition Stop (c : Cache) : Cache := mkCache (cache c) (pollInterval c) true.

(** What wakes the poller: the ticker, with the operator's answer, or [Stop]. *)
Inductive poll_event :=
| Tick (resp : result error (gmap gostring ElastiServiceEntry))
| StopRequested.

(** The loop of [Start], on the events it receives; the flag says whether it
    has returned. *)
Fixpoint poll_loop (es : list poll_event) (c : Cache) : Cache * bool :=
  match es with
  | [] => (c, false)
  | StopRequested :: _ => (Stop c, true)
  | Tick resp :: es => poll_loop es (fetch resp c).2
  end.

Definition Start (first : result error (gmap gostring ElastiServiceEntry)) (es : list poll_event)
    (c : Cache) : Cache * bool :=
  poll_loop es (fetch first c).2.

(** ** Lemmas *)

#[export] Instance str_le_trans : Transitive str_le.
Proof.
  intros s. unfold str_le. induction s as [|a s IH]; [done|].
  intros [|b t] [|d u]; simpl; try done. rewrite !orb_true_iff, !andb_true_iff, !N.ltb_lt, !N.eqb_eq.
  intros [H1|[H1 H1']] [H2|[H2 H2']]; [left; lia..|]. right. split; [lia|]. by eapply IH.
Qed.

#[export] Instance str_le_total : Total str_le.
Proof.
  intros s. unfold str_le. induction s as [|a s IH]; [by left|].
  intros [|b t]; [by right|]. simpl. rewrite !orb_true_iff, !andb_true_iff, !N.ltb_lt, !N.eqb_eq.
  destruct (N.lt_trichotomy (code a) (code b)) as [H|[H|H]]; [by left; left| |by right; left].
  destruct (IH t); [left|right]; right; split; auto; lia.
Qed.

Lemma code_inj a b : code a = code b -> a = b.
Proof. intros H. rewrite <- (ascii_N_embedding a), <- (ascii_N_embedding b). unfold code in H. by rewrite H. Qed.

#[export] Instance str_le_antisym : AntiSymm (=) str_le.
Proof.
  intros s. unfold str_le. induction s as [|a s IH]; intros [|b t]; simpl; try done.
  rewrite !orb_true_iff, !andb_true_iff, !N.ltb_lt, !N.eqb_eq.
  intros [H1|[H1 H1']] [H2|[H2 H2']]; try lia. f_equal; [by apply code_inj|by apply IH].
Qed.

Lemma range_keys_elem m k : k ∈ range_keys m <-> is_Some (m !! k).
Proof.
  unfold range_keys. rewrite list_elem_of_fmap. split.
  - intros ([k' v] & -> & H%elem_of_map_to_list). by exists v.
  - intros [v H]. exists (k, v). split; [done|]. by apply elem_of_map_to_list.
Qed.

Lemma lookup_all (m : gmap gostring ElastiServiceEntry) keys :
  Forall (fun k => is_Some (m !! k)) keys ->
  NamespacedName <$> omap (fun k => mkCached k <$> (m !! k)) keys = keys.
Proof.
  induction 1 as [|k keys [v Hv] _ IH]; [done|]. simpl. rewrite Hv. simpl. by f_equal.
Qed.

Lemma list_keys c :
  NamespacedName <$> ListCachedServices c = merge_sort str_le (range_keys (cache c)).
Proof.
  apply lookup_all, Forall_forall. intros k Hk. apply range_keys_elem.
  by rewrite <- (merge_sort_Permutation str_le).
Qed.

(** The last successful answer, or the copy before the first. *)
Definition last_ok (first : gmap gostring ElastiServiceEntry)
    (rs : list (result error (gmap gostring ElastiServiceEntry))) : gmap gostring ElastiServiceEntry :=
  foldl (fun m r => match r with Ok m' => m' | Err _ => m end) first rs.

Lemma poll_ticks rs es c :
  poll_loop (map Tick rs ++ es) c
  = poll_loop es (mkCache (last_ok (cache c) rs) (pollInterval c) (stopped c)).
Proof.
  revert c. induction rs as [|r rs IH]; intros c; simpl; [by destruct c|].
  rewrite IH. by destruct r.
Qed.

(** ** Properties *)

(** The snapshot of the cache is sorted by key, lists every cached service
    exactly once with the entry a lookup finds, and does not depend on the order
    in which the map is traversed. *)
Theorem list_is_sorted_snapshot c :
  StronglySorted str_le (NamespacedName <$> ListCachedServices c)
  /\ NoDup (NamespacedName <$> ListCachedServices c)
  /\ (forall k e, mkCached k e ∈ ListCachedServices c <-> GetElastiService k c = Some e)
  /\ forall keys, keys ≡ₚ range_keys (cache c) ->
       merge_sort str_le keys = merge_sort str_le (range_keys (cache c)).
Proof.
  rewrite list_keys. split_and!.
  - apply (StronglySorted_merge_sort str_le).
  - rewrite (merge_sort_Permutation str_le). apply NoDup_fst_map_to_list.
  - intros k e. unfold ListCachedServices, GetElastiService. rewrite list_elem_of_omap. split.
    + intros (k' & _ & H). destruct (cache c !! k') as [e'|] eqn:Hk; simpl in H; [|done].
      by injection H as -> ->.
    + intros He. exists k. rewrite He. split; [|done].
      rewrite merge_sort_Permutation. apply range_keys_elem. by exists e.
  - intros keys Hk. apply (StronglySorted_unique str_le); try apply (StronglySorted_merge_sort str_le).
    by rewrite !merge_sort_Permutation.
Qed.

(** The poller holds the last answer it got: a successful poll replaces the
    whole copy, a failed one leaves it untouched, and a stop request ends the
    loop with the copy as it is. *)
Theorem poll_keeps_last_answer first rs c :
  Start first (map Tick rs) c
    = (mkCache (last_ok (cache c) (first :: rs)) (pollInterval c) (stopped c), false)
  /\ forall es, Start first (map Tick rs ++ StopRequested :: es) c
    = (mkCache (last_ok (cache c) (first :: rs)) (pollInterval c) true, true).
Proof.
  unfold Start. split.
  - rewrite <- (app_nil_r (map Tick rs)), poll_ticks. by destruct first.
  - intros es. rewrite poll_ticks. by destruct first.
Qed.
