(* ===== verification/RpcClient.v ===== *)
(** * The resolver's client of the operator ([resolver/internal/operator/RPCClient.go])

    A lock per service name, held from a notification until some time after it,
    keeps the resolver from flooding the operator. *)

From stdpp Require Import sorting.
From S2P Require Import Prelude CrdCache.
Local Open Scope Z_scope.

(** ** State *)

(** [locks] are the keys of [serviceRPCLocks]; [calling] the services whose
    notification is being sent, [releases] the pending [time.AfterFunc]
    callbacks; [posts] the requests sent so far, newest first. *)
Record post := Post { post_time : Z; post_ns : gostring; post_svc : gostring }.
Record Client := mkClient {
  serviceRPCLocks : gset gostring;
  calling : list gostring;
  releases : list (Z * gostring);
  posts : list post;
  rpc_now : Z
}.

Definition NewOperatorClient (t : Z) : Client := mkClient ∅ [] [] [] t.

(** [LoadOrStore]: whether the key was there, and the client with the key. *)
Definition getMutexForServiceRPC (service : gostring) (c : Client) : bool * Client :=
  if bool_decide (service ∈ serviceRPCLocks c) then (true, c)
  else (false, mkClient ({[service]} ∪ serviceRPCLocks c) (calling c) (releases c) (posts c) (rpc_now c)).

Definition releaseMutexForServiceRPC (service : gostring) (c : Client) : Client :=
  if bool_decide (service ∈ serviceRPCLocks c)
  then mkClient (serviceRPCLocks c ∖ {[service]}) (calling c) (releases c) (posts c) (rpc_now c)
  else c.

(** [SendIncomingRequestInfo] up to the answer of the operator. *)
Definition SendIncomingRequestInfo (ns svc : gostring) (c : Client) : Client :=
  let '(taken, c) := getMutexForServiceRPC svc c in
  if taken then c
  else mkClient (serviceRPCLocks c) (svc :: calling c) (releases c)
         (Post (rpc_now c) ns svc :: posts c) (rpc_now c).

(** Its return, whatever the answer was: the deferred timer is started. *)
Definition SendIncomingRequestInfo_return (retryDuration : Z) (l1 : list gostring) (svc : gostring)
    (l2 : list gostring) (c : Client) : Client :=
  mkClient (serviceRPCLocks c) (l1 ++ l2) ((rpc_now c + retryDuration, svc) :: releases c)
    (posts c) (rpc_now c).

(** What can happen: a call, the return of a call, a due release, time passing. *)
Inductive rpc_step (retryDuration : Z) : Client -> Client -> Prop :=
| rpc_call ns svc c : rpc_step retryDuration c (SendIncomingRequestInfo ns svc c)
| rpc_return l1 svc l2 c :
    calling c = l1 ++ svc :: l2 ->
    rpc_step retryDuration c (SendIncomingRequestInfo_return retryDuration l1 svc l2 c)
| rpc_release l1 due svc l2 c :
    releases c = l1 ++ (due, svc) :: l2 -> due <= rpc_now c ->
    rpc_step retryDuration c
      (releaseMutexForServiceRPC svc
         (mkClient (serviceRPCLocks c) (calling c) (l1 ++ l2) (posts c) (rpc_now c)))
| rpc_tick d c :
    0 <= d ->
    rpc_step retryDuration c
      (mkClient (serviceRPCLocks c) (calling c) (releases c) (posts c) (rpc_now c + d)).

Definition rpc_reachable (retryDuration : Z) (c : Client) : Prop :=
  exists t, rtc (rpc_step retryDuration) (NewOperatorClient t) c.

(** ** [GetElastiServiceCache] *)

(** How the HTTP exchange can go; a decoded body, or the error of the decoder. *)
Inductive http_outcome (A : Type) :=
| RequestFailed (e : error)
| Answered (statusCode : Z) (body : gostring) (decoded : result error A).
Arguments RequestFailed {A}.
Arguments Answered {A}.

Definition GetElastiServiceCache (out : http_outcome (gmap gostring ElastiServiceEntry))
    : result error (gmap gostring ElastiServiceEntry) :=
  match out with
  | RequestFailed err => Err (ErrWrap (lit "GetElastiServiceCache: request failed: ") err)
  | Answered statusCode body decoded =>
      if negb (statusCode =? 200) then
        Err (ErrText (lit "GetElastiServiceCache: operator returned status: " ++ body))
      else
        match decoded with
        | Err err => Err (ErrWrap (lit "GetElastiServiceCache: failed to decode response: ") err)
        | Ok services => Ok services
        end
  end.

(** ** The invariant *)

Definition uses (svc : gostring) (c : Client) : nat :=
  (length (filter (fun s => s = svc) (calling c))
   + length (filter (fun r => r.2 = svc) (releases c)))%nat.

Section invariant.
Context (retry : Z) (Hretry : 0 <= retry).

(** Each lock belongs to one call or one pending release; a lock is released
    only [retry] after every notification for its service. *)
Definition rpc_inv (c : Client) : Prop :=
  (forall svc, uses svc c = if bool_decide (svc ∈ serviceRPCLocks c) then 1%nat else 0%nat)
  /\ Forall (fun q => post_time q <= rpc_now c) (posts c)
  /\ Forall (fun q => post_svc q ∉ serviceRPCLocks c -> post_time q + retry <= rpc_now c) (posts c)
  /\ (forall due svc q, (due, svc) ∈ releases c -> q ∈ posts c -> post_svc q = svc ->
        post_time q + retry <= due)
  /\ StronglySorted (fun p q => post_svc p = post_svc q -> post_time q + retry <= post_time p) (posts c).

Lemma release_uses svc due l1 l2 c :
  releases c = l1 ++ (due, svc) :: l2 -> forall s,
  uses s c = ((if bool_decide (svc = s) then 1 else 0)
              + uses s (mkClient (serviceRPCLocks c) (calling c) (l1 ++ l2) (posts c) (rpc_now c)))%nat.
Proof.
  intros H s. unfold uses. simpl. rewrite H, !filter_app, !length_app, filter_cons. simpl.
  case_bool_decide; case_decide; simpl; try done; lia.
Qed.

Lemma return_uses svc l1 l2 c :
  calling c = l1 ++ svc :: l2 -> forall s,
  uses s (SendIncomingRequestInfo_return retry l1 svc l2 c) = uses s c.
Proof.
  intros H s. unfold uses. simpl. rewrite H, !filter_app, !length_app, !filter_cons. simpl.
  repeat case_decide; simpl; lia.
Qed.

Lemma no_release_unlocked c svc due :
  rpc_inv c -> svc ∉ serviceRPCLocks c -> (due, svc) ∉ releases c.
Proof.
  intros (Hu & _) Hn Hin. specialize (Hu svc). rewrite bool_decide_eq_false_2 in Hu by done.
  apply list_elem_of_split in Hin as (l1 & l2 & Hl).
  pose proof (release_uses svc due l1 l2 c Hl svc). rewrite bool_decide_eq_true_2 in H by done. lia.
Qed.

Lemma rpc_inv_call ns svc c : rpc_inv c -> rpc_inv (SendIncomingRequestInfo ns svc c).
Proof.
  intros Hinv. pose proof Hinv as (Hu & Ht & Hun & Hrel & Hs).
  unfold SendIncomingRequestInfo, getMutexForServiceRPC.
  case_bool_decide as Hl; simpl; [exact Hinv|]. unfold rpc_inv. simpl. split_and!.
  - intros s. specialize (Hu s). unfold uses in *. simpl. rewrite filter_cons.
    destruct (decide (svc = s)) as [<-|Hne].
    + rewrite bool_decide_eq_false_2 in Hu by done. rewrite bool_decide_eq_true_2 by set_solver.
      simpl. lia.
    + rewrite Hu. repeat case_bool_decide; set_solver.
  - constructor; simpl; [lia|done].
  - constructor; simpl; [set_solver|]. eapply Forall_impl; [exact Hun|]. simpl. set_solver.
  - intros due s q Hin [->|Hq]%elem_of_cons; simpl.
    + intros <-. by apply no_release_unlocked in Hin.
    + by apply Hrel.
  - constructor; [done|]. apply Forall_forall. intros q Hq E. simpl in *.
    eapply Forall_forall in Hun; [|exact Hq]. apply Hun. by rewrite <- E.
Qed.

Lemma rpc_inv_step c c' : rpc_step retry c c' -> rpc_inv c -> rpc_inv c'.
Proof.
  intros Hstep Hinv. pose proof Hinv as (Hu & Ht & Hun & Hrel & Hs).
  destruct Hstep as [ns svc c|l1 svc l2 c Hc|l1 due svc l2 c Hr Hd|d c Hd].
  - by apply rpc_inv_call.
  - unfold rpc_inv. split_and!; try done.
    + intros s. rewrite return_uses by done. apply Hu.
    + intros due s q [[= -> ->]|Hin]%elem_of_cons Hq E; [|by eapply Hrel].
      eapply Forall_forall in Ht; [|exact Hq]. simpl in *. lia.
  - pose proof (release_uses svc due l1 l2 c Hr) as Hru.
    assert (svc ∈ serviceRPCLocks c) as Hin.
    { specialize (Hu svc). rewrite Hru, bool_decide_eq_true_2 in Hu by done.
      case_bool_decide; [done|lia]. }
    unfold releaseMutexForServiceRPC. simpl. rewrite bool_decide_eq_true_2 by done.
    unfold rpc_inv. simpl. split_and!; try done.
    + intros s. specialize (Hu s). rewrite Hru in Hu. unfold uses in *. simpl in *.
      repeat case_bool_decide; set_solver by lia.
    + apply Forall_forall. intros q Hq Hn.
      destruct (decide (post_svc q = svc)) as [E|Hne].
      * assert (post_time q + retry <= due); [|lia]. eapply Hrel; [|exact Hq|exact E].
        rewrite Hr. apply elem_of_app. right. by left.
      * eapply Forall_forall in Hun; [|exact Hq]. apply Hun. set_solver.
    + intros due' s q Hin' Hq E. eapply Hrel; [|exact Hq|exact E].
      rewrite Hr. set_solver.
  - unfold rpc_inv. simpl. split_and!; try done.
    + eapply Forall_impl; [exact Ht|]. simpl. lia.
    + eapply Forall_impl; [exact Hun|]. simpl. intros q Hq Hn. specialize (Hq Hn). lia.
Qed.

Lemma rpc_reachable_inv c : rpc_reachable retry c -> rpc_inv c.
Proof.
  intros [t Hr]. revert Hr. apply (rtc_ind_r rpc_inv); [|intros; by eapply rpc_inv_step].
  unfold rpc_inv, NewOperatorClient, uses. simpl. split_and!; try constructor; try done.
  intros ? ? ? ?%elem_of_nil. done.
Qed.
End invariant.

(** ** Properties *)

(** C37: the operator is not flooded: in every run, any two notifications for the
    same service name are at least [retryDuration] apart, and every lock is held
    by exactly one call or one pending release, so that no release unlocks a
    mutex that is not locked. *)
Theorem notifications_rate_limited retryDuration c
    (Hpos : 0 <= retryDuration) (Hr : rpc_reachable retryDuration c) :
  StronglySorted (fun p q => post_svc p = post_svc q ->
                    post_time q + retryDuration <= post_time p) (posts c)
  /\ forall svc, uses svc c = if bool_decide (svc ∈ serviceRPCLocks c) then 1%nat else 0%nat.
Proof. destruct (rpc_reachable_inv _ Hpos c Hr) as (? & _ & _ & _ & ?). by split. Qed.

(** A client that has just notified the operator of [svc] in namespace [a]. *)
Definition example_client : Client :=
  SendIncomingRequestInfo (lit "a") (lit "svc") (NewOperatorClient 0).

Lemma notifications_rate_limited_witness :
  StronglySorted (fun p q => post_svc p = post_svc q -> post_time q + 30 <= post_time p)
    (posts example_client)
  /\ forall svc, uses svc example_client
       = if bool_decide (svc ∈ serviceRPCLocks example_client) then 1%nat else 0%nat.
Proof. apply (notifications_rate_limited 30); [lia|]. exists 0. apply rtc_once, rpc_call. Defined.

(** The lock is keyed by the service name without its namespace: for
    [retryDuration] after a notification for a service of one namespace, the
    notification for a service of the same name in any other namespace is
    dropped. *)
Theorem other_namespace_is_dropped retryDuration c q ns
    (Hpos : 0 <= retryDuration) (Hr : rpc_reachable retryDuration c)
    (Hq : q ∈ posts c) (Hrecent : rpc_now c < post_time q + retryDuration) :
  SendIncomingRequestInfo ns (post_svc q) c = c.
Proof.
  destruct (rpc_reachable_inv _ Hpos c Hr) as (_ & _ & Hun & _).
  unfold SendIncomingRequestInfo, getMutexForServiceRPC. case_bool_decide as Hl; [done|].
  eapply Forall_forall in Hun; [|exact Hq]. specialize (Hun Hl). lia.
Qed.

Lemma other_namespace_is_dropped_witness :
  SendIncomingRequestInfo (lit "b") (lit "svc") example_client = example_client.
Proof.
  apply (other_namespace_is_dropped 30 example_client (Post 0 (lit "a") (lit "svc")) (lit "b")).
  - lia.
  - exists 0. apply rtc_once, rpc_call.
  - unfold example_client. vm_compute. left.
  - by apply Z.ltb_lt.
Defined.
