(* ===== verification/Json.v ===== *)
(** * The message of the resolver to the operator ([pkg/messages/operator.go])

    [json.Marshal] of a [RequestCount] as [RPCClient.go] uses it, and
    [json.NewDecoder(body).Decode] of one as [elastiServer.go] does: a parser of
    JSON texts, and the assignment of the members of an object to the fields of
    the struct.  Strings are byte strings; bytes from 128 on are copied by both
    sides, as the package does for valid UTF-8. *)

From S2P Require Import Prelude GoStrings.
Local Open Scope Z_scope.

Definition dquote : ascii := "034"%char.
Definition backslash : ascii := "\"%char.

(** [messages.RequestCount] *)
Record RequestCount := mkRequestCount { rc_Count : Z; rc_Svc : gostring; rc_Namespace : gostring }.

(** ** Encoding *)

Definition hex_lower (n : N) : ascii := ascii_of_N (if (n <? 10)%N then 48 + n else 87 + n).

(** The escape of a byte: HTML characters are escaped too. *)
Definition json_escape (c : ascii) : gostring :=
  if bool_decide (c = dquote) || bool_decide (c = backslash) then [backslash; c]
  else if bool_decide (c = "008"%char) then [backslash; "b"%char]
  else if bool_decide (c = "012"%char) then [backslash; "f"%char]
  else if bool_decide (c = "010"%char) then [backslash; "n"%char]
  else if bool_decide (c = "013"%char) then [backslash; "r"%char]
  else if bool_decide (c = "009"%char) then [backslash; "t"%char]
  else if (code c <? 32)%N || bool_decide (c ∈ lit "<>&")
  then [backslash; "u"%char; "0"%char; "0"%char; hex_lower (code c / 16); hex_lower (code c mod 16)]
  else [c].

Definition json_string (s : gostring) : gostring := dquote :: (s ≫= json_escape) ++ [dquote].

(** A member of an object: its key and the text of its value. *)
Definition json_member (key value : gostring) : gostring := json_string key ++ lit ":" ++ value.

(** [Count] is a number that the code sets to 1: its digits are an argument. *)
Definition Marshal_RequestCount (digits : gostring) (r : RequestCount) : gostring :=
  lit "{" ++ json_member (lit "count") digits ++ lit ","
  ++ json_member (lit "svc") (json_string (rc_Svc r)) ++ lit ","
  ++ json_member (lit "namespace") (json_string (rc_Namespace r)) ++ lit "}".

(** ** Parsing *)

Inductive json :=
| JsonNull
| JsonBool (b : bool)
| JsonNumber (text : gostring)
| JsonString (s : gostring)
| JsonArray (l : list json)
| JsonObject (members : list (gostring * json)).

Definition is_json_space (c : ascii) : bool := bool_decide (c ∈ [" "; "009"; "010"; "013"]%char).
Definition skip_ws (s : gostring) : gostring := trim_left is_json_space s.

Definition hex_value (c : ascii) : option Z :=
  let n := Z.of_N (code c) in
  if is_digit c then Some (n - 48)
  else if in_range 97 102 c then Some (n - 87)
  else if in_range 65 70 c then Some (n - 55)
  else None.
Definition hex4 (a b c d : ascii) : option Z :=
  a ← hex_value a; b ← hex_value b; c ← hex_value c; d ← hex_value d;
  Some (((a * 16 + b) * 16 + c) * 16 + d).

Definition byte_of (n : Z) : ascii := ascii_of_N (Z.to_N n).
Definition utf8 (n : Z) : gostring :=
  if n <? 0x80 then [byte_of n]
  else if n <? 0x800 then [byte_of (0xc0 + n / 64); byte_of (0x80 + n mod 64)]
  else if n <? 0x10000 then
    [byte_of (0xe0 + n / 4096); byte_of (0x80 + n / 64 mod 64); byte_of (0x80 + n mod 64)]
  else [byte_of (0xf0 + n / 262144); byte_of (0x80 + n / 4096 mod 64);
        byte_of (0x80 + n / 64 mod 64); byte_of (0x80 + n mod 64)].

Definition is_high (n : Z) : bool := (0xd800 <=? n) && (n <=? 0xdbff).
Definition is_low (n : Z) : bool := (0xdc00 <=? n) && (n <=? 0xdfff).

(** The byte a one-letter escape stands for. *)
Definition unescape (c : ascii) : option ascii :=
  if bool_decide (c ∈ [dquote; backslash; "/"%char]) then Some c
  else if bool_decide (c = "b"%char) then Some "008"%char
  else if bool_decide (c = "f"%char) then Some "012"%char
  else if bool_decide (c = "n"%char) then Some "010"%char
  else if bool_decide (c = "r"%char) then Some "013"%char
  else if bool_decide (c = "t"%char) then Some "009"%char
  else None.

Definition prepend (cs : gostring) (r : option (gostring * gostring)) : option (gostring * gostring) :=
  match r with Some (t, rest) => Some (cs ++ t, rest) | None => None end.

(** The characters of a string up to its closing quote. *)
Fixpoint parse_chars (s : gostring) : option (gostring * gostring) :=
  match s with
  | [] => None
  | c :: s1 =>
      if bool_decide (c = dquote) then Some ([], s1)
      else if bool_decide (c = backslash) then
        match s1 with
        | [] => None
        | e :: s2 =>
            if bool_decide (e = "u"%char) then
              match s2 with
              | h1 :: h2 :: h3 :: h4 :: s3 =>
                  match hex4 h1 h2 h3 h4 with
                  | None => None
                  | Some n =>
                      if is_high n then
                        match s3 with
                        | b :: u :: k1 :: k2 :: k3 :: k4 :: s4 =>
                            match (if bool_decide (b = backslash) && bool_decide (u = "u"%char)
                                   then hex4 k1 k2 k3 k4 else None) with
                            | Some m => if is_low m
                                        then prepend (utf8 (0x10000 + (n - 0xd800) * 1024 + (m - 0xdc00))) (parse_chars s4)
                                        else prepend (utf8 0xfffd) (parse_chars s3)
                            | None => prepend (utf8 0xfffd) (parse_chars s3)
                            end
                        | _ => prepend (utf8 0xfffd) (parse_chars s3)
                        end
                      else prepend (utf8 (if is_low n then 0xfffd else n)) (parse_chars s3)
                  end
              | _ => None
              end
            else match unescape e with
                 | Some c => prepend [c] (parse_chars s2)
                 | None => None
                 end
        end
      else if (code c <? 32)%N then None
      else prepend [c] (parse_chars s1)
  end.

Fixpoint span (p : ascii -> bool) (s : gostring) : gostring * gostring :=
  match s with
  | c :: s => if p c then let '(a, b) := span p s in (c :: a, b) else ([], c :: s)
  | [] => ([], [])
  end.

(** One or more digits. *)
Definition digits1 (s : gostring) : option (gostring * gostring) :=
  match span is_digit s with
  | ([], _) => None
  | r => Some r
  end.

Definition parse_int_part (s : gostring) : option (gostring * gostring) :=
  match s with
  | "0"%char :: s => Some (lit "0", s)
  | s => digits1 s
  end.
Definition parse_fraction (s : gostring) : option (gostring * gostring) :=
  match s with
  | "."%char :: s => prepend (lit ".") (digits1 s)
  | s => Some ([], s)
  end.
Definition parse_exponent (s : gostring) : option (gostring * gostring) :=
  match s with
  | c :: s' =>
      if bool_decide (c ∈ lit "eE") then
        match s' with
        | sg :: s'' => if bool_decide (sg ∈ lit "+-") then prepend [c; sg] (digits1 s'')
                       else prepend [c] (digits1 s')
        | [] => None
        end
      else Some ([], s)
  | [] => Some ([], [])
  end.
Definition parse_number (s : gostring) : option (gostring * gostring) :=
  let '(sign, s) := match s with "-"%char :: s => (lit "-", s) | s => ([], s) end in
  '(i, s) ← parse_int_part s; '(f, s) ← parse_fraction s; '(e, s) ← parse_exponent s;
  Some (sign ++ i ++ f ++ e, s).

Definition literal (t : gostring) (v : json) (s : gostring) : option (json * gostring) :=
  if HasPrefix s t then Some (v, drop (length t) s) else None.

(** One value; the fuel bounds the nesting and the number of members, and the
    length of the text is always enough. *)
Fixpoint parse_value (fuel : nat) (s : gostring) : option (json * gostring) :=
  match fuel with
  | O => None
  | S fuel =>
      match skip_ws s with
      | [] => None
      | c :: r =>
          if bool_decide (c = dquote) then '(t, r) ← parse_chars r; Some (JsonString t, r)
          else if bool_decide (c = "{"%char) then
            match skip_ws r with
            | "}"%char :: r => Some (JsonObject [], r)
            | r => '(ms, r) ← parse_members fuel r; Some (JsonObject ms, r)
            end
          else if bool_decide (c = "["%char) then
            match skip_ws r with
            | "]"%char :: r => Some (JsonArray [], r)
            | r => '(l, r) ← parse_elements fuel r; Some (JsonArray l, r)
            end
          else if bool_decide (c = "n"%char) then literal (lit "null") JsonNull (c :: r)
          else if bool_decide (c = "t"%char) then literal (lit "true") (JsonBool true) (c :: r)
          else if bool_decide (c = "f"%char) then literal (lit "false") (JsonBool false) (c :: r)
          else '(t, r) ← parse_number (c :: r); Some (JsonNumber t, r)
      end
  end
with parse_members (fuel : nat) (s : gostring) : option (list (gostring * json) * gostring) :=
  match fuel with
  | O => None
  | S fuel =>
      match skip_ws s with
      | q :: r =>
          if bool_decide (q = dquote) then
            '(key, r) ← parse_chars r;
            match skip_ws r with
            | ":"%char :: r =>
                '(v, r) ← parse_value fuel r;
                match skip_ws r with
                | ","%char :: r => '(ms, r) ← parse_members fuel r; Some ((key, v) :: ms, r)
                | "}"%char :: r => Some ([(key, v)], r)
                | _ => None
                end
            | _ => None
            end
          else None
      | [] => None
      end
  end
with parse_elements (fuel : nat) (s : gostring) : option (list json * gostring) :=
  match fuel with
  | O => None
  | S fuel =>
      '(v, r) ← parse_value fuel s;
      match skip_ws r with
      | ","%char :: r => '(l, r) ← parse_elements fuel r; Some (v :: l, r)
      | "]"%char :: r => Some ([v], r)
      | _ => None
      end
  end.

(** ** Decoding into the struct *)

Fixpoint digits_value (acc : Z) (s : gostring) : option Z :=
  match s with
  | [] => Some acc
  | c :: s => if is_digit c then digits_value (10 * acc + (Z.of_N (code c) - 48)) s else None
  end.

(** [strconv.ParseInt(text, 10, 64)] of the text of a number. *)
Definition number_int64 (text : gostring) : option Z :=
  let '(neg, digits) := match text with "-"%char :: s => (true, s) | s => (false, s) end in
  if bool_decide (digits = []) then None
  else
    n ← digits_value 0 digits;
    let n := if neg : bool then - n else n in
    if (- 2 ^ 63 <=? n) && (n <? 2 ^ 63) then Some n else None.

Inductive rc_field := FCount | FSvc | FNamespace.

(** The exact name of a field wins over a name that differs in letter case; the
    three names differ in more than that. *)
Definition field_of (key : gostring) : option rc_field :=
  if EqualFold key (lit "count") then Some FCount
  else if EqualFold key (lit "svc") then Some FSvc
  else if EqualFold key (lit "namespace") then Some FNamespace
  else None.

(** [json.UnmarshalTypeError]: decoding goes on and the first one is returned. *)
Definition ErrUnmarshalType : error := ErrText (lit "json: cannot unmarshal value into Go struct field").

(** A member: unknown keys are skipped, [null] leaves the field alone. *)
Definition decode_member (r : RequestCount) (key : gostring) (v : json) : option error * RequestCount :=
  match field_of key, v with
  | None, _ | _, JsonNull => (None, r)
  | Some FCount, JsonNumber text =>
      match number_int64 text with
      | Some n => (None, mkRequestCount n (rc_Svc r) (rc_Namespace r))
      | None => (Some ErrUnmarshalType, r)
      end
  | Some FSvc, JsonString s => (None, mkRequestCount (rc_Count r) s (rc_Namespace r))
  | Some FNamespace, JsonString s => (None, mkRequestCount (rc_Count r) (rc_Svc r) s)
  | _, _ => (Some ErrUnmarshalType, r)
  end.

Fixpoint decode_members (ms : list (gostring * json)) (err : option error) (r : RequestCount)
    : result error RequestCount :=
  match ms with
  | [] => match err with Some e => Err e | None => Ok r end
  | (key, v) :: ms =>
      let '(e, r) := decode_member r key v in
      decode_members ms (match err with Some _ => err | None => e end) r
  end.

Definition ErrSyntax : error := ErrText (lit "invalid JSON").

(** The first value of the body; what follows it is not read. *)
Definition Decode_RequestCount (body : gostring) : result error RequestCount :=
  match parse_value (S (length body)) body with
  | None => Err ErrSyntax
  | Some (JsonObject ms, _) => decode_members ms None (mkRequestCount 0 [] [])
  | Some (JsonNull, _) => Ok (mkRequestCount 0 [] [])
  | Some (_, _) => Err ErrUnmarshalType
  end.

(** ** Lemmas *)

Definition is_ascii (c : ascii) : bool := (code c <? 128)%N.

(** A byte is read back from its escape. *)
Lemma parse_escape c s :
  is_ascii c = true -> parse_chars (json_escape c ++ s) = prepend [c] (parse_chars s).
Proof.
  intros Hc. destruct c as [b0 b1 b2 b3 b4 b5 b6 b7].
  destruct b7; [by destruct b0, b1, b2, b3, b4, b5, b6|]. clear Hc.
  destruct b0, b1, b2, b3, b4, b5, b6; reflexivity.
Qed.

Lemma prepend_app a b r : prepend a (prepend b r) = prepend (a ++ b) r.
Proof. destruct r as [[t rest]|]; simpl; [by rewrite app_assoc|done]. Qed.

Lemma parse_escapes s rest :
  forallb is_ascii s = true -> parse_chars ((s ≫= json_escape) ++ dquote :: rest) = Some (s, rest).
Proof.
  induction s as [|c s IH]; [done|]. intros [Hc Hs]%andb_true_iff. rewrite bind_cons.
  rewrite <- app_assoc, parse_escape, IH by done. done.
Qed.

Lemma parse_json_string s rest :
  forallb is_ascii s = true ->
  exists r, json_string s ++ rest = dquote :: r /\ parse_chars r = Some (s, rest).
Proof.
  intros Hs. unfold json_string. eexists. split; [reflexivity|].
  change (parse_chars (((s ≫= json_escape) ++ [dquote]) ++ rest) = Some (s, rest)).
  rewrite <- app_assoc. by apply parse_escapes.
Qed.

Lemma skip_ws_quote r : skip_ws (dquote :: r) = dquote :: r.
Proof. done. Qed.

Lemma parse_value_string n s rest :
  forallb is_ascii s = true -> parse_value (S n) (json_string s ++ rest) = Some (JsonString s, rest).
Proof.
  intros Hs. destruct (parse_json_string s rest Hs) as (r & -> & Hr).
  simpl. by rewrite Hr.
Qed.

(** A member, followed by a comma or the end of the object. *)
Lemma parse_member n key value v rest sep :
  forallb is_ascii key = true ->
  parse_value n (value ++ sep :: rest) = Some (v, sep :: rest) ->
  is_json_space sep = false ->
  parse_members (S n) (json_member key value ++ sep :: rest)
  = if bool_decide (sep = ","%char) then '(ms, r) ← parse_members n rest; Some ((key, v) :: ms, r)
    else if bool_decide (sep = "}"%char) then Some ([(key, v)], rest) else None.
Proof.
  intros Hk Hv Hsep. unfold json_member. rewrite <- !app_assoc.
  destruct (parse_json_string key (lit ":" ++ value ++ sep :: rest) Hk) as (r & -> & Hr).
  simpl. rewrite Hr. simpl. rewrite Hv. simpl. unfold skip_ws. simpl. rewrite Hsep.
  destruct sep as [b0 b1 b2 b3 b4 b5 b6 b7].
  destruct b0, b1, b2, b3, b4, b5, b6, b7; reflexivity.
Qed.

Lemma parse_object n r ms rest :
  parse_members n (dquote :: r) = Some (ms, rest) ->
  parse_value (S n) ("{"%char :: dquote :: r) = Some (JsonObject ms, rest).
Proof. intros Hm. change (parse_members n (dquote :: r) ≫= (fun '(ms, r) => Some (JsonObject ms, r)) = Some (JsonObject ms, rest)). by rewrite Hm. Qed.

(** ** The round trip *)

Lemma Decode_Marshal svc ns rest
    (Hsvc : forallb is_ascii svc = true) (Hns : forallb is_ascii ns = true) :
  Decode_RequestCount (Marshal_RequestCount (lit "1") (mkRequestCount 1 svc ns) ++ rest)
  = Ok (mkRequestCount 1 svc ns).
Proof.
  unfold Decode_RequestCount, Marshal_RequestCount. simpl rc_Svc. simpl rc_Namespace.
  set (body := _ ++ rest).
  assert (exists n, S (length body) = (6 + n)%nat) as [n ->].
  { exists (S (length body) - 6)%nat. subst body. rewrite !length_app. simpl. lia. }
  set (m3 := json_member (lit "namespace") (json_string ns)).
  set (m2 := json_member (lit "svc") (json_string svc)).
  assert (body = "{"%char :: json_member (lit "count") (lit "1") ++ ","%char :: m2 ++ ","%char :: m3 ++ "}"%char :: rest)
    as -> by (subst body; by rewrite <- !app_assoc).
  assert (parse_members (5 + n) (json_member (lit "count") (lit "1") ++ ","%char :: m2 ++ ","%char :: m3 ++ "}"%char :: rest)
          = Some ([(lit "count", JsonNumber (lit "1")); (lit "svc", JsonString svc); (lit "namespace", JsonString ns)], rest))
    as Hp.
  { change (5 + n)%nat with (S (4 + n)). erewrite parse_member; [|done|reflexivity|done]. simpl bool_decide.
    change (4 + n)%nat with (S (3 + n)). unfold m2. erewrite parse_member; [|done|by apply parse_value_string|done].
    change (3 + n)%nat with (S (2 + n)). unfold m3. erewrite parse_member; [|done|by apply parse_value_string|done].
    done. }
  set (v := parse_value _ _). apply (parse_object (5 + n)) in Hp.
  by replace v with (Some (JsonObject [(lit "count", JsonNumber (lit "1")); (lit "svc", JsonString svc);
                                       (lit "namespace", JsonString ns)], rest)).
Qed.

(** What the resolver sends is what the operator reads: for every service and
    namespace of ASCII bytes, the encoded message decodes to itself, whatever
    follows it in the body. *)
Theorem message_roundtrip svc ns rest
    (Hsvc : forallb is_ascii svc = true) (Hns : forallb is_ascii ns = true) :
  Decode_RequestCount (Marshal_RequestCount (lit "1") (mkRequestCount 1 svc ns) ++ rest)
  = Ok (mkRequestCount 1 svc ns).
Proof. by apply Decode_Marshal. Qed.

Lemma message_roundtrip_witness :
  Decode_RequestCount (Marshal_RequestCount (lit "1") (mkRequestCount 1 (lit "web<1>") (lit "ns")) ++ lit " ")
  = Ok (mkRequestCount 1 (lit "web<1>") (lit "ns")).
Proof. apply message_roundtrip; reflexivity. Defined.
