(* ===== verification/JsonText.v ===== *)
(** * JSON texts as [encoding/json] prints them

    The printer that belongs to the parser of [Json.v], the extraction of the
    raw text of a member ([json.RawMessage]), and the round trip for values of
    any shape. *)

From S2P Require Import Prelude GoStrings Json.
Local Open Scope Z_scope.

(** ** Printing *)

Definition commas (l : list gostring) : gostring :=
  match l with
  | [] => []
  | x :: l => x ++ concat (map (fun y => ","%char :: y) l)
  end.

Fixpoint print (v : json) : gostring :=
  match v with
  | JsonNull => lit "null"
  | JsonBool b => if b then lit "true" else lit "false"
  | JsonNumber text => text
  | JsonString s => json_string s
  | JsonArray l => lit "[" ++ commas (map print l) ++ lit "]"
  | JsonObject ms => lit "{" ++ commas (map (fun kv => json_member kv.1 (print kv.2)) ms) ++ lit "}"
  end.

(** ** Raw members *)

(** The text of the value in front of [s], and what follows. *)
Definition raw_value (fuel : nat) (s : gostring) : option (gostring * gostring) :=
  let s := skip_ws s in
  '(_, rest) ← parse_value fuel s;
  Some (take (length s - length rest) s, rest).

Fixpoint raw_members (fuel : nat) (s : gostring) : option (list (gostring * gostring) * gostring) :=
  match fuel with
  | O => None
  | S fuel =>
      match skip_ws s with
      | q :: r =>
          if bool_decide (q = dquote) then
            '(key, r) ← parse_chars r;
            match skip_ws r with
            | ":"%char :: r =>
                '(t, r) ← raw_value fuel r;
                match skip_ws r with
                | ","%char :: r => '(ms, r) ← raw_members fuel r; Some ((key, t) :: ms, r)
                | "}"%char :: r => Some ([(key, t)], r)
                | _ => None
                end
            | _ => None
            end
          else None
      | [] => None
      end
  end.

(** The members of an object with their raw texts; [null] has none. *)
Definition raw_object (s : gostring) : option (list (gostring * gostring)) :=
  match skip_ws s with
  | "{"%char :: r =>
      match skip_ws r with
      | "}"%char :: _ => Some []
      | r => fst <$> raw_members (length s) r
      end
  | s => if HasPrefix s (lit "null") then Some [] else None
  end.

(** ** Texts that are printed and read without loss *)

Definition number_text (t : gostring) : bool := bool_decide (parse_number t = Some (t, [])).

Fixpoint wf_json (v : json) : bool :=
  match v with
  | JsonNull | JsonBool _ => true
  | JsonNumber t => number_text t
  | JsonString s => forallb is_ascii s
  | JsonArray l => forallb wf_json l
  | JsonObject ms => forallb (fun kv => forallb is_ascii kv.1 && wf_json kv.2) ms
  end.

(** What may follow a value: nothing, or a character no number goes on with. *)
Definition in_number (c : ascii) : bool := is_digit c || bool_decide (c ∈ lit ".eE+-").
Definition ends (rest : gostring) : bool := match rest with [] => true | c :: _ => negb (in_number c) end.

Fixpoint jsize (v : json) : nat :=
  match v with
  | JsonArray l => S (list_sum (map (fun v => S (jsize v)) l))
  | JsonObject ms => S (list_sum (map (fun kv => S (jsize kv.2)) ms))
  | _ => 1
  end.

(** ** Lemmas *)

Lemma json_nested_ind (P : json -> Prop)
    (Hnull : P JsonNull) (Hbool : forall b, P (JsonBool b)) (Hnum : forall t, P (JsonNumber t)) (Hstr : forall s, P (JsonString s))
    (Harr : forall l, Forall P l -> P (JsonArray l)) (Hobj : forall ms, Forall (fun kv => P kv.2) ms -> P (JsonObject ms)) :
  forall v, P v.
Proof.
  fix IH 1. intros [|b|t|s|l|ms]; [done|apply Hbool|apply Hnum|apply Hstr| |].
  - apply Harr. induction l as [|v l IHl]; constructor; [apply IH|exact IHl].
  - apply Hobj. induction ms as [|[k v] ms IHm]; constructor; [apply IH|exact IHm].
Qed.

(** *** Numbers *)

Lemma span_app p s a r rest :
  span p s = (a, r) -> (r = [] -> match rest with c :: _ => p c = false | [] => True end) ->
  span p (s ++ rest) = (a, r ++ rest).
Proof.
  revert a r. induction s as [|c s IH]; intros a r; simpl.
  - intros [= <- <-] Hr. destruct rest as [|c rest]; [done|]. simpl. by rewrite Hr.
  - destruct (p c) eqn:Hp; [|by intros [= <- <-]]. destruct (span p s) as [a' r'] eqn:Es. intros [= <- <-] Hr.
    by rewrite (IH _ _ eq_refl Hr).
Qed.

Lemma ends_digit rest : ends rest = true -> match rest with c :: _ => is_digit c = false | [] => True end.
Proof. destruct rest as [|c rest]; [done|]. simpl. unfold in_number. by destruct (is_digit c). Qed.

Lemma digits1_app s a r rest : digits1 s = Some (a, r) -> ends rest = true -> digits1 (s ++ rest) = Some (a, r ++ rest).
Proof.
  unfold digits1. intros Hs He. destruct (span is_digit s) as [a' r'] eqn:Es.
  assert (a' <> [] /\ a' = a /\ r' = r) as (Hne & -> & ->) by (destruct a'; [done|by injection Hs as <- <-]).
  rewrite (span_app _ _ _ _ _ Es) by (intros _; by apply ends_digit). by destruct a.
Qed.

Lemma prepend_Some cs r a rest : prepend cs r = Some (a, rest) -> exists t, r = Some (t, rest) /\ a = cs ++ t.
Proof. destruct r as [[t r]|]; [|done]. intros [= <- <-]. eauto. Qed.

Lemma int_part_app s a r rest :
  parse_int_part s = Some (a, r) -> ends rest = true -> parse_int_part (s ++ rest) = Some (a, r ++ rest).
Proof.
  intros Hs He. destruct s as [|c s]; [done|]. destruct (decide (c = "0"%char)) as [->|Hne]; [by injection Hs as <- <-|].
  assert (forall x, parse_int_part (c :: x) = digits1 (c :: x)) as E
    by (intros x; destruct c as [[] [] [] [] [] [] [] []]; try done; by destruct Hne).
  rewrite E in Hs. simpl app. rewrite E. exact (digits1_app _ _ _ _ Hs He).
Qed.

Lemma fraction_app s a r rest :
  parse_fraction s = Some (a, r) -> ends rest = true -> parse_fraction (s ++ rest) = Some (a, r ++ rest).
Proof.
  intros Hs He. assert (forall c x, c <> "."%char -> parse_fraction (c :: x) = Some ([], c :: x)) as E
    by (intros c x Hc; destruct c as [[] [] [] [] [] [] [] []]; try done; by destruct Hc).
  destruct s as [|c s].
  - injection Hs as <- <-. destruct rest as [|c rest]; [done|]. apply E. intros ->. done.
  - destruct (decide (c = "."%char)) as [->|Hne]; [|rewrite E in Hs by done; injection Hs as <- <-; by apply E].
    apply prepend_Some in Hs as (t & Hs & ->). simpl. by rewrite (digits1_app _ _ _ _ Hs He).
Qed.

Lemma exponent_app s a r rest :
  parse_exponent s = Some (a, r) -> ends rest = true -> parse_exponent (s ++ rest) = Some (a, r ++ rest).
Proof.
  intros Hs He. destruct s as [|c s]; simpl in *.
  - injection Hs as <- <-. destruct rest as [|c rest]; [done|]. simpl in *. rewrite bool_decide_false; [done|].
    intros Hc. unfold in_number in He. rewrite (bool_decide_true (c ∈ lit ".eE+-")) in He; [by rewrite orb_true_r in He|].
    revert Hc. apply (bool_decide_unpack _). by destruct c as [[] [] [] [] [] [] [] []].
  - destruct (bool_decide (c ∈ lit "eE")) eqn:Ec; [|by injection Hs as <- <-]. destruct s as [|sg s]; [done|]. simpl.
    destruct (bool_decide (sg ∈ lit "+-")); apply prepend_Some in Hs as (t & Hs & ->).
    + by rewrite (digits1_app _ _ _ _ Hs He).
    + change (sg :: s ++ rest) with ((sg :: s) ++ rest). by rewrite (digits1_app _ _ _ _ Hs He).
Qed.

(** [parse_number] after the sign. *)
Definition unsigned (sign s : gostring) : option (gostring * gostring) :=
  '(i, s) ← parse_int_part s; '(f, s) ← parse_fraction s; '(e, s) ← parse_exponent s; Some (sign ++ i ++ f ++ e, s).

Lemma parse_number_plus c s : c <> "-"%char -> parse_number (c :: s) = unsigned [] (c :: s).
Proof. intros Hc. destruct c as [[] [] [] [] [] [] [] []]; try done; by destruct Hc. Qed.

Lemma unsigned_app sign s a rest :
  unsigned sign s = Some (a, []) -> ends rest = true -> unsigned sign (s ++ rest) = Some (a, rest).
Proof.
  intros Hs He. revert Hs. unfold unsigned.
  destruct (parse_int_part s) as [[i s1]|] eqn:E1; [simpl|done]. destruct (parse_fraction s1) as [[f s2]|] eqn:E2; [simpl|done].
  destruct (parse_exponent s2) as [[e s3]|] eqn:E3; [simpl|done]. intros [= <- ->].
  rewrite (int_part_app _ _ _ _ E1 He). simpl. rewrite (fraction_app _ _ _ _ E2 He). simpl.
  by rewrite (exponent_app _ _ _ _ E3 He).
Qed.

Lemma parse_number_app t rest : number_text t = true -> ends rest = true -> parse_number (t ++ rest) = Some (t, rest).
Proof.
  intros Ht%bool_decide_eq_true He. destruct t as [|c t]; [done|]. destruct (decide (c = "-"%char)) as [->|Hne].
  - exact (unsigned_app (lit "-") t _ rest Ht He).
  - rewrite parse_number_plus in Ht by done. simpl app. rewrite parse_number_plus by done. exact (unsigned_app [] _ _ rest Ht He).
Qed.

(** A number starts like no other value. *)
Lemma number_head t : number_text t = true -> exists c r, t = c :: r /\ (is_digit c = true \/ c = "-"%char).
Proof.
  intros Ht%bool_decide_eq_true. destruct t as [|c t]; [done|]. exists c, t. split; [done|].
  destruct (decide (c = "-"%char)) as [->|Hne]; [by right|]. left. rewrite parse_number_plus in Ht by done. revert Ht. unfold unsigned.
  destruct c as [[] [] [] [] [] [] [] []]; try done; intros Ht; exfalso; by apply Hne || (vm_compute in Ht; done).
Qed.

(** *** The first character *)

Definition starts_value (c : ascii) : bool :=
  is_digit c || bool_decide (c ∈ ["-"; "n"; "t"; "f"; "["; "{"; dquote]%char).

Lemma print_head v : wf_json v = true -> exists c r, print v = c :: r /\ starts_value c = true.
Proof.
  destruct v as [|[]|t|s|l|ms]; intros Hw; simpl; try (by eexists _, _).
  destruct (number_head t Hw) as (c & r & -> & Hc). exists c, r. split; [done|]. unfold starts_value.
  destruct Hc as [->| ->]; reflexivity.
Qed.

Lemma starts_plain c : starts_value c = true -> is_json_space c = false /\ c <> "]"%char /\ c <> "}"%char.
Proof.
  unfold starts_value. intros Hs. split_and!; [|intros ->; done..].
  destruct (is_json_space c) eqn:E; [|done]. exfalso. revert Hs E. by destruct c as [[] [] [] [] [] [] [] []].
Qed.

Lemma skip_ws_plain c r : is_json_space c = false -> skip_ws (c :: r) = c :: r.
Proof. intros Hc. unfold skip_ws. simpl. by rewrite Hc. Qed.

Lemma skip_ws_print v rest : wf_json v = true -> skip_ws (print v ++ rest) = print v ++ rest.
Proof. intros (c & r & -> & (Hc & _)%starts_plain)%print_head. by apply skip_ws_plain. Qed.

Lemma no_bracket {A} c r (f g : gostring -> A) :
  c <> "]"%char -> match c :: r with "]"%char :: r => f r | r => g r end = g (c :: r).
Proof. intros Hc. destruct c as [[] [] [] [] [] [] [] []]; try done; by destruct Hc. Qed.

Lemma parse_array n c r l rest :
  starts_value c = true -> parse_elements n (c :: r) = Some (l, rest) ->
  parse_value (S n) ("["%char :: c :: r) = Some (JsonArray l, rest).
Proof.
  intros (Hs & Hb & _)%starts_plain Hp.
  change (match skip_ws (c :: r) with
          | "]"%char :: r => Some (JsonArray [], r)
          | r => '(l, r) ← parse_elements n r; Some (JsonArray l, r)
          end = Some (JsonArray l, rest)).
  rewrite skip_ws_plain by done.
  etransitivity; [apply (no_bracket c r (fun r => Some (JsonArray [], r)) (fun r => '(l, r) ← parse_elements n r; Some (JsonArray l, r))); done|].
  by rewrite Hp.
Qed.

Lemma parse_value_number n t rest :
  number_text t = true -> ends rest = true -> parse_value (S n) (t ++ rest) = Some (JsonNumber t, rest).
Proof.
  intros Ht He. pose proof (parse_number_app t rest Ht He) as Hp. destruct (number_head t Ht) as (c & r & -> & Hc).
  assert (parse_value (S n) ((c :: r) ++ rest) = '(t, r) ← parse_number ((c :: r) ++ rest); Some (JsonNumber t, r)) as ->; [|by rewrite Hp].
  clear Hp. destruct c as [[] [] [] [] [] [] [] []]; try reflexivity; destruct Hc as [Hc|Hc]; done.
Qed.

(** *** Lists of values *)

Lemma commas_cons x y l : commas (x :: y :: l) = x ++ ","%char :: commas (y :: l).
Proof. done. Qed.

(** The parser reads back what was printed. *)
Definition reads (v : json) : Prop :=
  wf_json v = true -> forall fuel rest, (jsize v <= fuel)%nat -> ends rest = true ->
  parse_value fuel (print v ++ rest) = Some (v, rest).

Lemma parse_elements_print v l fuel rest :
  Forall reads (v :: l) -> forallb wf_json (v :: l) = true -> (list_sum (map (fun v => S (jsize v)) (v :: l)) <= fuel)%nat ->
  parse_elements fuel (commas (map print (v :: l)) ++ "]"%char :: rest) = Some (v :: l, rest).
Proof.
  revert v fuel. induction l as [|w l IH]; intros v fuel [Hv Hl]%Forall_cons Hw Hf; (destruct fuel as [|fuel]; [simpl in Hf; lia|]).
  - simpl in *. rewrite app_nil_r, andb_true_r in *. by rewrite Hv by (done || lia).
  - change (forallb wf_json (v :: w :: l)) with (wf_json v && forallb wf_json (w :: l)) in Hw. apply andb_true_iff in Hw as [Hwv Hw].
    change (map print (v :: w :: l)) with (print v :: print w :: map print l). rewrite commas_cons, <- app_assoc.
    change (S (jsize v) + list_sum (map (fun v => S (jsize v)) (w :: l)) <= S fuel)%nat in Hf.
    change (parse_elements (S fuel) ?s) with
      ('(v, r) ← parse_value fuel s;
       match skip_ws r with
       | ","%char :: r => '(l, r) ← parse_elements fuel r; Some (v :: l, r)
       | "]"%char :: r => Some ([v], r)
       | _ => None
       end).
    rewrite (Hv Hwv fuel) by (done || lia).
    change (('(l, r) ← parse_elements fuel (commas (map print (w :: l)) ++ "]"%char :: rest); Some (v :: l, r))
            = Some (v :: w :: l, rest)).
    by rewrite (IH w fuel Hl Hw) by lia.
Qed.

Lemma parse_members_print kv ms fuel rest :
  Forall (fun kv => reads kv.2) (kv :: ms) ->
  forallb (fun kv : gostring * json => forallb is_ascii kv.1 && wf_json kv.2) (kv :: ms) = true ->
  (list_sum (map (fun kv : gostring * json => S (jsize kv.2)) (kv :: ms)) <= fuel)%nat ->
  parse_members fuel (commas (map (fun kv => json_member kv.1 (print kv.2)) (kv :: ms)) ++ "}"%char :: rest) = Some (kv :: ms, rest).
Proof.
  revert kv fuel. induction ms as [|kv' ms IH]; intros [k v] fuel [Hv Hl]%Forall_cons Hw Hf; (destruct fuel as [|fuel]; [simpl in Hf; lia|]).
  - simpl in Hv, Hw, Hf. apply andb_true_iff in Hw as [[Hk Hwv]%andb_true_iff _]. simpl map. unfold commas. simpl concat. rewrite app_nil_r.
    assert (parse_value fuel (print v ++ "}"%char :: rest) = Some (v, "}"%char :: rest)) as Hp by (apply Hv; [done|lia|done]).
    by rewrite (parse_member fuel k (print v) v rest "}"%char Hk Hp eq_refl).
  - change (forallb ?f ((k, v) :: kv' :: ms)) with ((forallb is_ascii k && wf_json v) && forallb f (kv' :: ms)) in Hw.
    apply andb_true_iff in Hw as [[Hk Hwv]%andb_true_iff Hw]. simpl in Hv.
    change (map ?f ((k, v) :: kv' :: ms)) with (json_member k (print v) :: f kv' :: map f ms). rewrite commas_cons, <- app_assoc.
    change (S (jsize v) + list_sum (map (fun kv : gostring * json => S (jsize kv.2)) (kv' :: ms)) <= S fuel)%nat in Hf.
    change ((","%char :: ?x) ++ ?y) with (","%char :: x ++ y).
    set (tail := _ ++ "}"%char :: rest).
    assert (parse_value fuel (print v ++ ","%char :: tail) = Some (v, ","%char :: tail)) as Hp by (apply Hv; [done|lia|done]).
    rewrite (parse_member fuel k (print v) v tail ","%char Hk Hp eq_refl). simpl bool_decide. cbv iota. unfold tail.
    change (commas (json_member kv'.1 (print kv'.2) :: ?m)) with (commas (map (fun kv => json_member kv.1 (print kv.2)) (kv' :: ms))).
    by rewrite (IH kv' fuel Hl Hw) by lia.
Qed.

(** ** The round trip *)

Lemma json_member_head key value : exists r, json_member key value = dquote :: r.
Proof. unfold json_member, json_string. simpl. eauto. Qed.

Lemma parse_print v : reads v.
Proof.
  induction v as [|b|t|s|l IH|ms IH] using json_nested_ind; intros Hw fuel rest Hf He;
    (destruct fuel as [|fuel]; [simpl in Hf; lia|]); simpl in Hw.
  - reflexivity.
  - by destruct b.
  - by apply parse_value_number.
  - by apply parse_value_string.
  - change (print (JsonArray l)) with ("["%char :: commas (map print l) ++ lit "]"). simpl app. rewrite <- app_assoc.
    destruct l as [|v l]; [reflexivity|]. simpl in Hf.
    pose proof (parse_elements_print v l fuel rest IH Hw ltac:(simpl; lia)) as Hp.
    apply andb_true_iff in Hw as [Hwv _]. destruct (print_head v Hwv) as (c & r & E & Hc).
    change (commas (map print (v :: l))) with (print v ++ concat (map (fun y => ","%char :: y) (map print l))) in *.
    rewrite E in *. simpl app in *. by apply parse_array.
  - change (print (JsonObject ms)) with ("{"%char :: commas (map (fun kv => json_member kv.1 (print kv.2)) ms) ++ lit "}").
    simpl app. rewrite <- app_assoc. destruct ms as [|[k v] ms]; [reflexivity|]. simpl in Hf.
    pose proof (parse_members_print (k, v) ms fuel rest IH Hw ltac:(simpl; lia)) as Hp.
    destruct (json_member_head k (print v)) as [r E].
    change (commas (map ?f ((k, v) :: ms))) with (json_member k (print v) ++ concat (map (fun y => ","%char :: y) (map f ms))) in *.
    rewrite E in *. simpl app in *. by apply parse_object.
Qed.

Lemma length_commas (l : list gostring) : l <> [] -> S (length (commas l)) = list_sum (map (fun x => S (length x)) l).
Proof.
  destruct l as [|x l]; [done|]. intros _. simpl. rewrite length_app. f_equal. f_equal.
  induction l as [|y l IH]; [done|]. simpl. rewrite length_app, IH. lia.
Qed.

Lemma list_sum_le {A} (f g : A -> nat) l : Forall (fun x => f x <= g x)%nat l -> (list_sum (map f l) <= list_sum (map g l))%nat.
Proof. induction 1; simpl; lia. Qed.

(** The text is long enough as fuel. *)
Lemma jsize_print v : wf_json v = true -> (jsize v <= length (print v))%nat.
Proof.
  induction v as [|b|t|s|l IH|ms IH] using json_nested_ind; intros Hw; simpl in Hw.
  - simpl. lia.
  - by destruct b; simpl; lia.
  - destruct (number_head t Hw) as (c & r & -> & _). simpl. lia.
  - simpl. lia.
  - change (print (JsonArray l)) with (lit "[" ++ commas (map print l) ++ lit "]"). rewrite !length_app. simpl.
    destruct l as [|v l]; [simpl; lia|]. pose proof (length_commas (map print (v :: l)) ltac:(done)) as Hl.
    rewrite map_map in Hl. enough (list_sum (map (fun v => S (jsize v)) (v :: l)) <= list_sum (map (fun v => S (length (print v))) (v :: l)))%nat by (unfold lit; simpl in *; lia).
    apply list_sum_le, Forall_forall. intros x Hx. rewrite Forall_forall in IH. specialize (IH x Hx).
    apply list_elem_of_In in Hx. rewrite forallb_forall in Hw. specialize (IH (Hw x Hx)). lia.
  - change (print (JsonObject ms)) with (lit "{" ++ commas (map (fun kv => json_member kv.1 (print kv.2)) ms) ++ lit "}"). rewrite !length_app. simpl.
    destruct ms as [|kv ms]; [simpl; lia|].
    pose proof (length_commas (map (fun kv => json_member kv.1 (print kv.2)) (kv :: ms)) ltac:(done)) as Hl. rewrite map_map in Hl.
    enough (list_sum (map (fun kv => S (jsize kv.2)) (kv :: ms)) <= list_sum (map (fun kv => S (length (json_member kv.1 (print kv.2)))) (kv :: ms)))%nat by (unfold lit; simpl in *; lia).
    apply list_sum_le, Forall_forall. intros x Hx. rewrite Forall_forall in IH. specialize (IH x Hx).
    apply list_elem_of_In in Hx. rewrite forallb_forall in Hw. specialize (Hw x Hx). apply andb_true_iff in Hw as [_ Hw].
    specialize (IH Hw). unfold json_member. rewrite !length_app. lia.
Qed.

(** A whole text is read back. *)
Lemma parse_print_text v rest :
  wf_json v = true -> ends rest = true -> parse_value (S (length (print v ++ rest))) (print v ++ rest) = Some (v, rest).
Proof. intros Hw He. apply parse_print; [done| |done]. pose proof (jsize_print v Hw). rewrite length_app. lia. Qed.

Lemma raw_value_print v fuel rest :
  wf_json v = true -> (jsize v <= fuel)%nat -> ends rest = true -> raw_value fuel (print v ++ rest) = Some (print v, rest).
Proof.
  intros Hw Hf He. unfold raw_value. rewrite skip_ws_print, (parse_print v Hw fuel rest Hf He) by done. simpl.
  rewrite length_app, Nat.add_sub. by rewrite take_app_length.
Qed.

(** *** Raw members *)

Lemma raw_member n key value rest sep :
  forallb is_ascii key = true ->
  raw_value n (value ++ sep :: rest) = Some (value, sep :: rest) ->
  is_json_space sep = false ->
  raw_members (S n) (json_member key value ++ sep :: rest)
  = if bool_decide (sep = ","%char) then '(ms, r) ← raw_members n rest; Some ((key, value) :: ms, r)
    else if bool_decide (sep = "}"%char) then Some ([(key, value)], rest) else None.
Proof.
  intros Hk Hv Hsep. unfold json_member. rewrite <- !app_assoc.
  destruct (parse_json_string key (lit ":" ++ value ++ sep :: rest) Hk) as (r & -> & Hr).
  simpl. rewrite Hr. simpl. rewrite Hv. simpl. unfold skip_ws. simpl. rewrite Hsep.
  destruct sep as [b0 b1 b2 b3 b4 b5 b6 b7].
  destruct b0, b1, b2, b3, b4, b5, b6, b7; reflexivity.
Qed.

Definition raw_of (kv : gostring * json) : gostring * gostring := (kv.1, print kv.2).

Lemma raw_members_print kv ms fuel rest :
  forallb (fun kv : gostring * json => forallb is_ascii kv.1 && wf_json kv.2) (kv :: ms) = true ->
  (list_sum (map (fun kv : gostring * json => S (jsize kv.2)) (kv :: ms)) <= fuel)%nat ->
  raw_members fuel (commas (map (fun kv => json_member kv.1 (print kv.2)) (kv :: ms)) ++ "}"%char :: rest)
  = Some (map raw_of (kv :: ms), rest).
Proof.
  revert kv fuel. induction ms as [|kv' ms IH]; intros [k v] fuel Hw Hf; (destruct fuel as [|fuel]; [simpl in Hf; lia|]).
  - simpl in Hw, Hf. apply andb_true_iff in Hw as [[Hk Hwv]%andb_true_iff _]. simpl map. unfold commas. simpl concat. rewrite app_nil_r.
    pose proof (raw_value_print v fuel ("}"%char :: rest) Hwv ltac:(lia) eq_refl) as Hp.
    by rewrite (raw_member fuel k (print v) rest "}"%char Hk Hp eq_refl).
  - change (forallb ?f ((k, v) :: kv' :: ms)) with ((forallb is_ascii k && wf_json v) && forallb f (kv' :: ms)) in Hw.
    apply andb_true_iff in Hw as [[Hk Hwv]%andb_true_iff Hw].
    change (map ?f ((k, v) :: kv' :: ms)) with (f (k, v) :: f kv' :: map f ms). rewrite commas_cons, <- app_assoc. simpl fst. simpl snd.
    change (S (jsize v) + list_sum (map (fun kv : gostring * json => S (jsize kv.2)) (kv' :: ms)) <= S fuel)%nat in Hf.
    change ((","%char :: ?x) ++ ?y) with (","%char :: x ++ y). set (tail := _ ++ "}"%char :: rest).
    pose proof (raw_value_print v fuel (","%char :: tail) Hwv ltac:(lia) eq_refl) as Hp.
    rewrite (raw_member fuel k (print v) tail ","%char Hk Hp eq_refl). simpl bool_decide. cbv iota. unfold tail.
    change (commas (json_member kv'.1 (print kv'.2) :: ?m)) with (commas (map (fun kv => json_member kv.1 (print kv.2)) (kv' :: ms))).
    by rewrite (IH kv' fuel Hw) by lia.
Qed.

Lemma raw_object_print ms rest :
  wf_json (JsonObject ms) = true -> raw_object (print (JsonObject ms) ++ rest) = Some (map raw_of ms).
Proof.
  intros Hw. change (print (JsonObject ms)) with ("{"%char :: commas (map (fun kv => json_member kv.1 (print kv.2)) ms) ++ lit "}").
  simpl app. rewrite <- app_assoc. destruct ms as [|[k v] ms]; [reflexivity|].
  set (s := "{"%char :: _). assert (list_sum (map (fun kv : gostring * json => S (jsize kv.2)) ((k, v) :: ms)) <= length s)%nat as Hf.
  { pose proof (jsize_print _ Hw) as Hj. change (jsize (JsonObject ((k, v) :: ms))) with (S (list_sum (map (fun kv : gostring * json => S (jsize kv.2)) ((k, v) :: ms)))) in Hj.
    etransitivity; [apply Nat.le_succ_diag_r|]. etransitivity; [exact Hj|]. unfold s. change (print (JsonObject ((k, v) :: ms))) with
      ("{"%char :: commas (map (fun kv => json_member kv.1 (print kv.2)) ((k, v) :: ms)) ++ lit "}").
    simpl length. rewrite !length_app. simpl. lia. }
  pose proof (raw_members_print (k, v) ms (length s) rest Hw Hf) as Hp.
  enough (raw_object s = fst <$> raw_members (length s) (tail s)) as ->; [change (tail s) with (commas (map (fun kv => json_member kv.1 (print kv.2)) ((k, v) :: ms)) ++ "}"%char :: rest); by rewrite Hp|].
  subst s. clear. change (commas (map ?f ((k, v) :: ms))) with (json_member k (print v) ++ concat (map (fun y => ","%char :: y) (map f ms))).
  by destruct (json_member_head k (print v)) as [r ->].
Qed.
