(* ===== verification/JsonCodec.v ===== *)
(** * Encoding and decoding of Go values ([encoding/json])

    The rules by which [json.Marshal] prints a value and [json.Unmarshal] fills
    one, as combinators: a decoder gets the text of a value and what the Go
    variable holds, and returns the error it records and what the variable
    holds then.  A type error does not stop the decoding; the first one is
    returned at the end.  [conveys] is the law that ties the two directions, and
    each combinator has a lemma for it. *)

From S2P Require Import Prelude GoStrings Json JsonText.
Local Open Scope Z_scope.

(** ** Encoding *)

(** An object from the texts of its members. *)
Definition object_text (ms : list (gostring * gostring)) : gostring :=
  lit "{" ++ commas (map (fun kv => json_member kv.1 kv.2) ms) ++ lit "}".
Definition array_text (l : list gostring) : gostring := lit "[" ++ commas l ++ lit "]".

(** A member, and a member left out when its value is empty ([omitempty]). *)
Definition member (name text : gostring) : list (gostring * gostring) := [(name, text)].
Definition omitempty (empty : bool) (name text : gostring) : list (gostring * gostring) :=
  if empty then [] else member name text.

(** The text of a raw message without white space between the tokens, HTML
    characters escaped; the flag says whether the reader is inside a string. *)
Fixpoint compact (in_string : bool) (s : gostring) : gostring :=
  match s with
  | [] => []
  | c :: s =>
      if in_string then
        if bool_decide (c = backslash) then
          match s with
          | [] => [c]
          | e :: s => c :: e :: compact true s
          end
        else if bool_decide (c = dquote) then c :: compact false s
        else (if bool_decide (c ∈ lit "<>&") then json_escape c else [c]) ++ compact true s
      else if is_json_space c then compact false s
      else c :: compact (bool_decide (c = dquote)) s
  end.

(** [checkValid]: one value, and nothing but white space after it. *)
Definition checkValid (s : gostring) : bool :=
  match parse_value (S (length s)) s with
  | Some (_, rest) => bool_decide (skip_ws rest = [])
  | None => false
  end.

Definition ErrMarshaler : error := ErrText (lit "json: error calling MarshalJSON for type json.RawMessage").

(** [json.RawMessage]: the text itself; a nil message is [null]. *)
Definition raw_text (m : gostring) : result error gostring :=
  let m := if bool_decide (m = []) then lit "null" else m in
  if checkValid m then Ok (compact false m) else Err ErrMarshaler.

(** ** Decoding *)

Definition decoder (A : Type) : Type := gostring -> A -> option error * A.

Definition first_error (e e' : option error) : option error := match e with Some _ => e | None => e' end.

Definition value_of (text : gostring) : option json := fst <$> parse_value (S (length text)) text.
Definition is_null (text : gostring) : bool := HasPrefix text (lit "null").

Definition dec_string : decoder gostring := fun text old =>
  match value_of text with
  | Some (JsonString s) => (None, s)
  | Some JsonNull => (None, old)
  | _ => (Some ErrUnmarshalType, old)
  end.

(** An [intN] field, [N = bits]. *)
Definition dec_int (bits : Z) : decoder Z := fun text old =>
  match value_of text with
  | Some (JsonNumber t) =>
      match number_int64 t with
      | Some n => if (- 2 ^ (bits - 1) <=? n) && (n <? 2 ^ (bits - 1)) then (None, n) else (Some ErrUnmarshalType, old)
      | None => (Some ErrUnmarshalType, old)
      end
  | Some JsonNull => (None, old)
  | _ => (Some ErrUnmarshalType, old)
  end.

(** [json.RawMessage] keeps the text, of [null] too. *)
Definition dec_raw : decoder gostring := fun text _ => (None, text).

(** A pointer: [null] makes it nil, another value is stored where it points,
    after an allocation if need be. *)
Definition dec_pointer {A} (zero : A) (d : decoder A) : decoder (option A) := fun text old =>
  if is_null text then (None, None)
  else let '(e, x) := d text (default zero old) in (e, Some x).

(** The texts of the elements of an array. *)
Fixpoint raw_elements (fuel : nat) (s : gostring) : option (list gostring * gostring) :=
  match fuel with
  | O => None
  | S fuel =>
      '(t, r) ← raw_value fuel s;
      match skip_ws r with
      | ","%char :: r => '(l, r) ← raw_elements fuel r; Some (t :: l, r)
      | "]"%char :: r => Some ([t], r)
      | _ => None
      end
  end.
Definition raw_array (s : gostring) : option (list gostring) :=
  match skip_ws s with
  | "["%char :: r =>
      match skip_ws r with
      | "]"%char :: _ => Some []
      | r => fst <$> raw_elements (length s) r
      end
  | _ => None
  end.

(** A slice: an element is decoded over the one that is there already, if any;
    the length becomes that of the array. *)
Fixpoint dec_elements {A} (zero : A) (d : decoder A) (texts : list gostring) (old : list A) : option error * list A :=
  match texts with
  | [] => (None, [])
  | text :: texts =>
      let '(e, x) := d text (default zero (head old)) in
      let '(e', l) := dec_elements zero d texts (tail old) in
      (first_error e e', x :: l)
  end.
Definition dec_slice {A} (zero : A) (d : decoder A) : decoder (list A) := fun text old =>
  if is_null text then (None, [])
  else
    match raw_array text with
    | Some texts => dec_elements zero d texts old
    | None => (Some ErrUnmarshalType, old)
    end.

(** A field of a struct: its name and the decoder of the struct that decodes
    into it. *)
Definition field {A B} (name : gostring) (get : A -> B) (set : B -> A -> A) (d : decoder B) : gostring * decoder A :=
  (name, fun text r => let '(e, x) := d text (get r) in (e, set x r)).

Fixpoint find_field {A} (fields : list (gostring * decoder A)) (key : gostring) : option (decoder A) :=
  match fields with
  | [] => None
  | (name, d) :: fields => if EqualFold key name then Some d else find_field fields key
  end.

Definition dec_member {A} (fields : list (gostring * decoder A)) (st : option error * A) (kv : gostring * gostring)
    : option error * A :=
  match find_field fields kv.1 with
  | None => st
  | Some d => let '(e, r) := d kv.2 st.2 in (first_error st.1 e, r)
  end.

(** Unknown members are skipped; [null] leaves the struct alone. *)
Definition dec_struct {A} (fields : list (gostring * decoder A)) : decoder A := fun text old =>
  match raw_object text with
  | Some ms => foldl (dec_member fields) (None, old) ms
  | None => (Some ErrUnmarshalType, old)
  end.

(** A map with string keys: each value is decoded afresh. *)
Definition dec_entry {A} (zero : A) (d : decoder A) (st : option error * gmap gostring A) (kv : gostring * gostring)
    : option error * gmap gostring A :=
  let '(e, x) := d kv.2 zero in (first_error st.1 e, <[kv.1 := x]> st.2).
Definition dec_map {A} (zero : A) (d : decoder A) : decoder (gmap gostring A) := fun text old =>
  if is_null text then (None, ∅)
  else
    match raw_object text with
    | Some ms => foldl (dec_entry zero d) (None, old) ms
    | None => (Some ErrUnmarshalType, old)
    end.

Definition outcome {A} (r : option error * A) : result error A :=
  match r with (None, x) => Ok x | (Some e, _) => Err e end.

(** [json.Unmarshal]: the whole text must be valid. *)
Definition Unmarshal {A} (zero : A) (d : decoder A) (text : gostring) : result error A :=
  if checkValid text then outcome (d text zero) else Err ErrSyntax.

(** [json.NewDecoder(body).Decode]: the first value of the body. *)
Definition Decode {A} (zero : A) (d : decoder A) (body : gostring) : result error A :=
  match raw_value (S (length body)) body with
  | Some (text, _) => outcome (d text zero)
  | None => Err ErrSyntax
  end.

(** ** Lemmas *)

(** A text that the encoder prints for some value. *)
Definition printed (text : gostring) : Prop := exists v, wf_json v = true /\ text = print v.

(** The decoder reads [text] as [x] when the variable holds [old]. *)
Definition conveys {A} (d : decoder A) (text : gostring) (old x : A) : Prop :=
  printed text /\ d text old = (None, x).

(** *** Decimal numbers *)

Lemma digit_char r :
  0 <= r < 10 -> exists c, ascii_of_N (Z.to_N (48 + r)) = c /\ is_digit c = true /\ Z.of_N (code c) - 48 = r /\ (c = "0"%char -> r = 0).
Proof.
  intros Hr. assert (r ∈ seqZ 0 10) as Hin by (apply elem_of_seqZ; lia). revert Hin. simpl. intros Hin.
  repeat (apply elem_of_cons in Hin as [->|Hin]; [by eexists|]). by apply elem_of_nil in Hin.
Qed.

Lemma itoa_value fuel n acc : 0 <= n < 10 ^ Z.of_nat fuel -> digits_value 0 (itoa_digits fuel n acc) = digits_value n acc.
Proof.
  revert n acc. induction fuel as [|fuel IH]; intros n acc Hn; [simpl in *; by replace n with 0 by lia|].
  rewrite Nat2Z.inj_succ, Z.pow_succ_r in Hn by lia. pose proof (Z.mod_pos_bound n 10 ltac:(lia)) as Hm.
  destruct (digit_char _ Hm) as (c & E & Hc & Hv & _). simpl. rewrite E. destruct (Z.ltb_spec n 10).
  - simpl. rewrite Hc, Hv. by rewrite Z.mod_small by lia.
  - rewrite IH; [|split; [apply Z.div_pos; lia|apply Z.div_lt_upper_bound; lia]].
    change (digits_value (n / 10) (c :: acc)) with (if is_digit c then digits_value (10 * (n / 10) + (Z.of_N (code c) - 48)) acc else None).
    rewrite Hc, Hv. f_equal. pose proof (Z.div_mod n 10). lia.
Qed.

(** No leading zero. *)
Lemma itoa_shape fuel n acc :
  0 <= n < 10 ^ Z.of_nat (S fuel) ->
  exists c ds, itoa_digits (S fuel) n acc = c :: ds ++ acc /\ forallb is_digit (c :: ds) = true /\ (c = "0"%char -> ds = [] /\ n = 0).
Proof.
  revert n acc. induction fuel as [|fuel IH]; intros n acc Hn.
  all: pose proof (Z.mod_pos_bound n 10 ltac:(lia)) as Hm; destruct (digit_char _ Hm) as (c & E & Hc & _ & Hz).
  - assert (n < 10) as Hlt by (change (10 ^ Z.of_nat 1) with 10 in Hn; lia). rewrite Z.mod_small in Hz by lia.
    exists c, []. simpl. rewrite E, Hc. destruct (Z.ltb_spec n 10); [by auto|lia].
  - destruct (Z.ltb_spec n 10) as [Hlt|Hge].
    + rewrite Z.mod_small in Hz by lia. exists c, []. simpl. rewrite E, Hc. destruct (Z.ltb_spec n 10); [by auto|lia].
    + change (itoa_digits (S (S fuel)) n acc) with
        (let acc := ascii_of_N (Z.to_N (48 + n mod 10)) :: acc in if n <? 10 then acc else itoa_digits (S fuel) (n / 10) acc).
      cbv zeta. rewrite E. destruct (Z.ltb_spec n 10); [lia|].
      destruct (IH (n / 10) (c :: acc)) as (c' & ds & -> & Hd & Hz').
      { rewrite Nat2Z.inj_succ, Z.pow_succ_r in Hn by lia. split; [apply Z.div_pos; lia|apply Z.div_lt_upper_bound; lia]. }
      exists c', (ds ++ [c]). split_and!.
      * by rewrite <- app_assoc.
      * change (forallb is_digit ((c' :: ds) ++ [c]) = true). rewrite forallb_app, Hd. simpl. by rewrite Hc.
      * intros ->. destruct (Hz' eq_refl) as [_ Hq]. pose proof (Z.div_le_mono 10 n 10). change (10 / 10) with 1 in *. lia.
Qed.

Lemma span_all p s : forallb p s = true -> span p s = (s, []).
Proof. induction s as [|c s IH]; [done|]. simpl. intros [-> Hs]%andb_true_iff. by rewrite IH. Qed.

Lemma digits_number c ds sign :
  forallb is_digit (c :: ds) = true -> (c = "0"%char -> ds = []) -> unsigned sign (c :: ds) = Some (sign ++ c :: ds, []).
Proof.
  intros Hd Hz. assert (parse_int_part (c :: ds) = Some (c :: ds, [])) as Hi.
  { destruct (decide (c = "0"%char)) as [->|Hne]; [by rewrite (Hz eq_refl)|].
    transitivity (digits1 (c :: ds)); [destruct c as [[] [] [] [] [] [] [] []]; try done; by destruct Hne|].
    unfold digits1. by rewrite span_all. }
  unfold unsigned. rewrite Hi. simpl. by rewrite app_nil_r.
Qed.

Lemma digit_not_minus c : is_digit c = true -> c <> "-"%char.
Proof. by intros Hc ->. Qed.

(** The decimal text of an integer is a number that reads back. *)
Lemma Itoa_number n :
  - 2 ^ 63 <= n < 2 ^ 63 -> number_text (Itoa n) = true /\ number_int64 (Itoa n) = Some n.
Proof.
  intros Hn. unfold Itoa, number_text.
  assert (forall k, 0 <= k <= 2 ^ 63 -> exists c ds, itoa_digits 20 k [] = c :: ds /\ forallb is_digit (c :: ds) = true
          /\ (c = "0"%char -> ds = []) /\ digits_value 0 (c :: ds) = Some k) as Hk.
  { intros k Hk. destruct (itoa_shape 19 k []) as (c & ds & E & Hd & Hz); [split; [lia|]; etransitivity; [apply Z.lt_succ_r, Hk|]; reflexivity|].
    rewrite app_nil_r in E. exists c, ds. split_and!; [done|done|intros Hc; by destruct (Hz Hc)|]. rewrite <- E. apply itoa_value.
    split; [lia|]. etransitivity; [apply Z.lt_succ_r, Hk|]. reflexivity. }
  destruct (Z.ltb_spec n 0).
  - destruct (Hk (- n) ltac:(lia)) as (c & ds & -> & Hd & Hz & Hv). split.
    + rewrite bool_decide_eq_true. exact (digits_number c ds (lit "-") Hd Hz).
    + unfold number_int64. rewrite bool_decide_false by done. rewrite Hv. simpl mbind. cbv zeta.
      rewrite Z.opp_involutive. by rewrite (proj2 (Z.leb_le _ _)), (proj2 (Z.ltb_lt _ _)) by lia.
  - destruct (Hk n ltac:(lia)) as (c & ds & -> & Hd & Hz & Hv).
    assert (c <> "-"%char) as Hm by (apply digit_not_minus; by apply andb_true_iff in Hd as [? _]). split.
    + rewrite bool_decide_eq_true, parse_number_plus by done. exact (digits_number c ds [] Hd Hz).
    + assert (number_int64 (c :: ds) = (n ← digits_value 0 (c :: ds); if (- 2 ^ 63 <=? n) && (n <? 2 ^ 63) then Some n else None)) as ->
        by (destruct c as [[] [] [] [] [] [] [] []]; try done; by destruct Hm).
      rewrite Hv. simpl mbind. by rewrite (proj2 (Z.leb_le _ _)), (proj2 (Z.ltb_lt _ _)) by lia.
Qed.

(** *** Printed texts *)

Lemma value_of_print v : wf_json v = true -> value_of (print v) = Some v.
Proof. intros Hw. unfold value_of. pose proof (parse_print_text v [] Hw eq_refl) as Hp. rewrite app_nil_r in Hp. by rewrite Hp. Qed.

Lemma checkValid_print v : wf_json v = true -> checkValid (print v) = true.
Proof. intros Hw. unfold checkValid. pose proof (parse_print_text v [] Hw eq_refl) as Hp. rewrite app_nil_r in Hp. by rewrite Hp. Qed.

Definition json_is_null (v : json) : bool := match v with JsonNull => true | _ => false end.

Lemma is_null_head c r : c <> "n"%char -> is_null (c :: r) = false.
Proof. intros Hc. unfold is_null, HasPrefix. apply andb_false_iff. right. apply bool_decide_false. by intros [= -> _]. Qed.

Lemma is_null_print v : wf_json v = true -> is_null (print v) = json_is_null v.
Proof.
  destruct v as [|[]|t|s|l|ms]; intros Hw; try reflexivity; try (by apply is_null_head).
  destruct (number_head t Hw) as (c & r & -> & Hc). apply is_null_head. intros ->. by destruct Hc.
Qed.

Lemma compact_escape c s : compact true (json_escape c ++ s) = json_escape c ++ compact true s.
Proof. destruct c as [[] [] [] [] [] [] [] []]; reflexivity. Qed.

Lemma compact_string s rest : compact false (json_string s ++ rest) = json_string s ++ compact false rest.
Proof.
  unfold json_string. simpl. f_equal. rewrite <- !app_assoc.
  induction s as [|c s IH]; [done|]. rewrite bind_cons, <- !app_assoc, compact_escape. by rewrite IH.
Qed.

Lemma compact_plain s rest :
  forallb (fun c => negb (is_json_space c) && negb (bool_decide (c = dquote))) s = true ->
  compact false (s ++ rest) = s ++ compact false rest.
Proof.
  induction s as [|c s IH]; [done|]. simpl. intros [[Hs Hq]%andb_true_iff Hr]%andb_true_iff.
  apply negb_true_iff in Hs, Hq. rewrite Hs, Hq. by rewrite IH.
Qed.

(** The characters of a number. *)
Lemma span_in p s a r : span p s = (a, r) -> s = a ++ r /\ forallb p a = true.
Proof.
  revert a r. induction s as [|c s IH]; intros a r; simpl; [by intros [= <- <-]|].
  destruct (p c) eqn:Hp; [|by intros [= <- <-]]. destruct (span p s) as [a' r'] eqn:E. intros [= <- <-].
  destruct (IH _ _ eq_refl) as [-> Ha]. simpl. by rewrite Hp.
Qed.

Definition plain_char (c : ascii) : bool := negb (is_json_space c) && negb (bool_decide (c = dquote)).

Lemma digits_plain s : forallb is_digit s = true -> forallb plain_char s = true.
Proof.
  intros Hs. apply forallb_forall. intros c Hc. rewrite forallb_forall in Hs. specialize (Hs c Hc).
  destruct c as [[] [] [] [] [] [] [] []]; try done.
Qed.

Lemma digits1_plain s a r : digits1 s = Some (a, r) -> forallb plain_char a = true.
Proof.
  unfold digits1. destruct (span is_digit s) as [a' r'] eqn:E. apply span_in in E as [_ Ha]. destruct a' as [|c a']; [done|].
  intros [= <- <-]. by apply digits_plain.
Qed.

Lemma prepend_plain cs o a r :
  prepend cs o = Some (a, r) -> forallb plain_char cs = true -> (forall t, o = Some (t, r) -> forallb plain_char t = true) ->
  forallb plain_char a = true.
Proof. intros (t & E & ->)%prepend_Some Hc Ht. by rewrite forallb_app, Hc, (Ht t E). Qed.

Lemma int_part_plain s a r : parse_int_part s = Some (a, r) -> forallb plain_char a = true.
Proof.
  destruct s as [|c s]; [done|]. destruct (decide (c = "0"%char)) as [->|Hne]; [by intros [= <- <-]|].
  intros H. apply (digits1_plain (c :: s) a r). destruct c as [[] [] [] [] [] [] [] []]; try done; by destruct Hne.
Qed.

Lemma fraction_plain s a r : parse_fraction s = Some (a, r) -> forallb plain_char a = true.
Proof.
  destruct s as [|c s]; [by intros [= <- <-]|]. destruct (decide (c = "."%char)) as [->|Hne].
  - intros H. eapply prepend_plain; [exact H|done|]. intros t. apply digits1_plain.
  - intros H. enough (a = []) as -> by done. destruct c as [[] [] [] [] [] [] [] []]; try (by injection H); by destruct Hne.
Qed.

Lemma exponent_plain s a r : parse_exponent s = Some (a, r) -> forallb plain_char a = true.
Proof.
  destruct s as [|c s]; [by intros [= <- <-]|]. simpl. case_bool_decide as Hc; [|by intros [= <- <-]].
  assert (plain_char c = true) as Hpc.
  { revert Hc. unfold lit. simpl. rewrite !elem_of_cons. by intros [->|[->|?%elem_of_nil]]. }
  destruct s as [|sg s]; [done|]. case_bool_decide as Hs; intros H; (eapply prepend_plain; [exact H| |intros t; apply digits1_plain]); simpl; rewrite Hpc.
  - revert Hs. unfold lit. simpl. rewrite !elem_of_cons. by intros [->|[->|?%elem_of_nil]].
  - done.
Qed.

Lemma number_plain t : number_text t = true -> forallb plain_char t = true.
Proof.
  intros Ht%bool_decide_eq_true. assert (forall sign s a r, forallb plain_char sign = true -> unsigned sign s = Some (a, r) -> forallb plain_char a = true) as Hu.
  { intros sign s a r Hs. unfold unsigned. destruct (parse_int_part s) as [[i s1]|] eqn:E1; [simpl|done].
    destruct (parse_fraction s1) as [[f s2]|] eqn:E2; [simpl|done]. destruct (parse_exponent s2) as [[e s3]|] eqn:E3; [simpl|done].
    intros [= <- <-]. by rewrite !forallb_app, Hs, (int_part_plain _ _ _ E1), (fraction_plain _ _ _ E2), (exponent_plain _ _ _ E3). }
  destruct t as [|c t]; [done|]. destruct (decide (c = "-"%char)) as [->|Hne]; [by apply (Hu (lit "-") t _ [] eq_refl)|].
  rewrite parse_number_plus in Ht by done. exact (Hu [] _ _ [] eq_refl Ht).
Qed.

(** A text that compaction leaves alone. *)
Definition stable (t : gostring) : Prop := forall rest, compact false (t ++ rest) = t ++ compact false rest.

Lemma compact_commas l : Forall stable l -> stable (commas l).
Proof.
  destruct 1 as [|t l Ht Hl]; intros rest; [done|]. simpl. rewrite <- !app_assoc, Ht. f_equal.
  induction Hl as [|u l Hu Hl IH]; [done|]. simpl. f_equal. by rewrite <- !app_assoc, Hu, IH.
Qed.

(** The printer leaves nothing to remove. *)
Lemma compact_print v : wf_json v = true -> stable (print v).
Proof.
  induction v as [|b|t|s|l IH|ms IH] using json_nested_ind; intros Hw rest; simpl in Hw.
  - done.
  - by destruct b.
  - by apply compact_plain, number_plain.
  - apply compact_string.
  - simpl. f_equal. rewrite <- !app_assoc, compact_commas; [done|].
    rewrite Forall_map. rewrite forallb_forall in Hw. rewrite Forall_forall in *. intros v Hv. by apply IH, Hw, list_elem_of_In.
  - change (print (JsonObject ms)) with ("{"%char :: commas (map (fun kv => json_member kv.1 (print kv.2)) ms) ++ lit "}"). simpl. f_equal.
    rewrite <- !app_assoc, compact_commas; [done|].
    rewrite Forall_map. rewrite forallb_forall in Hw. rewrite Forall_forall in *. intros [k v] Hv r.
    specialize (Hw _ (proj1 (list_elem_of_In _ _) Hv)). apply andb_true_iff in Hw as [_ Hw].
    unfold json_member. cbn [fst snd]. rewrite <- !app_assoc, compact_string. f_equal. simpl. f_equal. by apply (IH (k, v)).
Qed.

(** A printed message is encoded as it is. *)
Lemma raw_text_printed m : printed m -> raw_text m = Ok m.
Proof.
  intros (v & Hw & ->). unfold raw_text. destruct (print_head v Hw) as (c & r & E & _).
  rewrite bool_decide_false by (by rewrite E). rewrite checkValid_print by done.
  f_equal. rewrite <- (app_nil_r (print v)) at 1. rewrite compact_print by done. apply app_nil_r.
Qed.

Lemma printed_member name text : printed text -> forallb is_ascii name = true ->
  exists kv, forallb is_ascii kv.1 && wf_json kv.2 = true /\ raw_of kv = (name, text).
Proof. intros (v & Hw & ->) Hn. exists (name, v). simpl. by rewrite Hn, Hw. Qed.

Lemma object_printed ms :
  Forall (fun kv => forallb is_ascii kv.1 = true /\ printed kv.2) ms ->
  exists jms, wf_json (JsonObject jms) = true /\ object_text ms = print (JsonObject jms) /\ map raw_of jms = ms.
Proof.
  intros Hms. enough (exists jms, wf_json (JsonObject jms) = true /\ map raw_of jms = ms) as (jms & Hw & E).
  { exists jms. split_and!; [done| |done]. rewrite <- E. unfold object_text. by rewrite map_map. }
  induction Hms as [|[k t] ms [Hk Ht] _ (jms & Hw & E)]; [by exists []|].
  destruct (printed_member k t Ht Hk) as (kv & Hkv & Er). exists (kv :: jms). simpl in *. by rewrite Hkv, Er, E.
Qed.

Lemma array_printed l :
  Forall printed l -> exists js, wf_json (JsonArray js) = true /\ array_text l = print (JsonArray js) /\ map print js = l.
Proof.
  intros Hl. enough (exists js, wf_json (JsonArray js) = true /\ map print js = l) as (js & Hw & E).
  { exists js. split_and!; [done| |done]. by rewrite <- E. }
  induction Hl as [|t l (v & Hv & ->) _ (js & Hw & E)]; [by exists []|]. exists (v :: js). simpl in *. by rewrite Hv, E.
Qed.

Lemma raw_elements_print v l fuel rest :
  forallb wf_json (v :: l) = true -> (list_sum (map (fun v => S (jsize v)) (v :: l)) <= fuel)%nat ->
  raw_elements fuel (commas (map print (v :: l)) ++ "]"%char :: rest) = Some (map print (v :: l), rest).
Proof.
  revert v fuel. induction l as [|w l IH]; intros v fuel Hw Hf; (destruct fuel as [|fuel]; [simpl in Hf; lia|]).
  - simpl in Hw, Hf. rewrite andb_true_r in Hw. simpl. rewrite app_nil_r. by rewrite (raw_value_print v fuel _ Hw) by (done || lia).
  - change (forallb wf_json (v :: w :: l)) with (wf_json v && forallb wf_json (w :: l)) in Hw. apply andb_true_iff in Hw as [Hwv Hw].
    change (map print (v :: w :: l)) with (print v :: print w :: map print l) at 1. rewrite commas_cons, <- app_assoc.
    change (S (jsize v) + list_sum (map (fun v => S (jsize v)) (w :: l)) <= S fuel)%nat in Hf.
    change (raw_elements (S fuel) ?s) with
      ('(t, r) ← raw_value fuel s;
       match skip_ws r with
       | ","%char :: r => '(l, r) ← raw_elements fuel r; Some (t :: l, r)
       | "]"%char :: r => Some ([t], r)
       | _ => None
       end).
    rewrite (raw_value_print v fuel) by (done || lia).
    change (('(l, r) ← raw_elements fuel (commas (map print (w :: l)) ++ "]"%char :: rest); Some (print v :: l, r))
            = Some (map print (v :: w :: l), rest)).
    by rewrite (IH w fuel Hw) by lia.
Qed.

Lemma raw_array_head c r :
  starts_value c = true -> raw_array ("["%char :: c :: r) = fst <$> raw_elements (S (S (length r))) (c :: r).
Proof.
  intros (Hs & Hb & _)%starts_plain.
  change (raw_array ("["%char :: c :: r)) with
    (match skip_ws (c :: r) with "]"%char :: _ => Some [] | x => fst <$> raw_elements (S (S (length r))) x end).
  rewrite skip_ws_plain by done. by destruct c as [[] [] [] [] [] [] [] []].
Qed.

Lemma raw_array_print l : wf_json (JsonArray l) = true -> raw_array (print (JsonArray l)) = Some (map print l).
Proof.
  intros Hw. destruct l as [|v l]; [reflexivity|].
  pose proof (jsize_print _ Hw) as Hj. change (jsize (JsonArray (v :: l))) with (S (list_sum (map (fun v => S (jsize v)) (v :: l)))) in Hj.
  pose proof (raw_elements_print v l (length (print (JsonArray (v :: l)))) [] Hw ltac:(lia)) as Hp.
  apply andb_true_iff in Hw as [Hwv _]. destruct (print_head v Hwv) as (c & r & E & Hc). clear Hj.
  assert (print (JsonArray (v :: l)) = "["%char :: commas (map print (v :: l)) ++ ["]"%char]) as Ep by done. rewrite Ep in *. clear Ep.
  assert (exists r', commas (map print (v :: l)) ++ ["]"%char] = c :: r') as [r' Er] by (simpl; rewrite E; by eexists).
  rewrite Er in *. rewrite raw_array_head by done. simpl length in Hp. by rewrite Hp.
Qed.

(** *** The decoders *)

Lemma dec_string_conveys s old : forallb is_ascii s = true -> conveys dec_string (json_string s) old s.
Proof.
  intros Hs. split; [by exists (JsonString s)|]. unfold dec_string.
  change (json_string s) with (print (JsonString s)). by rewrite value_of_print.
Qed.

Lemma dec_int_conveys bits n old :
  bits <= 64 -> - 2 ^ (bits - 1) <= n < 2 ^ (bits - 1) -> conveys (dec_int bits) (Itoa n) old n.
Proof.
  intros Hb Hn. assert (2 ^ (bits - 1) <= 2 ^ 63) as Hp by (apply Z.pow_le_mono_r; lia).
  destruct (Itoa_number n ltac:(lia)) as [Ht Hv]. split; [by exists (JsonNumber (Itoa n))|]. unfold dec_int.
  change (Itoa n) with (print (JsonNumber (Itoa n))) at 1. rewrite value_of_print by done. rewrite Hv.
  by rewrite (proj2 (Z.leb_le _ _)), (proj2 (Z.ltb_lt _ _)) by lia.
Qed.

Lemma dec_raw_conveys text old : printed text -> conveys dec_raw text old text.
Proof. by split. Qed.

(** A text that is not [null]. *)
Lemma object_not_null ms : is_null (object_text ms) = false.
Proof. by apply is_null_head. Qed.
Lemma array_not_null l : is_null (array_text l) = false.
Proof. by apply is_null_head. Qed.

Lemma dec_pointer_conveys {A} (zero : A) d text x :
  is_null text = false -> conveys d text zero x -> conveys (dec_pointer zero d) text None (Some x).
Proof. intros Hn [Hp Hd]. split; [done|]. unfold dec_pointer. rewrite Hn. simpl. by rewrite Hd. Qed.

Lemma dec_slice_conveys {A} (zero : A) d texts xs :
  Forall2 (fun text x => conveys d text zero x) texts xs -> conveys (dec_slice zero d) (array_text texts) [] xs.
Proof.
  intros Hl. destruct (array_printed texts) as (js & Hw & E & Ej).
  { apply Forall_forall. intros t Ht. apply list_elem_of_lookup in Ht as [i Hi].
    destruct (Forall2_lookup_l _ _ _ _ _ Hl Hi) as (x & _ & [Hp _]). done. }
  split; [by exists (JsonArray js)|]. unfold dec_slice. rewrite array_not_null, E, raw_array_print, Ej by done.
  clear E Ej Hw. induction Hl as [|t x texts xs [_ Ht] _ IH]; [done|]. simpl. by rewrite Ht, IH.
Qed.

Section structs.
Context {A : Type} (fields : list (gostring * decoder A)).

(** The members of a list decode the struct from [old] to [r]. *)
Definition fills (ms : list (gostring * gostring)) (old r : A) : Prop :=
  Forall (fun kv => forallb is_ascii kv.1 = true /\ printed kv.2) ms
  /\ foldl (dec_member fields) (None, old) ms = (None, r).

Lemma dec_struct_conveys ms old r : fills ms old r -> conveys (dec_struct fields) (object_text ms) old r.
Proof.
  intros [Hms Hf]. destruct (object_printed ms Hms) as (jms & Hw & E & Er). split; [by exists (JsonObject jms)|].
  unfold dec_struct. pose proof (raw_object_print jms [] Hw) as Hr. rewrite app_nil_r in Hr. by rewrite E, Hr, Er.
Qed.

Lemma fills_nil r : fills [] r r.
Proof. done. Qed.

(** The [i]-th field is the one a name stands for. *)
Definition names (i : nat) (name : gostring) : bool :=
  forallb is_ascii name && forallb (fun f => negb (EqualFold name f.1)) (take i fields).

Lemma find_names i name d : fields !! i = Some (name, d) -> names i name = true -> find_field fields name = Some d.
Proof.
  unfold names. intros Hi [_ Hn]%andb_true_iff. revert i Hi Hn. induction fields as [|[k e] fs IH]; intros [|i]; simpl; try done.
  - intros [= -> ->] _. unfold EqualFold. by rewrite bool_decide_true.
  - intros Hi [Hk Hn]%andb_true_iff. apply negb_true_iff in Hk. rewrite Hk. by eapply IH.
Qed.

Lemma fills_member {B} i name (get : A -> B) set d text ms old x r :
  fields !! i = Some (field name get set d) -> names i name = true ->
  conveys d text (get old) x -> fills ms (set x old) r -> fills (member name text ++ ms) old r.
Proof.
  intros Hi Hn [Hp Hd] [Hms Hr]. pose proof (find_names i _ _ Hi Hn) as Hf. apply andb_true_iff in Hn as [Hn _].
  split; [by constructor|]. simpl. unfold dec_member at 2. simpl. rewrite Hf, Hd. done.
Qed.

(** A member that is left out when the field holds its value already. *)
Lemma fills_omitempty {B} i (x : B) name (get : A -> B) set d (empty : bool) text ms old r :
  fields !! i = Some (field name get set d) -> names i name = true -> set (get old) old = old ->
  (empty = true -> x = get old) -> (empty = false -> conveys d text (get old) x) ->
  fills ms (set x old) r -> fills (omitempty empty name text ++ ms) old r.
Proof.
  intros Hi Hn Hset Hx Hd Hr. destruct empty; [by rewrite Hx, Hset in Hr|]. by eapply fills_member; eauto.
Qed.
End structs.

Lemma dec_entries {A} (zero : A) d ms (l : list (gostring * A)) acc :
  Forall2 (fun kv e => kv.1 = e.1 /\ conveys d kv.2 zero e.2) ms l ->
  foldl (dec_entry zero d) (None, acc) ms = (None, foldl (fun m e => <[e.1 := e.2]> m) acc l).
Proof.
  intros Hl. revert acc. induction Hl as [|[k t] [k' x] ms l [Hk [_ Ht]] _ IH]; intros acc; [done|].
  simpl in *. subst k'. unfold dec_entry at 2. simpl. by rewrite Ht.
Qed.

Lemma insert_all {A} (l : list (gostring * A)) (acc : gmap gostring A) :
  NoDup l.*1 -> foldl (fun m e => <[e.1 := e.2]> m) acc l = list_to_map l ∪ acc.
Proof.
  revert acc. induction l as [|[k x] l IH]; intros acc Hnd; [simpl; by rewrite (left_id_L ∅ (∪))|].
  apply NoDup_cons in Hnd as [Hk Hnd]. simpl. rewrite IH by done. rewrite <- insert_union_r.
  - by rewrite <- insert_union_l.
  - by apply not_elem_of_list_to_map_1.
Qed.

(** A map decodes to the entries that were printed, in any order. *)
Lemma dec_map_conveys {A} (zero : A) (d : decoder A) (ms : list (gostring * gostring)) (l : list (gostring * A)) (m : gmap gostring A) :
  Forall (fun kv => forallb is_ascii kv.1 = true) ms -> l ≡ₚ map_to_list m ->
  Forall2 (fun kv e => kv.1 = e.1 /\ conveys d kv.2 zero e.2) ms l ->
  conveys (dec_map zero d) (object_text ms) ∅ m.
Proof.
  intros Hk Hl Hms. assert (Forall (fun kv => forallb is_ascii kv.1 = true /\ printed kv.2) ms) as Hf.
  { apply Forall_and. split; [done|]. apply Forall_forall. intros t Ht. apply list_elem_of_lookup in Ht as [i Hi].
    by destruct (Forall2_lookup_l _ _ _ _ _ Hms Hi) as (x & _ & _ & [Hp _]). }
  destruct (object_printed ms Hf) as (jms & Hw & E & Er). split; [by exists (JsonObject jms)|].
  unfold dec_map. pose proof (raw_object_print jms [] Hw) as Hr. rewrite app_nil_r in Hr. rewrite object_not_null, E, Hr, Er.
  rewrite (dec_entries _ _ _ l) by done. assert (NoDup l.*1) as Hnd by (rewrite Hl; apply NoDup_fst_map_to_list).
  rewrite insert_all, map_union_empty by done. f_equal. rewrite <- (list_to_map_to_list m). by apply list_to_map_proper.
Qed.

(** ** The two entry points *)

Lemma Unmarshal_conveys {A} (zero : A) d text x : conveys d text zero x -> Unmarshal zero d text = Ok x.
Proof. intros [(v & Hw & ->) Hd]. unfold Unmarshal. by rewrite checkValid_print, Hd. Qed.

(** Whatever follows the text. *)
Lemma Decode_conveys {A} (zero : A) d text rest x :
  conveys d text zero x -> ends rest = true -> Decode zero d (text ++ rest) = Ok x.
Proof.
  intros [(v & Hw & ->) Hd] He. unfold Decode. pose proof (jsize_print v Hw) as Hj.
  rewrite raw_value_print; [by rewrite Hd|done| |done]. rewrite length_app. lia.
Qed.
