(* ===== verification/Handler.v ===== *)
(** * The reverse-proxy handler ([resolver/internal/handler])

    [handleAnyRequest] and the parts it is made of: the response writer that
    records what is written, the probe responses, the proxying, and the
    composition of host manager, cache, operator client and throttler.  The
    host manager is used through the interface [handler.go] declares. *)

From S2P Require Import Prelude GoStrings HostManager K8sHelper Breaker Throttler Types ProbeMatch CrdCache.
Local Open Scope Z_scope.

(** ** The response writer ([writer.go]) *)

(** [statusCode] and [body] are what the wrapper records; [header], [sent] and
    [wire] are the state of the writer it wraps: the header map, the status the
    client gets and the body bytes accepted for it. *)
Record responseWriter := mkRW {
  statusCode : Z;
  body : gostring;
  header : gmap gostring (list gostring);
  sent : option Z;
  wire : gostring
}.

Definition newResponseWriter : responseWriter := mkRW 0 [] ∅ None [].

(** No body goes with an informational status, 204 and 304. *)
Definition bodyAllowedForStatus (status : Z) : bool :=
  negb ((100 <=? status) && (status <=? 199) || (status =? 204) || (status =? 304)).

Definition set_header (k v : gostring) (w : responseWriter) : responseWriter :=
  mkRW (statusCode w) (body w) (<[CanonicalHeaderKey k := [v]]> (header w)) (sent w) (wire w).
Definition del_header (k : gostring) (w : responseWriter) : responseWriter :=
  mkRW (statusCode w) (body w) (delete (CanonicalHeaderKey k) (header w)) (sent w) (wire w).
Definition get_header (k : gostring) (w : responseWriter) : gostring :=
  default [] (head (default [] (header w !! CanonicalHeaderKey k))).

(** The wrapped writer keeps the first status. *)
Definition WriteHeader (code : Z) (w : responseWriter) : responseWriter :=
  mkRW code (body w) (header w) (Some (default code (sent w))) (wire w).

Section writer.
(** The error of the connection, if it is broken. *)
Context (write_err : option error).

Definition Write (b : gostring) (w : responseWriter) : option error * responseWriter :=
  let status := default 200 (sent w) in
  let w' := mkRW (statusCode w) (body w ++ b) (header w) (Some status) (wire w) in
  match write_err with
  | Some e => (Some (ErrWrap (lit "Write: ") e), w')
  | None =>
      if bodyAllowedForStatus status
      then (None, mkRW (statusCode w) (body w ++ b) (header w) (Some status) (wire w ++ b))
      else (Some (ErrWrap (lit "Write: ") (ErrText (lit "http: request method or response status code does not allow body"))), w')
  end.

(** [http.Error]; [Fprintln] adds the newline. *)
Definition http_Error (msg : gostring) (code : Z) (w : responseWriter) : responseWriter :=
  let w := del_header (lit "Content-Length") w in
  let w := set_header (lit "Content-Type") (lit "text/plain; charset=utf-8") w in
  let w := set_header (lit "X-Content-Type-Options") (lit "nosniff") w in
  let w := WriteHeader code w in
  (Write (msg ++ ["010"%char]) w).2.

(** ** Proxying *)

(** How the proxying of a request goes: the target URL does not parse, the
    backend answers, the transport fails, or the copying panics after the given
    part of an answer. *)
Inductive proxy_outcome : Type :=
| BadURL (e : error)
| BackendAnswer (hdr : gmap gostring (list gostring)) (status : Z) (payload : gostring)
| TransportError (e : error)
| ProxyPanic (part : option (Z * gostring)) (e : error).

Definition StatusBadGateway : Z := 502.

(** The [ErrorHandler] of the reverse proxy. *)
Definition proxy_ErrorHandler (w : responseWriter) : responseWriter :=
  if bool_decide (get_header (lit "Content-Type") w = []) then
    let w := set_header (lit "Content-Type") (lit "text/plain; charset=utf-8") w in
    let w := WriteHeader StatusBadGateway w in
    (Write (lit "Bad Gateway") w).2
  else w.

Definition write_answer (status : Z) (payload : gostring) (w : responseWriter) : responseWriter :=
  (Write payload (WriteHeader status w)).2.

Definition ProxyRequest (out : proxy_outcome) (w : responseWriter) : option error * responseWriter :=
  match out with
  | BadURL err => (Some (ErrWrap (lit "error parsing target URL: ") err), w)
  | BackendAnswer hdr status payload =>
      (None, write_answer status payload
               (mkRW (statusCode w) (body w) (union_with (fun x y => Some (x ++ y)) (header w) hdr)
                  (sent w) (wire w)))
  | TransportError _ => (None, proxy_ErrorHandler w)
  | ProxyPanic part r =>
      (Some (ErrWrap (lit "panic in ProxyRequest: ") r),
       match part with Some (status, payload) => write_answer status payload w | None => w end)
  end.

(** The error does not depend on the writer: what [Try] sees of a proxying. *)
Definition proxy_err (out : proxy_outcome) : option error := (ProxyRequest out newResponseWriter).1.

End writer.

(** The [Director] of the reverse proxy, on the outgoing request with its URL. *)
Definition Director {URL : Type} (target : URL) (req : Request) : URL * Request :=
  let originalHost := Host_ req in
  let hdr := <[CanonicalHeaderKey (lit "X-Forwarded-Host") := [originalHost]]> (Header req) in
  let hdr := match hdr !! CanonicalHeaderKey (lit ":authority") with
             | Some (v :: _) => if bool_decide (v = []) then hdr
                                else <[CanonicalHeaderKey (lit ":authority") := [originalHost]]> hdr
             | _ => hdr
             end in
  (target, mkRequest (Method req) (URL_Path req) (URL_Query req) originalHost hdr).

(** ** The interfaces the handler uses *)

(** [HostManager]: [GetHost] may panic ([None]). *)
Class HostManagerOps (M : Type) := {
  hm_GetHost : Request -> M -> option (Host * option error * M);
  hm_ScheduleDisable : gostring -> M -> M
}.

(** What the handler relies on: an error leaves the manager alone, and a host
    that was found is found again. *)
Class HostManagerLaws (M : Type) `{HostManagerOps M} := {
  hm_error_keeps : forall req m h e m', hm_GetHost req m = Some (h, Some e, m') -> m' = m;
  hm_stable : forall req m h m', hm_GetHost req m = Some (h, None, m') -> hm_GetHost req m' = Some (h, None, m')
}.

#[export] Instance HostManager_ops (c : HMConfig) : HostManagerOps HostManager := {
  hm_GetHost req m := GetHost c m (host_request req);
  hm_ScheduleDisable name m := ScheduleDisableTrafficForHost c name m
}.

#[export] Instance HostManager_laws (c : HMConfig) : @HostManagerLaws HostManager (HostManager_ops c).
Proof.
  split.
  - intros req m h e m'. simpl. unfold GetHost.
    destruct (incoming_host c _) as [n|]; simpl; [|done].
    destruct (hosts m !! n); [by intros [=]|].
    destruct (extractNamespaceAndService n) as [[s ns] [err|]]; by intros [=].
  - intros req m h m'. simpl. unfold GetHost.
    destruct (incoming_host c _) as [n|]; simpl; [|done].
    destruct (hosts m !! n) as [h0|] eqn:Hm.
    + intros [= <- <-]. by rewrite Hm.
    + destruct (extractNamespaceAndService n) as [[s ns] [err|]]; intros [= <- <-].
      simpl. by rewrite lookup_insert_eq.
Qed.

(** ** The handler *)

(** A string between double quotes. *)
Definition quoted (s : gostring) : gostring := "034"%char :: s ++ ["034"%char].

Definition StatusInternalServerError : Z := 500.
Definition StatusRequestTimeout : Z := 408.

Section handler.
Context {M : Type} `{HostManagerOps M}.
Context (Compile : gostring -> result error (gostring -> bool)).
Context (Unmarshal : gostring -> result error ElastiServiceSpec).
Context (params : ThrottlerParams) (write_err : option error).

(** The handler's collaborators and the response: the host manager, the
    throttler, the cache of ElastiServices (nil is [None]), the calls of
    [SendIncomingRequestInfo] started so far, the requests proxied so far (the
    target host and the number of the try), and the writer. *)
Record world := mkWorld {
  manager : M;
  throttler : Throttler;
  crdCache : option Cache;
  notified : list (gostring * gostring);
  proxied : list (gostring * Z);
  writer : responseWriter
}.

Definition set_manager m (s : world) : world :=
  mkWorld m (throttler s) (crdCache s) (notified s) (proxied s) (writer s).
Definition set_throttler t (s : world) : world :=
  mkWorld (manager s) t (crdCache s) (notified s) (proxied s) (writer s).
Definition set_writer w (s : world) : world :=
  mkWorld (manager s) (throttler s) (crdCache s) (notified s) (proxied s) w.
Definition notify (host : Host) (s : world) : world :=
  mkWorld (manager s) (throttler s) (crdCache s)
    (notified s ++ [(Namespace host, SourceService host)]) (proxied s) (writer s).
Definition log_proxy (host : Host) (count : Z) (s : world) : world :=
  mkWorld (manager s) (throttler s) (crdCache s) (notified s)
    (proxied s ++ [(TargetHost host, count)]) (writer s).

(** The response the cached spec of the host's service has for the request. *)
Definition probe_answer (req : Request) (host : Host) (s : world) : option (gostring * Z) :=
  c ← crdCache s;
  crdDetails ← GetElastiService (Namespace host ++ lit "/" ++ SourceService host) c;
  MatchProbeResponseFromSpec Compile Unmarshal (ent_Spec crdDetails) (Some req).

(** [None] when no probe response matches. *)
Definition respondProbeResponseIfMatch (req : Request) (host : Host) (s : world) : option world :=
  match probe_answer req host s with
  | None => None
  | Some (b, status) =>
      let w := WriteHeader status (writer s) in
      if bool_decide (Method req = lit "HEAD") then Some (set_writer w s)
      else Some (set_writer (Write write_err b w).2 s)
  end.

(** The closure [resolve] of [handleAnyRequest]. *)
Definition resolve_effect (host : Host) (count : Z) (out : proxy_outcome) (s : world) : world :=
  let s := set_writer (set_header (lit "Connection") (lit "close") (writer s)) s in
  let s := log_proxy host count s in
  let '(err, w) := ProxyRequest write_err out (writer s) in
  let s := set_writer w s in
  match err with
  | Some _ => s
  | None => set_manager (hm_ScheduleDisable (IncomingHost host) (manager s)) s
  end.

(** The effects of [Try] on the handler's world. *)
Definition run_effect (host : Host) (e : effect proxy_outcome) (s : world) : world :=
  match e with
  | Resolve count out => resolve_effect host count out s
  | ErrCallback => notify host s
  | Sleep _ => s
  end.
Definition run_effects (host : Host) (es : list (effect proxy_outcome)) (s : world) : world :=
  foldl (fun s e => run_effect host e s) s es.

(** [InQueue] when [Try] has not returned within the given rounds. *)
Inductive handled := Done (host : Host) (err : option error) | InQueue (host : Host).

(** From the error of [Try] to the response. *)
Definition finish (host : Host) (r : option error) (s : world) : handled * world :=
  match r with
  | None => (Done host None, s)
  | Some tryErr =>
      let w := if error_is is_deadline tryErr
               then http_Error write_err (lit "request timeout") StatusRequestTimeout (writer s)
               else WriteHeader StatusInternalServerError (writer s) in
      (Done host (Some (ErrWrap (lit "throttler try error: ") tryErr)), set_writer w s)
  end.

(** [{"error": "traffic is switched"}] *)
Definition traffic_switched_body : gostring :=
  lit "{" ++ quoted (lit "error") ++ lit ": " ++ quoted (lit "traffic is switched") ++ lit "}".

(** The answer when traffic is switched. *)
Definition traffic_switched (host : Host) (s : world) : handled * world :=
  let w := set_header (lit "Connection") (lit "close") (writer s) in
  let w := set_header (lit "Content-Type") (lit "application/json") w in
  let w := WriteHeader StatusRequestTimeout w in
  let '(err, w) := Write write_err traffic_switched_body w in
  (Done host (Some (match err with
                    | Some e => ErrWrap (lit "error writing response: ") e
                    | None => ErrText (lit "traffic not allowed by resolver")
                    end)), set_writer w s).

(** [None] is a panic of [GetHost]. *)
Definition handleAnyRequest (req : Request) (rounds : list (attempt proxy_outcome)) (s : world)
    : option (handled * world) :=
  '(host, err, m) ← hm_GetHost req (manager s);
  let s := set_manager m s in
  match err with
  | Some err =>
      Some (Done host (Some (ErrWrap (lit "error getting host: ") err)),
            set_writer (http_Error write_err (lit "Error getting host") StatusInternalServerError (writer s)) s)
  | None =>
      match respondProbeResponseIfMatch req host s with
      | Some s => Some (Done host None, s)
      | None =>
          if negb (TrafficAllowed host) then Some (traffic_switched host s)
          else
            let s := notify host s in
            let '(o, es, t) := Try (proxy_err write_err) params host rounds (throttler s) in
            let s := run_effects host es (set_throttler t s) in
            match o with
            | Looping _ => Some (InQueue host, s)
            | Returned r => Some (finish host r s)
            end
      end
  end.

(** What [ServeHTTP] records of a request that it has answered. *)
Record observation := mkObservation {
  obs_Host : Host; obs_Method : gostring; obs_status : Z; obs_err : option error
}.

(** [None] in place of an observation while the request is in the queue. *)
Definition ServeHTTP (req : Request) (rounds : list (attempt proxy_outcome)) (s : world)
    : option (option observation * world) :=
  '(h, s) ← handleAnyRequest req rounds (set_writer newResponseWriter s);
  match h with
  | Done host err => Some (Some (mkObservation host (Method req) (statusCode (writer s)) err), s)
  | InQueue _ => Some (None, s)
  end.

(** ** The internal endpoints *)

(** [url.Values.Get] *)
Definition query_get (q : gmap gostring (list gostring)) (k : gostring) : gostring :=
  default [] (head (default [] (q !! k))).

(** The [queueStatus] of the answer. *)
Definition GetQueueStatus (req : Request) (s : world) : Z :=
  let namespace := query_get (URL_Query req) (lit "namespace") in
  let service := query_get (URL_Query req) (lit "service") in
  if 0 <? GetQueueSize namespace service (throttler s) then 1 else 0.

(** The [count] and [services] of the answer; a nil cache panics. *)
Definition GetCRDCacheStatus (s : world) : option (nat * list CachedService) :=
  c ← crdCache s; Some (length (ListCachedServices c), ListCachedServices c).

(** ** Lemmas *)

Definition callbacks (es : list (effect proxy_outcome)) : nat :=
  length (List.filter (fun e => match e with ErrCallback => true | _ => false end) es).

Lemma run_effects_app host es1 es2 s :
  run_effects host (es1 ++ es2) s = run_effects host es2 (run_effects host es1 s).
Proof. apply foldl_app. Qed.

Lemma resolve_notified host n x s : notified (resolve_effect host n x s) = notified s.
Proof. unfold resolve_effect. simpl. destruct (ProxyRequest _ _ _) as [[e|] w]; done. Qed.

(** Every callback is a notification, and nothing else is. *)
Lemma run_notified host es s :
  notified (run_effects host es s)
  = notified s ++ replicate (callbacks es) (Namespace host, SourceService host).
Proof.
  revert s. induction es as [|e es IH]; intros s; [symmetry; apply app_nil_r|].
  change (notified (run_effects host es (run_effect host e s))
          = notified s ++ replicate (callbacks (e :: es)) (Namespace host, SourceService host)).
  rewrite IH. destruct e; simpl; [by rewrite resolve_notified|by rewrite <- app_assoc|done].
Qed.

(** Without a call of [resolve] nothing is written and nothing is proxied. *)
Lemma run_unresolved host es s :
  resolves es = [] ->
  run_effects host es s
  = mkWorld (manager s) (throttler s) (crdCache s)
      (notified s ++ replicate (callbacks es) (Namespace host, SourceService host))
      (proxied s) (writer s).
Proof.
  revert s. induction es as [|e es IH]; intros s Hr.
  { destruct s. simpl. unfold callbacks. simpl. by rewrite app_nil_r. }
  change (run_effects host (e :: es) s) with (run_effects host es (run_effect host e s)).
  destruct e; simpl in Hr; [discriminate|rewrite IH by done; simpl; by rewrite <- app_assoc|by rewrite IH].
Qed.

Lemma resolves_split es n (x : proxy_outcome) :
  resolves es = [(n, x)] ->
  exists es1 es2, es = es1 ++ Resolve n x :: es2 /\ resolves es1 = [] /\ resolves es2 = [].
Proof.
  induction es as [|e es IH]; [done|]. destruct e as [n' x'| |d]; simpl; intros Hr.
  - injection Hr as -> -> Hr. by exists [], es.
  - destruct (IH Hr) as (es1 & es2 & -> & ? & ?). by exists (ErrCallback :: es1), es2.
  - destruct (IH Hr) as (es1 & es2 & -> & ? & ?). by exists (Sleep d :: es1), es2.
Qed.

(** With one call of [resolve] the world is the one that call leaves, up to the
    notifications. *)
Lemma run_resolved host es n x s :
  resolves es = [(n, x)] ->
  let s1 := resolve_effect host n x s in
  run_effects host es s
  = mkWorld (manager s1) (throttler s) (crdCache s)
      (notified s ++ replicate (callbacks es) (Namespace host, SourceService host))
      (proxied s1) (writer s1).
Proof.
  intros Hr. pose proof (run_notified host es s) as Hn.
  destruct (resolves_split es n x Hr) as (es1 & es2 & -> & H1 & H2).
  rewrite run_effects_app in *. rewrite (run_unresolved host es1 s H1) in *.
  change (run_effects host (Resolve n x :: es2) ?s) with (run_effects host es2 (resolve_effect host n x s)) in *.
  rewrite (run_unresolved host es2) in * by done. cbn [notified] in Hn. rewrite Hn.
  unfold resolve_effect. simpl. destruct (ProxyRequest _ _ _) as [[e|] w]; done.
Qed.

Lemma proxy_err_writer x w : (ProxyRequest write_err x w).1 = proxy_err write_err x.
Proof. by destruct x. Qed.

(** What a probe response leaves in the writer. *)
Definition probe_written (req : Request) (b : gostring) (status : Z) (w : responseWriter) : responseWriter :=
  if bool_decide (Method req = lit "HEAD") then WriteHeader status w
  else (Write write_err b (WriteHeader status w)).2.

Lemma handle_probe req rounds host m s b status :
  hm_GetHost req (manager s) = Some (host, None, m) ->
  probe_answer req host s = Some (b, status) ->
  handleAnyRequest req rounds s
  = Some (Done host None, set_writer (probe_written req b status (writer s)) (set_manager m s)).
Proof.
  intros Hget Hp. unfold handleAnyRequest. rewrite Hget. simpl.
  unfold respondProbeResponseIfMatch. change (probe_answer req host (set_manager m s)) with (probe_answer req host s).
  rewrite Hp. unfold probe_written. by destruct (bool_decide (Method req = lit "HEAD")).
Qed.

Lemma handle_queued req host m rounds s r es t :
  hm_GetHost req (manager s) = Some (host, None, m) -> probe_answer req host s = None ->
  TrafficAllowed host = true ->
  Try (proxy_err write_err) params host rounds (throttler s) = (Returned r, es, t) ->
  handleAnyRequest req rounds s
  = Some (finish host r (run_effects host es (set_throttler t (notify host (set_manager m s))))).
Proof.
  intros Hget Hp Hon Htry. unfold handleAnyRequest. rewrite Hget. simpl.
  unfold respondProbeResponseIfMatch. change (probe_answer req host (set_manager m s)) with (probe_answer req host s).
  rewrite Hp, Hon. simpl. by rewrite Htry.
Qed.

End handler.

(** A round of a request whose context is [context.WithTimeout(Background)]: the
    context can only be done by its deadline, and the breaker refuses as
    [Breaker.v] shows. *)
Definition timed_round {X} (a : attempt X) : Prop :=
  (ctx_err a = None \/ ctx_err a = Some ErrDeadlineExceeded)
  /\ match refused a with
     | None => True
     | Some e => maybe_error e /\ (e = ErrRequestQueueFull \/ e = ErrWrap (lit "acquire: ") ErrDeadlineExceeded)
     end.

(** Why a request that was not served ended. *)
Lemma unserved_error {X} (resolve : X -> option error) p host rounds t0 r es t :
  Forall timed_round rounds ->
  Try resolve p host rounds t0 = (Returned r, es, t) -> resolves es = [] ->
  exists e, r = Some e /\ (error_is is_deadline e = true
                          \/ e = ErrWrap (lit "breaker error: ") ErrRequestQueueFull).
Proof.
  intros Hall Htry Hes. pose proof (Try_loop_spec resolve p host rounds 1
    (incrementQueueSize (Namespace host) (SourceService host) t0)) as Hspec.
  change (int64 1) with 1 in Hspec. unfold Try in Htry.
  destruct (Try_loop _ _ _ _ _ _) as [[[r'|n] es'] t1]; [|discriminate].
  injection Htry as -> -> _. destruct Hspec as (pre & a & post & -> & _ & Hspec).
  apply Forall_app in Hall as [_ [[Hc Hr] _]%Forall_cons].
  destruct (refused a) as [e|].
  - destruct Hspec as [-> _]. destruct Hr as [_ [->| ->]]; eexists; (split; [reflexivity|]); [by right|by left].
  - destruct (ctx_err a) as [c|].
    + destruct Hspec as [-> _]. destruct Hc as [|[= ->]]; [done|]. eexists. split; [reflexivity|by left].
    + destruct Hspec as [_ E]. rewrite Hes in E. discriminate.
Qed.

(** ** Properties *)

Section properties.
Context {M : Type} `{HostManagerLaws M}.
Context (Compile : gostring -> result error (gostring -> bool)).
Context (Unmarshal : gostring -> result error ElastiServiceSpec).
Context (params : ThrottlerParams).

(** C28: a probe response is purely local: the client gets the configured status
    and body (no body for [HEAD] or a status that has none), the operator is not
    notified, nothing is proxied or queued, and the same request is answered the
    same way again. *)
Theorem probe_is_local req rounds host m (s : @world M) b status
    (Hget : hm_GetHost req (manager s) = Some (host, None, m))
    (Hprobe : probe_answer Compile Unmarshal req host s = Some (b, status))
    (Hw : writer s = newResponseWriter) :
  exists s', handleAnyRequest Compile Unmarshal params None req rounds s = Some (Done host None, s')
    /\ sent (writer s') = Some status /\ statusCode (writer s') = status
    /\ wire (writer s') = (if bool_decide (Method req = lit "HEAD") || negb (bodyAllowedForStatus status)
                           then [] else b)
    /\ notified s' = notified s /\ proxied s' = proxied s /\ throttler s' = throttler s
    /\ handleAnyRequest Compile Unmarshal params None req rounds (set_writer newResponseWriter s')
       = Some (Done host None, s').
Proof.
  eexists. split; [by apply handle_probe|]. simpl. rewrite Hw.
  split_and!; try done.
  - unfold probe_written, Write. simpl. by destruct (bool_decide _), (bodyAllowedForStatus status).
  - unfold probe_written, Write. simpl. by destruct (bool_decide _), (bodyAllowedForStatus status).
  - unfold probe_written, Write. simpl. by destruct (bool_decide _), (bodyAllowedForStatus status).
  - erewrite handle_probe; [reflexivity|simpl; by eapply hm_stable|exact Hprobe].
Qed.

(** When traffic of a host is switched off the client is told to close the
    connection, with 408 and a JSON body, and neither the operator nor the
    backend hears of the request. *)
Theorem traffic_off_closes req rounds host m (s : @world M)
    (Hget : hm_GetHost req (manager s) = Some (host, None, m))
    (Hprobe : probe_answer Compile Unmarshal req host s = None)
    (Hoff : TrafficAllowed host = false)
    (Hw : writer s = newResponseWriter) :
  exists s', handleAnyRequest Compile Unmarshal params None req rounds s
      = Some (Done host (Some (ErrText (lit "traffic not allowed by resolver"))), s')
    /\ sent (writer s') = Some 408
    /\ header (writer s') !! lit "Connection" = Some [lit "close"]
    /\ wire (writer s') = traffic_switched_body
    /\ notified s' = notified s /\ proxied s' = proxied s /\ throttler s' = throttler s.
Proof.
  unfold handleAnyRequest. rewrite Hget. simpl. unfold respondProbeResponseIfMatch.
  change (probe_answer Compile Unmarshal req host (set_manager m s)) with (probe_answer Compile Unmarshal req host s).
  rewrite Hprobe, Hoff. simpl. unfold traffic_switched. simpl. rewrite Hw.
  eexists. split; [reflexivity|]. split_and!; try reflexivity.
Qed.

(** C29: a request that is never handed to the backend is answered with 408 and
    [request timeout] when its deadline passed, and with an empty 500 when the
    queue was full; the operator was notified once on arrival and once per
    failed readiness check. *)
Theorem unserved_request req rounds host m (s : @world M) r es t
    (Hget : hm_GetHost req (manager s) = Some (host, None, m))
    (Hprobe : probe_answer Compile Unmarshal req host s = None)
    (Hon : TrafficAllowed host = true)
    (Hw : writer s = newResponseWriter)
    (Hrounds : Forall timed_round rounds)
    (Htry : Try (proxy_err None) params host rounds (throttler s) = (Returned r, es, t))
    (Hunserved : resolves es = []) :
  exists s' e, handleAnyRequest Compile Unmarshal params None req rounds s = Some (Done host (Some e), s')
    /\ notified s' = notified s ++ replicate (S (callbacks es)) (Namespace host, SourceService host)
    /\ proxied s' = proxied s /\ manager s' = m
    /\ ((error_is is_deadline e = true /\ sent (writer s') = Some 408
         /\ wire (writer s') = lit "request timeout" ++ ["010"%char])
        \/ (e = ErrWrap (lit "throttler try error: ") (ErrWrap (lit "breaker error: ") ErrRequestQueueFull)
            /\ sent (writer s') = Some 500 /\ wire (writer s') = [])).
Proof.
  rewrite (handle_queued Compile Unmarshal params None req host m rounds s r es t) by done.
  rewrite run_unresolved by done.
  assert (exists e, r = Some e /\ (error_is is_deadline e = true
                                  \/ e = ErrWrap (lit "breaker error: ") ErrRequestQueueFull)) as (e & -> & He).
  { by eapply unserved_error. }
  simpl. destruct (error_is is_deadline e) eqn:Hd.
  - eexists _, _. split; [reflexivity|]. simpl. rewrite Hw. split_and!; try done; [by rewrite <- app_assoc|].
    left. by rewrite Hd.
  - destruct He as [|He]; [done|]. eexists _, _. split; [reflexivity|]. simpl. rewrite Hw.
    split_and!; try done; [by rewrite <- app_assoc|]. right. by rewrite He.
Qed.
Lemma handle_served req rounds host m (s : @world M) es t n hdr status payload
    (Hget : hm_GetHost req (manager s) = Some (host, None, m))
    (Hprobe : probe_answer Compile Unmarshal req host s = None)
    (Hon : TrafficAllowed host = true)
    (Hw : writer s = newResponseWriter) (Hbody : bodyAllowedForStatus status = true)
    (Htry : Try (proxy_err None) params host rounds (throttler s) = (Returned None, es, t))
    (Hserved : resolves es = [(n, BackendAnswer hdr status payload)]) :
  exists s', handleAnyRequest Compile Unmarshal params None req rounds s = Some (Done host None, s')
    /\ notified s' = notified s ++ replicate (S (callbacks es)) (Namespace host, SourceService host)
    /\ proxied s' = proxied s ++ [(TargetHost host, n)]
    /\ manager s' = hm_ScheduleDisable (IncomingHost host) m
    /\ sent (writer s') = Some status /\ statusCode (writer s') = status
    /\ wire (writer s') = payload
    /\ exists vs, header (writer s') !! lit "Connection" = Some (lit "close" :: vs).
Proof.
  rewrite (handle_queued Compile Unmarshal params None req host m rounds s None es t) by done.
  rewrite (run_resolved None host es n (BackendAnswer hdr status payload)) by done.
  eexists. split; [reflexivity|].
  unfold resolve_effect, ProxyRequest, write_answer, Write. simpl. rewrite Hw. simpl. rewrite Hbody. simpl.
  split_and!; try done; [by rewrite <- app_assoc|].
  change (CanonicalHeaderKey (lit "Connection")) with (lit "Connection").
  rewrite lookup_union_with, lookup_insert_eq. destruct (hdr !! lit "Connection") as [vs|]; simpl; eauto.
Qed.

(** C15: a request that [Try] serves is proxied exactly once, to the private
    service of its host; the client gets the backend's status and body, with
    [Connection: close] added, and the host is scheduled to have its traffic
    switched off. *)
Theorem served_request req rounds host m (s : @world M) es t n hdr status payload
    (Hget : hm_GetHost req (manager s) = Some (host, None, m))
    (Hprobe : probe_answer Compile Unmarshal req host s = None)
    (Hon : TrafficAllowed host = true)
    (Hw : writer s = newResponseWriter) (Hbody : bodyAllowedForStatus status = true)
    (Htry : Try (proxy_err None) params host rounds (throttler s) = (Returned None, es, t))
    (Hserved : resolves es = [(n, BackendAnswer hdr status payload)]) :
  exists s', handleAnyRequest Compile Unmarshal params None req rounds s = Some (Done host None, s')
    /\ proxied s' = proxied s ++ [(TargetHost host, n)]
    /\ manager s' = hm_ScheduleDisable (IncomingHost host) m
    /\ sent (writer s') = Some status /\ statusCode (writer s') = status
    /\ wire (writer s') = payload
    /\ exists vs, header (writer s') !! lit "Connection" = Some (lit "close" :: vs).
Proof.
  destruct (handle_served req rounds host m s es t n hdr status payload) as (s' & ? & _ & ?); try done. by exists s'.
Qed.

(** A request whose deadline passes while the backend answers is answered
    twice: the client gets the backend's status and body with [request timeout]
    appended to the body, while the resolver records 408 and reports an error. *)
Theorem late_answer_is_corrupted req rounds host m (s : @world M) es t n hdr status payload e
    (Hget : hm_GetHost req (manager s) = Some (host, None, m))
    (Hprobe : probe_answer Compile Unmarshal req host s = None)
    (Hon : TrafficAllowed host = true)
    (Hw : writer s = newResponseWriter) (Hbody : bodyAllowedForStatus status = true)
    (Htry : Try (proxy_err None) params host rounds (throttler s) = (Returned (Some e), es, t))
    (Hserved : resolves es = [(n, BackendAnswer hdr status payload)])
    (Hlate : error_is is_deadline e = true) :
  exists s', handleAnyRequest Compile Unmarshal params None req rounds s
      = Some (Done host (Some (ErrWrap (lit "throttler try error: ") e)), s')
    /\ sent (writer s') = Some status
    /\ wire (writer s') = payload ++ lit "request timeout" ++ ["010"%char]
    /\ statusCode (writer s') = 408.
Proof.
  rewrite (handle_queued Compile Unmarshal params None req host m rounds s (Some e) es t) by done.
  rewrite (run_resolved None host es n (BackendAnswer hdr status payload)) by done.
  unfold finish. rewrite Hlate. eexists. split; [reflexivity|].
  unfold resolve_effect, ProxyRequest, write_answer, http_Error, Write. simpl. rewrite Hw. simpl.
  rewrite Hbody. simpl. rewrite Hbody. done.
Qed.
End properties.

(** ** Witnesses *)

(** A manager, a request for [a.b.svc] and rounds with a scripted backend. *)
Definition example_world (c : option Cache) : @world HostManager :=
  mkWorld (NewHostManager 0) (NewThrottler 0) c [] [] newResponseWriter.
Definition example_req : Request :=
  mkRequest (lit "GET") (lit "/health") ∅ (lit "a.b.svc") ∅.
Definition example_host : Host := new_host (lit "a.b.svc") (lit "a") (lit "b").
Definition example_manager : HostManager := mkHM {[ lit "a.b.svc" := example_host ]} [] 0.
Definition no_regexp (_ : gostring) : result error (gostring -> bool) := Err ErrNoMatch.
Definition health_spec (_ : gostring) : result error ElastiServiceSpec :=
  Ok (mkSpec (mkScaleTargetRef [] [] []) (lit "a")
        [mkProbeRule (Some (mkPathMatch [] (lit "/health"))) [] [] None (mkProbeResponse 0 (lit "fine"))]
        1 900 [] None None).
Definition example_cache : Cache := mkCache {[ lit "b/a" := mkEntry [] (lit "{}") [] ]} 300 false.
Definition answer_round (ctx : option error) : attempt proxy_outcome :=
  mkAttempt id None 1 (Ok [[None]]) (BackendAnswer ∅ 200 (lit "hello")) ctx.
Definition full_round : attempt proxy_outcome :=
  mkAttempt id (Some ErrRequestQueueFull) 1 (Ok []) (BadURL ErrCanceled) None.


Lemma probe_is_local_witness :
  exists s', @handleAnyRequest HostManager (HostManager_ops example_config) no_regexp health_spec
      example_throttler_params None example_req [] (example_world (Some example_cache)) = Some (Done example_host None, s')
    /\ sent (writer s') = Some 200 /\ statusCode (writer s') = 200
    /\ wire (writer s') = lit "fine"
    /\ notified s' = [] /\ proxied s' = [] /\ throttler s' = NewThrottler 0
    /\ @handleAnyRequest HostManager (HostManager_ops example_config) no_regexp health_spec
         example_throttler_params None example_req [] (set_writer newResponseWriter s')
       = Some (Done example_host None, s').
Proof.
  refine (probe_is_local (H := HostManager_ops example_config) no_regexp health_spec example_throttler_params example_req []
    example_host example_manager (example_world (Some example_cache)) (lit "fine") 200 _ _ _).
  - vm_compute. reflexivity.
  - vm_compute. reflexivity.
  - reflexivity.
Defined.

Definition off_world : @world HostManager :=
  mkWorld (mkHM {[ lit "a.b.svc" := set_allowed false example_host ]} [] 0) (NewThrottler 0) None [] []
    newResponseWriter.

Lemma traffic_off_closes_witness :
  exists s', @handleAnyRequest HostManager (HostManager_ops example_config) no_regexp health_spec
      example_throttler_params None example_req [] off_world
      = Some (Done (set_allowed false example_host) (Some (ErrText (lit "traffic not allowed by resolver"))), s')
    /\ sent (writer s') = Some 408
    /\ header (writer s') !! lit "Connection" = Some [lit "close"]
    /\ wire (writer s') = traffic_switched_body
    /\ notified s' = [] /\ proxied s' = [] /\ throttler s' = NewThrottler 0.
Proof.
  refine (traffic_off_closes (H := HostManager_ops example_config) no_regexp health_spec example_throttler_params
    example_req [] (set_allowed false example_host) (manager off_world) off_world _ _ _ _); reflexivity.
Defined.

(** What [Try] does for the scripted rounds. *)
Definition example_try (rounds : list (attempt proxy_outcome)) :=
  Try (proxy_err None) example_throttler_params example_host rounds (NewThrottler 0).

Lemma unserved_request_witness :
  exists s' e, @handleAnyRequest HostManager (HostManager_ops example_config) no_regexp health_spec
      example_throttler_params None example_req [full_round] (example_world None)
      = Some (Done example_host (Some e), s')
    /\ notified s' = [(lit "b", lit "a")] /\ proxied s' = [] /\ manager s' = example_manager
    /\ ((error_is is_deadline e = true /\ sent (writer s') = Some 408
         /\ wire (writer s') = lit "request timeout" ++ ["010"%char])
        \/ (e = ErrWrap (lit "throttler try error: ") (ErrWrap (lit "breaker error: ") ErrRequestQueueFull)
            /\ sent (writer s') = Some 500 /\ wire (writer s') = [])).
Proof.
  refine (unserved_request (H := HostManager_ops example_config) no_regexp health_spec example_throttler_params
    example_req [full_round] example_host example_manager (example_world None)
    (Some (ErrWrap (lit "breaker error: ") ErrRequestQueueFull)) [] (example_try [full_round]).2 _ _ _ _ _ _ _).
  - vm_compute. reflexivity.
  - reflexivity.
  - reflexivity.
  - reflexivity.
  - constructor; [|constructor]. split; [by left|]. simpl. split; [by left|by left].
  - reflexivity.
  - reflexivity.
Defined.

Lemma served_request_witness :
  exists s', @handleAnyRequest HostManager (HostManager_ops example_config) no_regexp health_spec
      example_throttler_params None example_req [answer_round None] (example_world None)
      = Some (Done example_host None, s')
    /\ proxied s' = [(TargetHost example_host, 1)]
    /\ manager s' = ScheduleDisableTrafficForHost example_config (lit "a.b.svc") example_manager
    /\ sent (writer s') = Some 200 /\ statusCode (writer s') = 200
    /\ wire (writer s') = lit "hello"
    /\ exists vs, header (writer s') !! lit "Connection" = Some (lit "close" :: vs).
Proof.
  refine (served_request (H := HostManager_ops example_config) no_regexp health_spec example_throttler_params
    example_req [answer_round None] example_host example_manager (example_world None)
    [Resolve 1 (backend (answer_round None))] (example_try [answer_round None]).2 1 ∅ 200 (lit "hello")
    _ _ _ _ _ _ _); [vm_compute; reflexivity|reflexivity..].
Defined.

Lemma late_answer_is_corrupted_witness :
  let e := ErrWrap (lit "thunk error: ") (ErrWrap (lit "context done error: ") ErrDeadlineExceeded) in
  exists s', @handleAnyRequest HostManager (HostManager_ops example_config) no_regexp health_spec
      example_throttler_params None example_req [answer_round (Some ErrDeadlineExceeded)] (example_world None)
      = Some (Done example_host (Some (ErrWrap (lit "throttler try error: ") e)), s')
    /\ sent (writer s') = Some 200
    /\ wire (writer s') = lit "hello" ++ lit "request timeout" ++ ["010"%char]
    /\ statusCode (writer s') = 408.
Proof.
  refine (late_answer_is_corrupted (H := HostManager_ops example_config) no_regexp health_spec example_throttler_params
    example_req [answer_round (Some ErrDeadlineExceeded)] example_host example_manager (example_world None)
    [Resolve 1 (backend (answer_round None))] (example_try [answer_round (Some ErrDeadlineExceeded)]).2
    1 ∅ 200 (lit "hello") _ _ _ _ _ _ _ _ _); [vm_compute; reflexivity|reflexivity..].
Defined.
