(* ===== verification/BufferPool.v ===== *)
(** * The buffer pool of the reverse proxy ([resolver/internal/handler/handler.go])

    Copying a response needs a buffer; the reverse proxy takes one from the pool
    and puts it back when the copying ends.  Buffers are allocations: [memory]
    gives the length of each.  [sync.Pool] may drop what it holds at any time and
    hands out any of the rest, or nil. *)

From S2P Require Import Prelude.

(** An allocated buffer, by its address. *)
Abbreviation buffer := nat.

Record bufferPool := mkPool {
  memory : gmap buffer nat;
  pool : list buffer
}.

Definition NewBufferPool : bufferPool := mkPool ∅ [].

Definition buffer_size : nat := 32 * 1024.
Arguments buffer_size : simpl never.

(** [pool.Get()] took the buffer at position [i] of the pool, or returned nil;
    then [fresh] is allocated. *)
Definition Get (i : option nat) (fresh : buffer) (b : bufferPool) : buffer * bufferPool :=
  match i ≫= (fun i => pool b !! i) with
  | Some buf => (buf, mkPool (memory b) (delete (default 0 i) (pool b)))
  | None => (fresh, mkPool (<[fresh := buffer_size]> (memory b)) (pool b))
  end.

Definition Put (buf : buffer) (b : bufferPool) : bufferPool := mkPool (memory b) (buf :: pool b).

(** The garbage collector empties a part of the pool. *)
Definition drop_at (i : nat) (b : bufferPool) : bufferPool := mkPool (memory b) (delete i (pool b)).

(** ** The proxy's use of it *)

(** The pool and the buffers that copying goroutines hold. *)
Record pool_state := mkPoolState { the_pool : bufferPool; held : gmap nat buffer }.

(** [copyResponse] of goroutine [g] takes a buffer and puts it back. *)
Inductive pool_step : pool_state -> pool_state -> Prop :=
| pool_get g i fresh b h buf b' :
    h !! g = None -> memory b !! fresh = None -> Get i fresh b = (buf, b') ->
    pool_step (mkPoolState b h) (mkPoolState b' (<[g := buf]> h))
| pool_put g buf b h :
    h !! g = Some buf -> pool_step (mkPoolState b h) (mkPoolState (Put buf b) (delete g h))
| pool_gc i b h : pool_step (mkPoolState b h) (mkPoolState (drop_at i b) h).

(** Every buffer in use is allocated with the full size, and no buffer is used
    twice: not by two goroutines, not by a goroutine and the pool. *)
Record pool_inv (s : pool_state) : Prop := {
  pool_sized : forall buf, buf ∈ pool (the_pool s) -> memory (the_pool s) !! buf = Some buffer_size;
  pool_unique : NoDup (pool (the_pool s));
  held_sized : forall g buf, held s !! g = Some buf -> memory (the_pool s) !! buf = Some buffer_size;
  held_unique : forall g1 g2 buf, held s !! g1 = Some buf -> held s !! g2 = Some buf -> g1 = g2;
  held_not_pooled : forall g buf, held s !! g = Some buf -> buf ∉ pool (the_pool s)
}.

Lemma delete_elem {A} (i : nat) (l : list A) x : x ∈ delete i l -> x ∈ l.
Proof. intros H. eapply elem_of_submseteq; [exact H|]. apply sublist_submseteq, sublist_delete. Qed.

Lemma delete_NoDup {A} (i : nat) (l : list A) : NoDup l -> NoDup (delete i l).
Proof. intros H. eapply sublist_NoDup; [exact H|]. apply sublist_delete. Qed.

Lemma delete_not_elem {A} (i : nat) (l : list A) x : NoDup l -> l !! i = Some x -> x ∉ delete i l.
Proof.
  intros Hnd Hi Hin. apply delete_Permutation in Hi. rewrite Hi in Hnd.
  apply NoDup_cons in Hnd as [? _]. done.
Qed.

(** What [Get] can return: a pooled buffer, taken out, or a new one. *)
Lemma Get_cases i fresh b buf b' :
  Get i fresh b = (buf, b') ->
  (exists j, pool b !! j = Some buf /\ b' = mkPool (memory b) (delete j (pool b)))
  \/ (buf = fresh /\ b' = mkPool (<[fresh := buffer_size]> (memory b)) (pool b)).
Proof.
  unfold Get. destruct i as [j|]; simpl; [destruct (pool b !! j) eqn:Hj|];
    intros [= <- <-]; [left; by exists j|by right..].
Qed.

Lemma pool_inv_get g i fresh b h buf b' :
  h !! g = None -> memory b !! fresh = None -> Get i fresh b = (buf, b') ->
  pool_inv (mkPoolState b h) -> pool_inv (mkPoolState b' (<[g := buf]> h)).
Proof.
  intros Hg Hfresh [(j & Hj & ->)|(-> & ->)]%Get_cases [Hps Hpu Hhs Hhu Hhp]; simpl in *.
  - assert (buf ∈ pool b) as Hin by by eapply list_elem_of_lookup_2.
    split; simpl.
    + intros x Hx%delete_elem. by apply Hps.
    + by apply delete_NoDup.
    + intros g' x. destruct (decide (g = g')) as [<-|]; [rewrite lookup_insert_eq|rewrite lookup_insert_ne by done].
      * intros [= <-]. by apply Hps.
      * apply Hhs.
    + intros g1 g2 x. rewrite !lookup_insert_Some.
      intros [[<- <-]|[? H1]] [[<- ?]|[? H2]]; try done; [|subst|by eapply Hhu];
        exfalso; eapply Hhp; eauto.
    + intros g' x. rewrite lookup_insert_Some. intros [[<- <-]|[? H1]].
      * by apply delete_not_elem.
      * intros Hx%delete_elem. by eapply Hhp.
  - assert (forall x, memory b !! x = Some buffer_size -> x <> fresh) as Hne by (intros x ? ->; congruence).
    split; simpl.
    + intros x Hx. rewrite lookup_insert_ne; [by apply Hps|]. by apply not_eq_sym, Hne, Hps.
    + done.
    + intros g' x. rewrite lookup_insert_Some. intros [[<- <-]|[? H1]]; [apply lookup_insert_eq|].
      rewrite lookup_insert_ne; [by eapply Hhs|]. apply not_eq_sym, Hne. by eapply Hhs.
    + intros g1 g2 x. rewrite !lookup_insert_Some.
      intros [[<- <-]|[? H1]] [[<- ?]|[? H2]]; try done; [|subst|by eapply Hhu];
        exfalso; eapply Hne; [by eapply Hhs|done|by eapply Hhs|done].
    + intros g' x. rewrite lookup_insert_Some. intros [[<- <-]|[? H1]]; [|by eapply Hhp].
      intros Hx%Hps. by apply Hne in Hx.
Qed.

Lemma pool_inv_step s s' : pool_inv s -> pool_step s s' -> pool_inv s'.
Proof.
  intros Hinv Hstep. destruct Hstep as [g i fresh b h buf b' Hg Hfresh HG|g buf b h Hg|i b h].
  - by eapply pool_inv_get.
  - destruct Hinv as [Hps Hpu Hhs Hhu Hhp]; simpl in *. split; simpl.
    + intros x [->|Hx]%elem_of_cons; [by eapply Hhs|by apply Hps].
    + constructor; [by eapply Hhp|done].
    + intros g' x [_ H]%lookup_delete_Some. by eapply Hhs.
    + intros g1 g2 x [_ H1]%lookup_delete_Some [_ H2]%lookup_delete_Some. by eapply Hhu.
    + intros g' x [Hne H]%lookup_delete_Some [->|Hx]%elem_of_cons; [|by eapply Hhp].
      apply Hne. by eapply Hhu.
  - destruct Hinv as [Hps Hpu Hhs Hhu Hhp]; simpl in *. split; simpl; try done.
    + intros x Hx%delete_elem. by apply Hps.
    + by apply delete_NoDup.
    + intros g x Hg Hx%delete_elem. by eapply Hhp.
Qed.

(** The buffers the proxy copies with are safe to use: whatever the pool drops
    and in whatever order goroutines take and return buffers, each buffer in use
    has the full size and belongs to one goroutine alone. *)
Theorem buffers_exclusive s (Hr : rtc pool_step (mkPoolState NewBufferPool ∅) s) :
  (forall g buf, held s !! g = Some buf ->
     memory (the_pool s) !! buf = Some buffer_size /\ buf ∉ pool (the_pool s))
  /\ (forall g1 g2 buf, held s !! g1 = Some buf -> held s !! g2 = Some buf -> g1 = g2).
Proof.
  assert (pool_inv s) as [].
  { revert s Hr. apply rtc_ind_r; [|intros; by eapply pool_inv_step]. split; simpl; try done.
    - intros x Hx. by apply not_elem_of_nil in Hx.
    - constructor. }
  split; [|done]. intros g buf Hg. split; [by eapply held_sized0|by eapply held_not_pooled0].
Qed.

(** Two goroutines, the second with the buffer that the first returned. *)
Lemma buffers_exclusive_witness :
  let s := mkPoolState (mkPool {[ 7 := buffer_size ]} []) {[ 2 := 7 ]} in
  (forall g buf, held s !! g = Some buf ->
     memory (the_pool s) !! buf = Some buffer_size /\ buf ∉ pool (the_pool s))
  /\ (forall g1 g2 buf, held s !! g1 = Some buf -> held s !! g2 = Some buf -> g1 = g2).
Proof.
  apply (buffers_exclusive (mkPoolState (mkPool {[ 7 := buffer_size ]} []) {[ 2 := 7 ]})).
  eapply rtc_l; [by apply (pool_get 1 None 7)|]. simpl.
  eapply rtc_l; [by apply (pool_put 1 7)|].
  eapply rtc_l; [by apply (pool_get 2 (Some 0) 8)|]. apply rtc_refl.
Defined.
