(* ===== verification/Logger.v ===== *)
(** * The logger and its reports to Sentry ([pkg/logger/logger.go])

    [CustomCore] embeds a core of zap and reports entries of level error and
    above to Sentry before it passes them on.  The embedded core and the
    rendering of errors are parameters; the interface [zapcore.Core] is the
    record of its methods that the code uses.  A logger is its core: [Logger.With]
    replaces it by [core.With], and logging calls [Check] and then [Write] of
    every core that [Check] added. *)

From S2P Require Import Prelude GoStrings.
Local Open Scope Z_scope.

(** ** Entries *)

(** [zapcore.Level] *)
Definition InfoLevel : Z := 0.
Definition ErrorLevel : Z := 2.

Record Entry := mkLogEntry { entry_Level : Z; entry_Message : gostring }.

(** [zapcore.FieldType], as far as the code tells the types apart. *)
Inductive FieldType := StringType | Int64Type | Int32Type | Int16Type | Int8Type | ErrorType | OtherType.

(** [zapcore.Field]; [Interface] is used for errors only. *)
Record Field := mkField {
  field_Key : gostring; field_Type : FieldType; field_String : gostring;
  field_Integer : Z; field_Interface : error
}.

(** ** What Sentry gets *)

Inductive context_value := CString (s : gostring) | CInt (z : Z).

Record SentryEvent := mkSentryEvent {
  event_Message : gostring;
  exception_Type : gostring;
  exception_Value : gostring;
  exception_Frames : nat;
  event_details : gmap gostring context_value
}.

Section logger.
(** A core of zap, and [error.Error()]. *)
Context {core : Type}.
Context (Enabled : core -> Z -> bool) (With : list Field -> core -> core)
  (core_Write : core -> Entry -> list Field -> option error).
Context (Error_ : error -> gostring).

(** A core behind the interface: the embedded core itself or the wrapper. *)
Inductive Core := Plain (c : core) | CustomCore (c : core).

(** The methods promoted from the embedded core. *)
Definition Core_Enabled (c : Core) (level : Z) : bool :=
  match c with Plain c | CustomCore c => Enabled c level end.
Definition Core_With (fields : list Field) (c : Core) : Core :=
  match c with Plain c | CustomCore c => Plain (With fields c) end.

(** [checked] is the list of cores of the checked entry. *)
Definition Check (c : core) (entry : Entry) (checked : list Core) : list Core :=
  if Enabled c (entry_Level entry) then checked ++ [CustomCore c] else checked.

(** The loop over the fields: the context and the first error. *)
Fixpoint sentry_context (fields : list Field) (context : gmap gostring context_value) (err : option error)
    : gmap gostring context_value * option error :=
  match fields with
  | [] => (context, err)
  | f :: fields =>
      match field_Type f with
      | StringType => sentry_context fields (<[field_Key f := CString (field_String f)]> context) err
      | Int64Type | Int32Type | Int16Type | Int8Type =>
          sentry_context fields (<[field_Key f := CInt (field_Integer f)]> context) err
      | ErrorType =>
          let fieldErr := field_Interface f in
          sentry_context fields (<[field_Key f := CString (Error_ fieldErr)]> context)
            (match err with None => Some fieldErr | Some _ => err end)
      | OtherType => sentry_context fields (<[field_Key f := CString (field_String f)]> context) err
      end
  end.

(** The event; [None] is the panic of cutting four frames off a stack trace of
    fewer. *)
Definition sentry_event (frames : nat) (entry : Entry) (fields : list Field) : option SentryEvent :=
  let '(context, err) := sentry_context fields ∅ None in
  if (frames <? 4)%nat then None
  else Some (mkSentryEvent (entry_Message entry) (entry_Message entry)
               (match err with Some e => Error_ e | None => entry_Message entry end) (frames - 4) context).

(** [CustomCore.Write]: the error of the embedded core, and the captured events. *)
Definition Write (frames : nat) (c : core) (entry : Entry) (fields : list Field)
    : option (option error * list SentryEvent) :=
  let result := match core_Write c entry fields with
                | Some err => Some (ErrWrap (lit "failed to write entry: ") err)
                | None => None
                end in
  if ErrorLevel <=? entry_Level entry then
    ev ← sentry_event frames entry fields; Some (result, [ev])
  else Some (result, []).

(** [NewLogger]: [built] is the logger that the configuration of zap builds. *)
Definition NewLogger (built : result error core) (sentryEnabled : bool) : result error Core :=
  match built with
  | Err err => Err (ErrWrap (lit "error creating logger: ") err)
  | Ok c => Ok (if sentryEnabled then CustomCore c else Plain c)
  end.

(** ** Logging through a logger *)

(** The events that logging one entry captures. *)
Definition log_events (frames : nat) (l : Core) (entry : Entry) (fields : list Field) : option (list SentryEvent) :=
  match l with
  | Plain _ => Some []
  | CustomCore c =>
      match Check c entry [] with
      | [] => Some []
      | _ => option_map snd (Write frames c entry fields)
      end
  end.

(** ** Lemmas *)

(** The last value given for a key. *)
Definition field_value (f : Field) : context_value :=
  match field_Type f with
  | Int64Type | Int32Type | Int16Type | Int8Type => CInt (field_Integer f)
  | ErrorType => CString (Error_ (field_Interface f))
  | StringType | OtherType => CString (field_String f)
  end.

Definition field_error (f : Field) : option error :=
  match field_Type f with ErrorType => Some (field_Interface f) | _ => None end.

(** The details of an event: later fields replace earlier ones of their key. *)
Definition add_field (m : gmap gostring context_value) (f : Field) : gmap gostring context_value :=
  <[field_Key f := field_value f]> m.
Definition details (fields : list Field) : gmap gostring context_value := foldl add_field ∅ fields.

Lemma sentry_context_spec fields ctx err :
  sentry_context fields ctx err
  = (foldl add_field ctx fields,
     match err with Some _ => err | None => head (omap field_error fields) end).
Proof.
  revert ctx err. induction fields as [|f fields IH]; intros ctx err; simpl; [by destruct err|].
  unfold add_field at 2, field_value, field_error at 1. destruct (field_Type f); rewrite IH; try done; by destruct err.
Qed.

(** The values given for a key, in order. *)
Definition values_of (k : gostring) (fields : list Field) : list context_value :=
  omap (fun f => if decide (field_Key f = k) then Some (field_value f) else None) fields.

Lemma foldl_lookup fields m k :
  foldl add_field m fields !! k = match last (values_of k fields) with Some v => Some v | None => m !! k end.
Proof.
  revert m. induction fields as [|f fields IH]; intros m; [done|]. simpl. rewrite IH. unfold add_field, values_of.
  simpl. destruct (decide (field_Key f = k)) as [<-|Hne]; simpl; [|by rewrite lookup_insert_ne].
  rewrite lookup_insert_eq. rewrite last_cons. by destruct (last _).
Qed.

(** ** Properties *)

(** A logger made for Sentry reports every enabled entry of level error and
    above exactly once, with its message, the first error among its fields (or
    else the message) as the value and the last value of each key as details, and
    no other entry.  A child made with [With] reports nothing: the method is
    promoted from the embedded core and returns that core without the wrapper. *)
Theorem errors_reach_sentry built l frames entry fields
    (Hnew : NewLogger built true = Ok l) (Hframes : (4 <= frames)%nat) :
  log_events frames l entry fields
  = Some (if Core_Enabled l (entry_Level entry) && (ErrorLevel <=? entry_Level entry)
          then [mkSentryEvent (entry_Message entry) (entry_Message entry)
                  (from_option Error_ (entry_Message entry) (head (omap field_error fields))) (frames - 4)
                  (details fields)]
          else [])
  /\ (forall k, details fields !! k = last (values_of k fields))
  /\ forall fs, log_events frames (Core_With fs l) entry fields = Some [].
Proof.
  destruct built as [c|]; [|discriminate]. injection Hnew as <-. split_and!.
  - simpl. unfold Check. destruct (Enabled c (entry_Level entry)); [|done].
    unfold Write, sentry_event. destruct (ErrorLevel <=? entry_Level entry); [|done].
    rewrite sentry_context_spec. destruct (Nat.ltb_spec frames 4); [lia|]. simpl.
    by destruct (head (omap field_error fields)).
  - intros k. unfold details. rewrite foldl_lookup, lookup_empty. by destruct (last _).
  - done.
Qed.
End logger.

(** ** Witnesses *)

(** A core that is always enabled and drops what it is given. *)
Definition always (_ : unit) (_ : Z) : bool := true.
Definition dropped (_ : unit) (_ : Entry) (_ : list Field) : option error := None.
Definition keep_core (_ : list Field) (c : unit) : unit := c.
Definition no_text (_ : error) : gostring := lit "boom".
Definition error_entry : Entry := mkLogEntry ErrorLevel (lit "failed").
Definition error_fields : list Field := [mkField (lit "error") ErrorType [] 0 ErrCanceled].

Lemma errors_reach_sentry_witness :
  log_events always dropped no_text 9 (CustomCore tt) error_entry error_fields
  = Some [mkSentryEvent (lit "failed") (lit "failed") (lit "boom") 5 (details no_text error_fields)]
  /\ (forall k, details no_text error_fields !! k = last (values_of no_text k error_fields))
  /\ forall fs, log_events always dropped no_text 9 (Core_With keep_core fs (CustomCore tt)) error_entry error_fields
       = Some [].
Proof.
  apply (errors_reach_sentry always keep_core dropped no_text (Ok tt) (CustomCore tt) 9 error_entry error_fields);
    [reflexivity|lia].
Defined.
