(* ===== verification/Cron.v ===== *)
(** * Enabled periods ([pkg/cronutil/cronutil.go])

    Whether a time lies in the window that a cron trigger opens for a duration.
    The cron library is a parameter: parsing gives a schedule, a schedule gives
    the next trigger after a time.  Times and durations are nanoseconds; the
    zero [time.Time] is [None]. *)

From S2P Require Import Prelude.
Local Open Scope Z_scope.

Definition second : Z := 1000000000.
Definition minute : Z := 60 * second.
Definition hour : Z := 60 * minute.

(** [cron.Schedule], by its method [Next]. *)
Abbreviation Schedule := (Z -> option Z).

(** The loop of [findLastTriggerTime]; [None] when the fuel is used up. *)
Fixpoint trigger_loop (fuel : nat) (Next : Schedule) (now : Z) (triggerTime lastTrigger : option Z)
    : option (option Z) :=
  match fuel with
  | O => None
  | S fuel =>
      match triggerTime with
      | None => Some lastTrigger
      | Some t => if now <? t then Some lastTrigger
                  else trigger_loop fuel Next now (Next t) (Some t)
      end
  end.

(** A five-field schedule has at most one trigger per minute, so that this many
    rounds cover the window. *)
Definition trigger_fuel (lookbackWindow : Z) : nat := (Z.to_nat (lookbackWindow / minute) + 2)%nat.

Definition findLastTriggerTime (Next : Schedule) (now lookbackWindow : Z) : option (option Z) :=
  let earliestTime := now - lookbackWindow in
  trigger_loop (trigger_fuel lookbackWindow) Next now (Next earliestTime) None.

Section cron.
(** [parser.Parse] and [time.ParseDuration]. *)
Context (Parse : gostring -> result error Schedule).
Context (ParseDuration : gostring -> result error Z).

Definition ParseCronSchedule (schedule : gostring) : result error Schedule :=
  if bool_decide (schedule = []) then Err (ErrText (lit "cron schedule cannot be empty"))
  else
    match Parse schedule with
    | Err err => Err (ErrWrap (lit "invalid cron expression: ") err)
    | Ok s => Ok s
    end.

(** [None] when the loop does not end. *)
Definition IsInEnabledPeriodAt (schedule : gostring) (duration now : Z) : option (result error bool) :=
  match ParseCronSchedule schedule with
  | Err err => Some (Err (ErrWrap (lit "failed to parse cron schedule: ") err))
  | Ok cronSchedule =>
      let lookbackWindow := int64 (duration + 24 * hour) in
      lastTrigger ← findLastTriggerTime cronSchedule now lookbackWindow;
      match lastTrigger with
      | None => Some (Ok false)
      | Some t =>
          let enabledUntil := t + duration in
          Some (Ok (now <? enabledUntil))
      end
  end.

Definition ValidateDuration (duration : gostring) : result error Z :=
  if bool_decide (duration = []) then Err (ErrText (lit "duration cannot be empty"))
  else
    match ParseDuration duration with
    | Err err => Err (ErrWrap (lit "invalid duration: ") err)
    | Ok d => if d <=? 0 then Err (ErrText (lit "duration must be positive, got: " ++ duration))
              else Ok d
    end.

Lemma ValidateDuration_ok duration d :
  ValidateDuration duration = Ok d <-> duration <> [] /\ ParseDuration duration = Ok d /\ 0 < d.
Proof.
  unfold ValidateDuration. case_bool_decide; [naive_solver|].
  destruct (ParseDuration duration) as [d'|]; [|naive_solver].
  destruct (Z.leb_spec d' 0); split; intros; destruct_and?; simplify_eq; (done || lia).
Qed.
End cron.

(** ** What the library documents of a schedule *)

(** The triggers are whole minutes; [Next] gives the first one after a time, and
    no time only if there is none within the [horizon] (five years). *)
Record schedule_of (Next : Schedule) (trigger : Z -> Prop) (horizon : Z) : Prop := {
  sched_minutes : forall t, trigger t -> t mod minute = 0;
  sched_next : forall t u, Next t = Some u ->
    t < u /\ trigger u /\ forall v, t < v < u -> ~ trigger v;
  sched_none : forall t, Next t = None -> forall v, t < v <= t + horizon -> ~ trigger v
}.

Section triggers.
Context (Next : Schedule) (trigger : Z -> Prop) (horizon : Z).
Context (HS : schedule_of Next trigger horizon).

(** The last trigger after [lo] and not after [now]. *)
Definition last_in (lo now : Z) (o : option Z) : Prop :=
  match o with
  | Some t => trigger t /\ lo < t <= now /\ forall v, t < v <= now -> ~ trigger v
  | None => forall v, lo < v <= now -> ~ trigger v
  end.

(** What the loop has found before a round at [t]. *)
Lemma loop_last fuel lo now t last r :
  now - lo <= horizon -> lo <= t ->
  (forall v, lo < v <= t -> trigger v -> exists l, last = Some l /\ v <= l) ->
  (forall l, last = Some l -> trigger l /\ lo < l <= now /\ l <= t) ->
  trigger_loop fuel Next now (Next t) last = Some r -> last_in lo now r.
Proof.
  intros Hh. revert t last. induction fuel as [|fuel IH]; intros t last Ht Hpast Hlast Hr; [done|].
  simpl in Hr. destruct (Next t) as [u|] eqn:Hn.
  - destruct (sched_next _ _ _ HS _ _ Hn) as (Htu & Hu & Hbetween).
    destruct (Z.ltb_spec now u).
    + injection Hr as <-. destruct last as [l|]; simpl.
      * destruct (Hlast l eq_refl) as (? & ? & ?). split_and!; try lia; [done|].
        intros v Hv Htr. destruct (Z.le_gt_cases v t).
        -- destruct (Hpast v ltac:(lia) Htr) as (l' & [= <-] & ?). lia.
        -- by apply (Hbetween v); [lia|].
      * intros v Hv Htr. destruct (Z.le_gt_cases v t).
        -- by destruct (Hpast v ltac:(lia) Htr) as (l' & ? & _).
        -- by apply (Hbetween v); [lia|].
    + eapply (IH u (Some u)); [lia| | |exact Hr].
      * intros v Hv Htr. exists u. split; [done|]. lia.
      * intros l [= <-]. split_and!; try lia. done.
  - injection Hr as <-. pose proof (sched_none _ _ _ HS _ Hn) as Hnone.
    destruct last as [l|]; simpl.
    + destruct (Hlast l eq_refl) as (? & ? & ?). split_and!; try lia; [done|].
      intros v Hv Htr. destruct (Z.le_gt_cases v t).
      * destruct (Hpast v ltac:(lia) Htr) as (l' & [= <-] & ?). lia.
      * apply (Hnone v); [lia|done].
    + intros v Hv Htr. destruct (Z.le_gt_cases v t).
      * by destruct (Hpast v ltac:(lia) Htr) as (l' & ? & _).
      * apply (Hnone v); [lia|done].
Qed.

(** Each round moves on by a minute at least. *)
Lemma loop_ends f now t last :
  trigger t -> now - t < Z.of_nat f * minute ->
  exists r, trigger_loop (S f) Next now (Some t) last = Some r.
Proof.
  revert t last. induction f as [|f IH]; intros t last Ht Hf; simpl;
    destruct (Z.ltb_spec now t); try (eexists; reflexivity); [change (Z.of_nat 0 * minute) with 0 in Hf; lia|].
  rewrite Nat2Z.inj_succ, Z.mul_succ_l in Hf.
  destruct (Next t) as [u|] eqn:Hn; [|eexists; reflexivity].
  destruct (sched_next _ _ _ HS _ _ Hn) as (Htu & Hu & _).
  apply (IH u (Some t)); [done|].
  assert (minute <= u - t); [|lia].
  pose proof (sched_minutes _ _ _ HS t Ht). pose proof (sched_minutes _ _ _ HS u Hu).
  assert (0 < minute) by reflexivity.
  assert ((u - t) mod minute = 0) as Hm by (rewrite Zminus_mod, H0, H1; apply Z.mod_0_l; lia).
  apply Z.mod_divide in Hm as [k Hk]; [|lia].
  assert (1 <= k) by (destruct (Z.le_gt_cases k 0) as [Hk0|]; [pose proof (Z.mul_nonpos_nonneg k minute Hk0); lia|lia]).
  rewrite Hk. nia.
Qed.

Lemma find_returns now lookback :
  exists r, findLastTriggerTime Next now lookback = Some r.
Proof.
  unfold findLastTriggerTime, trigger_fuel.
  destruct (Next (now - lookback)) as [t|] eqn:Hn;
    [|rewrite Nat.add_succ_r; eexists; reflexivity].
  destruct (sched_next _ _ _ HS _ _ Hn) as (Ht & Htr & _).
  rewrite Nat.add_succ_r. apply loop_ends; [done|].
  pose proof (Z.mul_succ_div_gt lookback minute ltac:(reflexivity)).
  assert (0 < minute) by reflexivity. nia.
Qed.

Lemma find_last now lookback r :
  0 <= lookback <= horizon -> findLastTriggerTime Next now lookback = Some r ->
  last_in (now - lookback) now r.
Proof.
  intros Hl. apply loop_last; [lia|lia|lia|done].
Qed.
End triggers.

(** ** Properties *)

(** C31: the enabled period is exactly the union of the windows the triggers
    open: for a schedule that parses, a positive duration and a horizon that
    covers the look-back, [IsInEnabledPeriodAt] returns (its loop ends within
    its bound) and answers true if and only if some trigger lies in the last
    [duration] up to now; the 24 extra hours of look-back change nothing. *)
Theorem enabled_iff_in_window Parse schedule Next trigger horizon duration now
    (Hs : schedule <> []) (HP : Parse schedule = Ok Next)
    (HN : schedule_of Next trigger horizon)
    (Hd : 0 < duration) (Hw : duration + 24 * hour <= horizon) (Ho : duration + 24 * hour < 2 ^ 63) :
  exists b, IsInEnabledPeriodAt Parse schedule duration now = Some (Ok b)
    /\ (b = true <-> exists t, trigger t /\ t <= now < t + duration).
Proof.
  unfold IsInEnabledPeriodAt, ParseCronSchedule. rewrite bool_decide_eq_false_2, HP by done.
  assert (0 < hour) by reflexivity.
  assert (int64 (duration + 24 * hour) = duration + 24 * hour) as -> by (apply int_of_id; lia).
  destruct (find_returns Next trigger horizon HN now (duration + 24 * hour)) as [r Hr]. rewrite Hr. simpl.
  apply (find_last Next trigger horizon HN) in Hr; [|lia].
  destruct r as [t|]; simpl in Hr.
  - destruct Hr as (Ht & Hin & Hlast). eexists. split; [reflexivity|]. rewrite Z.ltb_lt. split.
    + intros Hb. exists t. split; [done|lia].
    + intros (v & Hv & Hvn). destruct (Z.le_gt_cases v t); [lia|]. exfalso. apply (Hlast v); [lia|done].
  - exists false. split; [done|]. split; [done|]. intros (v & Hv & Hvn). exfalso. apply (Hr v); [lia|done].
Qed.

(** An hourly schedule, and a time 20 minutes past an hour with a window of 30. *)
Definition hourly : Schedule := fun t => Some ((t / hour + 1) * hour).

Lemma hourly_schedule : schedule_of hourly (fun t => t mod hour = 0) (2 ^ 62).
Proof.
  assert (0 < hour) as Hh by reflexivity. split.
  - intros t Ht. apply Z.mod_divide in Ht as [k ->]; [|lia].
    change hour with (60 * minute). rewrite Z.mul_assoc. apply Z.mod_mul. by apply Z.neq_sym, Z.lt_neq.
  - intros t u [= <-]. pose proof (Z.mul_div_le t hour Hh). pose proof (Z.mul_succ_div_gt t hour Hh).
    split_and!; [nia|apply Z.mod_mul; lia|].
    intros v Hv Hm. apply Z.mod_divide in Hm as [k ->]; [|lia].
    destruct Hv as [Hv1 Hv2]. apply Z.mul_lt_mono_pos_r in Hv2; [|lia].
    pose proof (Z.mul_le_mono_nonneg_r k (t / hour) hour ltac:(lia) ltac:(lia)). lia.
  - done.
Qed.

Lemma enabled_iff_in_window_witness :
  exists b, IsInEnabledPeriodAt (fun _ => Ok hourly) (lit "0 * * * *") (30 * minute) (1000 * hour + 20 * minute)
      = Some (Ok b)
    /\ (b = true <-> exists t, t mod hour = 0
          /\ t <= 1000 * hour + 20 * minute < t + 30 * minute).
Proof.
  apply (enabled_iff_in_window (fun _ => Ok hourly) (lit "0 * * * *") hourly
    (fun t => t mod hour = 0) (2 ^ 62) (30 * minute) (1000 * hour + 20 * minute)).
  - discriminate.
  - reflexivity.
  - apply hourly_schedule.
  - by apply Z.ltb_lt.
  - by apply Z.leb_le.
  - by apply Z.ltb_lt.
Defined.
