(* ===== verification/PromScaler.v ===== *)
(** * The Prometheus scaler ([pkg/scaling/scalers])

    A query, its answer as a float, and the decisions drawn from it; the guards
    on where a query may be sent.  The parsers of the standard library that the
    code only calls ([json], [url.Parse], [net.ParseIP], [strconv.ParseFloat])
    are parameters; floats are IEEE 754 doubles as [spec_float]. *)

From Stdlib Require Import SpecFloat.
From S2P Require Import Prelude GoStrings.
Local Open Scope Z_scope.

(** ** The interface of a scaler ([scaler.go]) *)

(** [W] is what the scaler talks to; [None] is a panic. *)
Class Scaler (S W : Type) := {
  IsHealthy : S -> W -> option (result error bool * W);
  ShouldScaleToZero : S -> W -> option (result error bool * W);
  ShouldScaleFromZero : S -> W -> option (result error bool * W)
}.

(** ** Data *)

Record prometheusMetadata := mkMetadata {
  ServerAddress : gostring;
  Query : gostring;
  Threshold : spec_float;
  UptimeFilter : gostring;
  Headers : gmap gostring gostring
}.

Record prometheusScaler := mkScaler {
  metadata : prometheusMetadata;
  dialGuard : bool;
  cooldownPeriod : Z;
  defaultServerAddress : gostring;
  defaultHeaders : gmap gostring gostring;
  allowedServerAddresses : list gostring
}.

(** A value of a sample: JSON null, a string, or something else. *)
Inductive json_value := JNull | JString (s : gostring) | JOther.

(** [promQueryResponse.Data.Result], each element by its [Value]. *)
Abbreviation prom_result := (list (list json_value)).

(** A decoded body: the result it contains, if it has a [data.result] at all;
    every sample is taken to come with its value. *)
Record prom_body := PromBody { body_result : option prom_result }.

Inductive prom_answer :=
| QueryFailed (e : error)
| QueryAnswered (statusCode : Z) (decoded : result error prom_body).

(** ** Strings *)

Arguments Itoa : simpl never.

Definition hex_digit (n : N) : ascii := ascii_of_N (if (n <? 10)%N then 48 + n else 55 + n).
Definition is_unreserved (c : ascii) : bool :=
  is_upper c || is_lower c || is_digit c || bool_decide (c ∈ lit "-_.~").

(** [url.QueryEscape], byte by byte. *)
Definition query_escape_byte (c : ascii) : gostring :=
  if is_unreserved c then [c]
  else if bool_decide (c = " "%char) then ["+"%char]
  else ["%"%char; hex_digit (code c / 16); hex_digit (code c mod 16)].
Definition QueryEscape (s : gostring) : gostring := s ≫= query_escape_byte.

(** [strings.ReplaceAll(s, "+", "%20")] *)
Definition replace_plus (s : gostring) : gostring :=
  s ≫= fun c => if bool_decide (c = "+"%char) then lit "%20" else [c].

Definition queryEscape (query : gostring) : gostring := replace_plus (QueryEscape query).

(** ** Where a query may go *)

(** An address: 4 or 16 bytes. *)
Abbreviation IP := (list Z).
Definition v4_mapped : IP := [0; 0; 0; 0; 0; 0; 0; 0; 0; 0; 255; 255].

(** [IP.To4] *)
Definition To4 (ip : IP) : option IP :=
  if bool_decide (length ip = 4%nat) then Some ip
  else if bool_decide (length ip = 16%nat) && bool_decide (take 12 ip = v4_mapped) then Some (drop 12 ip)
  else None.
Definition byte_at (ip : IP) (i : nat) : Z := default 0 (ip !! i).
Definition IPv6unspecified : IP := replicate 16 0.
Definition IPv6loopback : IP := replicate 15 0 ++ [1].

Definition IsLoopback (ip : IP) : bool :=
  match To4 ip with
  | Some ip4 => byte_at ip4 0 =? 127
  | None => bool_decide (ip = IPv6loopback)
  end.
Definition IsUnspecified (ip : IP) : bool :=
  match To4 ip with
  | Some ip4 => bool_decide (ip4 = [0; 0; 0; 0])
  | None => bool_decide (ip = IPv6unspecified)
  end.
Definition IsLinkLocalUnicast (ip : IP) : bool :=
  match To4 ip with
  | Some ip4 => (byte_at ip4 0 =? 169) && (byte_at ip4 1 =? 254)
  | None => bool_decide (length ip = 16%nat) && (byte_at ip 0 =? 254) && (Z.land (byte_at ip 1) 192 =? 128)
  end.
Definition IsLinkLocalMulticast (ip : IP) : bool :=
  match To4 ip with
  | Some ip4 => (byte_at ip4 0 =? 224) && (byte_at ip4 1 =? 0) && (byte_at ip4 2 =? 0)
  | None => bool_decide (length ip = 16%nat) && (byte_at ip 0 =? 255) && (Z.land (byte_at ip 1) 15 =? 2)
  end.
Definition IsMulticast (ip : IP) : bool :=
  match To4 ip with
  | Some ip4 => Z.land (byte_at ip4 0) 240 =? 224
  | None => bool_decide (length ip = 16%nat) && (byte_at ip 0 =? 255)
  end.

Definition isBlockedIP (ip : IP) : bool :=
  IsLoopback ip || IsUnspecified ip || IsLinkLocalUnicast ip || IsLinkLocalMulticast ip || IsMulticast ip.

Definition fetchAllowedServerAddresses (raw : gostring) : list gostring :=
  if bool_decide (raw = []) then []
  else filter (fun s => s <> []) (map TrimSpace (Split raw ","%char)).

Definition fetchDefaultHeaders (authorizationHeader : gostring) : gmap gostring gostring :=
  if bool_decide (authorizationHeader = []) then ∅
  else {[ lit "Authorization" := authorizationHeader ]}.

(** ** The scaler *)

Definition SF_minus_one : spec_float := S754_finite true 4503599627370496 (-52).
Definition SF_one : spec_float := S754_finite false 4503599627370496 (-52).
Definition IsInf (f : spec_float) : bool := match f with S754_infinity _ => true | _ => false end.

Definition defaultUptimeFilter : gostring := lit "container=" ++ "034"%char :: lit "prometheus" ++ ["034"%char].

(** The server and the package variable [promQueryResponse], which is shared by
    all queries; [answers] is what the server says to the coming queries, none
    being a timeout; [requests] are the URLs and headers sent, newest first. *)
Record prom_world := mkProm {
  answers : list prom_answer;
  promQueryResponse : prom_result;
  requests : list (gostring * gmap gostring gostring)
}.

Section scaler.
Context (ParseMetadata : gostring -> result error prometheusMetadata).
Context (ParseFloat : gostring -> result error spec_float).
(** [url.Parse], by the [Hostname()] and [Host] of the result. *)
Context (ParseURL : gostring -> result error (gostring * gostring)).
(** [http.NewRequestWithContext] on a URL, by its error. *)
Context (NewRequest : gostring -> option error).
Context (SplitHostPort : gostring -> result error gostring).
Context (ParseIP : gostring -> option IP).
(** The values of the environment variables, and the time in RFC 3339. *)
Context (env_address env_authorization env_allowed timestamp : gostring).

Definition parsePrometheusMetadata (jsonMetadata : gostring) : result error prometheusMetadata :=
  match ParseMetadata jsonMetadata with
  | Err err => Err (ErrWrap (lit "failed to parse metadata: ") err)
  | Ok m => Ok m
  end.

Definition NewPrometheusScaler (meta : gostring) (cooldown : Z) : result error prometheusScaler :=
  match parsePrometheusMetadata meta with
  | Err err => Err (ErrWrap (lit "error creating prometheus scaler: ") err)
  | Ok parsedMetadata =>
      let allowed := fetchAllowedServerAddresses env_allowed in
      Ok (mkScaler parsedMetadata (bool_decide (allowed = [])) cooldown env_address
            (fetchDefaultHeaders env_authorization) allowed)
  end.

Definition guardDialAddress (address : gostring) : option error :=
  match SplitHostPort address with
  | Err err => Some (ErrWrap (lit "failed to parse dial address: ") err)
  | Ok host =>
      match ParseIP host with
      | None => Some (ErrText (lit "failed to parse dial IP"))
      | Some ip => if isBlockedIP ip then Some (ErrText (lit "connection blocked to prevent SSRF")) else None
      end
  end.

(** The [Control] hook of the client's dialer. *)
Definition dial_allowed (s : prometheusScaler) (address : gostring) : bool :=
  negb (dialGuard s) || bool_decide (guardDialAddress address = None).

Definition getServerAddress (s : prometheusScaler) : result error gostring :=
  if negb (bool_decide (ServerAddress (metadata s) = [])) then Ok (ServerAddress (metadata s))
  else if bool_decide (defaultServerAddress s = [])
  then Err (ErrText (lit "prometheus serverAddress not configured"))
  else Ok (defaultServerAddress s).

Definition validateServerAddress (s : prometheusScaler) (serverAddress : gostring) : option error :=
  if bool_decide (serverAddress = defaultServerAddress s) || bool_decide (allowedServerAddresses s = [])
  then None
  else
    match ParseURL serverAddress with
    | Err err => Some (ErrWrap (lit "failed to parse serverAddress: ") err)
    | Ok (host, hostPort) =>
        if existsb (fun allowed => bool_decide (allowed = host) || bool_decide (allowed = hostPort))
             (allowedServerAddresses s)
        then None else Some (ErrText (lit "serverAddress is not in the allowed list"))
    end.

(** Header names are canonicalised; the trigger's headers come last. *)
Definition query_headers (s : prometheusScaler) : gmap gostring gostring :=
  let canonical m := kmap (M2 := gmap gostring) CanonicalHeaderKey m : gmap gostring gostring in
  canonical (Headers (metadata s)) ∪ canonical (defaultHeaders s).

(** The value of the decoded response; [None] is the panic of [val.(string)]. *)
Definition read_value (r : prom_result) : option (result error spec_float) :=
  match r with
  | [] => Some (Err (ErrText (lit "result is empty")))
  | _ :: _ :: _ => Some (Err (ErrText (lit "returned multiple elements")))
  | [value] =>
      match value with
      | [] => Some (Err (ErrText (lit "value list in result is empty")))
      | [_] => Some (Err (ErrText (lit "didn't return enough values")))
      | _ :: val :: _ =>
          v ← match val with
              | JNull => Some (Ok SF_minus_one)
              | JString str =>
                  Some (match ParseFloat str with
                        | Err err => Err (ErrWrap (lit "failed to parse metric value: ") err)
                        | Ok v => Ok v
                        end)
              | JOther => None
              end;
          Some (match v with
                | Err e => Err e
                | Ok v => if IsInf v then Err (ErrText (lit "prometheus query returns an infinity")) else Ok v
                end)
      end
  end.

(** Decoding into the package variable keeps the result when the body has none. *)
Definition decode_into (old : prom_result) (b : prom_body) : prom_result := default old (body_result b).

Definition executePromQuery (s : prometheusScaler) (query : gostring) (w : prom_world)
    : option (result error spec_float * prom_world) :=
  match getServerAddress s with
  | Err err => Some (Err err, w)
  | Ok serverAddress =>
      match validateServerAddress s serverAddress with
      | Some err => Some (Err err, w)
      | None =>
          let queryURL := serverAddress ++ lit "/api/v1/query?query=" ++ queryEscape query
                          ++ lit "&time=" ++ timestamp in
          match NewRequest queryURL with
          | Some err => Some (Err (ErrWrap (lit "failed to create HTTP request: ") err), w)
          | None =>
              let sent := (queryURL, query_headers s) :: requests w in
              match answers w with
              | [] => Some (Err (ErrWrap (lit "failed to execute HTTP request: ") ErrDeadlineExceeded),
                            mkProm [] (promQueryResponse w) sent)
              | QueryFailed err :: rest =>
                  Some (Err (ErrWrap (lit "failed to execute HTTP request: ") err),
                        mkProm rest (promQueryResponse w) sent)
              | QueryAnswered statusCode decoded :: rest =>
                  if negb (statusCode =? 200) then
                    Some (Err (ErrText (lit "unexpected HTTP status")), mkProm rest (promQueryResponse w) sent)
                  else
                    match decoded with
                    | Err err => Some (Err (ErrWrap (lit "failed to decode Prometheus response: ") err),
                                       mkProm rest (promQueryResponse w) sent)
                    | Ok b =>
                        let r := decode_into (promQueryResponse w) b in
                        v ← read_value r; Some (v, mkProm rest r sent)
                    end
              end
          end
      end
  end.

Definition prom_ShouldScaleToZero (s : prometheusScaler) (w : prom_world)
    : option (result error bool * prom_world) :=
  '(r, w) ← executePromQuery s (Query (metadata s)) w;
  Some (match r with
        | Err err => Err (ErrWrap (lit "failed to execute prometheus query: ") err)
        | Ok metricValue =>
            Ok (if SFeqb metricValue SF_minus_one then false
                else SFltb metricValue (Threshold (metadata s)))
        end, w).

(** On an error the code returns true beside it. *)
Definition prom_ShouldScaleFromZero (s : prometheusScaler) (w : prom_world)
    : option (result error bool * prom_world) :=
  '(r, w) ← executePromQuery s (Query (metadata s)) w;
  Some (match r with
        | Err err => Err (ErrWrap (lit "failed to execute prometheus query: ") err)
        | Ok metricValue =>
            Ok (if SFeqb metricValue SF_minus_one then true
                else SFleb (Threshold (metadata s)) metricValue)
        end, w).

Definition uptime_query (s : prometheusScaler) : gostring :=
  let filter := if bool_decide (UptimeFilter (metadata s) = []) then defaultUptimeFilter
                else UptimeFilter (metadata s) in
  let cooldownPeriodSeconds := - (- cooldownPeriod s / 1000000000) in
  lit "min_over_time((max(up{" ++ filter ++ lit "}) or vector(0))["
  ++ Itoa cooldownPeriodSeconds ++ lit "s:])".

Definition prom_IsHealthy (s : prometheusScaler) (w : prom_world)
    : option (result error bool * prom_world) :=
  '(r, w) ← executePromQuery s (uptime_query s) w;
  Some (match r with
        | Err err => Err (ErrWrap (lit "failed to execute prometheus query: ") err)
        | Ok metricValue => Ok (SFeqb metricValue SF_one)
        end, w).

#[export] Instance prometheus_Scaler : Scaler prometheusScaler prom_world := {
  IsHealthy := prom_IsHealthy;
  ShouldScaleToZero := prom_ShouldScaleToZero;
  ShouldScaleFromZero := prom_ShouldScaleFromZero
}.
End scaler.

(** ** Lemmas *)

Lemma SFcompare_swap a b :
  SFcompare b a = option_map CompOpp (SFcompare a b).
Proof.
  assert (forall p q, Pos.compare_cont Eq q p = CompOpp (Pos.compare_cont Eq p q)) as Hp.
  { intros p q. change (Pos.compare_cont Eq ?x ?y) with (Pos.compare x y). apply Pos.compare_antisym. }
  destruct a as [sa|sa| |sa ma ea], b as [sb|sb| |sb mb eb]; simpl;
    try (destruct sa); try (destruct sb); simpl; try done;
    rewrite (Z.compare_antisym ea eb), Hp; destruct (ea ?= eb); simpl; try done;
    by destruct (Pos.compare_cont Eq ma mb).
Qed.

Lemma SFltb_not_SFleb a b : SFltb a b = true -> SFleb b a = false.
Proof.
  unfold SFltb, SFleb. rewrite (SFcompare_swap a b).
  by destruct (SFcompare a b) as [[]|].
Qed.

(** On IPv4 the blocked addresses are 127/8, 0.0.0.0, 169.254/16 and 224/4. *)
Lemma blocked_v4 a b c d :
  0 <= a < 256 ->
  isBlockedIP [a; b; c; d] = true <->
  a = 127 \/ [a; b; c; d] = [0; 0; 0; 0] \/ (a = 169 /\ b = 254) \/ 224 <= a < 240.
Proof.
  intros Ha. unfold isBlockedIP, IsLoopback, IsUnspecified, IsLinkLocalUnicast, IsLinkLocalMulticast, IsMulticast.
  unfold To4. rewrite bool_decide_eq_true_2 by done. unfold byte_at. simpl.
  assert (Z.land a 240 =? 224 = true <-> 224 <= a < 240) as Hm.
  { rewrite Z.eqb_eq. change 240 with (Z.shiftl (Z.ones 4) 4) at 1.
    assert (Z.land a (Z.shiftl (Z.ones 4) 4) = (a / 16) * 16) as ->.
    { assert (a / 16 < 16) by (apply Z.div_lt_upper_bound; lia).
      assert (0 <= a / 16) by (apply Z.div_pos; lia).
      rewrite <- (Z.mul_1_r (a / 16 * 16)).
      replace (Z.land a (Z.shiftl (Z.ones 4) 4)) with (Z.shiftl (Z.land (Z.shiftr a 4) (Z.ones 4)) 4).
      - rewrite Z.land_ones, Z.shiftr_div_pow2, Z.shiftl_mul_pow2 by lia.
        rewrite (Z.mod_small (a / 2 ^ 4)) by (change (2 ^ 4) with 16; lia). change (2 ^ 4) with 16. lia.
      - apply Z.bits_inj'. intros n Hn. rewrite Z.land_spec, !Z.shiftl_spec by lia.
        destruct (Z.lt_ge_cases n 4) as [Hl|Hl].
        + rewrite (Z.testbit_neg_r _ (n - 4)) by lia. by rewrite (Z.testbit_neg_r (Z.ones 4)), andb_false_r by lia.
        + rewrite Z.land_spec, Z.shiftr_spec by lia. by replace (n - 4 + 4) with n by lia. }
    pose proof (Z.div_mod a 16). pose proof (Z.mod_pos_bound a 16). lia. }
  rewrite !orb_true_iff, !andb_true_iff, bool_decide_eq_true, Hm, !Z.eqb_eq. split; [|tauto].
  intros [[[[|]|]|[[-> _] _]]|]; try tauto; right; right; right; lia.
Qed.

(** ** Properties *)

Section properties.
Context (ParseFloat : gostring -> result error spec_float).
Context (ParseURL : gostring -> result error (gostring * gostring)) (NewRequest : gostring -> option error).
Context (timestamp : gostring).

(** On the same answer of the server the two decisions exclude each other:
    a scaler never says both that the target should go to zero and that it
    should come from zero, and a value that is not a number says neither. *)
Theorem scale_decisions_exclusive s w w1 w2
    (Hz : prom_ShouldScaleToZero ParseFloat ParseURL NewRequest timestamp s w = Some (Ok true, w1)) :
  prom_ShouldScaleFromZero ParseFloat ParseURL NewRequest timestamp s w <> Some (Ok true, w2)
  /\ executePromQuery ParseFloat ParseURL NewRequest timestamp s (Query (metadata s)) w <> Some (Ok S754_nan, w1).
Proof.
  unfold prom_ShouldScaleToZero, prom_ShouldScaleFromZero in *.
  destruct (executePromQuery _ _ _ _ _ _ _) as [[[v|e] w']|]; simplify_eq/=.
  destruct (SFeqb v SF_minus_one); [done|]. split.
  - rewrite SFltb_not_SFleb by congruence. done.
  - intros [= ->]. by destruct (Threshold (metadata s)).
Qed.

(** The package variable leaks between queries: an answer with status 200
    whose body has no result is read as the result of the previous query,
    whichever scaler made it. *)
Theorem stale_result_is_reused s query w rest addr
    (Haddr : getServerAddress s = Ok addr) (Hv : validateServerAddress ParseURL s addr = None)
    (Hreq : forall url, NewRequest url = None)
    (Ha : answers w = QueryAnswered 200 (Ok (PromBody None)) :: rest) :
  option_map fst (executePromQuery ParseFloat ParseURL NewRequest timestamp s query w)
  = read_value ParseFloat (promQueryResponse w).
Proof.
  unfold executePromQuery. rewrite Haddr, Hv, Hreq, Ha. cbn [negb Z.eqb decode_into default body_result Pos.eqb].
  change (negb (200 =? 200)) with false. cbv iota.
  by destruct (read_value ParseFloat (decode_into (promQueryResponse w) (PromBody None))) eqn:E;
    unfold decode_into in E; simpl in E; rewrite E.
Qed.

Context (ParseMetadata : gostring -> result error prometheusMetadata).
Context (SplitHostPort : gostring -> result error gostring) (ParseIP : gostring -> option IP).
Context (env_address env_authorization env_allowed : gostring).

Lemma validate_ok s addr :
  validateServerAddress ParseURL s addr = None ->
  addr = defaultServerAddress s \/ allowedServerAddresses s = []
  \/ exists host hostPort, ParseURL addr = Ok (host, hostPort)
       /\ (host ∈ allowedServerAddresses s \/ hostPort ∈ allowedServerAddresses s).
Proof.
  unfold validateServerAddress. intros Hv.
  destruct (bool_decide (addr = _) || bool_decide (allowedServerAddresses s = [])) eqn:E.
  { apply orb_true_iff in E as [E|E]; apply bool_decide_eq_true in E; tauto. }
  destruct (ParseURL addr) as [[host hostPort]|] eqn:Hu; [|done].
  destruct (existsb _ _) eqn:Hex; [|done]. right. right. exists host, hostPort. split; [done|].
  apply existsb_exists in Hex as (x & Hx%list_elem_of_In & H).
  apply orb_true_iff in H as [H|H]; apply bool_decide_eq_true in H as ->; tauto.
Qed.

Lemma query_sends s query w r w' :
  executePromQuery ParseFloat ParseURL NewRequest timestamp s query w = Some (r, w') ->
  requests w' = requests w
  \/ exists addr, getServerAddress s = Ok addr /\ validateServerAddress ParseURL s addr = None
      /\ requests w' = (addr ++ lit "/api/v1/query?query=" ++ queryEscape query ++ lit "&time=" ++ timestamp,
                        query_headers s) :: requests w.
Proof.
  unfold executePromQuery. intros Hq. destruct (getServerAddress s) as [addr|] eqn:Haddr; [|by simplify_eq; left].
  destruct (validateServerAddress ParseURL s addr) as [e|] eqn:Hv; [by simplify_eq; left|].
  destruct (NewRequest _); [by simplify_eq; left|]. right. exists addr. split_and!; [done..|].
  destruct (answers w) as [|[e|code [b|e]] rest]; simplify_eq/=; try done.
  - destruct (negb (code =? 200)); simplify_eq/=; [done|]. by destruct (read_value _ _); simplify_eq/=.
  - by destruct (negb (code =? 200)); simplify_eq/=.
Qed.

Lemma dial_allowed_spec s address :
  dialGuard s = true -> dial_allowed SplitHostPort ParseIP s address = true ->
  exists host ip, SplitHostPort address = Ok host /\ ParseIP host = Some ip /\ isBlockedIP ip = false.
Proof.
  unfold dial_allowed, guardDialAddress. intros ->. simpl. rewrite bool_decide_eq_true.
  destruct (SplitHostPort address) as [host|]; [|done]. destruct (ParseIP host) as [ip|] eqn:Hip; [|done].
  destruct (isBlockedIP ip) eqn:Hb; [done|]. by exists host, ip.
Qed.

End properties.

(** ** Witnesses *)

(** A scaler with threshold 5 on one server, and a server that answers 1. *)
Definition example_scaler : prometheusScaler :=
  mkScaler (mkMetadata (lit "http://p:9090") (lit "q") (S754_finite false 5629499534213120 (-50)) [] ∅)
    true 900000000000 [] ∅ [].
Definition always_one (_ : gostring) : result error spec_float := Ok SF_one.
Definition no_url (_ : gostring) : result error (gostring * gostring) := Err ErrNoMatch.
Definition any_url (_ : gostring) : option error := None.
Definition sample : prom_result := [[JOther; JString (lit "1")]].
Definition one_answer : prom_world := mkProm [QueryAnswered 200 (Ok (PromBody (Some sample)))] [] [].
Definition empty_answer : prom_world := mkProm [QueryAnswered 200 (Ok (PromBody None))] sample [].

Lemma scale_decisions_exclusive_witness :
  exists w1 w2,
  prom_ShouldScaleFromZero always_one no_url any_url [] example_scaler one_answer <> Some (Ok true, w2)
  /\ executePromQuery always_one no_url any_url [] example_scaler (lit "q") one_answer <> Some (Ok S754_nan, w1).
Proof.
  eexists _, one_answer.
  refine (scale_decisions_exclusive always_one no_url any_url [] example_scaler one_answer _ one_answer _).
  reflexivity.
Defined.

Lemma stale_result_is_reused_witness :
  option_map fst (executePromQuery always_one no_url any_url [] example_scaler (lit "q") empty_answer)
  = Some (Ok SF_one).
Proof.
  refine (stale_result_is_reused always_one no_url any_url [] example_scaler (lit "q") empty_answer []
    (lit "http://p:9090") _ _ _ _); reflexivity.
Defined.

Definition example_new : result error prometheusScaler :=
  NewPrometheusScaler (fun _ => Ok (metadata example_scaler)) [] [] [] [] 900000000000.

