(* ===== verification/Cluster.v ===== *)
(** * The cluster as the operator sees it

    The objects behind the API server that the operator reads and writes, the
    operator's own memory (the CRD directory, the running informers), and the
    state-and-error monad its functions run in.  Every API call first consumes
    one entry of [faults]: [Some e] makes the call fail with [e] and change
    nothing, [None] or an exhausted list lets it through, so that a theorem for
    all [faults] covers every pattern of failing calls. *)

From S2P Require Import Prelude K8sHelper Types.
Local Open Scope Z_scope.

Abbreviation NamespacedName := (gostring * gostring)%type.

(** [types.NamespacedName.String()] *)
Definition nn_string (n : NamespacedName) : gostring := n.1 ++ lit "/" ++ n.2.

(** ** Objects *)

Record ServicePort := mkPort { port_Name : gostring; port_Port : Z; port_NodePort : Z }.

Record Service := mkService {
  svc_Name : gostring;
  svc_Namespace : gostring;
  svc_ResourceVersion : gostring;
  svc_OwnerReferences : list gostring;
  svc_Selector : gmap gostring gostring;
  svc_Ports : list ServicePort;
  svc_ClusterIP : gostring;
  svc_ClusterIPs : list gostring
}.

(** An endpoint slice, by its service label, its port and its addresses. *)
Record Slice := mkSlice {
  slice_service : gostring;
  slice_port : gostring * Z;
  slice_addresses : list (list gostring)
}.

(** A scale subresource: [Spec.Replicas] and [Status.Replicas]. *)
Record ScaleObj := mkScale { sc_spec : Z; sc_status : Z }.

(** The object a scale request names: namespace, group and resource, name. *)
Abbreviation target := (gostring * (gostring * gostring) * gostring)%type.

Record Event := mkEvent { ev_ns : gostring; ev_name : gostring; ev_type : gostring; ev_reason : gostring }.

(** A pod by its labels, its deletion mark and its ready condition. *)
Record Pod := mkPod {
  pod_Namespace : gostring; pod_Labels : gmap gostring gostring;
  pod_Deleting : bool; pod_Conditions : list (gostring * gostring)
}.

(** ** The operator's memory *)

Record CRDDetails := mkDetails {
  CRDName : gostring; d_Spec : ElastiServiceSpec; d_Status : ElastiServiceStatus
}.

(** A running informer: whether its stop channel is still open, and the keys of
    the request it was started for. *)
Record informer_info := mkInfo { StopCh_open : bool; info_key : gostring }.

Record OpState := mkOp {
  crds : gmap NamespacedName ElastiService;
  services : gmap NamespacedName Service;
  slices : gmap NamespacedName Slice;
  scales : gmap target ScaleObj;
  scaled_objects : gmap NamespacedName (gmap gostring gostring);
  pods : list Pod;
  events : list Event;
  faults : list (option error);
  op_now : Z;
  directory : gmap gostring CRDDetails;
  informers : gmap gostring informer_info;
  onces : gset gostring
}.

Definition set_crds x s := mkOp x (services s) (slices s) (scales s) (scaled_objects s) (pods s) (events s) (faults s) (op_now s) (directory s) (informers s) (onces s).
Definition set_services x s := mkOp (crds s) x (slices s) (scales s) (scaled_objects s) (pods s) (events s) (faults s) (op_now s) (directory s) (informers s) (onces s).
Definition set_slices x s := mkOp (crds s) (services s) x (scales s) (scaled_objects s) (pods s) (events s) (faults s) (op_now s) (directory s) (informers s) (onces s).
Definition set_scales x s := mkOp (crds s) (services s) (slices s) x (scaled_objects s) (pods s) (events s) (faults s) (op_now s) (directory s) (informers s) (onces s).
Definition set_scaled_objects x s := mkOp (crds s) (services s) (slices s) (scales s) x (pods s) (events s) (faults s) (op_now s) (directory s) (informers s) (onces s).
Definition set_pods x s := mkOp (crds s) (services s) (slices s) (scales s) (scaled_objects s) x (events s) (faults s) (op_now s) (directory s) (informers s) (onces s).
Definition set_op_now x s := mkOp (crds s) (services s) (slices s) (scales s) (scaled_objects s) (pods s) (events s) (faults s) x (directory s) (informers s) (onces s).
Definition set_events x s := mkOp (crds s) (services s) (slices s) (scales s) (scaled_objects s) (pods s) x (faults s) (op_now s) (directory s) (informers s) (onces s).
Definition set_faults x s := mkOp (crds s) (services s) (slices s) (scales s) (scaled_objects s) (pods s) (events s) x (op_now s) (directory s) (informers s) (onces s).
Definition set_directory x s := mkOp (crds s) (services s) (slices s) (scales s) (scaled_objects s) (pods s) (events s) (faults s) (op_now s) x (informers s) (onces s).
Definition set_informers x s := mkOp (crds s) (services s) (slices s) (scales s) (scaled_objects s) (pods s) (events s) (faults s) (op_now s) (directory s) x (onces s).
Definition set_onces x s := mkOp (crds s) (services s) (slices s) (scales s) (scaled_objects s) (pods s) (events s) (faults s) (op_now s) (directory s) (informers s) x.

(** ** The monad *)

Definition M (A : Type) : Type := OpState -> result error A * OpState.

#[export] Instance M_ret : MRet M := fun A a s => (Ok a, s).
#[export] Instance M_bind : MBind M := fun A B f m s =>
  match m s with
  | (Ok a, s') => f a s'
  | (Err e, s') => (Err e, s')
  end.

Definition fail {A} (e : error) : M A := fun s => (Err e, s).
Definition gets {A} (f : OpState -> A) : M A := fun s => (Ok (f s), s).
Definition modify (f : OpState -> OpState) : M unit := fun s => (Ok tt, f s).
(** Run a call and look at its error. *)
Definition attempt_call {A} (m : M A) : M (result error A) := fun s => let '(r, s') := m s in (Ok r, s').
(** [fmt.Errorf("...%w", err)] around the error of a call. *)
Definition wrap {A} (msg : gostring) (m : M A) : M A := fun s =>
  match m s with
  | (Err e, s') => (Err (ErrWrap msg e), s')
  | r => r
  end.

(** One entry of [faults] is used. *)
Definition fault : M unit := fun s =>
  match faults s with
  | [] => (Ok tt, s)
  | None :: fs => (Ok tt, set_faults fs s)
  | Some e :: fs => (Err e, set_faults fs s)
  end.

(** An API call: it fails as scripted or runs. *)
Definition call {A} (m : M A) : M A := fault ≫= fun _ => m.

(** A read, and a write that needs the object to exist. *)
Definition api_get {K A} `{Countable K} (f : OpState -> gmap K A) (k : K) : M A :=
  call (fun s => match f s !! k with Some a => (Ok a, s) | None => (Err ErrNotFound, s) end).
Definition api_update {K A} `{Countable K} (f : OpState -> gmap K A) (g : gmap K A -> OpState -> OpState)
    (k : K) (upd : A -> A) : M unit :=
  call (fun s => match f s !! k with
                 | Some a => (Ok tt, g (<[k := upd a]> (f s)) s)
                 | None => (Err ErrNotFound, s)
                 end).
Definition api_create {K A} `{Countable K} (f : OpState -> gmap K A) (g : gmap K A -> OpState -> OpState)
    (k : K) (a : A) : M unit :=
  call (fun s => match f s !! k with
                 | Some _ => (Err (ErrText (lit "already exists")), s)
                 | None => (Ok tt, g (<[k := a]> (f s)) s)
                 end).
Definition api_delete {K A} `{Countable K} (f : OpState -> gmap K A) (g : gmap K A -> OpState -> OpState)
    (k : K) : M unit :=
  call (fun s => match f s !! k with
                 | Some _ => (Ok tt, g (delete k (f s)) s)
                 | None => (Err ErrNotFound, s)
                 end).

(** Record an event; the recorder drops events whose type is neither [Normal]
    nor [Warning]. *)
Definition record_event (e : Event) : M unit :=
  modify (fun s => if bool_decide (ev_type e = lit "Normal") || bool_decide (ev_type e = lit "Warning")
                   then set_events (events s ++ [e]) s else s).

(** ** Lemmas *)

(** A computation is framed by a projection of the state when it never changes it. *)
Definition keeps {A B} (p : OpState -> B) (m : M A) : Prop := forall s, p (m s).2 = p s.

Lemma keeps_ret {A B} (p : OpState -> B) (a : A) : keeps p (mret a).
Proof. done. Qed.
Lemma keeps_fail {A B} (p : OpState -> B) e : keeps p (@fail A e).
Proof. done. Qed.
Lemma keeps_gets {A B} (p : OpState -> B) (f : OpState -> A) : keeps p (gets f).
Proof. done. Qed.
Lemma keeps_bind {A B C} (p : OpState -> C) (m : M A) (k : A -> M B) :
  keeps p m -> (forall a, keeps p (k a)) -> keeps p (m ≫= k).
Proof.
  intros Hm Hk s. unfold mbind, M_bind. specialize (Hm s). destruct (m s) as [[a|e] s']; simpl in *.
  - by rewrite Hk.
  - done.
Qed.
Lemma keeps_attempt {A B} (p : OpState -> B) (m : M A) : keeps p m -> keeps p (attempt_call m).
Proof. intros Hm s. unfold attempt_call. specialize (Hm s). by destruct (m s). Qed.
Lemma keeps_wrap {A B} (p : OpState -> B) msg (m : M A) : keeps p m -> keeps p (wrap msg m).
Proof. intros Hm s. unfold wrap. specialize (Hm s). by destruct (m s) as [[]]. Qed.
Lemma keeps_modify {B} (p : OpState -> B) f : (forall s, p (f s) = p s) -> keeps p (modify f).
Proof. done. Qed.
Lemma keeps_fault {B} (p : OpState -> B) : (forall x s, p (set_faults x s) = p s) -> keeps p fault.
Proof. intros Hp s. unfold fault. destruct (faults s) as [|[e|] fs]; simpl; auto. Qed.
Lemma keeps_call {A B} (p : OpState -> B) (m : M A) :
  (forall x s, p (set_faults x s) = p s) -> keeps p m -> keeps p (call m).
Proof. intros Hp Hm. apply keeps_bind; [by apply keeps_fault|done]. Qed.
Lemma keeps_get {K A B} `{Countable K} (p : OpState -> B) (f : OpState -> gmap K A) k :
  (forall x s, p (set_faults x s) = p s) -> keeps p (api_get f k).
Proof. intros Hp. apply keeps_call; [done|]. intros s. by destruct (f s !! k). Qed.
Lemma keeps_update {K A B} `{Countable K} (p : OpState -> B) (f : OpState -> gmap K A) g k upd :
  (forall x s, p (set_faults x s) = p s) -> (forall x s, p (g x s) = p s) -> keeps p (api_update f g k upd).
Proof. intros Hp Hg. apply keeps_call; [done|]. intros s. by destruct (f s !! k); simpl. Qed.
Lemma keeps_create {K A B} `{Countable K} (p : OpState -> B) (f : OpState -> gmap K A) g k a :
  (forall x s, p (set_faults x s) = p s) -> (forall x s, p (g x s) = p s) -> keeps p (api_create f g k a).
Proof. intros Hp Hg. apply keeps_call; [done|]. intros s. by destruct (f s !! k); simpl. Qed.
Lemma keeps_delete {K A B} `{Countable K} (p : OpState -> B) (f : OpState -> gmap K A) g k :
  (forall x s, p (set_faults x s) = p s) -> (forall x s, p (g x s) = p s) -> keeps p (api_delete f g k).
Proof. intros Hp Hg. apply keeps_call; [done|]. intros s. by destruct (f s !! k); simpl. Qed.
Lemma keeps_event {B} (p : OpState -> B) e :
  (forall x s, p (set_events x s) = p s) -> keeps p (record_event e).
Proof. intros Hp. apply keeps_modify. intros s. by destruct (_ || _). Qed.

(** Close a goal [keeps p m] by walking through [m]; what is left are the parts
    the walk does not know. *)
Ltac frame :=
  repeat first
    [ match goal with |- forall _, _ => intros end
    | apply keeps_get; solve [auto]
    | apply keeps_update; solve [auto] | apply keeps_create; solve [auto]
    | apply keeps_delete; solve [auto]
    | apply keeps_event; solve [auto] | apply keeps_modify; solve [auto]
    | solve [auto with frame]
    | apply keeps_attempt | apply keeps_wrap
    | apply keeps_ret | apply keeps_fail | apply keeps_gets
    | match goal with
      | |- keeps _ (match ?x with _ => _ end) => destruct x
      end
    | apply keeps_bind ].

Create HintDb frame discriminated.
