(* ===== verification/Goroutines.v ===== *)
(** * Goroutines: interleavings below the level of whole operations

    A [prog] is an operation of the operator cut at its API calls and at its
    accesses to shared memory.  Run alone it is a computation of [Cluster.v]
    ([denote]); several run as a pool whose steps interleave ([pool_step]), or
    with a mutex around each of them ([lock_step]).  Two results are shared by
    the components: goroutines that work on different parts of the state behave
    in every interleaving as if they ran one after the other, and so do
    goroutines under one mutex. *)

From S2P Require Import Prelude Cluster.

(** ** Programs *)

(** [Call] is an API call, which may fail; [Act] accesses the operator's memory. *)
Inductive prog (A : Type) : Type :=
| Done (r : result error A)
| Call {B : Type} (m : M B) (k : result error B -> prog A)
| Act {B : Type} (m : M B) (k : result error B -> prog A).
Arguments Done {A} r.
Arguments Call {A B} m k.
Arguments Act {A B} m k.

#[export] Instance prog_ret : MRet prog := fun A a => Done (Ok a).
#[export] Instance prog_bind : MBind prog := fun A B f =>
  fix go (p : prog A) : prog B :=
    match p with
    | Done (Ok a) => f a
    | Done (Err e) => Done (Err e)
    | Call m k => Call m (fun r => go (k r))
    | Act m k => Act m (fun r => go (k r))
    end.

Fixpoint attempt_p {A} (p : prog A) : prog (result error A) :=
  match p with
  | Done r => Done (Ok r)
  | Call m k => Call m (fun r => attempt_p (k r))
  | Act m k => Act m (fun r => attempt_p (k r))
  end.

Fixpoint wrap_p {A} (msg : gostring) (p : prog A) : prog A :=
  match p with
  | Done (Err e) => Done (Err (ErrWrap msg e))
  | Done r => Done r
  | Call m k => Call m (fun r => wrap_p msg (k r))
  | Act m k => Act m (fun r => wrap_p msg (k r))
  end.

Definition fail_p {A} (e : error) : prog A := Done (Err e).
Definition gets_p {A} (f : OpState -> A) : prog A := Act (gets f) Done.
Definition modify_p (f : OpState -> OpState) : prog unit := Act (modify f) Done.
Definition call_p {A} (m : M A) : prog A := Call m Done.

(** The bodies of the API calls of [Cluster.v]. *)
Definition read_ {K A} `{Countable K} (f : OpState -> gmap K A) (k : K) : M A :=
  fun s => match f s !! k with Some a => (Ok a, s) | None => (Err ErrNotFound, s) end.
Definition update_ {K A} `{Countable K} (f : OpState -> gmap K A) (g : gmap K A -> OpState -> OpState)
    (k : K) (upd : A -> A) : M unit :=
  fun s => match f s !! k with Some a => (Ok tt, g (<[k := upd a]> (f s)) s) | None => (Err ErrNotFound, s) end.
Definition create_ {K A} `{Countable K} (f : OpState -> gmap K A) (g : gmap K A -> OpState -> OpState)
    (k : K) (a : A) : M unit :=
  fun s => match f s !! k with
           | Some _ => (Err (ErrText (lit "already exists")), s)
           | None => (Ok tt, g (<[k := a]> (f s)) s)
           end.
Definition delete_ {K A} `{Countable K} (f : OpState -> gmap K A) (g : gmap K A -> OpState -> OpState)
    (k : K) : M unit :=
  fun s => match f s !! k with Some _ => (Ok tt, g (delete k (f s)) s) | None => (Err ErrNotFound, s) end.

Definition get_p {K A} `{Countable K} (f : OpState -> gmap K A) (k : K) : prog A := call_p (read_ f k).
Definition update_p {K A} `{Countable K} (f : OpState -> gmap K A) g (k : K) upd : prog unit := call_p (update_ f g k upd).
Definition create_p {K A} `{Countable K} (f : OpState -> gmap K A) g (k : K) a : prog unit := call_p (create_ f g k a).
Definition delete_p {K A} `{Countable K} (f : OpState -> gmap K A) g (k : K) : prog unit := call_p (delete_ f g k).

(** ** Running alone *)

Fixpoint denote {A} (p : prog A) : M A :=
  match p with
  | Done r => fun s => (r, s)
  | Call m k => fun s => let '(r, s) := call m s in denote (k r) s
  | Act m k => fun s => let '(r, s) := m s in denote (k r) s
  end.

(** The same with the outcomes of the calls given as a list that is used up. *)
Definition outcome {B} (f : option error) (m : M B) : M B :=
  fun s => match f with Some e => (Err e, s) | None => m s end.
Fixpoint exec {A} (fs : list (option error)) (p : prog A) (s : OpState) : option (result error A * OpState) :=
  match p with
  | Done r => match fs with [] => Some (r, s) | _ => None end
  | Call m k => match fs with
                | [] => None
                | f :: fs => let '(r, s) := outcome f m s in exec fs (k r) s
                end
  | Act m k => let '(r, s) := m s in exec fs (k r) s
  end.

(** ** Running together *)

(** One step; [f] is the outcome of the call, if it is one. *)
Definition next {A} (f : option error) (p : prog A) (s : OpState) : option (prog A * OpState) :=
  match p with
  | Done _ => None
  | Call m k => let '(r, s) := outcome f m s in Some (k r, s)
  | Act m k => let '(r, s) := m s in Some (k r, s)
  end.

Definition pool_step {A} (c c' : list (prog A) * OpState) : Prop :=
  exists i f p p', c.1 !! i = Some p /\ next f p c.2 = Some (p', c'.2) /\ c'.1 = <[i := p']> c.1.

(** A schedule says which goroutine steps next and how its call ends. *)
Fixpoint schedule {A} (l : list (nat * option error)) (c : list (prog A) * OpState)
    : option (list (prog A) * OpState) :=
  match l with
  | [] => Some c
  | (i, f) :: l => p ← c.1 !! i; '(p', s) ← next f p c.2; schedule l (<[i := p']> c.1, s)
  end.

(** The results of a pool in which all goroutines have returned. *)
Definition results {A} (c : option (list (prog A) * OpState)) : option (list (result error A) * OpState) :=
  '(ps, s) ← c; rs ← mapM (fun p => match p with Done r => Some r | _ => None end) ps; Some (rs, s).

(** One goroutine after the other. *)
Inductive sequential {A} : list (prog A) -> OpState -> list (option error) -> list (result error A) -> OpState -> Prop :=
| seq_nil s : sequential [] s [] [] s
| seq_cons p ps s fs r s1 gs rs s2 :
    exec fs p s = Some (r, s1) -> sequential ps s1 gs rs s2 ->
    sequential (p :: ps) s (fs ++ gs) (r :: rs) s2.

(** ** Parts of the state *)

Record lens := mkLens {
  l_view : Type;
  l_get : OpState -> l_view;
  l_put : l_view -> OpState -> OpState;
  l_faults_get : forall x s, l_get (set_faults x s) = l_get s;
  l_faults_put : forall x v s, l_put v (set_faults x s) = set_faults x (l_put v s)
}.

Class Independent (L1 L2 : lens) : Prop := {
  ind_get1 : forall v s, l_get L1 (l_put L2 v s) = l_get L1 s;
  ind_get2 : forall v s, l_get L2 (l_put L1 v s) = l_get L2 s;
  ind_put : forall v w s, l_put L1 v (l_put L2 w s) = l_put L2 w (l_put L1 v s)
}.

(** A computation that reads and writes one part only. *)
Definition confined (L : lens) {B} (m : M B) : Prop :=
  exists f : l_view L -> result error B * l_view L,
    forall s, m s = ((f (l_get L s)).1, l_put L (f (l_get L s)).2 s).

Fixpoint local (L : lens) {A} (p : prog A) : Prop :=
  match p with
  | Done _ => True
  | Call m k => confined L m /\ forall r, local L (k r)
  | Act m k => confined L m /\ forall r, local L (k r)
  end.

(** ** Mutexes *)

(** A goroutine that waits for its mutex, holds it, or has returned. *)
Inductive guarded (A : Type) : Type :=
| Waiting (p : prog A)
| Holding (p : prog A)
| Finished (r : result error A).
Arguments Waiting {A} p.
Arguments Holding {A} p.
Arguments Finished {A} r.

(** Goroutines that all lock one mutex first and unlock it when they return;
    the outcomes of their calls satisfy [P]. *)
Inductive lock_step {A} (P : option error -> Prop) : list (guarded A) * OpState -> list (guarded A) * OpState -> Prop :=
| step_lock i p gs s :
    gs !! i = Some (Waiting p) -> (forall j q, gs !! j <> Some (Holding q)) ->
    lock_step P (gs, s) (<[i := Holding p]> gs, s)
| step_run i f p p' gs s s' :
    gs !! i = Some (Holding p) -> P f -> next f p s = Some (p', s') ->
    lock_step P (gs, s) (<[i := Holding p']> gs, s')
| step_unlock i r gs s :
    gs !! i = Some (Holding (Done r)) -> lock_step P (gs, s) (<[i := Finished r]> gs, s).

(** A schedule of such goroutines. *)
Inductive lock_event := LockBy (i : nat) | StepBy (i : nat) (f : option error) | UnlockBy (i : nat).
Definition is_holding {A} (g : guarded A) : bool := match g with Holding _ => true | _ => false end.
Definition lock_next {A} (e : lock_event) (c : list (guarded A) * OpState) : option (list (guarded A) * OpState) :=
  match e with
  | LockBy i =>
      match c.1 !! i with
      | Some (Waiting p) => if existsb is_holding c.1 then None else Some (<[i := Holding p]> c.1, c.2)
      | _ => None
      end
  | StepBy i f =>
      match c.1 !! i with
      | Some (Holding p) => '(p', s) ← next f p c.2; Some (<[i := Holding p']> c.1, s)
      | _ => None
      end
  | UnlockBy i =>
      match c.1 !! i with
      | Some (Holding (Done r)) => Some (<[i := Finished r]> c.1, c.2)
      | _ => None
      end
  end.
Fixpoint lock_schedule {A} (l : list lock_event) (c : list (guarded A) * OpState) : option (list (guarded A) * OpState) :=
  match l with
  | [] => Some c
  | e :: l => c ← lock_next e c; lock_schedule l c
  end.

(** The goroutines that have not returned run one after the other, in some order. *)
Inductive serial {A} (P : option error -> Prop) : list (guarded A) -> OpState -> list (guarded A) -> OpState -> Prop :=
| serial_done gs s : serial P gs s gs s
| serial_next i p fs r gs s s1 gs' s' :
    gs !! i = Some (Waiting p) -> Forall P fs -> exec fs p s = Some (r, s1) ->
    serial P (<[i := Finished r]> gs) s1 gs' s' -> serial P gs s gs' s'.

(** ** Lemmas: programs as computations *)

Lemma denote_bind {A B} (p : prog A) (f : A -> prog B) s :
  denote (p ≫= f) s = (denote p ≫= fun a => denote (f a)) s.
Proof.
  revert s. induction p as [[a|e]|C m k IH|C m k IH]; intros s; [done|done| |].
  - cbn. unfold mbind, M_bind in *. destruct (call m s). apply IH.
  - cbn. unfold mbind, M_bind in *. destruct (m s). apply IH.
Qed.

Lemma denote_attempt {A} (p : prog A) s : denote (attempt_p p) s = attempt_call (denote p) s.
Proof.
  revert s. unfold attempt_call. induction p as [r|C m k IH|C m k IH]; intros s; [done| |]; cbn.
  - destruct (call m s). apply IH.
  - destruct (m s). apply IH.
Qed.

Lemma denote_wrap {A} msg (p : prog A) s : denote (wrap_p msg p) s = wrap msg (denote p) s.
Proof.
  revert s. unfold wrap. induction p as [[a|e]|C m k IH|C m k IH]; intros s; [done|done| |]; cbn.
  - destruct (call m s). apply IH.
  - destruct (m s). apply IH.
Qed.

Lemma denote_call {A} (m : M A) s : denote (call_p m) s = call m s.
Proof. simpl. by destruct (call m s). Qed.
Lemma denote_act {A} (m : M A) s : denote (Act m Done) s = m s.
Proof. simpl. by destruct (m s). Qed.

(** The program [p] is the computation [m]. *)
Definition implements {A} (p : prog A) (m : M A) : Prop := forall s, denote p s = m s.

Lemma impl_ret {A} (a : A) : implements (mret a) (mret a).
Proof. done. Qed.
Lemma impl_fail {A} e : implements (@fail_p A e) (fail e).
Proof. done. Qed.
Lemma impl_bind {A B} (p : prog A) m (f : A -> prog B) g :
  implements p m -> (forall a, implements (f a) (g a)) -> implements (p ≫= f) (m ≫= g).
Proof.
  intros Hp Hf s. rewrite denote_bind. unfold mbind, M_bind. rewrite Hp. destruct (m s) as [[a|e] s']; [apply Hf|done].
Qed.
Lemma impl_attempt {A} (p : prog A) m : implements p m -> implements (attempt_p p) (attempt_call m).
Proof. intros Hp s. rewrite denote_attempt. unfold attempt_call. by rewrite Hp. Qed.
Lemma impl_wrap {A} msg (p : prog A) m : implements p m -> implements (wrap_p msg p) (wrap msg m).
Proof. intros Hp s. rewrite denote_wrap. unfold wrap. by rewrite Hp. Qed.
Lemma impl_call {A} (m : M A) : implements (call_p m) (call m).
Proof. intros s. apply denote_call. Qed.
Lemma impl_act {A} (m : M A) : implements (Act m Done) m.
Proof. intros s. apply denote_act. Qed.

Lemma impl_get {K A} `{Countable K} (f : OpState -> gmap K A) k : implements (get_p f k) (api_get f k).
Proof. apply impl_call. Qed.
Lemma impl_update {K A} `{Countable K} (f : OpState -> gmap K A) g k upd : implements (update_p f g k upd) (api_update f g k upd).
Proof. apply impl_call. Qed.
Lemma impl_create {K A} `{Countable K} (f : OpState -> gmap K A) g k a : implements (create_p f g k a) (api_create f g k a).
Proof. apply impl_call. Qed.
Lemma impl_delete {K A} `{Countable K} (f : OpState -> gmap K A) g k : implements (delete_p f g k) (api_delete f g k).
Proof. apply impl_call. Qed.
Lemma impl_gets {A} (f : OpState -> A) : implements (gets_p f) (gets f).
Proof. apply impl_act. Qed.
Lemma impl_modify f : implements (modify_p f) (modify f).
Proof. apply impl_act. Qed.

Create HintDb impl discriminated.
#[export] Hint Resolve impl_ret impl_fail impl_attempt impl_wrap impl_call impl_get impl_update impl_create impl_delete
  impl_gets impl_modify : impl.

(** Close a goal [implements p m] where [m] is written like [p]. *)
Ltac implement :=
  repeat first
    [ match goal with |- forall _, _ => intros end
    | solve [auto with impl]
    | match goal with |- implements (match ?x with _ => _ end) _ => destruct x end
    | apply impl_attempt | apply impl_wrap
    | apply impl_bind ].

(** ** Lemmas: a run alone *)

Lemma outcome_call {B} f (m : M B) fs s :
  (forall x s, m (set_faults x s) = ((m s).1, set_faults x (m s).2)) ->
  call m (set_faults (f :: fs) s) = ((outcome f m s).1, set_faults fs (outcome f m s).2).
Proof.
  intros Hm. unfold call, mbind, M_bind, fault, outcome. simpl. destruct f as [e|]; [done|].
  change (set_faults fs (set_faults (None :: fs) s)) with (set_faults fs s). by rewrite Hm.
Qed.

Lemma confined_faults L {B} (m : M B) x s :
  confined L m -> m (set_faults x s) = ((m s).1, set_faults x (m s).2).
Proof. intros [f Hf]. rewrite !Hf. simpl. by rewrite l_faults_get, l_faults_put. Qed.

(** No access of a program looks at the script of faults. *)
Definition blind_ {B} (m : M B) : Prop := forall x s, m (set_faults x s) = ((m s).1, set_faults x (m s).2).
Fixpoint blind {A} (p : prog A) : Prop :=
  match p with
  | Done _ => True
  | Call m k => blind_ m /\ forall r, blind (k r)
  | Act m k => blind_ m /\ forall r, blind (k r)
  end.

Lemma local_blind L {A} (p : prog A) : local L p -> blind p.
Proof.
  induction p as [r|C m k IH|C m k IH]; [done| |]; intros [Hm Hk]; split; auto; intros x s; by apply (confined_faults L).
Qed.

Lemma blind_bind {A B} (p : prog A) (f : A -> prog B) : blind p -> (forall a, blind (f a)) -> blind (p ≫= f).
Proof.
  intros Hp Hf. induction p as [[a|e]|C m k IH|C m k IH]; [apply Hf|done| |]; destruct Hp as [Hm Hk];
    (split; [done|]); intros r; by apply IH.
Qed.
Lemma blind_attempt {A} (p : prog A) : blind p -> blind (attempt_p p).
Proof.
  intros Hp. induction p as [r|C m k IH|C m k IH]; [done| |]; destruct Hp as [Hm Hk]; (split; [done|]); intros r; by apply IH.
Qed.
Lemma blind_wrap {A} msg (p : prog A) : blind p -> blind (wrap_p msg p).
Proof.
  intros Hp. induction p as [[a|e]|C m k IH|C m k IH]; [done|done| |]; destruct Hp as [Hm Hk]; (split; [done|]); intros r; by apply IH.
Qed.
Lemma blind_get {K A} `{Countable K} (f : OpState -> gmap K A) k :
  (forall x s, f (set_faults x s) = f s) -> blind (get_p f k).
Proof. intros Hf. split; [|done]. intros x s. unfold read_. rewrite Hf. by destruct (f s !! k). Qed.
Lemma blind_update {K A} `{Countable K} (f : OpState -> gmap K A) g k upd :
  (forall x s, f (set_faults x s) = f s) -> (forall x v s, g v (set_faults x s) = set_faults x (g v s)) ->
  blind (update_p f g k upd).
Proof. intros Hf Hg. split; [|done]. intros x s. unfold update_. rewrite Hf. by destruct (f s !! k); simpl; rewrite ?Hg. Qed.
Lemma blind_create {K A} `{Countable K} (f : OpState -> gmap K A) g k a :
  (forall x s, f (set_faults x s) = f s) -> (forall x v s, g v (set_faults x s) = set_faults x (g v s)) ->
  blind (create_p f g k a).
Proof. intros Hf Hg. split; [|done]. intros x s. unfold create_. rewrite Hf. by destruct (f s !! k); simpl; rewrite ?Hg. Qed.
Lemma blind_delete {K A} `{Countable K} (f : OpState -> gmap K A) g k :
  (forall x s, f (set_faults x s) = f s) -> (forall x v s, g v (set_faults x s) = set_faults x (g v s)) ->
  blind (delete_p f g k).
Proof. intros Hf Hg. split; [|done]. intros x s. unfold delete_. rewrite Hf. by destruct (f s !! k); simpl; rewrite ?Hg. Qed.
Lemma blind_gets {A} (f : OpState -> A) : (forall x s, f (set_faults x s) = f s) -> blind (gets_p f).
Proof. intros Hf. split; [|done]. intros x s. unfold gets. by rewrite Hf. Qed.
Lemma blind_modify f : (forall x s, f (set_faults x s) = set_faults x (f s)) -> blind (modify_p f).
Proof. intros Hf. split; [|done]. intros x s. unfold modify. by rewrite Hf. Qed.

(** Close a goal [blind p] by walking through [p]. *)
Ltac blindly :=
  repeat first
    [ match goal with |- forall _, _ => intros end
    | exact I
    | apply blind_get; solve [auto] | apply blind_update; solve [auto]
    | apply blind_create; solve [auto] | apply blind_delete; solve [auto]
    | apply blind_gets; solve [auto] | apply blind_modify; solve [auto]
    | solve [auto with blind]
    | apply blind_attempt | apply blind_wrap
    | match goal with |- blind (match ?x with _ => _ end) => destruct x end
    | apply blind_bind ].
Create HintDb blind discriminated.

(** Run with a list of outcomes, a program is the computation under that script. *)
Lemma exec_denote {A} (p : prog A) fs s r s' rest :
  blind p -> exec fs p s = Some (r, s') ->
  denote p (set_faults (fs ++ rest) s) = (r, set_faults rest s').
Proof.
  revert fs s. induction p as [r0|C m k IH|C m k IH]; intros fs s Hl He; simpl in *.
  - destruct fs; [|done]. by injection He as -> ->.
  - destruct fs as [|f fs]; [done|]. destruct Hl as [Hm Hk]. simpl.
    rewrite outcome_call by done.
    destruct (outcome f m s) as [rm sm]. by apply IH.
  - destruct Hl as [Hm Hk]. rewrite Hm. destruct (m s) as [rm sm]. by apply IH.
Qed.

(** ** Lemmas: independent goroutines *)

Lemma local_bind L {A B} (p : prog A) (f : A -> prog B) : local L p -> (forall a, local L (f a)) -> local L (p ≫= f).
Proof.
  intros Hp Hf. induction p as [[a|e]|C m k IH|C m k IH]; [apply Hf|done| |]; destruct Hp as [Hm Hk];
    (split; [done|]); intros r; by apply IH.
Qed.
Lemma local_attempt L {A} (p : prog A) : local L p -> local L (attempt_p p).
Proof.
  intros Hp. induction p as [r|C m k IH|C m k IH]; [done| |]; destruct Hp as [Hm Hk]; (split; [done|]); intros r; by apply IH.
Qed.
Lemma local_wrap L {A} msg (p : prog A) : local L p -> local L (wrap_p msg p).
Proof.
  intros Hp. induction p as [[a|e]|C m k IH|C m k IH]; [done|done| |]; destruct Hp as [Hm Hk]; (split; [done|]); intros r; by apply IH.
Qed.
Lemma local_call L {A} (m : M A) : confined L m -> local L (call_p m).
Proof. by split. Qed.
Lemma local_act L {A} (m : M A) : confined L m -> local L (Act m Done).
Proof. by split. Qed.

#[export] Instance Independent_sym L1 L2 : Independent L1 L2 -> Independent L2 L1.
Proof. intros []. by split. Qed.

Lemma confined_outcome L {B} f (m : M B) :
  (forall s, l_put L (l_get L s) s = s) -> confined L m -> confined L (outcome f m).
Proof.
  intros HL [g Hg]. destruct f as [e|]; [|by exists g]. exists (fun v => (Err e, v)). intros s. simpl. by rewrite HL.
Qed.

(** The laws a lens needs besides: reading after writing, and writing back. *)
Class Lawful (L : lens) : Prop := {
  law_get : forall v s, l_get L (l_put L v s) = v;
  law_put : forall s, l_put L (l_get L s) s = s
}.

Lemma confined_commute L1 L2 `{!Independent L1 L2} {B C} (m : M B) (n : M C) s r1 s1 r2 s2 :
  confined L1 m -> confined L2 n -> m s = (r1, s1) -> n s1 = (r2, s2) ->
  exists s1', n s = (r2, s1') /\ m s1' = (r1, s2).
Proof.
  intros [f Hf] [g Hg] Hm Hn. rewrite Hf in Hm. rewrite Hg in Hn. injection Hm as <- <-.
  rewrite ind_get2 in Hn. injection Hn as <- <-. eexists. split; [by rewrite Hg|].
  rewrite Hf, ind_get1. f_equal. apply ind_put.
Qed.

Lemma next_local L {A} f (p : prog A) s p' s' : local L p -> next f p s = Some (p', s') -> local L p'.
Proof.
  destruct p as [r|C m k|C m k]; simpl; [done| |]; intros [_ Hk].
  - destruct (outcome f m s). by intros [= <- <-].
  - destruct (m s). by intros [= <- <-].
Qed.

(** A step of one goroutine can be moved after an access of another, *)
Lemma step_after_access L1 L2 `{!Independent L1 L2, !Lawful L1} {A B} f (p : prog A) (n : M B) s p' s1 r s2 :
  local L1 p -> confined L2 n -> next f p s = Some (p', s1) -> n s1 = (r, s2) ->
  exists s0, n s = (r, s0) /\ next f p s0 = Some (p', s2).
Proof.
  intros Hp Hn Hs En. destruct p as [|C m k|C m k]; simpl in Hs; [done| |]; destruct Hp as [Hm _].
  1: apply (confined_outcome L1 f) in Hm; [|apply law_put]; destruct (outcome f m s) as [rm sm] eqn:Em.
  2: destruct (m s) as [rm sm] eqn:Em.
  all: injection Hs as <- <-; destruct (confined_commute L1 L2 _ _ _ _ _ _ _ Hm Hn Em En) as (s0 & ? & E);
    exists s0; simpl; by rewrite E.
Qed.

(** and after its whole run. *)
Lemma step_after_run L1 L2 `{!Independent L1 L2, !Lawful L1, !Lawful L2} {A} f (p q : prog A) fs s p' s1 r s2 :
  local L1 p -> local L2 q -> next f p s = Some (p', s1) -> exec fs q s1 = Some (r, s2) ->
  exists s1', exec fs q s = Some (r, s1') /\ next f p s1' = Some (p', s2).
Proof.
  intros Hp. revert fs s s1. induction q as [r0|C m k IH|C m k IH]; intros fs s s1 Hq Hn He; simpl in He.
  - destruct fs; [|done]. injection He as -> <-. by eauto.
  - destruct fs as [|g fs]; [done|]. destruct Hq as [Hm Hk]. destruct (outcome g m s1) as [rm sm] eqn:Em.
    apply (confined_outcome L2 g) in Hm; [|apply law_put].
    destruct (step_after_access L1 L2 f p _ s _ _ _ _ Hp Hm Hn Em) as (s0 & E0 & N0). simpl. rewrite E0. by eapply IH.
  - destruct Hq as [Hm Hk]. destruct (m s1) as [rm sm] eqn:Em.
    destruct (step_after_access L1 L2 f p _ s _ _ _ _ Hp Hm Hn Em) as (s0 & E0 & N0). simpl. rewrite E0. by eapply IH.
Qed.

(** A step in front of a run. *)
Lemma exec_step {A} P f (p : prog A) s p' s1 fs r s2 :
  P f -> Forall P fs -> next f p s = Some (p', s1) -> exec fs p' s1 = Some (r, s2) ->
  exists fs', Forall P fs' /\ exec fs' p s = Some (r, s2).
Proof.
  intros Hf Hfs. destruct p as [r0|C m k|C m k]; simpl; [done| |].
  - destruct (outcome f m s) as [rm sm] eqn:E. intros [= <- <-] He. exists (f :: fs). split; [by constructor|]. by rewrite E.
  - destruct (m s) as [rm sm]. intros [= <- <-] He. by exists fs.
Qed.

Section independent.
Context {A : Type}.

(** Each goroutine has a part of its own. *)
Definition apart (Ls : list lens) : Prop := forall i j L1 L2, i <> j -> Ls !! i = Some L1 -> Ls !! j = Some L2 -> Independent L1 L2.

Lemma apart_cons L Ls : apart (L :: Ls) -> apart Ls.
Proof. intros Ha i j L1 L2 Hij. apply (Ha (S i) (S j)). lia. Qed.
Lemma apart_head L Ls i L' : apart (L :: Ls) -> Ls !! i = Some L' -> Independent L' L.
Proof. intros Ha Hi. by apply (Ha (S i) 0). Qed.

(** The step of goroutine [i], moved to its place in the sequence. *)
Lemma step_in_sequence (Ls : list lens) (ps : list (prog A)) i f p p' s s1 fs rs s2 :
  Forall Lawful Ls -> apart Ls -> Forall2 (fun L p => local L p) Ls ps ->
  ps !! i = Some p -> next f p s = Some (p', s1) -> sequential (<[i := p']> ps) s1 fs rs s2 ->
  exists fs', sequential ps s fs' rs s2.
Proof.
  intros Hlaw Ha Hl. revert i s s1 fs rs Hlaw Ha. induction Hl as [|L q Ls ps Hq Hl IH]; intros i s s1 fs rs Hlaw Ha Hi Hn Hs; [done|].
  apply Forall_cons in Hlaw as [HL Hlaw]. destruct i as [|i]; simpl in *.
  - injection Hi as ->. inversion Hs; subst. destruct (exec_step (fun _ => True) f p s p' s1 _ _ _ I ltac:(by apply Forall_true) Hn ltac:(eassumption)) as (fs' & _ & ?).
    eexists. by econstructor.
  - inversion Hs as [|? ? ? fs1 r sq gs rs1 ? Hex Hrest]; subst.
    destruct (Forall2_lookup_r _ _ _ _ _ Hl Hi) as (L' & HL' & Hp).
    pose proof (proj1 (Forall_lookup _ _) Hlaw _ _ HL') as HlawL'.
    pose proof (apart_head _ _ _ _ Ha HL') as Hind.
    destruct (step_after_run L' L f p q fs1 s p' s1 r sq Hp Hq Hn Hex) as (s0 & E0 & N0).
    destruct (IH _ _ _ _ _ Hlaw (apart_cons _ _ Ha) Hi N0 Hrest) as [fs' ?]. eexists. by econstructor.
Qed.

Lemma pool_step_local Ls ps s ps' s' :
  Forall2 (fun L p => @local L A p) Ls ps -> pool_step (ps, s) (ps', s') -> Forall2 (fun L p => local L p) Ls ps'.
Proof.
  intros Hl (i & f & p & p' & Hi & Hn & E). simpl in *. subst ps'.
  destruct (Forall2_lookup_r _ _ _ _ _ Hl Hi) as (L & HL & Hp).
  rewrite <- (list_insert_id Ls i L HL). apply Forall2_insert; [done|]. by eapply next_local.
Qed.

(** Goroutines on different parts of the state run as if in sequence. *)
Lemma pool_sequential Ls (ps : list (prog A)) s rs s' :
  Forall Lawful Ls -> apart Ls -> Forall2 (fun L p => local L p) Ls ps ->
  rtc pool_step (ps, s) (map Done rs, s') -> exists fs, sequential ps s fs rs s'.
Proof.
  intros Hlaw Ha Hl Hr. remember (ps, s) as c eqn:Ec. remember (map Done rs, s') as c' eqn:Ec'.
  revert ps s Ec Hl. induction Hr as [c|c [ps1 s1] c' Hstep Hr IH]; intros ps s -> Hl.
  - injection Ec' as -> ->. exists []. clear. induction rs as [|r rs IHrs]; [constructor|].
    simpl. by apply (seq_cons _ _ s' [] _ s' []).
  - destruct (IH Ec' ps1 s1 eq_refl) as [fs Hs]; [by eapply pool_step_local|].
    destruct Hstep as (i & f & p & p' & Hi & Hn & E). simpl in *. subst ps1. by eapply step_in_sequence.
Qed.
End independent.

(** No pool gets stuck: every goroutine can run to its end. *)
Lemma goroutine_finishes {A} (pre post : list (prog A)) p s :
  exists r s', rtc pool_step (pre ++ p :: post, s) (pre ++ Done r :: post, s').
Proof.
  assert (forall f p p' s s', next f p s = Some (p', s') -> pool_step (pre ++ p :: post, s) (pre ++ p' :: post, s')) as Hstep.
  { intros f q q' t t' Hn. exists (length pre), f, q, q'. simpl. split_and!; [|done|].
    - by apply list_lookup_middle.
    - by rewrite insert_app_r_alt, Nat.sub_diag by done. }
  revert s. induction p as [r|C m k IH|C m k IH]; intros s; [eexists _, _; reflexivity| |].
  - destruct (m s) as [r s1] eqn:E. destruct (IH r s1) as (r' & s' & H). exists r', s'.
    eapply rtc_l; [|exact H]. apply (Hstep None). simpl. by rewrite E.
  - destruct (m s) as [r s1] eqn:E. destruct (IH r s1) as (r' & s' & H). exists r', s'.
    eapply rtc_l; [|exact H]. apply (Hstep None). simpl. by rewrite E.
Qed.

Lemma pool_finishes {A} (ps : list (prog A)) s : exists rs s', rtc pool_step (ps, s) (map Done rs, s').
Proof.
  assert (forall pre, exists rs s', rtc pool_step (map Done pre ++ ps, s) (map Done (pre ++ rs), s')) as H.
  { revert s. induction ps as [|p ps IH]; intros s pre.
    - exists [], s. by rewrite !app_nil_r.
    - destruct (goroutine_finishes (map Done pre) ps p s) as (r & s1 & H1).
      destruct (IH s1 (pre ++ [r])) as (rs & s' & H2). exists (r :: rs), s'.
      etransitivity; [exact H1|]. rewrite map_app, <- !app_assoc in H2. exact H2. }
  apply (H []).
Qed.

Lemma schedule_run {A} l (c c' : list (prog A) * OpState) : schedule l c = Some c' -> rtc pool_step c c'.
Proof.
  revert c. induction l as [|[i f] l IH]; intros c; simpl; [by intros [= <-]|].
  destruct (c.1 !! i) as [p|] eqn:Hi; [simpl|done]. destruct (next f p c.2) as [[p' s]|] eqn:Hn; [simpl|done].
  intros H%IH. eapply rtc_l; [|done]. by exists i, f, p, p'.
Qed.

Lemma schedule_results {A} l (ps : list (prog A)) s rs s' :
  results (schedule l (ps, s)) = Some (rs, s') -> rtc pool_step (ps, s) (map Done rs, s').
Proof.
  unfold results. destruct (schedule l (ps, s)) as [[ps' t]|] eqn:E; [simpl|done]. apply schedule_run in E.
  destruct (mapM _ ps') as [rs'|] eqn:Em; [simpl|done]. intros [= <- <-].
  replace (map Done rs') with ps'; [done|]. clear E. apply mapM_Some_1 in Em.
  induction Em as [|p r ps' rs' Hp Em IH]; [done|]. simpl. f_equal; [|done]. destruct p; [by injection Hp as ->|done..].
Qed.

(** ** Lemmas: goroutines under one mutex *)

(** At most one goroutine holds the mutex. *)
Definition one_holder {A} (gs : list (guarded A)) : Prop :=
  forall i j p q, gs !! i = Some (Holding p) -> gs !! j = Some (Holding q) -> i = j.

Lemma one_holder_step {A} P (gs : list (guarded A)) s gs' s' :
  lock_step P (gs, s) (gs', s') -> one_holder gs -> one_holder gs'.
Proof.
  intros Hs Ho i j p q. inversion Hs; subst; rewrite !list_lookup_insert_Some; naive_solver.
Qed.

(** The pool in which the holder, if any, still waits. *)
Definition released {A} (g : guarded A) : guarded A := match g with Holding p => Waiting p | g => g end.

Lemma released_insert {A} (gs : list (guarded A)) i g : released <$> <[i := g]> gs = <[i := released g]> (released <$> gs).
Proof. apply list_fmap_insert. Qed.

Lemma lock_serial {A} P (gs : list (guarded A)) s gs' s' :
  one_holder gs -> rtc (lock_step P) (gs, s) (gs', s') -> Forall (fun g => exists r, g = Finished r) gs' ->
  (forall i p, gs !! i = Some (Holding p) ->
     exists fs r s1, Forall P fs /\ exec fs p s = Some (r, s1) /\ serial P (<[i := Finished r]> (released <$> gs)) s1 gs' s')
  /\ ((forall i p, gs !! i <> Some (Holding p)) -> serial P (released <$> gs) s gs' s').
Proof.
  intros Ho Hr Hfin. remember (gs, s) as c eqn:Ec. remember (gs', s') as c' eqn:Ec'. revert gs s Ec Ho.
  induction Hr as [c|c [gs1 s1] c' Hstep Hr IH]; intros gs s -> Ho.
  - injection Ec' as -> ->. split.
    + intros i p Hi. destruct (proj1 (Forall_lookup _ _) Hfin _ _ Hi) as [r [=]].
    + intros _. replace (released <$> gs') with gs'; [constructor|]. symmetry. apply list_eq_same_length with (length gs').
      { done. } { by rewrite length_fmap. }
      intros i x y _ Hx Hy. rewrite list_lookup_fmap in Hx. rewrite Hy in Hx. injection Hx as <-.
      by destruct (proj1 (Forall_lookup _ _) Hfin _ _ Hy) as [r ->].
  - pose proof (one_holder_step _ _ _ _ _ Hstep Ho) as Ho1. destruct (IH Ec' gs1 s1 eq_refl Ho1) as [IH1 IH2]. clear IH.
    inversion Hstep as [i p gs0 s0 Hi Hnone|i f p p' gs0 s0 s0' Hi HP Hn|i r gs0 s0 Hi]; subst.
    + split; [intros j q Hj; by destruct (Hnone j q)|]. intros _.
      destruct (IH1 i p) as (fs & r & s2 & Hfs & He & Hse).
      { apply list_lookup_insert_eq. by eapply lookup_lt_Some. }
      apply (serial_next P i p fs r _ _ s2); [by rewrite list_lookup_fmap, Hi|done|done|].
      rewrite released_insert in Hse. simpl in Hse. by rewrite list_insert_insert_eq in Hse.
    + split; [|intros Hnone; by destruct (Hnone i p)]. intros j q Hj.
      assert (j = i) as -> by (by eapply Ho). assert (q = p) as -> by congruence.
      destruct (IH1 i p') as (fs & r & s2 & Hfs & He & Hse).
      { apply list_lookup_insert_eq. by eapply lookup_lt_Some. }
      destruct (exec_step P _ _ _ _ _ _ _ _ HP Hfs Hn He) as (fs' & Hfs' & He'). exists fs', r, s2. split; [done|]. split; [done|].
      rewrite released_insert, list_insert_insert_eq in Hse. done.
    + split; [|intros Hnone; by destruct (Hnone i (Done r))]. intros j q Hj.
      assert (j = i) as -> by (by eapply Ho). assert (q = Done r) as -> by congruence.
      exists [], r, s1. split; [constructor|]. split; [done|].
      change (Finished r) with (released (@Finished A r)). rewrite <- released_insert. apply IH2.
      intros j q'. rewrite list_lookup_insert_Some. intros [(_ & [=] & _)|[Hne Hq']]. by apply Hne; eapply Ho.
Qed.

(** Under one mutex every interleaving is serial. *)
Lemma mutex_serial {A} P (ps : list (prog A)) s gs' s' :
  rtc (lock_step P) (map Waiting ps, s) (gs', s') -> Forall (fun g => exists r, g = Finished r) gs' ->
  serial P (map Waiting ps) s gs' s'.
Proof.
  intros Hr Hf. assert (forall i p, map (@Waiting A) ps !! i <> Some (Holding p)) as Hn.
  { intros i p. change (map (@Waiting A) ps) with (Waiting <$> ps). rewrite list_lookup_fmap. by destruct (ps !! i). }
  assert (one_holder (map Waiting ps)) as Ho by (intros i j p q Hi; by destruct (Hn i p)).
  destruct (lock_serial _ _ _ _ _ Ho Hr Hf) as [_ H]. specialize (H Hn).
  replace (released <$> map Waiting ps) with (map Waiting ps) in H; [done|].
  clear. by induction ps as [|p ps IH]; [|simpl; f_equal].
Qed.

Definition event_outcome (P : option error -> Prop) (e : lock_event) : Prop :=
  match e with StepBy _ f => P f | _ => True end.

Lemma lock_schedule_run {A} P l (c c' : list (guarded A) * OpState) :
  Forall (event_outcome P) l -> lock_schedule l c = Some c' -> rtc (lock_step P) c c'.
Proof.
  intros Hl. revert c. induction Hl as [|e l He Hl IH]; intros [gs s]; simpl; [by intros [= <-]|].
  destruct (lock_next e (gs, s)) as [[gs1 s1]|] eqn:En; [simpl|done]. intros H%IH. eapply rtc_l; [|done].
  destruct e as [i|i f|i]; simpl in En; destruct (gs !! i) as [[p|p|r]|] eqn:Hi; try done.
  - destruct (existsb is_holding gs) eqn:Hh; [done|]. injection En as <- <-. apply step_lock; [done|].
    intros j q Hj%list_elem_of_lookup_2. apply not_true_iff_false in Hh. apply Hh. apply existsb_exists.
    exists (Holding q). split; [by apply list_elem_of_In|done].
  - destruct (next f p s) as [[p' s']|] eqn:E; [|done]. injection En as <- <-. by eapply step_run.
  - destruct p; [|done..]. injection En as <- <-. by apply step_unlock.
Qed.
