(* ===== verification/Scaling.v ===== *)
(** * The scale handler ([pkg/scaling/scale_handler.go])

    Deciding whether a service should be scaled, the scaling itself, the pausing
    of KEDA, and the periodic check over all services. *)

From S2P Require Import Prelude GoStrings K8sHelper Types Cron PromScaler Cluster.
Local Open Scope Z_scope.

Inductive ScaleDirection := ScaleUp | ScaleDown | NoScale.
#[export] Instance ScaleDirection_eq_dec : EqDecision ScaleDirection.
Proof. solve_decision. Defined.

Definition kedaPausedAnnotation : gostring := lit "autoscaling.keda.sh/paused".
Definition kedaPausedReplicasAnnotation : gostring := lit "autoscaling.keda.sh/paused-replicas".

(** ** Deciding *)

Definition resolveCooldownPeriod (es : ElastiService) : Z :=
  let cooldownPeriod := int64 (second * spec_CooldownPeriod (es_Spec es)) in
  if cooldownPeriod =? 0 then DefaultCooldownPeriod else cooldownPeriod.

Definition listNamespaces (watchNamespaces : list gostring) : list gostring :=
  match watchNamespaces with [] => [lit ""] | _ => watchNamespaces end.

Section decide_.
Context (Parse : gostring -> result error Schedule) (ParseDuration : gostring -> result error Z).

(** [None] when the trigger loop does not end. *)
Definition isInEnabledPeriod (now : Z) (enabledPeriod : EnabledPeriod) : option (result error bool) :=
  let schedule := if bool_decide (ep_Schedule enabledPeriod = []) then lit "0 0 * * *"
                  else ep_Schedule enabledPeriod in
  let durationStr := if bool_decide (ep_Duration enabledPeriod = []) then lit "24h"
                     else ep_Duration enabledPeriod in
  match ValidateDuration ParseDuration durationStr with
  | Err err => Some (Err (ErrWrap (lit "invalid duration: ") err))
  | Ok duration =>
      r ← IsInEnabledPeriodAt Parse schedule duration now;
      Some (match r with
            | Err err => Err (ErrWrap (lit "failed to check enabled period: ") err)
            | Ok b => Ok b
            end)
  end.

Context {S W : Type} `{Scaler S W} (NewScaler : gostring -> Z -> result error S).

Definition createScalerForTrigger (trigger : ScaleTrigger) (cooldownPeriod : Z) : result error S :=
  if bool_decide (trig_Type trigger = lit "prometheus") then
    match NewScaler (trig_Metadata trigger) cooldownPeriod with
    | Err err => Err (ErrWrap (lit "failed to create scaler: ") err)
    | Ok s => Ok s
    end
  else Err (ErrText (lit "unsupported trigger type: " ++ trig_Type trigger)).

(** The loop over the triggers; [None] is a panic of a scaler. *)
Fixpoint eval_triggers (triggers : list ScaleTrigger) (cooldownPeriod : Z) (w : W)
    : option (result error ScaleDirection * W) :=
  match triggers with
  | [] => Some (Ok ScaleDown, w)
  | trigger :: triggers =>
      match createScalerForTrigger trigger cooldownPeriod with
      | Err err => Some (Err (ErrWrap (lit "failed to create scaler: ") err), w)
      | Ok scaler =>
          '(healthy, w) ← IsHealthy scaler w;
          match healthy with
          | Err _ => Some (Err (ErrText (lit "scaler is not healthy")), w)
          | Ok false => Some (Ok NoScale, w)
          | Ok true =>
              '(scaleToZero, w) ← ShouldScaleToZero scaler w;
              match scaleToZero with
              | Err err => Some (Err (ErrWrap (lit "failed to check scaler: ") err), w)
              | Ok false => Some (Ok ScaleUp, w)
              | Ok true => eval_triggers triggers cooldownPeriod w
              end
          end
      end
  end.

Definition calculateScaleDirection (now cooldownPeriod : Z) (es : ElastiService) (w : W)
    : option (result error ScaleDirection * W) :=
  match spec_Triggers (es_Spec es) with
  | [] => Some (Err (ErrText (lit "no triggers found")), w)
  | triggers =>
      if now <? es_CreationTimestamp es + cooldownPeriod then Some (Ok NoScale, w)
      else
        enabled ← match spec_EnabledPeriod (es_Spec es) with
                  | None => Some (Ok true)
                  | Some p => isInEnabledPeriod now p
                  end;
        match enabled with
        | Err _ | Ok false => Some (Ok ScaleUp, w)
        | Ok true => eval_triggers triggers cooldownPeriod w
        end
  end.
End decide_.

(** ** Scaling *)

Section scaling.
Context (ParseGroupVersion : gostring -> result error (gostring * gostring)).

Definition createEvent (namespace name eventType reason : gostring) : M unit :=
  record_event (mkEvent namespace name eventType reason).

(** The retry loop around the read: a missing match resets the REST mapper and
    is tried once more. *)
Fixpoint get_scale (tries : nat) (t : target) : M ScaleObj :=
  match tries with
  | O => fail ErrNoMatch
  | S O => api_get scales t
  | S tries =>
      r ← attempt_call (api_get scales t);
      match r with
      | Ok sc => mret sc
      | Err err => if error_is is_no_match err then get_scale tries t else fail err
      end
  end.

Definition scale_target (namespace : gostring) (targetGVK : GroupVersionKind) (targetName : gostring) : target :=
  (namespace, (gvk_Group targetGVK, KindToResource (gvk_Kind targetGVK)), targetName).

(** Runs under the mutex of the target. *)
Definition Scale (namespace : gostring) (targetGVK : GroupVersionKind) (targetName : gostring)
    (desiredReplicas : Z) : M bool :=
  let t := scale_target namespace targetGVK targetName in
  r ← attempt_call (get_scale 2 t);
  match r with
  | Err err =>
      _ ← createEvent namespace targetName (lit "Error") (lit "FailedToScale");
      fail (ErrWrap (lit "failed to get scale: ") err)
  | Ok currentScale =>
      if sc_status currentScale =? desiredReplicas then mret false
      else if (0 <? desiredReplicas) && (desiredReplicas <? sc_status currentScale) then mret false
      else
        u ← attempt_call (api_update scales set_scales t (fun sc => mkScale desiredReplicas (sc_status sc)));
        match u with
        | Err err =>
            _ ← createEvent namespace targetName (lit "Warning") (lit "FailedToScale");
            fail (ErrWrap (lit "failed to update scale: ") err)
        | Ok _ =>
            _ ← createEvent namespace targetName (lit "Normal") (lit "SuccessToScale");
            mret true
        end
  end.

(** The merge patch on the annotations of a ScaledObject. *)
Definition paused_patch (paused : bool) (annotations : gmap gostring gostring) : gmap gostring gostring :=
  if paused
  then <[kedaPausedReplicasAnnotation := lit "0"]> (<[kedaPausedAnnotation := lit "true"]> annotations)
  else delete kedaPausedReplicasAnnotation (<[kedaPausedAnnotation := lit "false"]> annotations).

Definition UpdateKedaScaledObjectPausedState (scaledObjectName namespace : gostring) (paused : bool) : M unit :=
  wrap (lit "failed to patch ScaledObject: ")
    (api_update scaled_objects set_scaled_objects (namespace, scaledObjectName) (paused_patch paused)).

Definition set_LastScaledUpTime (t : Z) (es : ElastiService) : ElastiService :=
  mkElastiService (es_Name es) (es_Namespace es) (es_CreationTimestamp es) (es_DeletionTimestamp es)
    (es_Finalizers es) (es_Spec es)
    (mkStatus (st_LastReconciledTime (es_Status es)) (Some t) (st_Mode (es_Status es))).

Definition UpdateLastScaledUpTime (crdName namespace : gostring) : M unit :=
  wrap (lit "failed to patch ElastiService status: ")
    (now ← gets op_now; api_update crds set_crds (namespace, crdName) (set_LastScaledUpTime now)).

Definition ScaleToMinReplicas (namespace : gostring) (spec : ElastiServiceSpec) : M bool :=
  let scaleTargetRef := (GetScaleTargetRef spec).1 in
  let replicas := if spec_MinTargetReplicas spec <? 1 then 1 else spec_MinTargetReplicas spec in
  match APIVersionStrToGVK ParseGroupVersion (str_APIVersion scaleTargetRef) (str_Kind scaleTargetRef) with
  | Err err => fail (ErrWrap (lit "failed to parse API version: ") err)
  | Ok targetGVK => Scale namespace targetGVK (str_Name scaleTargetRef) replicas
  end.

(** [spec.Autoscaler != nil && strings.ToLower(spec.Autoscaler.Type) == "keda"] *)
Definition keda_autoscaler (spec : ElastiServiceSpec) : option gostring :=
  match spec_Autoscaler spec with
  | Some a => if bool_decide (ToLower (as_Type a) = lit "keda") then Some (as_Name a) else None
  | None => None
  end.

Definition update_keda (spec : ElastiServiceSpec) (namespace : gostring) (paused : bool) : M unit :=
  match keda_autoscaler spec with
  | Some name => wrap (lit "failed to update Keda ScaledObject: ")
                   (UpdateKedaScaledObjectPausedState name namespace paused)
  | None => mret tt
  end.

(** The last scale-up is less than the cooldown ago. *)
Definition cooling_down (now : Z) (es : ElastiService) : bool :=
  match st_LastScaledUpTime (es_Status es) with
  | Some t => now - t <? resolveCooldownPeriod es
  | None => false
  end.

Definition handleScaleToZero (es : ElastiService) : M unit :=
  let spec := (GetSpec es).1 in
  now ← gets op_now;
  if cooling_down now es then mret tt
  else
    _ ← update_keda spec (es_Namespace es) true;
    let r := spec_ScaleTargetRef spec in
    match APIVersionStrToGVK ParseGroupVersion (str_APIVersion r) (str_Kind r) with
    | Err err => fail (ErrWrap (lit "failed to parse API version: ") err)
    | Ok targetGVK =>
        _ ← wrap (lit "failed to scale target to zero: ") (Scale (es_Namespace es) targetGVK (str_Name r) 0);
        mret tt
    end.

Definition handleScaleFromZero (es : ElastiService) : M unit :=
  let spec := (GetSpec es).1 in
  _ ← attempt_call (UpdateLastScaledUpTime (es_Name es) (es_Namespace es));
  _ ← update_keda spec (es_Namespace es) false;
  _ ← wrap (lit "failed to scale target from zero: ") (ScaleToMinReplicas (es_Namespace es) spec);
  mret tt.

(** ** The periodic check *)

(** The services of one namespace, or of all for the empty name. *)
Definition list_crds (ns : gostring) : M (list ElastiService) :=
  call (fun s => (Ok (List.filter (fun es => bool_decide (ns = []) || bool_decide (es_Namespace es = ns))
                        ((map_to_list (crds s)).*2)), s)).

Context (Parse : gostring -> result error Schedule) (ParseDuration : gostring -> result error Z).
Context {SC W : Type} `{Scaler SC W} (NewScaler : gostring -> Z -> result error SC).

(** One service; errors are logged. *)
Definition check_service (es : ElastiService) (s : OpState) (w : W) : option (OpState * W) :=
  '(d, w) ← calculateScaleDirection Parse ParseDuration NewScaler (op_now s) (resolveCooldownPeriod es) es w;
  Some (match d with
        | Err _ | Ok NoScale => (s, w)
        | Ok ScaleDown => ((handleScaleToZero es s).2, w)
        | Ok ScaleUp => ((handleScaleFromZero es s).2, w)
        end).

Fixpoint check_services (l : list ElastiService) (s : OpState) (w : W) : option (OpState * W) :=
  match l with
  | [] => Some (s, w)
  | es :: l => '(s, w) ← check_service es s w; check_services l s w
  end.

Fixpoint check_namespaces (nss : list gostring) (errs : list error) (s : OpState) (w : W)
    : option (option error * OpState * W) :=
  match nss with
  | [] => Some (match errs with
                | [] => None
                | e :: es => Some (ErrWrap (lit "failed to list ElastiServices: ") (foldl ErrJoin e es))
                end, s, w)
  | ns :: nss =>
      match list_crds ns s with
      | (Err err, s) => check_namespaces nss (errs ++ [ErrWrap (lit "namespace: ") err]) s w
      | (Ok items, s) =>
          '(s, w) ← check_services items s w;
          check_namespaces nss errs s w
      end
  end.

Definition checkAndScale (watchNamespaces : list gostring) (s : OpState) (w : W)
    : option (option error * OpState * W) :=
  check_namespaces (listNamespaces watchNamespaces) [] s w.
End scaling.

(** ** Lemmas *)

Lemma bind_ok {A B} (m : M A) (k : A -> M B) s a s' : m s = (Ok a, s') -> (m ≫= k) s = k a s'.
Proof. intros Hm. unfold mbind, M_bind. by rewrite Hm. Qed.
Lemma bind_err {A B} (m : M A) (k : A -> M B) s e s' : m s = (Err e, s') -> (m ≫= k) s = (Err e, s').
Proof. intros Hm. unfold mbind, M_bind. by rewrite Hm. Qed.
Lemma attempt_bind {A B} (m : M A) (k : result error A -> M B) s r s' :
  m s = (r, s') -> (attempt_call m ≫= k) s = k r s'.
Proof. intros Hm. unfold mbind, M_bind, attempt_call. by rewrite Hm. Qed.

(** A read changes nothing but the script of faults. *)
Lemma get_result {K A} `{Countable K} (f : OpState -> gmap K A) k s r s' :
  (forall x s, f (set_faults x s) = f s) -> api_get f k s = (r, s') ->
  f s' = f s /\ forall a, r = Ok a -> f s !! k = Some a.
Proof.
  intros Hf. unfold api_get, call, mbind, M_bind, fault.
  destruct (faults s) as [|[e|] fs]; [| |].
  - destruct (f s !! k) eqn:E; intros [= <- <-]; split; congruence.
  - intros [= <- <-]. split; [apply Hf|congruence].
  - rewrite Hf. destruct (f s !! k) eqn:E; intros [= <- <-]; (split; [apply Hf|congruence]).
Qed.

Lemma update_result {K A} `{Countable K} (f : OpState -> gmap K A) g k upd s r s' :
  (forall x s, f (set_faults x s) = f s) -> (forall x s, f (g x s) = x) ->
  api_update f g k upd s = (r, s') ->
  (exists a, r = Ok tt /\ f s !! k = Some a /\ f s' = <[k := upd a]> (f s))
  \/ (exists e, r = Err e /\ f s' = f s).
Proof.
  intros Hf Hg. unfold api_update, call, mbind, M_bind, fault.
  destruct (faults s) as [|[e|] fs]; [| |].
  - destruct (f s !! k) eqn:E; intros [= <- <-]; [left; eauto|right; eauto].
  - intros [= <- <-]. right. exists e. by rewrite Hf.
  - rewrite Hf. destruct (f s !! k) eqn:E; intros [= <- <-]; [left|right]; eexists; rewrite ?Hg, ?Hf; done.
Qed.

Lemma get_scale_result n t s r s' :
  get_scale n t s = (r, s') -> scales s' = scales s /\ forall sc, r = Ok sc -> scales s !! t = Some sc.
Proof.
  revert s. induction n as [|[|n] IH]; intros s.
  - intros [= <- <-]. done.
  - by apply get_result.
  - change (get_scale (S (S n)) t) with
      (r ← attempt_call (api_get scales t);
       match r with
       | Ok sc => mret sc
       | Err err => if error_is is_no_match err then get_scale (S n) t else fail err
       end).
    destruct (api_get scales t s) as [r1 s1] eqn:Hg. rewrite (attempt_bind _ _ _ _ _ Hg).
    apply get_result in Hg as [Hs1 Hr1]; [|done].
    destruct r1 as [sc|e]; [|destruct (error_is is_no_match e)].
    + intros [= <- <-]. split; [done|]. intros ? [= <-]. by apply Hr1.
    + intros H. apply IH in H as [H1 H2]. split; [congruence|]. by rewrite Hs1 in H2.
    + intros [= <- <-]. split; [done|]. by intros ? [=].
Qed.

(** What a change of the replicas can be: the wanted number, when the target is
    not there yet and, for a scale-up, not beyond it. *)
Definition wanted (d : Z) (sc : ScaleObj) : Prop := sc_status sc <> d /\ (0 < d -> sc_status sc < d).

Lemma Scale_result namespace gvk name d s r s' :
  Scale namespace gvk name d s = (r, s') ->
  let t := scale_target namespace gvk name in
  (exists sc, r = Ok true /\ scales s !! t = Some sc /\ wanted d sc
     /\ scales s' = <[t := mkScale d (sc_status sc)]> (scales s))
  \/ (exists sc, r = Ok false /\ scales s !! t = Some sc /\ ~ wanted d sc /\ scales s' = scales s)
  \/ (exists e, r = Err e /\ scales s' = scales s).
Proof.
  intros HS t. unfold Scale in HS. fold t in HS.
  destruct (get_scale 2 t s) as [r1 s1] eqn:Hg. rewrite (attempt_bind _ _ _ _ _ Hg) in HS.
  apply get_scale_result in Hg as [Hs1 Hr1].
  destruct r1 as [sc|e]; [|injection HS as <- <-; right; right; eauto].
  specialize (Hr1 sc eq_refl).
  destruct (Z.eqb_spec (sc_status sc) d) as [E|Hne].
  { injection HS as <- <-. right. left. exists sc. split_and!; try done. by intros []. }
  destruct (Z.ltb_spec 0 d), (Z.ltb_spec d (sc_status sc)); simpl in HS;
    try (injection HS as <- <-; right; left; exists sc; split_and!; try done; intros [_ Hw]; lia);
  (destruct (api_update scales set_scales t (fun sc => mkScale d (sc_status sc)) s1) as [r2 s2] eqn:Hu;
   rewrite (attempt_bind _ _ _ _ _ Hu) in HS;
   apply update_result in Hu as [(a & -> & Ha & Hs2)|(e & -> & Hs2)]; [| |done|done];
   injection HS as <- <-; simpl;
   [left; exists sc; rewrite Hs1 in Ha, Hs2; assert (a = sc) by congruence; subst a;
    split_and!; try done; split; [done|lia]
   |right; right; eexists; split; [reflexivity|congruence]]).
Qed.

Lemma Scale_keeps {B} (p : OpState -> B) namespace gvk name d :
  (forall x s, p (set_faults x s) = p s) -> (forall x s, p (set_scales x s) = p s) ->
  (forall x s, p (set_events x s) = p s) -> keeps p (Scale namespace gvk name d).
Proof.
  intros Hf Hs He. unfold Scale, get_scale, createEvent. frame.
Qed.

#[export] Hint Resolve Scale_keeps : frame.

Lemma wrap_result {A} msg (m : M A) s r s' :
  wrap msg m s = (r, s') -> exists r0, m s = (r0, s')
    /\ r = match r0 with Ok a => Ok a | Err e => Err (ErrWrap msg e) end.
Proof. unfold wrap. destruct (m s) as [[a|e] s1]; intros [= <- <-]; eauto. Qed.

Lemma update_keda_keeps {B} (p : OpState -> B) spec ns paused :
  (forall x s, p (set_faults x s) = p s) -> (forall x s, p (set_scaled_objects x s) = p s) ->
  keeps p (update_keda spec ns paused).
Proof. intros Hf Ho. unfold update_keda, UpdateKedaScaledObjectPausedState. frame. Qed.
#[export] Hint Resolve update_keda_keeps : frame.

(** A ScaledObject is left paused at zero, or released. *)
Definition keda_is (paused : bool) (ann : gmap gostring gostring) : Prop :=
  ann !! kedaPausedAnnotation = Some (if paused then lit "true" else lit "false")
  /\ ann !! kedaPausedReplicasAnnotation = if paused then Some (lit "0") else None.

Lemma paused_patch_is paused ann : keda_is paused (paused_patch paused ann).
Proof.
  unfold keda_is, paused_patch. destruct paused; split.
  - rewrite lookup_insert_ne by discriminate. apply lookup_insert_eq.
  - apply lookup_insert_eq.
  - rewrite lookup_delete_ne by discriminate. apply lookup_insert_eq.
  - apply lookup_delete_eq.
Qed.

Lemma update_keda_ok spec ns paused s s' :
  update_keda spec ns paused s = (Ok tt, s') ->
  match keda_autoscaler spec with
  | Some name => exists ann, scaled_objects s' !! (ns, name) = Some ann /\ keda_is paused ann
  | None => s' = s
  end.
Proof.
  unfold update_keda, UpdateKedaScaledObjectPausedState. destruct (keda_autoscaler spec) as [name|].
  - intros Hw. apply wrap_result in Hw as (r0 & Hw & Hr).
    apply wrap_result in Hw as (r1 & Hu & ->).
    apply update_result in Hu as [(a & -> & Ha & Hs)|(e & -> & _)]; [|discriminate|done|done].
    exists (paused_patch paused a). rewrite Hs. split; [apply lookup_insert_eq|apply paused_patch_is].
  - by intros [= <-].
Qed.

Section handlers.
Context (ParseGroupVersion : gostring -> result error (gostring * gostring)).

(** The target a service scales, when its API version parses. *)
Definition target_of (ns : gostring) (spec : ElastiServiceSpec) : option target :=
  let r := (GetScaleTargetRef spec).1 in
  match APIVersionStrToGVK ParseGroupVersion (str_APIVersion r) (str_Kind r) with
  | Ok gvk => Some (scale_target ns gvk (str_Name r))
  | Err _ => None
  end.

Definition min_replicas (spec : ElastiServiceSpec) : Z :=
  if spec_MinTargetReplicas spec <? 1 then 1 else spec_MinTargetReplicas spec.

Lemma target_of_GetSpec es : target_of (es_Namespace es) (GetSpec es).1 = target_of (es_Namespace es) (es_Spec es).
Proof. unfold target_of, GetSpec, GetScaleTargetRef. simpl. by rewrite canonical_kind_idem. Qed.

Lemma ScaleToMin_result ns spec s r s' :
  ScaleToMinReplicas ParseGroupVersion ns spec s = (r, s') ->
  match target_of ns spec with
  | Some t =>
      (exists sc, r = Ok true /\ scales s !! t = Some sc /\ wanted (min_replicas spec) sc
         /\ scales s' = <[t := mkScale (min_replicas spec) (sc_status sc)]> (scales s))
      \/ (exists sc, r = Ok false /\ scales s !! t = Some sc /\ ~ wanted (min_replicas spec) sc /\ scales s' = scales s)
      \/ (exists e, r = Err e /\ scales s' = scales s)
  | None => exists e, r = Err e /\ s' = s
  end.
Proof.
  unfold ScaleToMinReplicas, target_of. destruct (APIVersionStrToGVK _ _ _) as [gvk|e].
  - apply Scale_result.
  - intros [= <- <-]. eauto.
Qed.

Lemma ScaleToMin_keeps {B} (p : OpState -> B) ns spec :
  (forall x s, p (set_faults x s) = p s) -> (forall x s, p (set_scales x s) = p s) ->
  (forall x s, p (set_events x s) = p s) -> keeps p (ScaleToMinReplicas ParseGroupVersion ns spec).
Proof. intros Hf Hs He. unfold ScaleToMinReplicas. destruct (APIVersionStrToGVK _ _ _); frame. Qed.

(** What scaling to zero does to the replicas. *)
Lemma toZero_scales es s r s' :
  handleScaleToZero ParseGroupVersion es s = (r, s') ->
  scales s' = scales s
  \/ exists t sc, target_of (es_Namespace es) (es_Spec es) = Some t /\ r = Ok tt
      /\ cooling_down (op_now s) es = false /\ scales s !! t = Some sc /\ sc_status sc <> 0
      /\ scales s' = <[t := mkScale 0 (sc_status sc)]> (scales s)
      /\ match keda_autoscaler (es_Spec es) with
         | Some name => exists ann, scaled_objects s' !! (es_Namespace es, name) = Some ann /\ keda_is true ann
         | None => True
         end.
Proof.
  rewrite <- target_of_GetSpec. change (keda_autoscaler (es_Spec es)) with (keda_autoscaler (GetSpec es).1).
  unfold handleScaleToZero, target_of. rewrite (bind_ok _ _ s (op_now s) s) by done.
  destruct (cooling_down (op_now s) es) eqn:Hcool; [by intros [= <- <-]; left|].
  destruct (update_keda (GetSpec es).1 (es_Namespace es) true s) as [[[]|e] s1] eqn:Hk;
    [rewrite (bind_ok _ _ _ _ _ Hk)|rewrite (bind_err _ _ _ _ _ Hk)];
    pose proof (update_keda_keeps scales (GetSpec es).1 (es_Namespace es) true ltac:(done) ltac:(done) s) as Hks;
    rewrite Hk in Hks; simpl in Hks; [|by intros [= <- <-]; left].
  change (spec_ScaleTargetRef (GetSpec es).1) with (GetScaleTargetRef (es_Spec es)).1.
  change ((GetScaleTargetRef (GetSpec es).1).1) with
    (mkScaleTargetRef (str_APIVersion (spec_ScaleTargetRef (es_Spec es)))
       (canonical_kind (canonical_kind (str_Kind (spec_ScaleTargetRef (es_Spec es)))))
       (str_Name (spec_ScaleTargetRef (es_Spec es)))).
  rewrite canonical_kind_idem. simpl str_APIVersion. simpl str_Kind. simpl str_Name.
  destruct (APIVersionStrToGVK _ _ _) as [gvk|e]; [|intros [= <- <-]; left; congruence].
  destruct (Scale (es_Namespace es) gvk (str_Name (spec_ScaleTargetRef (es_Spec es))) 0 s1) as [r0 s2] eqn:HS.
  intros Hbind.
  assert (s' = s2 /\ r = match r0 with Ok _ => Ok tt | Err e => Err (ErrWrap (lit "failed to scale target to zero: ") e) end) as [-> ->].
  { revert Hbind. unfold mbind, M_bind, wrap.
    change (str_Name (GetScaleTargetRef (es_Spec es)).1) with (str_Name (spec_ScaleTargetRef (es_Spec es))).
    rewrite HS. by destruct r0; intros [= <- <-]. }
  pose proof (Scale_keeps scaled_objects (es_Namespace es) gvk (str_Name (spec_ScaleTargetRef (es_Spec es))) 0
    ltac:(done) ltac:(done) ltac:(done) s1) as Hso. rewrite HS in Hso. simpl in Hso.
  apply Scale_result in HS as [(sc & -> & Hsc & Hwant & Hs)|[(sc & -> & _ & _ & Hs)|(e & -> & Hs)]];
    [right|left; congruence|left; congruence].
  rewrite Hks in Hsc, Hs. eexists _, sc. split_and!; try done; [apply Hwant|].
  apply update_keda_ok in Hk. destruct (keda_autoscaler _); [|done]. by rewrite Hso.
Qed.

Lemma toZero_keeps_now es : keeps op_now (handleScaleToZero ParseGroupVersion es).
Proof. unfold handleScaleToZero. frame. Qed.

Lemma fromZero_keeps_now es : keeps op_now (handleScaleFromZero ParseGroupVersion es).
Proof.
  unfold handleScaleFromZero, UpdateLastScaledUpTime, ScaleToMinReplicas. frame.
Qed.
End handlers.

(** *** The decision *)

Section idle.
Context {S W : Type} `{Scaler S W} (NewScaler : gostring -> Z -> result error S).

(** Every trigger has a scaler that is healthy and finds the service idle; the
    scalers run one after the other. *)
Inductive all_idle (cooldown : Z) : list ScaleTrigger -> W -> W -> Prop :=
| idle_nil w : all_idle cooldown [] w w
| idle_cons trigger triggers scaler w w1 w2 w3 :
    createScalerForTrigger NewScaler trigger cooldown = Ok scaler ->
    IsHealthy scaler w = Some (Ok true, w1) -> ShouldScaleToZero scaler w1 = Some (Ok true, w2) ->
    all_idle cooldown triggers w2 w3 -> all_idle cooldown (trigger :: triggers) w w3.

Lemma eval_down triggers cooldown w w' :
  eval_triggers NewScaler triggers cooldown w = Some (Ok ScaleDown, w') <-> all_idle cooldown triggers w w'.
Proof.
  split.
  - revert w. induction triggers as [|tr triggers IH]; intros w; simpl; [intros [= <-]; constructor|].
    destruct (createScalerForTrigger _ tr cooldown) as [sc|] eqn:Hc; [|discriminate].
    destruct (IsHealthy sc w) as [[[[]|] w1]|] eqn:Hh; simpl; try discriminate.
    destruct (ShouldScaleToZero sc w1) as [[[[]|] w2]|] eqn:Hz; simpl; try discriminate.
    intros Hr. econstructor; eauto.
  - induction 1 as [|tr triggers sc w w1 w2 w3 Hc Hh Hz _ IH]; [done|]. simpl. by rewrite Hc, Hh; simpl; rewrite Hz.
Qed.
End idle.

(** *** The periodic check *)

Section check.
Context (ParseGroupVersion : gostring -> result error (gostring * gostring)).
Context (Parse : gostring -> result error Schedule) (ParseDuration : gostring -> result error Z).
Context {SC W : Type} `{Scaler SC W} (NewScaler : gostring -> Z -> result error SC).

(** Some service with this target was found idle and is not cooling down. *)
Definition judged_idle (now : Z) (t : target) : Prop :=
  exists es w w', target_of ParseGroupVersion (es_Namespace es) (es_Spec es) = Some t
    /\ calculateScaleDirection Parse ParseDuration NewScaler now (resolveCooldownPeriod es) es w
       = Some (Ok ScaleDown, w')
    /\ cooling_down now es = false.

(** What may happen to the replicas of a target: nothing, a scale-up, or a
    scale to zero of an idle service. *)
Definition allowed (now : Z) (t : target) (o o' : option ScaleObj) : Prop :=
  o' = o \/ exists sc d, o = Some sc /\ o' = Some (mkScale d (sc_status sc))
    /\ ((0 < d /\ sc_status sc < d) \/ (d = 0 /\ judged_idle now t)).

Lemma allowed_trans now t o1 o2 o3 : allowed now t o1 o2 -> allowed now t o2 o3 -> allowed now t o1 o3.
Proof.
  intros [->|(sc & d & -> & -> & Hd)] [->|(sc' & d' & E & -> & Hd')]; unfold allowed.
  - by left.
  - right. eauto 6.
  - right. eauto 6.
  - right. injection E as <-. simpl in *. exists sc, d'. done.
Qed.

Definition ok_step (now : Z) (s s' : OpState) : Prop :=
  op_now s = now -> op_now s' = now /\ forall t, allowed now t (scales s !! t) (scales s' !! t).

Lemma ok_step_trans now s1 s2 s3 : ok_step now s1 s2 -> ok_step now s2 s3 -> ok_step now s1 s3.
Proof.
  intros H12 H23 E. destruct (H12 E) as [E2 A]. destruct (H23 E2) as [E3 B].
  split; [done|]. intros t. by eapply allowed_trans.
Qed.

Lemma ok_step_keep now s s' : op_now s' = op_now s -> scales s' = scales s -> ok_step now s s'.
Proof. intros Ho Hs E. rewrite Ho, Hs. split; [done|]. by left. Qed.

Lemma fromZero_scales es s :
  let s' := (handleScaleFromZero ParseGroupVersion es s).2 in
  scales s' = scales s \/ exists t sc d, scales s !! t = Some sc /\ 0 < d /\ sc_status sc < d
    /\ scales s' = <[t := mkScale d (sc_status sc)]> (scales s).
Proof.
  simpl. unfold handleScaleFromZero.
  destruct (UpdateLastScaledUpTime (es_Name es) (es_Namespace es) s) as [r1 s1] eqn:H1.
  rewrite (attempt_bind _ _ _ _ _ H1).
  assert (scales s1 = scales s) as Hs1.
  { assert (keeps scales (UpdateLastScaledUpTime (es_Name es) (es_Namespace es))) as Hk
      by (unfold UpdateLastScaledUpTime; frame).
    specialize (Hk s). by rewrite H1 in Hk. }
  pose proof (update_keda_keeps scales (GetSpec es).1 (es_Namespace es) false ltac:(done) ltac:(done) s1) as Hk.
  destruct (update_keda (GetSpec es).1 (es_Namespace es) false s1) as [[[]|e] s2] eqn:H2; simpl in Hk;
    [rewrite (bind_ok _ _ _ _ _ H2)|rewrite (bind_err _ _ _ _ _ H2); left; simpl; congruence].
  destruct (ScaleToMinReplicas ParseGroupVersion (es_Namespace es) (GetSpec es).1 s2) as [r3 s3] eqn:H3.
  assert ((mbind (M:=M) (fun _ => mret tt) (wrap (lit "failed to scale target from zero: ")
            (ScaleToMinReplicas ParseGroupVersion (es_Namespace es) (GetSpec es).1)) s2).2 = s3) as ->.
  { unfold mbind, M_bind, wrap. rewrite H3. by destruct r3. }
  apply ScaleToMin_result in H3. destruct (target_of _ _ _) as [t|].
  - destruct H3 as [(sc & _ & Hsc & [Hne Hw] & Hs)|[(sc & _ & _ & _ & Hs)|(e & _ & Hs)]]; [right|left; congruence..].
    rewrite Hk, Hs1 in Hsc, Hs. exists t, sc, (min_replicas (GetSpec es).1).
    assert (0 < min_replicas (GetSpec es).1) by (unfold min_replicas; destruct (Z.ltb_spec (spec_MinTargetReplicas (GetSpec es).1) 1); lia).
    split_and!; auto.
  - destruct H3 as (e & _ & ->). left. congruence.
Qed.

Lemma check_service_ok now es s w s' w' :
  check_service ParseGroupVersion Parse ParseDuration NewScaler es s w = Some (s', w') -> ok_step now s s'.
Proof.
  intros Hc Hnow. revert Hc. unfold check_service.
  destruct (calculateScaleDirection _ _ _ _ _ es w) as [[[[]|e] w1]|] eqn:Hd; simpl; intros [= <- <-];
    try (split; [done|by left]).
  - split; [by rewrite fromZero_keeps_now|]. intros t.
    destruct (fromZero_scales es s) as [->|(t' & sc & d & Hsc & Hpos & Hlt & ->)]; [by left|].
    destruct (decide (t' = t)) as [->|]; [|rewrite lookup_insert_ne by done; by left].
    rewrite lookup_insert_eq, Hsc. right. exists sc, d. split_and!; try done. by left.
  - split; [by rewrite toZero_keeps_now|]. intros t.
    destruct (handleScaleToZero ParseGroupVersion es s) as [r s1] eqn:Hz. simpl.
    apply toZero_scales in Hz as [->|(t' & sc & Ht & _ & Hcool & Hsc & _ & -> & _)]; [by left|].
    destruct (decide (t' = t)) as [->|]; [|rewrite lookup_insert_ne by done; by left].
    rewrite lookup_insert_eq, Hsc. right. exists sc, 0. split_and!; try done. right. split; [done|].
    rewrite Hnow in *. by exists es, w, w1.
Qed.

Lemma check_services_ok now l s w s' w' :
  check_services ParseGroupVersion Parse ParseDuration NewScaler l s w = Some (s', w') -> ok_step now s s'.
Proof.
  revert s w. induction l as [|es l IH]; intros s w; simpl; [intros [= <- _]; by apply ok_step_keep|].
  destruct (check_service _ _ _ _ es s w) as [[s1 w1]|] eqn:Hc; simpl; [|discriminate].
  intros Hr. eapply ok_step_trans; [by eapply check_service_ok|by eapply IH].
Qed.

Lemma list_crds_keeps {B} (p : OpState -> B) ns :
  (forall x s, p (set_faults x s) = p s) -> keeps p (list_crds ns).
Proof. intros Hf. by apply keeps_call. Qed.

Lemma check_namespaces_ok now nss errs s w err s' w' :
  check_namespaces ParseGroupVersion Parse ParseDuration NewScaler nss errs s w = Some (err, s', w') -> ok_step now s s'.
Proof.
  revert errs s w. induction nss as [|ns nss IH]; intros errs s w; simpl; [intros [= _ <- _]; by apply ok_step_keep|].
  pose proof (list_crds_keeps scales ns ltac:(done) s) as Hs.
  pose proof (list_crds_keeps op_now ns ltac:(done) s) as Hn.
  destruct (list_crds ns s) as [[items|e] s1]; simpl in *.
  - destruct (check_services _ _ _ _ items s1 w) as [[s2 w2]|] eqn:Hc; simpl; [|discriminate]. intros Hr.
    eapply ok_step_trans; [by apply ok_step_keep|]. eapply ok_step_trans; [by eapply check_services_ok|by eapply IH].
  - intros Hr. eapply ok_step_trans; [by apply ok_step_keep|by eapply IH].
Qed.
End check.

(** ** Properties *)

Section properties.
Context (ParseGroupVersion : gostring -> result error (gostring * gostring)).
Context (Parse : gostring -> result error Schedule) (ParseDuration : gostring -> result error Z).
Context {SC W : Type} `{Scaler SC W} (NewScaler : gostring -> Z -> result error SC).

(** C10: a service is scaled down if and only if it has triggers, is at least the
    cooldown old, is inside its enabled period (if it has one), and every trigger
    has a scaler that is healthy and finds it idle; any error, any unhealthy
    scaler and any busy trigger prevents it. *)
Theorem scale_down_iff_idle now cooldown es w w' :
  calculateScaleDirection Parse ParseDuration NewScaler now cooldown es w = Some (Ok ScaleDown, w')
  <-> spec_Triggers (es_Spec es) <> [] /\ es_CreationTimestamp es + cooldown <= now
      /\ match spec_EnabledPeriod (es_Spec es) with
         | None => True
         | Some p => isInEnabledPeriod Parse ParseDuration now p = Some (Ok true)
         end
      /\ all_idle NewScaler cooldown (spec_Triggers (es_Spec es)) w w'.
Proof.
  rewrite <- eval_down. unfold calculateScaleDirection.
  destruct (spec_Triggers (es_Spec es)) as [|tr trs]; [by split; [|intros []]|].
  destruct (Z.ltb_spec now (es_CreationTimestamp es + cooldown)).
  { split; [discriminate|]. intros (_ & ? & _). lia. }
  destruct (spec_EnabledPeriod (es_Spec es)) as [p|]; simpl mbind.
  - destruct (isInEnabledPeriod Parse ParseDuration now p) as [[[]|e]|]; simpl;
      (split; [intros Hr|intros (_ & _ & Hp & Hr)]); try discriminate Hp; try discriminate Hr; try done.
  - split; [intros Hr; by split_and!|by intros (_ & _ & _ & Hr)].
Qed.


(** Scaling to zero happens only out of the cooldown, changes the replicas of
    the service's own target only, and leaves a KEDA ScaledObject paused at zero
    whenever it changed the replicas. *)
Theorem scale_to_zero_pauses_keda es s r s'
    (Hz : handleScaleToZero ParseGroupVersion es s = (r, s')) :
  scales s' = scales s
  \/ exists t sc, target_of ParseGroupVersion (es_Namespace es) (es_Spec es) = Some t /\ r = Ok tt
      /\ cooling_down (op_now s) es = false /\ scales s !! t = Some sc /\ sc_status sc <> 0
      /\ scales s' = <[t := mkScale 0 (sc_status sc)]> (scales s)
      /\ match keda_autoscaler (es_Spec es) with
         | Some name => exists ann, scaled_objects s' !! (es_Namespace es, name) = Some ann /\ keda_is true ann
         | None => True
         end.
Proof. by apply toZero_scales. Qed.

(** The scale-up compares with the replicas that exist, not with those asked
    for: while a target that was set to zero still has its pods, a scale-up is
    taken to be done and is lost. *)
Theorem scale_up_lost_while_terminating ns spec s t k
    (Ht : target_of ParseGroupVersion ns spec = Some t)
    (Hs : scales s !! t = Some (mkScale 0 k)) (Hk : min_replicas spec <= k) (Hf : faults s = []) :
  ScaleToMinReplicas ParseGroupVersion ns spec s = (Ok false, s).
Proof.
  unfold ScaleToMinReplicas, target_of in *. destruct (APIVersionStrToGVK _ _ _) as [gvk|]; [|discriminate].
  injection Ht as <-. unfold Scale.
  set (t := scale_target ns gvk (str_Name (GetScaleTargetRef spec).1)).
  change (scales s !! t = Some (mkScale 0 k)) in Hs.
  assert (api_get scales t s = (Ok (mkScale 0 k), s)) as Hg.
  { unfold api_get, call, mbind, M_bind, fault. by rewrite Hf, Hs. }
  assert (get_scale 2 t s = (Ok (mkScale 0 k), s)) as Hgs.
  { change (get_scale 2 t) with
      (r ← attempt_call (api_get scales t);
       match r with
       | Ok sc => mret sc
       | Err err => if error_is is_no_match err then get_scale 1 t else fail err
       end). by rewrite (attempt_bind _ _ _ _ _ Hg). }
  rewrite (attempt_bind _ _ _ _ _ Hgs). simpl. unfold min_replicas in Hk.
  destruct (Z.ltb_spec (spec_MinTargetReplicas spec) 1).
  - destruct (Z.eqb_spec k 1); [done|]. destruct (Z.ltb_spec 1 k); [done|lia].
  - destruct (Z.eqb_spec k (spec_MinTargetReplicas spec)); [done|].
    destruct (Z.ltb_spec 0 (spec_MinTargetReplicas spec)), (Z.ltb_spec (spec_MinTargetReplicas spec) k); simpl; (done || lia).
Qed.
End properties.

(** The cooldown never overflows: for every non-negative [int32] number of
    seconds it is a positive number of nanoseconds below [2^63], the default for
    zero and the exact number otherwise. *)
Theorem cooldown_no_overflow es
    (Hc : 0 <= spec_CooldownPeriod (es_Spec es) < 2 ^ 31) :
  0 < resolveCooldownPeriod es < 2 ^ 63
  /\ (spec_CooldownPeriod (es_Spec es) = 0 -> resolveCooldownPeriod es = 900 * second)
  /\ (spec_CooldownPeriod (es_Spec es) <> 0 ->
      resolveCooldownPeriod es = spec_CooldownPeriod (es_Spec es) * second).
Proof.
  unfold resolveCooldownPeriod, DefaultCooldownPeriod, int64. unfold second. rewrite int_of_id by lia.
  destruct (Z.eqb_spec (1000000000 * spec_CooldownPeriod (es_Spec es)) 0); lia.
Qed.

(** ** Witnesses *)

(** A run by its result: only the result is evaluated. *)
Lemma run_pair {A} (m : M A) s r : (m s).1 = r -> m s = (r, (m s).2).
Proof. intros <-. apply surjective_pairing. Qed.
Lemma run_check {W} (r : option (option error * OpState * W)) s0 w0 :
  fst ∘ fst <$> r = Some None ->
  r = Some (None, (from_option (fun x => (x.1.2, x.2)) (s0, w0) r).1, (from_option (fun x => (x.1.2, x.2)) (s0, w0) r).2).
Proof. destruct r as [[[[e|] s] w]|]; simpl; congruence. Qed.

(** One idle service with a KEDA autoscaler in a cluster, and a Prometheus that
    reports a healthy server and a value under the threshold. *)
Definition apps_v1 (_ : gostring) : result error (gostring * gostring) := Ok (lit "apps", lit "v1").
Definition no_cron (_ : gostring) : result error Schedule := Err ErrNoMatch.
Definition no_duration (_ : gostring) : result error Z := Err ErrNoMatch.
Definition example_es : ElastiService :=
  mkElastiService (lit "es") (lit "ns") 0 None []
    (mkSpec (mkScaleTargetRef (lit "apps/v1") (lit "deployments") (lit "web")) (lit "svc") [] 1 0
       [mkScaleTrigger (lit "prometheus") []] (Some (mkAutoscaler (lit "keda") (lit "so"))) None)
    (mkStatus 0 None []).
Definition web : target := (lit "ns", (lit "apps", lit "deployments"), lit "web").
Definition example_op (sc : ScaleObj) : OpState :=
  mkOp {[ (lit "ns", lit "es") := example_es ]} ∅ ∅ {[ web := sc ]} {[ (lit "ns", lit "so") := ∅ ]}
    [] [] [] (1000 * second) ∅ ∅ ∅.
Definition new_example (_ : gostring) (_ : Z) : result error prometheusScaler := Ok example_scaler.
Definition idle_world : prom_world :=
  mkProm [QueryAnswered 200 (Ok (PromBody (Some sample))); QueryAnswered 200 (Ok (PromBody (Some sample)))] [] [].
#[local] Instance example_prom : Scaler prometheusScaler prom_world := prometheus_Scaler always_one no_url any_url [].

Definition after_check : OpState * prom_world :=
  from_option (fun x => (x.1.2, x.2)) (example_op (mkScale 3 3), idle_world)
    (checkAndScale apps_v1 no_cron no_duration new_example [] (example_op (mkScale 3 3)) idle_world).


Lemma scale_to_zero_pauses_keda_witness :
  let s := example_op (mkScale 3 3) in
  let s' := (handleScaleToZero apps_v1 example_es s).2 in
  scales s' = scales s
  \/ exists t sc, target_of apps_v1 (lit "ns") (es_Spec example_es) = Some t /\ Ok tt = @Ok error unit tt
      /\ cooling_down (op_now s) example_es = false /\ scales s !! t = Some sc /\ sc_status sc <> 0
      /\ scales s' = <[t := mkScale 0 (sc_status sc)]> (scales s)
      /\ exists ann, scaled_objects s' !! (lit "ns", lit "so") = Some ann /\ keda_is true ann.
Proof.
  refine (scale_to_zero_pauses_keda apps_v1 example_es (example_op (mkScale 3 3)) (Ok tt) _ _).
  apply run_pair. vm_compute. reflexivity.
Defined.

Lemma scale_up_lost_while_terminating_witness :
  ScaleToMinReplicas apps_v1 (lit "ns") (es_Spec example_es) (example_op (mkScale 0 3))
  = (Ok false, example_op (mkScale 0 3)).
Proof.
  apply (scale_up_lost_while_terminating apps_v1) with (t := web) (k := 3); try reflexivity.
  by apply Z.leb_le.
Defined.

Lemma cooldown_no_overflow_witness :
  0 < resolveCooldownPeriod example_es < 2 ^ 63
  /\ (spec_CooldownPeriod (es_Spec example_es) = 0 -> resolveCooldownPeriod example_es = 900 * second)
  /\ (spec_CooldownPeriod (es_Spec example_es) <> 0 ->
      resolveCooldownPeriod example_es = spec_CooldownPeriod (es_Spec example_es) * second).
Proof. apply cooldown_no_overflow. simpl. lia. Defined.
