(* ===== verification/Config.v ===== *)
(** * Configuration and scope ([pkg/config/config.go], [operator/cmd/main.go])

    The environment variables both programs read, and the set of namespaces the
    operator is confined to. *)

From S2P Require Import Prelude GoStrings Scaling.
Local Open Scope Z_scope.

(** ** Environment variables *)

Record Config := mkConfig {
  cfg_Namespace : gostring;
  cfg_DeploymentName : gostring;
  cfg_ServiceName : gostring;
  cfg_Port : Z
}.
Record ResolverConfig := mkResolverConfig { rc_Config : Config; ReverseProxyPort : Z }.

Section env.
(** [os.Getenv] *)
Context (Getenv : gostring -> gostring).

(** [None] is a panic. *)
Definition getEnvStringOrPanic (envName : gostring) : option gostring :=
  let envValue := Getenv envName in
  if bool_decide (envValue = []) then None else Some envValue.

(** [strconv.ParseInt(s, 10, 32)]: an optional sign and decimal digits, within
    32 bits. *)
Fixpoint parse_digits (acc : Z) (s : gostring) : option Z :=
  match s with
  | [] => Some acc
  | c :: s => if is_digit c then parse_digits (10 * acc + (Z.of_N (code c) - 48)) s else None
  end.
Definition ParseInt32 (s : gostring) : option Z :=
  let '(neg, digits) :=
    match s with
    | "-"%char :: s => (true, s)
    | "+"%char :: s => (false, s)
    | s => (false, s)
    end in
  if bool_decide (digits = []) then None
  else
    n ← parse_digits 0 digits;
    let n := if neg : bool then - n else n in
    if (- 2 ^ 31 <=? n) && (n <? 2 ^ 31) then Some n else None.

Definition getEnvPortOrPanic (envName : gostring) : option Z :=
  envValue ← getEnvStringOrPanic envName;
  port ← ParseInt32 envValue;
  if (port <? 1) || (65535 <? port) then None else Some port.

Definition GetKubernetesClusterDomain : option gostring :=
  getEnvStringOrPanic (lit "KUBERNETES_CLUSTER_DOMAIN").

Definition GetResolverConfig : option ResolverConfig :=
  ns ← getEnvStringOrPanic (lit "ELASTI_RESOLVER_NAMESPACE");
  dep ← getEnvStringOrPanic (lit "ELASTI_RESOLVER_DEPLOYMENT_NAME");
  svc ← getEnvStringOrPanic (lit "ELASTI_RESOLVER_SERVICE_NAME");
  port ← getEnvPortOrPanic (lit "ELASTI_RESOLVER_PORT");
  proxy ← getEnvPortOrPanic (lit "ELASTI_RESOLVER_PROXY_PORT");
  Some (mkResolverConfig (mkConfig ns dep svc port) proxy).

Definition GetOperatorConfig : option Config :=
  ns ← getEnvStringOrPanic (lit "ELASTI_OPERATOR_NAMESPACE");
  dep ← getEnvStringOrPanic (lit "ELASTI_OPERATOR_DEPLOYMENT_NAME");
  svc ← getEnvStringOrPanic (lit "ELASTI_OPERATOR_SERVICE_NAME");
  port ← getEnvPortOrPanic (lit "ELASTI_OPERATOR_PORT");
  Some (mkConfig ns dep svc port).

Definition GetWatchNamespaces : list gostring :=
  let raw := Getenv (lit "WATCH_NAMESPACES") in
  if bool_decide (raw = []) then []
  else filter (fun s => s <> []) (map TrimSpace (Split raw ","%char)).

Lemma port_in_range envName port : getEnvPortOrPanic envName = Some port -> 1 <= port <= 65535.
Proof.
  unfold getEnvPortOrPanic. destruct (getEnvStringOrPanic envName); simpl; [|done].
  destruct (ParseInt32 _) as [p|]; simpl; [|done].
  destruct (Z.ltb_spec p 1), (Z.ltb_spec 65535 p); simpl; intros [= <-]; lia.
Qed.

Lemma GetWatchNamespaces_trimmed ns : ns ∈ GetWatchNamespaces -> ns <> [] /\ TrimSpace ns = ns.
Proof.
  unfold GetWatchNamespaces. case_bool_decide; [by intros ?%elem_of_nil|].
  intros [Hne Hin]%list_elem_of_filter. split; [done|].
  apply list_elem_of_In, in_map_iff in Hin as (x & <- & _). apply TrimSpace_idem.
Qed.
End env.

(** ** Scope *)

(** The loop of [effectiveWatchNamespaces]. *)
Fixpoint dedup (seen : gset gostring) (all : list gostring) : list gostring :=
  match all with
  | [] => []
  | ns :: all =>
      if bool_decide (ns = []) then dedup seen all
      else if bool_decide (ns ∈ seen) then dedup seen all
      else ns :: dedup ({[ns]} ∪ seen) all
  end.

Definition effectiveWatchNamespaces (watch alwaysInclude : list gostring) : list gostring :=
  match watch with
  | [] => []
  | _ => dedup ∅ (watch ++ alwaysInclude)
  end.

(** The keys of [DefaultNamespaces]; the zero options have none. *)
Definition buildCacheOptions (watchNamespaces : list gostring) : gset gostring :=
  list_to_set watchNamespaces.

Definition namespaceInScope (watchNamespaces : list gostring) (namespace : gostring) : bool :=
  match watchNamespaces with
  | [] => true
  | _ => existsb (fun ns => bool_decide (ns = namespace)) watchNamespaces
  end.

(** The namespaces [main] confines the operator to: the environment, or the
    legacy flag, with the operator's and the resolver's own. *)
Definition main_watch (env_watch : list gostring) (flag operatorNs resolverNs : gostring) : list gostring :=
  let watch := match env_watch with
               | [] => if bool_decide (flag = []) then [] else [flag]
               | _ => env_watch
               end in
  effectiveWatchNamespaces watch [operatorNs; resolverNs].

(** ** Lemmas *)

Lemma elem_of_dedup seen all ns : ns ∈ dedup seen all <-> ns ∈ all /\ ns <> [] /\ ns ∉ seen.
Proof.
  revert seen. induction all as [|x all IH]; intros seen; simpl; [set_solver|].
  case_bool_decide as H1; [rewrite IH; set_solver|].
  case_bool_decide as H2; [rewrite IH; set_solver|].
  rewrite elem_of_cons, IH. destruct (decide (ns = x)) as [->|]; set_solver.
Qed.

Lemma NoDup_dedup seen all : NoDup (dedup seen all).
Proof.
  revert seen. induction all as [|x all IH]; intros seen; simpl; [constructor|].
  case_bool_decide; [done|]. case_bool_decide; [done|].
  constructor; [rewrite elem_of_dedup; set_solver|apply IH].
Qed.

Lemma in_scope_iff watch ns : watch <> [] -> namespaceInScope watch ns = true <-> ns ∈ watch.
Proof.
  intros Hw. destruct watch as [|w ws]; [done|]. unfold namespaceInScope. rewrite existsb_exists.
  setoid_rewrite bool_decide_eq_true. setoid_rewrite <- list_elem_of_In. naive_solver.
Qed.

(** ** Properties *)


