(* ===== verification/Startup.v ===== *)
(** * Starting both programs ([resolver/cmd/main.go], [operator/cmd/main.go], [elastiServer.go])

    The resolver's configuration and the components it is turned into, the
    servers of both programs with their routes, the addresses under which the
    resolver calls the operator, and the order in which the operator starts. *)

From S2P Require Import Prelude GoStrings HostManager Semaphore Breaker Throttler CrdCache Cron Config.
Local Open Scope Z_scope.

(** ** [net/http] *)

(** [http.ServeMux] by its patterns.  Registering a pattern twice panics. *)
Section mux.
Context {H : Type}.

Definition Handle (pattern : gostring) (h : H) (m : option (list (gostring * H))) : option (list (gostring * H)) :=
  routes ← m;
  if bool_decide (pattern ∈ routes.*1) then None else Some (routes ++ [(pattern, h)]).

(** A pattern that ends in a slash matches all paths below it. *)
Definition pattern_matches (path pattern : gostring) : bool :=
  bool_decide (path = pattern) || (HasSuffix pattern (lit "/") && HasPrefix path pattern).

(** The handler of the longest pattern that matches. *)
Fixpoint longest (path : gostring) (m : list (gostring * H)) (best : option (gostring * H)) : option (gostring * H) :=
  match m with
  | [] => best
  | (pattern, h) :: m =>
      if pattern_matches path pattern
         && match best with Some (b, _) => bool_decide (length b < length pattern)%nat | None => true end
      then longest path m (Some (pattern, h))
      else longest path m best
  end.
Definition route (path : gostring) (m : list (gostring * H)) : option H := snd <$> longest path m None.
End mux.

Record Server (H : Type) := mkServer {
  Addr : gostring;
  Handler : list (gostring * H);
  ReadHeaderTimeout : Z;
  UnencryptedHTTP2 : bool
}.
Arguments mkServer {H}.
Arguments Addr {H}.
Arguments Handler {H}.
Arguments ReadHeaderTimeout {H}.
Arguments UnencryptedHTTP2 {H}.

(** [net.JoinHostPort] *)
Definition JoinHostPort (host port : gostring) : gostring :=
  if bool_decide (":"%char ∈ host) || bool_decide ("%"%char ∈ host)
  then lit "[" ++ host ++ lit "]:" ++ port else host ++ lit ":" ++ port.

(** ** The resolver *)

Record config := mkEnv {
  MaxIdleProxyConns : Z;
  MaxIdleProxyConnsPerHost : Z;
  env_ReqTimeout : Z;
  env_TrafficReEnableDuration : Z;
  env_TrafficDisableGraceDuration : Z;
  env_OperatorRetryDuration : Z;
  env_QueueRetryDuration : Z;
  QueueSize : Z;
  MaxQueueConcurrency : Z;
  env_InitialCapacity : Z;
  HeaderForHost : gostring;
  CRDCachePollIntervalMinutes : Z;
  SentryDsn : gostring;
  SentryEnv : gostring;
  EnableH2C : bool
}.

(** The values of the [default] tags, which [envconfig.Process] uses for
    variables that are not set. *)
Definition default_config : config :=
  mkEnv 1000 100 600 30 15 30 5 100 10 100 (lit "Host") 5 [] [] false.

(** [time.Duration(n) * unit] on 64-bit integers. *)
Definition duration_of (n unit : Z) : Z := int64 (n * unit).
Definition minute : Z := 60 * second.

Inductive resolver_handler := ServeHTTP | Metrics | QueueStatus | CRDCacheStatus | Healthz | Readyz.

Record resolver := mkResolver {
  r_retryDuration : Z;
  r_hosts : HMConfig;
  r_cache : Cache;
  r_transport : Z * Z;
  r_throttler : ThrottlerParams;
  r_breaker : Breaker;
  r_timeout : Z;
  r_proxy : Server resolver_handler;
  r_internal : Server resolver_handler
}.

Definition breaker_params (env : config) : BreakerParams :=
  {| QueueDepth := QueueSize env; MaxConcurrency := MaxQueueConcurrency env; InitialCapacity := env_InitialCapacity env |}.

Definition proxy_mux : option (list (gostring * resolver_handler)) :=
  Handle (lit "/") ServeHTTP (Some []).

Definition internal_mux : option (list (gostring * resolver_handler)) :=
  Handle (lit "/readyz") Readyz (Handle (lit "/healthz") Healthz (Handle (lit "/crd-cache-status") CRDCacheStatus
    (Handle (lit "/queue-status") QueueStatus (Handle (lit "/metrics") Metrics (Some []))))).

(** [main] up to the servers; [None] is a panic. *)
Definition main (env : config) (rc : ResolverConfig) : option resolver :=
  breaker ← NewBreaker (breaker_params env);
  proxy ← proxy_mux;
  internal ← internal_mux;
  Some {|
    r_retryDuration := duration_of (env_OperatorRetryDuration env) second;
    r_hosts := {| trafficReEnableDuration := duration_of (env_TrafficReEnableDuration env) second;
                  trafficDisableGraceDuration := duration_of (env_TrafficDisableGraceDuration env) second;
                  headerForHost := HeaderForHost env |};
    r_cache := New (duration_of (CRDCachePollIntervalMinutes env) minute);
    r_transport := (MaxIdleProxyConns env, MaxIdleProxyConnsPerHost env);
    r_throttler := {| QueueRetryDuration := duration_of (env_QueueRetryDuration env) second;
                      TrafficReEnableDuration := duration_of (env_TrafficReEnableDuration env) second |};
    r_breaker := breaker;
    r_timeout := duration_of (env_ReqTimeout env) second;
    r_proxy := mkServer (lit ":" ++ Itoa (ReverseProxyPort rc)) proxy (5 * second) (EnableH2C env);
    r_internal := mkServer (lit ":" ++ Itoa (cfg_Port (rc_Config rc))) internal (2 * second) false
  |}.

(** ** The resolver's calls of the operator ([RPCClient.go]) *)

Definition elastiServiceCacheEndpoint : gostring := lit "/crd-cache".
Definition incomingRequestEndpoint : gostring := lit "/informer/incoming-request".

(** [operatorURL] of the client that [NewOperatorClient] makes. *)
Definition operatorURL (operatorConfig : Config) (clusterDomain : gostring) : gostring :=
  let operatorHost := cfg_ServiceName operatorConfig ++ lit "." ++ cfg_Namespace operatorConfig ++ lit ".svc." ++ clusterDomain in
  lit "http://" ++ JoinHostPort operatorHost (Itoa (cfg_Port operatorConfig)).

(** The authority and the path of a URL without query. *)
Definition split_url (url : gostring) : option (gostring * gostring) :=
  if HasPrefix url (lit "http://") then
    let rest := drop 7 url in
    match Split rest "/"%char with
    | authority :: _ => Some (authority, drop (length authority) rest)
    | [] => None
    end
  else None.

(** ** The operator's server ([elastiServer.go]) *)

Inductive server_handler := ServerMetrics | ResolverReqHandler | CrdCacheHandler.

Definition server_mux : option (list (gostring * server_handler)) :=
  Handle (lit "/crd-cache") CrdCacheHandler (Handle (lit "/informer/incoming-request") ResolverReqHandler
    (Handle (lit "/metrics") ServerMetrics (Some []))).

Definition Start (port : gostring) : option (Server server_handler) :=
  m ← server_mux; Some (mkServer (lit ":" ++ TrimPrefix port (lit ":")) m (2 * second) false).

(** ** The operator's [mainWithError] *)

(** How each step of the start goes.  The server runs in a goroutine: it may
    fail before the one look at its error channel or later. *)
Record startup := mkStartup {
  su_NewManager : option error;
  su_SetupWithManager : option error;
  su_server_early : option error;
  su_server_late : option error;
  su_AddHealthzCheck : option error;
  su_AddReadyzCheck : option error;
  su_WaitForCacheSync : bool;
  su_Initialize : option error;
  su_manager : option error
}.

Definition main_error (e : error) : error := ErrWrap (lit "main: ") e.

(** Where it ends: it returns, or it waits for a channel nobody sends on. *)
Inductive main_end := Returns (err : option error) | WaitsForever.

Definition mainWithError (o : startup) : main_end :=
  match su_NewManager o with Some e => Returns (Some (main_error e)) | None =>
  match su_SetupWithManager o with Some e => Returns (Some (main_error e)) | None =>
  match su_server_early o with
  | Some e => Returns (Some (main_error (ErrWrap (lit "elasti server: ") e))) | None =>
  match su_AddHealthzCheck o with Some e => Returns (Some (main_error e)) | None =>
  match su_AddReadyzCheck o with Some e => Returns (Some (main_error e)) | None =>
  if negb (su_WaitForCacheSync o) then Returns (Some (ErrText (lit "failed to sync cache")))
  else
    match su_Initialize o with Some e => Returns (Some (main_error e)) | None =>
    match su_manager o with
    | Some e => Returns (Some (main_error (ErrWrap (lit "manager: ") e)))
    | None => WaitsForever
    end end end end end end end.

(** ** Lemmas *)

Lemma route_root {H} (h : H) path :
  HasPrefix path (lit "/") = true -> route path [(lit "/", h)] = Some h.
Proof. intros Hp. unfold route, longest, pattern_matches. rewrite Hp. change (HasSuffix _ _) with true. by rewrite orb_true_r. Qed.

Lemma internal_mux_routes :
  internal_mux = Some [(lit "/metrics", Metrics); (lit "/queue-status", QueueStatus);
                       (lit "/crd-cache-status", CRDCacheStatus); (lit "/healthz", Healthz); (lit "/readyz", Readyz)].
Proof. reflexivity. Qed.

Lemma pattern_exact path pattern :
  HasSuffix pattern (lit "/") = false -> pattern_matches path pattern = bool_decide (path = pattern).
Proof. intros Hs. unfold pattern_matches. by rewrite Hs, orb_false_r. Qed.

Lemma duration_exact n unit : 0 < unit -> 0 <= n -> n * unit < 2 ^ 63 -> duration_of n unit = n * unit.
Proof. intros Hu Hn Hb. unfold duration_of, int64. apply int_of_id; nia. Qed.

Lemma JoinHostPort_plain host port :
  ":"%char ∉ host -> "%"%char ∉ host -> JoinHostPort host port = host ++ lit ":" ++ port.
Proof. intros H1 H2. unfold JoinHostPort. by rewrite !bool_decide_false. Qed.

Lemma itoa_digits_plain fuel n acc c :
  0 <= n -> c ∉ acc -> ~ (48 <= Z.of_N (N_of_ascii c) < 58) -> c ∉ itoa_digits fuel n acc.
Proof.
  intros Hn Hacc Hc. revert n acc Hn Hacc. induction fuel as [|fuel IH]; intros n acc Hn Hacc; simpl; [done|].
  assert (c ∉ ascii_of_N (Z.to_N (48 + n mod 10)) :: acc) as Hin.
  { intros [->|?]%elem_of_cons; [|done]. pose proof (Z.mod_pos_bound n 10).
    rewrite N_ascii_embedding in Hc by lia. lia. }
  destruct (n <? 10); [done|]. apply IH; [|done]. apply Z.div_pos; lia.
Qed.

Lemma split_url_path authority path :
  "/"%char ∉ authority -> split_url (lit "http://" ++ authority ++ "/"%char :: path) = Some (authority, "/"%char :: path).
Proof.
  intros Ha. unfold split_url. assert (HasPrefix (lit "http://" ++ authority ++ "/"%char :: path) (lit "http://") = true) as ->.
  { apply HasPrefix_spec. eauto. }
  change (drop 7 (lit "http://" ++ ?x)) with x. rewrite Split_cons_sep by done. by rewrite drop_app_length.
Qed.

(** ** Properties *)

(** The two programs agree on their interface: with names that contain no
    separators, each URL the resolver calls names the port on which the operator
    listens, and its path is routed to the handler of that call. *)
Theorem client_reaches_server cfg domain
    (Hport : 1 <= cfg_Port cfg <= 65535)
    (Hplain : forall c, c ∈ ["/"; ":"; "%"]%char ->
       c ∉ cfg_ServiceName cfg /\ c ∉ cfg_Namespace cfg /\ c ∉ domain) :
  exists srv, Start (lit ":" ++ Itoa (cfg_Port cfg)) = Some srv
    /\ forall endpoint h, (endpoint, h) ∈ [(incomingRequestEndpoint, ResolverReqHandler);
                                         (elastiServiceCacheEndpoint, CrdCacheHandler)] ->
       exists host path, split_url (operatorURL cfg domain ++ endpoint) = Some (host ++ Addr srv, path)
         /\ host = cfg_ServiceName cfg ++ lit "." ++ cfg_Namespace cfg ++ lit ".svc." ++ domain
         /\ route path (Handler srv) = Some h.
Proof.
  eexists. split; [reflexivity|]. intros endpoint h Hin.
  set (host := cfg_ServiceName cfg ++ lit "." ++ cfg_Namespace cfg ++ lit ".svc." ++ domain).
  assert (forall c, c ∈ ["/"; ":"; "%"]%char -> c ∉ host) as Hhost.
  { intros c Hc. destruct (Hplain c Hc) as (H1 & H2 & H3). unfold host. rewrite !not_elem_of_app.
    apply list_elem_of_In in Hc. simpl in Hc. destruct Hc as [<-|[<-|[<-|[]]]]; split_and!; try done;
      by apply (bool_decide_unpack _). }
  assert ("/"%char ∉ host ++ lit ":" ++ Itoa (cfg_Port cfg)) as Hslash.
  { rewrite !not_elem_of_app. split_and!; [apply Hhost; left|by apply (bool_decide_unpack _)|].
    unfold Itoa. destruct (Z.ltb_spec (cfg_Port cfg) 0); [lia|].
    apply itoa_digits_plain; [lia|apply not_elem_of_nil|simpl; lia]. }
  exists host, endpoint. split_and!; [|done|].
  - assert (operatorURL cfg domain = lit "http://" ++ host ++ lit ":" ++ Itoa (cfg_Port cfg)) as ->.
    { unfold operatorURL. fold host. by rewrite JoinHostPort_plain by (apply Hhost; set_solver). }
    rewrite <- app_assoc. apply list_elem_of_In in Hin. simpl in Hin.
    destruct Hin as [[= <- <-]|[[= <- <-]|[]]]; exact (split_url_path _ _ Hslash).
  - apply list_elem_of_In in Hin. simpl in Hin. by destruct Hin as [[= <- <-]|[[= <- <-]|[]]].
Qed.

(** The resolver starts for every configuration within the range of its
    integers: the queue is built, every duration is the configured number of
    seconds or minutes without overflow, all traffic on the proxy's port goes to
    the request handler, and the internal port serves the five status pages and
    nothing else. *)
Theorem resolver_starts env rc
    (Hq : 0 < env_InitialCapacity env < 2 ^ 32 /\ 0 < MaxQueueConcurrency env /\ 0 <= QueueSize env
          /\ QueueSize env + MaxQueueConcurrency env < 2 ^ 63)
    (Hd : Forall (fun n => 0 < n < 2 ^ 27)
            [env_ReqTimeout env; env_TrafficReEnableDuration env; env_TrafficDisableGraceDuration env;
             env_OperatorRetryDuration env; env_QueueRetryDuration env; CRDCachePollIntervalMinutes env]) :
  exists r, main env rc = Some r
    /\ r_timeout r = env_ReqTimeout env * second
    /\ r_retryDuration r = env_OperatorRetryDuration env * second
    /\ QueueRetryDuration (r_throttler r) = env_QueueRetryDuration env * second
    /\ TrafficReEnableDuration (r_throttler r) = trafficReEnableDuration (r_hosts r)
    /\ trafficReEnableDuration (r_hosts r) = env_TrafficReEnableDuration env * second
    /\ trafficDisableGraceDuration (r_hosts r) = env_TrafficDisableGraceDuration env * second
    /\ pollInterval (r_cache r) = CRDCachePollIntervalMinutes env * minute
    /\ totalSlots (r_breaker r) = QueueSize env + MaxQueueConcurrency env
    /\ (forall path, HasPrefix path (lit "/") = true -> route path (Handler (r_proxy r)) = Some ServeHTTP)
    /\ (forall path, route path (Handler (r_internal r)) =
          if bool_decide (path = lit "/metrics") then Some Metrics
          else if bool_decide (path = lit "/queue-status") then Some QueueStatus
          else if bool_decide (path = lit "/crd-cache-status") then Some CRDCacheStatus
          else if bool_decide (path = lit "/healthz") then Some Healthz
          else if bool_decide (path = lit "/readyz") then Some Readyz else None).
Proof.
  rewrite !Forall_cons in Hd. destruct Hd as (H1 & H2 & H3 & H4 & H5 & H6 & _).
  destruct (NewBreaker_initial (breaker_params env) Hq) as (b & Hb & Hi).
  unfold main. rewrite Hb, internal_mux_routes. eexists. split; [reflexivity|]. cbn [r_timeout r_retryDuration r_throttler r_hosts r_cache
    r_breaker r_proxy r_internal QueueRetryDuration TrafficReEnableDuration trafficReEnableDuration
    trafficDisableGraceDuration Handler].
  rewrite !(duration_exact _ second) by (unfold second; lia).
  split_and!; try done.
  - unfold New. rewrite duration_exact by (unfold minute, second; lia). simpl pollInterval.
    destruct (Z.leb_spec (CRDCachePollIntervalMinutes env * minute) 0); [unfold minute, second in *; lia|done].
  - destruct Hi as (_ & Hslots & _). done.
  - intros path. apply route_root.
  - intros path. repeat (case_bool_decide; [subst path; reflexivity|]).
    unfold route. cbn [longest]. rewrite !pattern_exact by reflexivity. by rewrite !(bool_decide_false (path = _)) by done.
Qed.

Lemma client_reaches_server_witness :
  let cfg := mkConfig (lit "elasti") (lit "operator") (lit "operator-svc") 8013 in
  exists srv, Start (lit ":" ++ Itoa 8013) = Some srv
    /\ forall endpoint h, (endpoint, h) ∈ [(incomingRequestEndpoint, ResolverReqHandler);
                                         (elastiServiceCacheEndpoint, CrdCacheHandler)] ->
       exists host path, split_url (operatorURL cfg (lit "cluster.local") ++ endpoint) = Some (host ++ Addr srv, path)
         /\ host = cfg_ServiceName cfg ++ lit "." ++ cfg_Namespace cfg ++ lit ".svc." ++ lit "cluster.local"
         /\ route path (Handler srv) = Some h.
Proof.
  apply (client_reaches_server (mkConfig (lit "elasti") (lit "operator") (lit "operator-svc") 8013) (lit "cluster.local")).
  - simpl. lia.
  - intros c Hc. apply list_elem_of_In in Hc. simpl in Hc.
    destruct Hc as [<-|[<-|[<-|[]]]]; split_and!; by apply (bool_decide_unpack _).
Defined.

(** The defaults are such a configuration. *)
Lemma resolver_starts_witness :
  let env := default_config in
  let rc := mkResolverConfig (mkConfig (lit "elasti") (lit "resolver") (lit "resolver-svc") 8013) 8012 in
  exists r, main env rc = Some r
    /\ r_timeout r = 600 * second
    /\ r_retryDuration r = 30 * second
    /\ QueueRetryDuration (r_throttler r) = 5 * second
    /\ TrafficReEnableDuration (r_throttler r) = trafficReEnableDuration (r_hosts r)
    /\ trafficReEnableDuration (r_hosts r) = 30 * second
    /\ trafficDisableGraceDuration (r_hosts r) = 15 * second
    /\ pollInterval (r_cache r) = 5 * minute
    /\ totalSlots (r_breaker r) = 110
    /\ (forall path, HasPrefix path (lit "/") = true -> route path (Handler (r_proxy r)) = Some ServeHTTP)
    /\ (forall path, route path (Handler (r_internal r)) =
          if bool_decide (path = lit "/metrics") then Some Metrics
          else if bool_decide (path = lit "/queue-status") then Some QueueStatus
          else if bool_decide (path = lit "/crd-cache-status") then Some CRDCacheStatus
          else if bool_decide (path = lit "/healthz") then Some Healthz
          else if bool_decide (path = lit "/readyz") then Some Readyz else None).
Proof.
  apply (resolver_starts default_config).
  - simpl. lia.
  - repeat constructor.
Defined.

(** The operator's [main] returns exactly when a step fails that it looks at: a
    server that fails after the one look at its channel goes unnoticed, and a
    manager that stops without error leaves [main] waiting. *)
Lemma main_ends o :
  mainWithError o = WaitsForever
  <-> Forall (fun e => e = None) [su_NewManager o; su_SetupWithManager o; su_server_early o; su_AddHealthzCheck o;
                                  su_AddReadyzCheck o; su_Initialize o; su_manager o]
      /\ su_WaitForCacheSync o = true.
Proof.
  rewrite !Forall_cons, Forall_nil. unfold mainWithError.
  destruct (su_NewManager o); [naive_solver|]. destruct (su_SetupWithManager o); [naive_solver|].
  destruct (su_server_early o); [naive_solver|]. destruct (su_AddHealthzCheck o); [naive_solver|].
  destruct (su_AddReadyzCheck o); [naive_solver|]. destruct (su_WaitForCacheSync o); [|naive_solver].
  destruct (su_Initialize o); [naive_solver|]. destruct (su_manager o); naive_solver.
Qed.
