(* ===== verification/Process.v ===== *)
(** * The two processes ([operator/cmd/main.go], [elastiServer.go], [resolver/cmd/main.go])

    How the processes start, run and end: the command line of the operator and
    the options of its manager, the server of the operator with its graceful
    shutdown, [mainWithError] with the goroutines it starts, and what stops the
    resolver.  Servers, the manager and signals are events of step relations. *)

From S2P Require Import Prelude GoStrings Breaker Cron Logger Scaling Config Startup.
Local Open Scope Z_scope.

(** ** The command line of the operator *)

Record Flags := mkFlags {
  watchNamespace : gostring;
  metricsAddr : gostring;
  probeAddr : gostring;
  enableLeaderElection : bool;
  secureMetrics : bool;
  enableHTTP2 : bool;
  zap_flags : gmap gostring gostring
}.

Definition default_flags : Flags := mkFlags [] (lit ":8080") (lit ":8081") false false false ∅.

(** A flag takes a text, or is boolean. *)
Inductive flag_kind := StringFlag (set : gostring -> Flags -> Flags) | BoolFlag (set : bool -> Flags -> Flags).

Definition flag_table : list (gostring * flag_kind) :=
  [ (lit "watch-namespace", StringFlag (fun v f => mkFlags v (metricsAddr f) (probeAddr f)
       (enableLeaderElection f) (secureMetrics f) (enableHTTP2 f) (zap_flags f)));
    (lit "metrics-bind-address", StringFlag (fun v f => mkFlags (watchNamespace f) v (probeAddr f)
       (enableLeaderElection f) (secureMetrics f) (enableHTTP2 f) (zap_flags f)));
    (lit "health-probe-bind-address", StringFlag (fun v f => mkFlags (watchNamespace f) (metricsAddr f) v
       (enableLeaderElection f) (secureMetrics f) (enableHTTP2 f) (zap_flags f)));
    (lit "leader-elect", BoolFlag (fun v f => mkFlags (watchNamespace f) (metricsAddr f) (probeAddr f)
       v (secureMetrics f) (enableHTTP2 f) (zap_flags f)));
    (lit "metrics-secure", BoolFlag (fun v f => mkFlags (watchNamespace f) (metricsAddr f) (probeAddr f)
       (enableLeaderElection f) v (enableHTTP2 f) (zap_flags f)));
    (lit "enable-http2", BoolFlag (fun v f => mkFlags (watchNamespace f) (metricsAddr f) (probeAddr f)
       (enableLeaderElection f) (secureMetrics f) v (zap_flags f))) ].

(** [strconv.ParseBool] *)
Definition ParseBool (s : gostring) : option bool :=
  if bool_decide (s ∈ [lit "1"; lit "t"; lit "T"; lit "TRUE"; lit "true"; lit "True"]) then Some true
  else if bool_decide (s ∈ [lit "0"; lit "f"; lit "F"; lit "FALSE"; lit "false"; lit "False"]) then Some false
  else None.

Section flags.
(** The flags [opts.BindFlags] of zap adds: [Some true] is a boolean one. *)
Context (zap_flag : gostring -> option bool).

Definition lookup_flag (name : gostring) : option flag_kind :=
  match list_find (fun kv => kv.1 = name) flag_table with
  | Some (_, (_, k)) => Some k
  | None =>
      let set_zap v f := mkFlags (watchNamespace f) (metricsAddr f) (probeAddr f) (enableLeaderElection f)
                           (secureMetrics f) (enableHTTP2 f) (<[name := v]> (zap_flags f)) in
      match zap_flag name with
      | Some true => Some (BoolFlag (fun b => set_zap (if b then lit "true" else lit "false")))
      | Some false => Some (StringFlag set_zap)
      | None => None
      end
  end.

(** The name and the value after an equals sign, of an argument without its
    leading hyphens. *)
Definition split_flag (s : gostring) : gostring * option gostring :=
  match IndexByte s "="%char with
  | Some (S i) => (take (S i) s, Some (drop (S (S i)) s))
  | _ => (s, None)
  end.

Definition bad_name (s : gostring) : bool :=
  match s with [] => true | c :: _ => bool_decide (c = "-"%char) || bool_decide (c = "="%char) end.

(** What [flag.Parse] does with one argument: the parsing ends, or goes on
    with the flags and the arguments left, or the process exits. *)
Inductive flag_step := FlagsEnd | FlagSet (f : Flags) (args : list gostring) | FlagError.

Definition set_flag (name : gostring) (value : option gostring) (args : list gostring) (f : Flags) : flag_step :=
  if bad_name name then FlagError
  else
    match lookup_flag name with
    | None => FlagError
    | Some (BoolFlag set) =>
        match value with
        | None => FlagSet (set true f) args
        | Some v => match ParseBool v with Some b => FlagSet (set b f) args | None => FlagError end
        end
    | Some (StringFlag set) =>
        match value, args with
        | Some v, _ => FlagSet (set v f) args
        | None, v :: args => FlagSet (set v f) args
        | None, [] => FlagError
        end
    end.

Definition parse_one (args : list gostring) (f : Flags) : flag_step :=
  match args with
  | ("-"%char :: s) :: args =>
      match s with
      | [] => FlagsEnd
      | "-"%char :: [] => FlagsEnd
      | "-"%char :: s => let '(name, value) := split_flag s in set_flag name value args f
      | s => let '(name, value) := split_flag s in set_flag name value args f
      end
  | _ => FlagsEnd
  end.

(** [flag.Parse]; each step uses an argument, so their number is enough fuel. *)
Fixpoint parse_flags (fuel : nat) (args : list gostring) (f : Flags) : option Flags :=
  match fuel with
  | O => Some f
  | S fuel =>
      match parse_one args f with
      | FlagsEnd => Some f
      | FlagSet f args => parse_flags fuel args f
      | FlagError => None
      end
  end.
Definition Parse (args : list gostring) : option Flags := parse_flags (length args) args default_flags.
End flags.

(** ** The options of the manager *)

Record ManagerOptions := mkManagerOptions {
  mo_Namespaces : gset gostring;
  mo_MetricsBindAddress : gostring;
  mo_SecureServing : bool;
  mo_Metrics_NextProtos : option (list gostring);
  mo_Webhook_NextProtos : option (list gostring);
  mo_HealthProbeBindAddress : gostring;
  mo_LeaderElection : bool;
  mo_LeaderElectionID : gostring;
  mo_LeaderElectionReleaseOnCancel : bool
}.

(** [NextProtos] after the functions of [tlsOpts] were applied to a fresh
    [tls.Config]; [None] leaves the choice to the server, HTTP/2 included. *)
Definition next_protos (f : Flags) : option (list gostring) :=
  let tlsOpts := if enableHTTP2 f then [] else [fun _ : option (list gostring) => Some [lit "http/1.1"]] in
  foldl (fun c opt => opt c) None tlsOpts.

Definition manager_options (f : Flags) (watchNamespaces : list gostring) : ManagerOptions :=
  {| mo_Namespaces := buildCacheOptions watchNamespaces;
     mo_MetricsBindAddress := metricsAddr f;
     mo_SecureServing := secureMetrics f;
     mo_Metrics_NextProtos := next_protos f;
     mo_Webhook_NextProtos := next_protos f;
     mo_HealthProbeBindAddress := probeAddr f;
     mo_LeaderElection := enableLeaderElection f;
     mo_LeaderElectionID := lit "acf50383.truefoundry.io";
     mo_LeaderElectionReleaseOnCancel := true |}.

(** What [mainWithError] derives from its environment before it makes the
    manager; [None] is a panic or an exit of the process. *)
Record setup := mkSetup { set_sentryEnabled : bool; set_watch : list gostring; set_options : ManagerOptions }.

Definition main_setup (Getenv : gostring -> gostring) (zap_flag : gostring -> option bool) (args : list gostring) : option setup :=
  let sentryEnabled := negb (bool_decide (Getenv (lit "SENTRY_DSN") = [])) in
  f ← Parse zap_flag args;
  op ← GetOperatorConfig Getenv;
  rc ← GetResolverConfig Getenv;
  let watchNamespaces := main_watch (GetWatchNamespaces Getenv) (watchNamespace f) (cfg_Namespace op) (cfg_Namespace (rc_Config rc)) in
  Some (mkSetup sentryEnabled watchNamespaces (manager_options f watchNamespaces)).

(** ** The server of the operator *)

(** [Start]: it serves, waits for the shutdown to be done, or has returned. *)
Inductive serve_pc := Serving | WaitingDone | Returned (err : option error).
(** The goroutine of the shutdown: it waits for a signal, is in [Shutdown] with
    a deadline, or has closed [done]. *)
Inductive shutdown_pc := AwaitQuit | ShuttingDown (since : Z) | DoneClosed (since : Z).

Record serving := mkServing {
  s_pc : serve_pc;
  s_shutdown : shutdown_pc;
  s_signals : nat;
  s_active : nat;
  s_now : Z
}.

Definition shutdown_timeout : Z := 30 * second.
Definition new_serving (now : Z) : serving := mkServing Serving AwaitQuit 0 0 now.

Inductive serve_event :=
| EvSignal
| EvRequest
| EvAnswer
| EvTick (d : Z)
| EvListenFails (e : error)
| EvQuit
| EvShutdownEnds
| EvServerClosed
| EvDone.

Definition shutting (s : serving) : bool := match s_shutdown s with AwaitQuit => false | _ => true end.

(** What an event does, when it can happen: a signal, a request and its answer,
    time passing, and the steps of the two goroutines.  [Shutdown] closes the
    listener, so no request comes in any more and [ListenAndServe] returns; it
    ends when no request is active or its context is done. *)
Definition serve (e : serve_event) (s : serving) : option serving :=
  let '(mkServing pc sd sig act now) := s in
  match e with
  | EvSignal => Some (mkServing pc sd (S sig) act now)
  | EvRequest =>
      match pc, sd with Serving, AwaitQuit => Some (mkServing pc sd sig (S act) now) | _, _ => None end
  | EvAnswer => match act with S act => Some (mkServing pc sd sig act now) | O => None end
  | EvTick d => if 0 <=? d then Some (mkServing pc sd sig act (now + d)) else None
  | EvListenFails err =>
      match pc, sd with
      | Serving, AwaitQuit =>
          Some (mkServing (Returned (Some (ErrWrap (lit "failed to start ElastiServer: ") err))) sd sig act now)
      | _, _ => None
      end
  | EvQuit =>
      match sd, sig with AwaitQuit, S _ => Some (mkServing pc (ShuttingDown now) sig act now) | _, _ => None end
  | EvShutdownEnds =>
      match sd with
      | ShuttingDown since =>
          if bool_decide (act = O) || (since + shutdown_timeout <=? now)
          then Some (mkServing pc (DoneClosed since) sig act now) else None
      | _ => None
      end
  | EvServerClosed => match pc with Serving => if shutting s then Some (mkServing WaitingDone sd sig act now) else None | _ => None end
  | EvDone => match pc, sd with WaitingDone, DoneClosed _ => Some (mkServing (Returned None) sd sig act now) | _, _ => None end
  end.

Definition serve_step (s s' : serving) : Prop := exists e, serve e s = Some s'.
Definition serve_reachable (s : serving) : Prop := exists now, rtc serve_step (new_serving now) s.

(** ** [mainWithError] and its goroutines *)

(** Where the main goroutine is, in front of the call it makes next. *)
Inductive main_pc :=
| MNewManager | MSetup | MStartServer | MLookErr | MHealthz | MReadyz | MStartManager | MWaitSync | MInitialize | MWaitManager
| MReturned (err : option error).

(** The goroutine of the manager; the server goroutine is [serving]. *)
Inductive manager_pc := NotStarted | Running | Stopped.

Record process := mkProcess {
  p_main : main_pc;
  p_server : option serving;
  p_errChan : option error;
  p_manager : manager_pc;
  p_mgrErrChan : option error
}.
Definition new_process : process := mkProcess MNewManager None None NotStarted None.

(** How the calls of the start go; the manager ends with [su_manager]. *)
Section process.
Context (o : startup).

Definition return_on (e : option error) (next : main_pc) : main_pc :=
  match e with Some e => MReturned (Some (main_error e)) | None => next end.

(** A step of the main goroutine; [None] while it waits. *)
Definition main_step (now : Z) (p : process) : option process :=
  let '(mkProcess pc srv errc mgr mgrc) := p in
  match pc with
  | MNewManager => Some (mkProcess (return_on (su_NewManager o) MSetup) srv errc mgr mgrc)
  | MSetup => Some (mkProcess (return_on (su_SetupWithManager o) MStartServer) srv errc mgr mgrc)
  | MStartServer => Some (mkProcess MLookErr (Some (new_serving now)) errc mgr mgrc)
  | MLookErr => Some (mkProcess (return_on errc MHealthz) srv None mgr mgrc)
  | MHealthz => Some (mkProcess (return_on (su_AddHealthzCheck o) MReadyz) srv errc mgr mgrc)
  | MReadyz => Some (mkProcess (return_on (su_AddReadyzCheck o) MStartManager) srv errc mgr mgrc)
  | MStartManager => Some (mkProcess MWaitSync srv errc Running mgrc)
  | MWaitSync => Some (mkProcess (if su_WaitForCacheSync o then MInitialize
                                  else MReturned (Some (ErrText (lit "failed to sync cache")))) srv errc mgr mgrc)
  | MInitialize => Some (mkProcess (return_on (su_Initialize o) MWaitManager) srv errc mgr mgrc)
  | MWaitManager =>
      match mgrc with
      | Some e => Some (mkProcess (MReturned (Some (main_error e))) srv errc mgr None)
      | None => None
      end
  | MReturned _ => None
  end.

(** The server goroutine reports an error of [Start] on its channel. *)
Definition reported (s s' : serving) (errc : option error) : option error :=
  match s_pc s, s_pc s' with
  | Returned _, _ => errc
  | _, Returned (Some e) => Some (ErrWrap (lit "elasti server: ") e)
  | _, _ => errc
  end.

Inductive process_step : process -> process -> Prop :=
| step_main now p p' : main_step now p = Some p' -> process_step p p'
| step_server pc s s' errc mgr mgrc :
    serve_step s s' ->
    process_step (mkProcess pc (Some s) errc mgr mgrc) (mkProcess pc (Some s') (reported s s' errc) mgr mgrc)
| step_manager pc srv errc mgrc :
    process_step (mkProcess pc srv errc Running mgrc)
      (mkProcess pc srv errc Stopped (match su_manager o with Some e => Some (ErrWrap (lit "manager: ") e) | None => mgrc end)).

Definition process_reachable (p : process) : Prop := rtc process_step new_process p.
End process.

(** ** The resolver *)

(** [main] ends with exit status 1, panics, or runs with the logger, the URL of
    the operator and the components it made. *)
Inductive resolver_end (core : Type) :=
| Exits (message : gostring)
| Panics
| Runs (logger : @Core core) (operator : gostring) (r : resolver).
Arguments Exits {core}.
Arguments Panics {core}.
Arguments Runs {core}.

(** [env] is the result of [envconfig.Process], [built] the logger of zap,
    [inCluster] the error of [rest.InClusterConfig] and [clients] the first
    error of the clients that [k8shelper.NewOps] makes.  A failing
    [sentry.Init] is printed only. *)
Definition resolver_main {core} (env : result error config) (built : result error core)
    (inCluster clients : option error) (Getenv : gostring -> gostring) : resolver_end core :=
  match env with
  | Err _ => Exits (lit "Failed to process env: ")
  | Ok env =>
      let sentryEnabled := negb (bool_decide (SentryDsn env = [])) in
      match NewLogger built sentryEnabled with
      | Err _ => Exits (lit "Failed to get logger: ")
      | Ok logger =>
          match inCluster, clients with
          | Some _, _ => Exits (lit "Error fetching cluster config")
          | None, Some _ => Exits (lit "Error connecting with kubernetes")
          | None, None =>
              match GetOperatorConfig Getenv, GetKubernetesClusterDomain Getenv, GetResolverConfig Getenv with
              | Some op, Some domain, Some rc =>
                  match Startup.main env rc with
                  | Some r => Runs logger (operatorURL op domain) r
                  | None => Panics
                  end
              | _, _, _ => Panics
              end
          end
      end
  end.

(** After the start the process lives until one of its two servers ends. *)
Definition resolver_exit (proxy internal : option error) : option gostring :=
  match proxy, internal with
  | None, None => None
  | _, _ => Some (lit "ListenAndServe Failed: ")
  end.

(** ** Keyed mutexes *)

(** [sync.Map.LoadOrStore(key, &sync.Mutex{})], as [getMutexForScale],
    [getMutexForSwitchMode] and [getMutexForReconcile] use it: a new mutex is
    allocated for the call, and dropped when the key has one. *)
Record lock_map := mkLocks { lm_locks : gmap gostring nat; lm_next : nat }.
Definition getMutex (key : gostring) (m : lock_map) : nat * lock_map :=
  let mutex := lm_next m in
  match lm_locks m !! key with
  | Some l => (l, mkLocks (lm_locks m) (S mutex))
  | None => (mutex, mkLocks (<[key := mutex]> (lm_locks m)) (S mutex))
  end.
Fixpoint getMutexes (keys : list gostring) (m : lock_map) : list nat * lock_map :=
  match keys with
  | [] => ([], m)
  | key :: keys => let '(l, m) := getMutex key m in let '(ls, m) := getMutexes keys m in (l :: ls, m)
  end.

(** [NewScaleHandler]: an error of one of its three clients ends the process. *)
Record ScaleHandler := mkScaleHandler { scaleLocks : lock_map; sh_watchNamespaces : list gostring }.
Definition NewScaleHandler (kClient kDynamicClient scaleClient : option error) (watchNamespaces : list gostring) : option ScaleHandler :=
  match kClient, kDynamicClient, scaleClient with
  | None, None, None => Some (mkScaleHandler (mkLocks ∅ 0) watchNamespaces)
  | _, _, _ => None
  end.

(** ** Lemmas *)

Record locks_wf (m : lock_map) : Prop := {
  lw_old : forall k l, lm_locks m !! k = Some l -> (l < lm_next m)%nat;
  lw_own : forall k k' l, lm_locks m !! k = Some l -> lm_locks m !! k' = Some l -> k = k'
}.

Lemma getMutex_wf key m : locks_wf m -> locks_wf (getMutex key m).2.
Proof.
  intros [Ho Hi]. unfold getMutex. destruct (lm_locks m !! key) as [l|] eqn:E; constructor; simpl; eauto.
  - intros k l' Hl. specialize (Ho k l' Hl). lia.
  - intros k l'. rewrite lookup_insert_Some. intros [[_ <-]|[_ Hl]]; [lia|]. specialize (Ho k l' Hl). lia.
  - intros k k' l'. rewrite !lookup_insert_Some. intros [[<- <-]|[Hk Hl]] [[<- E']|[Hk' Hl']]; auto.
    + specialize (Ho _ _ Hl'). lia.
    + specialize (Ho _ _ Hl). lia.
    + eauto.
Qed.

(** A key keeps its mutex. *)
Lemma getMutex_lookup key m : lm_locks (getMutex key m).2 !! key = Some (getMutex key m).1.
Proof. unfold getMutex. destruct (lm_locks m !! key) as [l|] eqn:E; simpl; [done|apply lookup_insert_eq]. Qed.
Lemma getMutex_mono key m k l : lm_locks m !! k = Some l -> lm_locks (getMutex key m).2 !! k = Some l.
Proof.
  unfold getMutex. intros Hl. destruct (lm_locks m !! key) as [l'|] eqn:E; simpl; [done|].
  rewrite lookup_insert_ne; [done|congruence].
Qed.

Lemma getMutexes_spec keys m :
  locks_wf m ->
  locks_wf (getMutexes keys m).2 /\ (forall k l, lm_locks m !! k = Some l -> lm_locks (getMutexes keys m).2 !! k = Some l)
  /\ Forall2 (fun k l => lm_locks (getMutexes keys m).2 !! k = Some l) keys (getMutexes keys m).1.
Proof.
  revert m. induction keys as [|key keys IH]; intros m Hm; [by split_and!|]. simpl.
  pose proof (getMutex_wf key m Hm) as Hw. pose proof (getMutex_lookup key m) as Hl. pose proof (getMutex_mono key m) as Hmono.
  destruct (getMutex key m) as [l m1]. simpl in *. destruct (IH m1 Hw) as (H1 & H2 & H3).
  destruct (getMutexes keys m1) as [ls m2]. simpl in *. split_and!; [done|by eauto|]. constructor; [by apply H2|done].
Qed.

(** Calls get the same mutex exactly when they ask for the same key. *)
Lemma mutex_per_key keys i j ki kj li lj :
  keys !! i = Some ki -> keys !! j = Some kj ->
  (getMutexes keys (mkLocks ∅ 0)).1 !! i = Some li -> (getMutexes keys (mkLocks ∅ 0)).1 !! j = Some lj ->
  li = lj <-> ki = kj.
Proof.
  intros Hi Hj Li Lj. destruct (getMutexes_spec keys (mkLocks ∅ 0)) as (Hw & _ & Hf).
  { constructor; simpl; [intros k l|intros k k' l]; by rewrite lookup_empty. }
  pose proof (Forall2_lookup_lr _ _ _ _ _ _ Hf Hi Li) as Ei. pose proof (Forall2_lookup_lr _ _ _ _ _ _ Hf Hj Lj) as Ej.
  simpl in *. split; [intros <-; by eapply lw_own|intros <-; congruence].
Qed.

(** *** The server *)

(** The shutdown follows a signal, and [Start] waits for its end. *)
Definition serve_inv (s : serving) : Prop :=
  match s_shutdown s with
  | AwaitQuit => True
  | ShuttingDown since => (0 < s_signals s)%nat /\ since <= s_now s
  | DoneClosed since => (0 < s_signals s)%nat /\ since <= s_now s /\ (s_active s = O \/ since + shutdown_timeout <= s_now s)
  end
  /\ match s_pc s with
     | Serving | Returned (Some _) => True
     | WaitingDone => shutting s = true
     | Returned None => exists since, s_shutdown s = DoneClosed since
     end.

Ltac serve_cases :=
  repeat match goal with
         | H : None = Some _ |- _ => discriminate H
         | H : Some _ = Some _ |- _ => injection H as <-
         | H : context [match ?x with _ => _ end] |- _ => destruct x eqn:?
         end.

Lemma serve_inv_step s s' : serve_step s s' -> serve_inv s -> serve_inv s'.
Proof.
  intros [e He] [Hs Hp]. destruct s as [pc sd sig act now], e; simpl in *; unfold serve_inv, shutting in *; serve_cases;
    simpl in *; subst; simpl in *;
    try match goal with H : bool_decide _ || _ = true |- _ => apply orb_true_iff in H; rewrite bool_decide_eq_true, Z.leb_le in H end;
    try match goal with H : (0 <=? _) = true |- _ => apply Z.leb_le in H end;
    repeat match goal with H : _ /\ _ |- _ => destruct H end;
    repeat split; try done; try lia; try (by eexists);
    try (match goal with H : _ \/ _ |- _ => destruct H; [by left|right; lia] end);
    try (by match goal with H : exists _, _ |- _ => destruct H end).
Qed.

Lemma serve_reachable_inv s : serve_reachable s -> serve_inv s.
Proof.
  intros [now Hr]. revert Hr. apply (rtc_ind_r serve_inv); [done|]. intros s1 s2 _ Hs Hi. by eapply serve_inv_step.
Qed.

(** After a signal, with the deadline passed, the steps of the two goroutines
    lead to the return of [Start]. *)
Lemma serve_finish since sig act now pc :
  since + shutdown_timeout <= now -> pc = Serving \/ pc = WaitingDone ->
  exists s', rtc serve_step (mkServing pc (ShuttingDown since) sig act now) s' /\ s_pc s' = Returned None /\ s_now s' = now.
Proof.
  intros Hd Hpc. exists (mkServing (Returned None) (DoneClosed since) sig act now). split; [|done].
  assert (serve_step (mkServing pc (ShuttingDown since) sig act now) (mkServing pc (DoneClosed since) sig act now)) as H1.
  { exists EvShutdownEnds. simpl. by rewrite (proj2 (Z.leb_le _ _) Hd), orb_true_r. }
  eapply rtc_l; [exact H1|]. destruct Hpc as [->| ->].
  - eapply rtc_l; [by exists EvServerClosed|]. eapply rtc_l; [by exists EvDone|]. done.
  - eapply rtc_l; [by exists EvDone|]. done.
Qed.

Lemma serve_stops s :
  serve_inv s -> (0 < s_signals s)%nat -> (forall r, s_pc s <> Returned r) ->
  exists s', rtc serve_step s s' /\ s_pc s' = Returned None /\ s_now s' <= s_now s + shutdown_timeout.
Proof.
  destruct s as [pc sd sig act now]. intros [Hs Hp] Hsig Hpc. simpl in *.
  assert (0 <= shutdown_timeout) as Ht by (vm_compute; discriminate).
  assert (pc = Serving \/ pc = WaitingDone) as Hpc' by (destruct pc; [by left|by right|by destruct (Hpc err)]).
  assert (forall sd, serve_step (mkServing pc sd sig act now) (mkServing pc sd sig act (now + shutdown_timeout))) as Htick.
  { intros sd'. exists (EvTick shutdown_timeout). reflexivity. }
  destruct sd as [|since|since].
  - destruct (serve_finish now sig act (now + shutdown_timeout) pc) as (s' & Hr & Hn & E); [lia|done|].
    exists s'. split_and!; [|done|lia]. destruct sig as [|sig]; [lia|].
    eapply rtc_l; [by exists EvQuit|]. eapply rtc_l; [apply Htick|]. done.
  - destruct Hs as [_ Hs]. destruct (serve_finish since sig act (now + shutdown_timeout) pc) as (s' & Hr & Hn & E); [lia|done|].
    exists s'. split_and!; [|done|lia]. eapply rtc_l; [apply Htick|]. done.
  - exists (mkServing (Returned None) (DoneClosed since) sig act now). split_and!; [|done|simpl; lia]. destruct Hpc' as [->| ->].
    + eapply rtc_l; [by exists EvServerClosed|]. eapply rtc_l; [by exists EvDone|]. done.
    + eapply rtc_l; [by exists EvDone|]. done.
Qed.

(** *** [mainWithError] *)

Definition with_server (early : option error) (o : startup) : startup :=
  mkStartup (su_NewManager o) (su_SetupWithManager o) early (su_server_late o) (su_AddHealthzCheck o)
    (su_AddReadyzCheck o) (su_WaitForCacheSync o) (su_Initialize o) (su_manager o).

Section main.
Context (o : startup).

(** What went well before a point of the main goroutine. *)
Definition passed (pc : main_pc) : Prop :=
  match pc with
  | MNewManager => True
  | MSetup => su_NewManager o = None
  | MStartServer | MLookErr | MHealthz => su_NewManager o = None /\ su_SetupWithManager o = None
  | MReadyz => su_NewManager o = None /\ su_SetupWithManager o = None /\ su_AddHealthzCheck o = None
  | MStartManager | MWaitSync =>
      su_NewManager o = None /\ su_SetupWithManager o = None /\ su_AddHealthzCheck o = None /\ su_AddReadyzCheck o = None
  | MInitialize =>
      su_NewManager o = None /\ su_SetupWithManager o = None /\ su_AddHealthzCheck o = None /\ su_AddReadyzCheck o = None
      /\ su_WaitForCacheSync o = true
  | MWaitManager =>
      su_NewManager o = None /\ su_SetupWithManager o = None /\ su_AddHealthzCheck o = None /\ su_AddReadyzCheck o = None
      /\ su_WaitForCacheSync o = true /\ su_Initialize o = None
  | MReturned r => exists early, mainWithError (with_server early o) = Returns r
  end.

Definition process_inv (p : process) : Prop :=
  passed (p_main p)
  /\ match p_errChan p with Some e => exists e', e = ErrWrap (lit "elasti server: ") e' | None => True end
  /\ match p_mgrErrChan p with Some e => exists e', su_manager o = Some e' /\ e = ErrWrap (lit "manager: ") e' | None => True end.

(** Evaluates [mainWithError] with the outcomes that are known. *)
Ltac use_outcomes := repeat match goal with H : ?f o = _ |- context [?f o] => rewrite H end.
Ltac by_outcomes := unfold mainWithError; simpl; use_outcomes; reflexivity.

Lemma main_step_inv now p p' : main_step o now p = Some p' -> process_inv p -> process_inv p'.
Proof.
  destruct p as [pc srv errc mgr mgrc]. intros Hm (Hp & He & Hg). unfold process_inv. simpl in *.
  destruct pc; simpl in *; try discriminate; try (injection Hm as <-; simpl; split; [|by split]);
    repeat match goal with H : _ /\ _ |- _ => destruct H end.
  - destruct (su_NewManager o) eqn:E; simpl; [exists None; by_outcomes|done].
  - destruct (su_SetupWithManager o) eqn:E; simpl; [exists None; by_outcomes|done].
  - done.
  - destruct errc as [e|]; simpl; [|done]. destruct He as [e' ->]. exists (Some e'). by_outcomes.
  - destruct (su_AddHealthzCheck o) eqn:E; simpl; [exists None; by_outcomes|done].
  - destruct (su_AddReadyzCheck o) eqn:E; simpl; [exists None; by_outcomes|done].
  - done.
  - destruct (su_WaitForCacheSync o) eqn:E; simpl; [done|]. exists None. by_outcomes.
  - destruct (su_Initialize o) eqn:E; simpl; [exists None; by_outcomes|done].
  - destruct mgrc as [e|]; [|done]. injection Hm as <-. simpl. split; [|by split].
    destruct Hg as (e' & E & ->). exists None. by_outcomes.
Qed.

Lemma process_step_inv p p' : process_step o p p' -> process_inv p -> process_inv p'.
Proof.
  intros [now q q' Hm|pc s s' errc mgr mgrc Hs|pc srv errc mgrc]; [by eapply main_step_inv| |]; intros (Hp & He & Hg); split_and!; simpl in *; try done.
  - unfold reported. destruct (s_pc s), (s_pc s') as [| |[e|]]; try done; by eexists.
  - destruct (su_manager o) as [e|]; [|done]. by exists e.
Qed.

Lemma process_reachable_inv p : process_reachable o p -> process_inv p.
Proof.
  apply (rtc_ind_r process_inv); [done|]. intros p1 p2 _ Hs Hi. by eapply process_step_inv.
Qed.

Lemma main_never_nil o' : mainWithError o' <> Returns None.
Proof. unfold mainWithError. by repeat (case_match; try discriminate). Qed.

(** A manager that stops without an error leaves the main goroutine waiting. *)
Lemma waits_forever p p' :
  process_reachable o p -> su_manager o = None -> p_main p = MWaitManager -> rtc (process_step o) p p' -> p_main p' = MWaitManager.
Proof.
  intros Hr Hm Hp Hs. enough (process_reachable o p' /\ p_main p' = MWaitManager) by tauto. revert Hs.
  apply (rtc_ind_r (fun p' => process_reachable o p' /\ p_main p' = MWaitManager)); [done|].
  intros p1 p2 _ Hstep [Hr1 Hp1]. split; [by eapply rtc_r|]. pose proof (process_reachable_inv p1 Hr1) as (_ & _ & Hg).
  destruct Hstep as [now q q' Hst|pc s s' errc mgr mgrc Hst|pc srv errc mgrc]; [|done|done].
  destruct q as [pc srv errc mgr mgrc]. simpl in *. subst pc. destruct mgrc as [e|]; [|done].
  destruct Hg as (e' & E & _). congruence.
Qed.

(** The run in which the server does not fail before the look at its channel. *)
Ltac main_runs := repeat (eapply rtc_l; [apply (step_main o 0); simpl; use_outcomes; reflexivity|]).

Lemma main_reaches :
  exists p, process_reachable o p
    /\ match mainWithError (with_server None o) with
       | Returns r => p_main p = MReturned r
       | WaitsForever => p_main p = MWaitManager /\ p_manager p = Stopped
       end.
Proof.
  unfold mainWithError, process_reachable, new_process. simpl.
  destruct (su_NewManager o) as [e|] eqn:E1; [eexists; split; [main_runs; reflexivity|reflexivity]|].
  destruct (su_SetupWithManager o) as [e|] eqn:E2; [eexists; split; [main_runs; reflexivity|reflexivity]|].
  destruct (su_AddHealthzCheck o) as [e|] eqn:E3; [eexists; split; [main_runs; reflexivity|reflexivity]|].
  destruct (su_AddReadyzCheck o) as [e|] eqn:E4; [eexists; split; [main_runs; reflexivity|reflexivity]|].
  destruct (su_WaitForCacheSync o) eqn:E5; simpl; [|eexists; split; [main_runs; reflexivity|reflexivity]].
  destruct (su_Initialize o) as [e|] eqn:E6; [eexists; split; [main_runs; reflexivity|reflexivity]|].
  destruct (su_manager o) as [e|] eqn:E7.
  - eexists. split; [main_runs; eapply rtc_l; [apply step_manager|]; use_outcomes; main_runs; reflexivity|reflexivity].
  - eexists. split; [main_runs; eapply rtc_l; [apply step_manager|]; use_outcomes; reflexivity|done].
Qed.
End main.

(** *** The command line *)

(** The name of the flag an argument sets. *)
Definition flag_name (a : gostring) : gostring :=
  match a with
  | "-"%char :: "-"%char :: s => (split_flag s).1
  | "-"%char :: s => (split_flag s).1
  | _ => []
  end.

Lemma set_flag_http2 zap_flag name value args f f' args' :
  set_flag zap_flag name value args f = FlagSet f' args' ->
  (exists k, args' = drop k args) /\ (name <> lit "enable-http2" -> enableHTTP2 f' = enableHTTP2 f).
Proof.
  unfold set_flag. destruct (bad_name name); [done|]. destruct (lookup_flag zap_flag name) as [[set|set]|] eqn:El; [| |done].
  - assert (forall v, enableHTTP2 (set v f) = enableHTTP2 f) as Hset.
    { intros v. revert El. unfold lookup_flag, flag_table. simpl. repeat case_decide; intros; simplify_eq/=; try done.
      destruct (zap_flag name) as [[]|]; by simplify_eq/=. }
    destruct value as [v|]; [|destruct args as [|v args]; [done|]]; intros [= <- <-]; (split; [|by intros _; apply Hset]); [by exists 0%nat|by exists 1%nat].
  - assert (name <> lit "enable-http2" -> forall v, enableHTTP2 (set v f) = enableHTTP2 f) as Hset.
    { intros Hn v. revert El. unfold lookup_flag, flag_table. simpl. repeat case_decide; intros; simplify_eq/=; try done.
      destruct (zap_flag name) as [[]|]; by simplify_eq/=. }
    destruct value as [v|]; [destruct (ParseBool v); [|done]|]; intros [= <- <-]; (split; [by exists 0%nat|by intros; apply Hset]).
Qed.

(** One hyphen is as good as two. *)
Lemma one_hyphen zap_flag c s args f :
  c <> "-"%char ->
  flag_name ("-"%char :: c :: s) = (split_flag (c :: s)).1
  /\ parse_one zap_flag (("-"%char :: c :: s) :: args) f
     = let '(name, value) := split_flag (c :: s) in set_flag zap_flag name value args f.
Proof. intros Hc. destruct c as [[] [] [] [] [] [] [] []]; try (by split); by destruct Hc. Qed.

Lemma parse_one_http2 zap_flag args f f' args' :
  parse_one zap_flag args f = FlagSet f' args' ->
  exists a k, head args = Some a /\ args' = drop k args /\ (flag_name a <> lit "enable-http2" -> enableHTTP2 f' = enableHTTP2 f).
Proof.
  destruct args as [|a args]; [done|]. intros Hp. exists a.
  assert (exists name value, set_flag zap_flag name value args f = FlagSet f' args' /\ name = flag_name a) as (name & value & Hs & ->).
  { destruct a as [|c s]; [done|]. destruct (decide (c = "-"%char)) as [->|Hc].
    - destruct s as [|c s]; [done|]. destruct (decide (c = "-"%char)) as [->|Hc].
      + destruct s as [|c s]; [done|]. simpl in Hp. destruct (split_flag (c :: s)) as [name value] eqn:E. exists name, value. simpl. by rewrite E.
      + destruct (one_hyphen zap_flag c s args f Hc) as [-> E]. rewrite E in Hp.
        destruct (split_flag (c :: s)) as [name value]. by exists name, value.
    - destruct c as [[] [] [] [] [] [] [] []]; simpl in Hp; try done; by destruct Hc. }
  destruct (set_flag_http2 _ _ _ _ _ _ _ Hs) as [[k ->] Hh]. by exists (S k).
Qed.

(** HTTP/2 stays off unless an argument asks for it. *)
Lemma http2_off_by_default zap_flag args f :
  Parse zap_flag args = Some f -> lit "enable-http2" ∉ map flag_name args -> next_protos f = Some [lit "http/1.1"].
Proof.
  intros Hp Hn. enough (enableHTTP2 f = false) as E by (unfold next_protos; by rewrite E).
  assert (forall fuel args f0, enableHTTP2 f0 = false -> lit "enable-http2" ∉ map flag_name args ->
    parse_flags zap_flag fuel args f0 = Some f -> enableHTTP2 f = false) as Hgen; [|exact (Hgen (length args) args default_flags eq_refl Hn Hp)].
  clear. induction fuel as [|fuel IH]; simpl; intros args f0 H0 Hn; [by intros [= <-]|].
  destruct (parse_one zap_flag args f0) as [|f1 args1|] eqn:E; [by intros [= <-]| |done].
  destruct (parse_one_http2 _ _ _ _ _ E) as (a & k & Ha & -> & Hh). apply IH.
  - rewrite Hh; [done|]. intros Hf. apply Hn. destruct args as [|a' args]; [done|]. injection Ha as ->. simpl. rewrite Hf. by left.
  - intros Hin. apply Hn. rewrite <- (take_drop k args), map_app, elem_of_app. by right.
Qed.

(** ** Properties *)

(** C39: the operator's server stops gracefully: [Start] returns without an error
    only after a signal, and when by then every request it had accepted is
    answered or the shutdown has had its 30 seconds; and after a signal a server
    that still runs can always stop within these 30 seconds, whatever its
    requests do. *)
Theorem shutdown_is_graceful s (Hr : serve_reachable s) :
  (s_pc s = Returned None ->
   (0 < s_signals s)%nat /\ exists since, s_shutdown s = DoneClosed since
     /\ (s_active s = O \/ since + shutdown_timeout <= s_now s))
  /\ ((0 < s_signals s)%nat -> (forall r, s_pc s <> Returned r) ->
      exists s', rtc serve_step s s' /\ s_pc s' = Returned None /\ s_now s' <= s_now s + shutdown_timeout).
Proof.
  pose proof (serve_reachable_inv s Hr) as Hi. split; [|by apply serve_stops].
  destruct Hi as [Hs Hp]. intros E. rewrite E in Hp. destruct Hp as [since Es]. rewrite Es in Hs. destruct Hs as (H1 & _ & H2). eauto.
Qed.

(** A server with two requests, one of them answered, that was told to stop. *)
Definition stopping : list serve_event := [EvRequest; EvRequest; EvTick 5; EvSignal; EvAnswer; EvQuit; EvServerClosed].
Fixpoint serve_all (es : list serve_event) (s : serving) : option serving :=
  match es with [] => Some s | e :: es => serve e s ≫= serve_all es end.
Lemma serve_all_reaches es s s' : serve_all es s = Some s' -> rtc serve_step s s'.
Proof.
  revert s. induction es as [|e es IH]; intros s; simpl; [by intros [= <-]|].
  destruct (serve e s) as [s1|] eqn:E; [|done]. intros H. eapply rtc_l; [by exists e|]. by apply IH.
Qed.
Definition stopping_server : serving := default (new_serving 0) (serve_all stopping (new_serving 0)).

Lemma shutdown_is_graceful_witness :
  (s_pc stopping_server = Returned None ->
   (0 < s_signals stopping_server)%nat /\ exists since, s_shutdown stopping_server = DoneClosed since
     /\ (s_active stopping_server = O \/ since + shutdown_timeout <= s_now stopping_server))
  /\ ((0 < s_signals stopping_server)%nat -> (forall r, s_pc stopping_server <> Returned r) ->
      exists s', rtc serve_step stopping_server s' /\ s_pc s' = Returned None
        /\ s_now s' <= s_now stopping_server + shutdown_timeout).
Proof. apply (shutdown_is_graceful stopping_server). exists 0. apply (serve_all_reaches stopping). reflexivity. Defined.

(** C40: [mainWithError] with its goroutines does what the sequence of its calls
    says: in every interleaving of the main goroutine with the server and the
    manager, a result it returns is an error, and the one [mainWithError] gives
    for a server that failed in time to be seen or for one that was not; a manager that
    stops without an error leaves it waiting for ever; and the end that
    [mainWithError] gives for an unseen server is reached. *)
Theorem process_refines_main o p (Hr : process_reachable o p) :
  (forall r, p_main p = MReturned r -> r <> None /\ exists early, mainWithError (with_server early o) = Returns r)
  /\ (su_manager o = None -> p_main p = MWaitManager -> forall p', rtc (process_step o) p p' -> p_main p' = MWaitManager)
  /\ exists q, process_reachable o q
       /\ match mainWithError (with_server None o) with
          | Returns r => p_main q = MReturned r
          | WaitsForever => p_main q = MWaitManager /\ p_manager q = Stopped
          end.
Proof.
  split_and!; [|intros Hm Hp p'; by apply waits_forever|apply main_reaches].
  intros r E. destruct (process_reachable_inv o p Hr) as (Hp & _). rewrite E in Hp. destruct Hp as [early Hm].
  split; [|by exists early]. intros ->. by eapply main_never_nil.
Qed.

(** All calls succeed. *)
Definition all_well : startup := mkStartup None None None None None None true None None.
Definition waiting_process : process := mkProcess MLookErr (Some (new_serving 0)) None NotStarted None.

Lemma process_refines_main_witness :
  (forall r, p_main waiting_process = MReturned r ->
     r <> None /\ exists early, mainWithError (with_server early all_well) = Returns r)
  /\ (su_manager all_well = None -> p_main waiting_process = MWaitManager ->
      forall p', rtc (process_step all_well) waiting_process p' -> p_main p' = MWaitManager)
  /\ exists q, process_reachable all_well q
       /\ match mainWithError (with_server None all_well) with
          | Returns r => p_main q = MReturned r
          | WaitsForever => p_main q = MWaitManager /\ p_manager q = Stopped
          end.
Proof.
  apply (process_refines_main all_well waiting_process).
  do 3 (eapply rtc_l; [apply (step_main all_well 0); reflexivity|]). apply rtc_refl.
Defined.
