(* ===== verification/Informer.v ===== *)
(** * The informer manager ([operator/internal/informer/informer.go])

    The map of running informers and their stop channels.  Starting an informer
    stores it in the map and then waits for its cache; other goroutines may stop
    informers meanwhile.  Closing a closed channel is a run-time panic. *)

From S2P Require Import Prelude GoStrings K8sHelper.

(** ** Keys *)

Record KeyParams := mkKey {
  key_CRDName : gostring; key_Namespace : gostring; key_ResourceType : gostring; key_ResourceName : gostring
}.

Definition GetKey (p : KeyParams) : gostring :=
  ToLower (key_CRDName p) ++ lit "/" ++ ToLower (key_Namespace p) ++ lit "/"
  ++ ToLower (key_ResourceType p) ++ lit "/" ++ ToLower (key_ResourceName p).

(** [RequestWatch]: the CRD's request, and the resource to watch. *)
Record RequestWatch := mkWatch {
  rw_Req_Namespace : gostring; rw_Req_Name : gostring;
  rw_ResourceName : gostring; rw_ResourceNamespace : gostring;
  rw_GVR : GroupVersionResource
}.

Definition getKeyFromRequestWatch (req : RequestWatch) : gostring :=
  ToLower (rw_Req_Name req) ++ lit "/" ++ ToLower (rw_ResourceNamespace req) ++ lit "/"
  ++ ToLower (gvr_Resource (rw_GVR req)) ++ lit "/" ++ ToLower (rw_ResourceName req).

(** The prefix by which [StopForCRD] selects. *)
Definition crd_prefix (crdName namespace : gostring) : gostring :=
  ToLower crdName ++ lit "/" ++ ToLower namespace ++ lit "/".

(** ** State *)

(** [chans] says of every channel made so far whether it is open; [syncing] are
    the calls of [enableInformer] that wait for their cache; [panicked] that a
    closed channel was closed; [resolver] is the stop channel of the informer on
    the resolver's deployment. *)
Record Manager := mkManager {
  m_informers : gmap gostring (nat * RequestWatch);
  chans : gmap nat bool;
  syncing : gmap nat gostring;
  panicked : bool;
  resolver : option nat
}.

Definition NewInformerManager : Manager := mkManager ∅ ∅ ∅ false None.

(** [close(ch)] *)
Definition close_chan (c : nat) (m : Manager) : Manager :=
  match chans m !! c with
  | Some true => mkManager (m_informers m) (<[c := false]> (chans m)) (syncing m) (panicked m) (resolver m)
  | _ => mkManager (m_informers m) (chans m) (syncing m) true (resolver m)
  end.

Definition delete_informer (key : gostring) (m : Manager) : Manager :=
  mkManager (delete key (m_informers m)) (chans m) (syncing m) (panicked m) (resolver m).

(** [StopInformer]; the error when the key is not there. *)
Definition StopInformer (key : gostring) (m : Manager) : option error * Manager :=
  match m_informers m !! key with
  | None => (Some (ErrText (lit "informer not found, already stopped for key: " ++ key)), m)
  | Some (c, _) => (None, delete_informer key (close_chan c m))
  end.

(** How a wait for the cache of an informer ends: it was seen synced, [syncTimeout]
    has passed, or the stop channel was closed. *)
Inductive wait_end := CacheSynced | TimedOut | StopClosed.

Definition can_end (c : nat) (e : wait_end) (m : Manager) : bool :=
  match e with StopClosed => bool_decide (chans m !! c = Some false) | _ => true end.

Definition waitForSync (e : wait_end) : bool :=
  match e with CacheSynced => true | TimedOut | StopClosed => false end.

(** The start of [enableInformer], with the new channel [c]. *)
Definition enableInformer_start (c : nat) (req : RequestWatch) (m : Manager) : Manager :=
  let key := getKeyFromRequestWatch req in
  mkManager (<[key := (c, req)]> (m_informers m)) (<[c := true]> (chans m)) (<[c := key]> (syncing m))
    (panicked m) (resolver m).

(** Its end, when [waitForSync] returns. *)
Definition enableInformer_end (c : nat) (key : gostring) (e : wait_end) (m : Manager) : option error * Manager :=
  let ok := waitForSync e in
  let m := mkManager (m_informers m) (chans m) (delete c (syncing m)) (panicked m) (resolver m) in
  if ok then (None, m)
  else (Some (ErrText (lit "failed to sync informer within timeout")), delete_informer key (close_chan c m)).

(** [Add] up to the wait: nothing is done for a running informer or a target
    that does not exist. *)
Definition Add_start (c : nat) (req : RequestWatch) (exists_ : bool) (m : Manager) : Manager :=
  if bool_decide (is_Some (m_informers m !! getKeyFromRequestWatch req)) then m
  else if exists_ then enableInformer_start c req m else m.

(** [Add] as a whole, when nothing else happens during its wait. *)
Definition Add (c : nat) (req : RequestWatch) (exists_ : bool) (e : wait_end) (m : Manager) : option error * Manager :=
  let key := getKeyFromRequestWatch req in
  if bool_decide (is_Some (m_informers m !! key)) then (None, m)
  else if negb exists_ then (Some (ErrWrap (lit "target not found: ") ErrNotFound), m)
  else
    match enableInformer_end c key e (enableInformer_start c req m) with
    | (Some err, m) => (Some (ErrWrap (lit "failed to enable to informer: ") err), m)
    | (None, m) => (None, m)
    end.

(** [InitializeResolverInformer], called once, up to the wait and after it. *)
Definition InitializeResolverInformer_start (c : nat) (m : Manager) : Manager :=
  mkManager (m_informers m) (<[c := true]> (chans m)) (syncing m) (panicked m) (Some c).
Definition InitializeResolverInformer_end (c : nat) (e : wait_end) (m : Manager) : option error * Manager :=
  if waitForSync e then (None, m)
  else (Some (ErrText (lit "failed to sync resolver informer")), close_chan c m).

Definition stop_keys (keys : list gostring) (m : Manager) : Manager :=
  foldl (fun m k => (StopInformer k m).2) m keys.

(** The keys of the requests of the informers that a test on their own key picks. *)
Definition request_keys (p : gostring -> bool) (m : Manager) : list gostring :=
  map (fun kv : gostring * (nat * RequestWatch) => getKeyFromRequestWatch kv.2.2)
    (List.filter (fun kv => p kv.1) (map_to_list (m_informers m))).

(** The goroutines of [StopForCRD] run one after the other here: they stop
    different keys. *)
Definition StopForCRD (crdName namespace : gostring) (m : Manager) : Manager :=
  stop_keys (request_keys (fun k => HasPrefix k (crd_prefix crdName namespace)) m) m.

Definition Stop (m : Manager) : Manager := stop_keys (request_keys (fun _ => true) m) m.

(** ** Steps *)

Inductive inf_step : Manager -> Manager -> Prop :=
| inf_add c req e m :
    chans m !! c = None -> inf_step m (Add_start c req e m)
| inf_end c key e m :
    syncing m !! c = Some key -> can_end c e m = true -> inf_step m (enableInformer_end c key e m).2
| inf_stop key m :
    inf_step m (StopInformer key m).2.

(** Steps that never stop an informer whose start is still waiting, and those of
    the resolver's informer. *)
Inductive quiet_step : Manager -> Manager -> Prop :=
| quiet_add c req e m :
    chans m !! c = None -> quiet_step m (Add_start c req e m)
| quiet_end c key e m :
    syncing m !! c = Some key -> can_end c e m = true -> quiet_step m (enableInformer_end c key e m).2
| quiet_stop key m :
    (forall c r, m_informers m !! key = Some (c, r) -> syncing m !! c = None) ->
    quiet_step m (StopInformer key m).2
| quiet_init c m :
    chans m !! c = None -> resolver m = None -> quiet_step m (InitializeResolverInformer_start c m)
| quiet_init_end c e m :
    resolver m = Some c -> chans m !! c = Some true -> can_end c e m = true ->
    quiet_step m (InitializeResolverInformer_end c e m).2.

(** ** The invariant *)

(** The channels of the informers in the map are open, one each; every other open
    channel is the resolver's; every waiting start is still in the map under its
    key, and every informer is in the map under the key of its request. *)
Record inf_inv (m : Manager) : Prop := {
  inv_calm : panicked m = false;
  inv_open : forall key c r, m_informers m !! key = Some (c, r) -> chans m !! c = Some true /\ resolver m <> Some c;
  inv_owned : forall c, chans m !! c = Some true ->
    resolver m = Some c \/ exists key r, m_informers m !! key = Some (c, r);
  inv_unique : forall k1 k2 c r1 r2, m_informers m !! k1 = Some (c, r1) -> m_informers m !! k2 = Some (c, r2) -> k1 = k2;
  inv_syncing : forall c key, syncing m !! c = Some key -> exists r, m_informers m !! key = Some (c, r);
  inv_resolver : forall c, resolver m = Some c -> is_Some (chans m !! c);
  inv_keys : forall key c r, m_informers m !! key = Some (c, r) -> key = getKeyFromRequestWatch r
}.

Lemma inf_inv_init : inf_inv NewInformerManager.
Proof. by split. Qed.

Lemma inf_inv_add c req e m : chans m !! c = None -> inf_inv m -> inf_inv (Add_start c req e m).
Proof.
  intros Hc Hinv. unfold Add_start. case_bool_decide as Hk; [done|]. destruct e; [|done].
  apply eq_None_not_Some in Hk. destruct Hinv as [Hp Hopen Howned Huniq Hsync Hres Hkeys].
  assert (forall key c' r, m_informers m !! key = Some (c', r) -> c' <> c) as Hnew.
  { intros key c' r E ->. apply Hopen in E as [? _]. congruence. }
  unfold enableInformer_start. set (k := getKeyFromRequestWatch req) in *. split; simpl.
  - done.
  - intros key c' r [[<- [= <- <-]]|[Hne E]]%lookup_insert_Some.
    + rewrite lookup_insert_eq. split; [done|]. intros [? H]%Hres. congruence.
    + rewrite lookup_insert_ne by (apply not_eq_sym; by eapply Hnew). by eapply Hopen.
  - intros c' [[<- _]|[Hne E]]%lookup_insert_Some; [right; exists k, req; apply lookup_insert_eq|].
    destruct (Howned _ E) as [?|(k' & r & E')]; [by left|]. right. exists k', r.
    rewrite lookup_insert_ne; [done|]. intros <-. congruence.
  - intros k1 k2 c' r1 r2 [[<- E1]|[N1 E1]]%lookup_insert_Some [[<- E2]|[N2 E2]]%lookup_insert_Some; simplify_eq;
      [done|by apply Hnew in E2|by apply Hnew in E1|by eapply Huniq].
  - intros c' key' [[<- <-]|[Nc E]]%lookup_insert_Some; [exists req; apply lookup_insert_eq|].
    destruct (Hsync _ _ E) as [r Hr]. exists r. rewrite lookup_insert_ne; [done|]. intros <-. congruence.
  - intros c' [b Hb]%Hres. rewrite lookup_insert_ne; [by exists b|]. congruence.
  - intros key c' r [[<- [= <- <-]]|[_ E]]%lookup_insert_Some; [done|by eapply Hkeys].
Qed.

(** Closing the channel of an informer and taking it out of the map. *)
Lemma inf_inv_close key c r m :
  inf_inv m -> m_informers m !! key = Some (c, r) -> syncing m !! c = None ->
  inf_inv (delete_informer key (close_chan c m)).
Proof.
  intros [Hp Hopen Howned Huniq Hsync Hres Hkeys] Hk Hs. destruct (Hopen _ _ _ Hk) as [Hc Hnr].
  unfold close_chan. rewrite Hc. unfold delete_informer. split; simpl.
  - done.
  - intros k' c' r' [Hne E]%lookup_delete_Some. rewrite lookup_insert_ne; [by eapply Hopen|].
    intros <-. apply Hne. by eapply Huniq.
  - intros c' [[_ [=]]|[Hne E]]%lookup_insert_Some. destruct (Howned _ E) as [?|(k' & r' & E')]; [by left|].
    right. exists k', r'. apply lookup_delete_Some. split; [|done]. intros <-. congruence.
  - intros k1 k2 c' r1 r2 [_ E1]%lookup_delete_Some [_ E2]%lookup_delete_Some. by eapply Huniq.
  - intros c' key' E. destruct (Hsync _ _ E) as [r' Hr']. exists r'. apply lookup_delete_Some.
    split; [|done]. intros <-. congruence.
  - intros c' Hc'. apply lookup_insert_is_Some'. right. by apply Hres.
  - intros k' c' r' [_ E]%lookup_delete_Some. by eapply Hkeys.
Qed.

Lemma inf_inv_unsync c m :
  inf_inv m -> inf_inv (mkManager (m_informers m) (chans m) (delete c (syncing m)) (panicked m) (resolver m)).
Proof. intros [Hp Hopen Howned Huniq Hsync Hres Hkeys]. split; try done. simpl. intros c' key [_ E]%lookup_delete_Some. by apply Hsync. Qed.

Lemma inf_inv_end c key synced m :
  inf_inv m -> syncing m !! c = Some key -> inf_inv (enableInformer_end c key synced m).2.
Proof.
  intros Hinv Hk. destruct (inv_syncing _ Hinv _ _ Hk) as [r Hr]. unfold enableInformer_end.
  destruct (waitForSync synced); simpl; [by apply inf_inv_unsync|].
  apply inf_inv_close with r; [by apply inf_inv_unsync|done|apply lookup_delete_eq].
Qed.

Lemma inf_inv_stop key m :
  inf_inv m -> (forall c r, m_informers m !! key = Some (c, r) -> syncing m !! c = None) ->
  inf_inv (StopInformer key m).2.
Proof.
  intros Hinv Hq. unfold StopInformer. destruct (m_informers m !! key) as [[c r]|] eqn:Hk; [|done].
  simpl. apply inf_inv_close with r; [done|done|]. by eapply Hq.
Qed.

Lemma inf_inv_initialize c m :
  inf_inv m -> chans m !! c = None -> resolver m = None -> inf_inv (InitializeResolverInformer_start c m).
Proof.
  intros [Hp Hopen Howned Huniq Hsync Hres Hkeys] Hc Hr. split; simpl; try done.
  - intros key c' r E. destruct (Hopen _ _ _ E) as [Ho _]. rewrite lookup_insert_ne by congruence.
    split; [done|]. intros [= <-]. congruence.
  - intros c' [[<- _]|[Hne E]]%lookup_insert_Some; [by left|]. right.
    destruct (Howned _ E) as [?|?]; [congruence|done].
  - intros c' [= <-]. rewrite lookup_insert_eq. eauto.
Qed.

Lemma inf_inv_initialize_end c synced m :
  inf_inv m -> resolver m = Some c -> chans m !! c = Some true ->
  inf_inv (InitializeResolverInformer_end c synced m).2.
Proof.
  intros Hinv Hr Hc. unfold InitializeResolverInformer_end. destruct (waitForSync synced); [done|]. simpl.
  destruct Hinv as [Hp Hopen Howned Huniq Hsync Hres Hkeys]. unfold close_chan. rewrite Hc. split; simpl; try done.
  - intros key c' r E. destruct (Hopen _ _ _ E) as [Ho Hn]. rewrite lookup_insert_ne by congruence. done.
  - intros c' [[_ [=]]|[Hne E]]%lookup_insert_Some. by apply Howned.
  - intros c' Hc'. apply lookup_insert_is_Some'. right. by apply Hres.
Qed.

Lemma inf_inv_step m m' : quiet_step m m' -> inf_inv m -> inf_inv m'.
Proof.
  intros Hs Hinv. destruct Hs.
  - by apply inf_inv_add.
  - by apply inf_inv_end.
  - by apply inf_inv_stop.
  - by apply inf_inv_initialize.
  - by apply inf_inv_initialize_end.
Qed.

Lemma inf_reachable_inv m : rtc quiet_step NewInformerManager m -> inf_inv m.
Proof. revert m. apply (rtc_ind_r inf_inv); [apply inf_inv_init|]. intros; by eapply inf_inv_step. Qed.

(** *** Stopping *)

(** Stopping a list of informers while nothing waits. *)
Lemma stop_keys_spec keys m :
  inf_inv m -> syncing m = ∅ ->
  let m' := stop_keys keys m in
  inf_inv m' /\ syncing m' = ∅ /\ resolver m' = resolver m
  /\ (forall c, resolver m = Some c -> chans m' !! c = chans m !! c)
  /\ forall k, m_informers m' !! k = if bool_decide (k ∈ keys) then None else m_informers m !! k.
Proof.
  revert m. induction keys as [|key keys IH]; intros m Hinv Hs; simpl.
  { by split_and!. }
  set (m1 := (StopInformer key m).2).
  assert (inf_inv m1) as Hinv1 by (apply inf_inv_stop; [done|]; intros; by rewrite Hs).
  assert (syncing m1 = ∅ /\ resolver m1 = resolver m
          /\ (forall c, resolver m = Some c -> chans m1 !! c = chans m !! c)
          /\ forall k, m_informers m1 !! k = if bool_decide (k = key) then None else m_informers m !! k)
    as (Hs1 & Hr1 & Hc1 & Hi1).
  { subst m1. unfold StopInformer. destruct (m_informers m !! key) as [[c r]|] eqn:Hk; simpl.
    - destruct (inv_open _ Hinv _ _ _ Hk) as [Hc Hnr]. unfold close_chan. rewrite Hc. simpl. split_and!; try done.
      + intros c' Hc'. rewrite lookup_insert_ne; [done|]. congruence.
      + intros k. case_bool_decide as E; [subst; apply lookup_delete_eq|by rewrite lookup_delete_ne].
    - split_and!; try done. intros k. by case_bool_decide as E; [subst|]. }
  destruct (IH m1 Hinv1 Hs1) as (H1 & H2 & H3 & H4 & H5). split_and!; try done.
  - by rewrite H3.
  - intros c Hc. rewrite H4 by congruence. by apply Hc1.
  - intros k. rewrite H5, Hi1. repeat case_bool_decide; set_solver.
Qed.

Lemma request_keys_elem p m k :
  inf_inv m -> k ∈ request_keys p m <-> p k = true /\ is_Some (m_informers m !! k).
Proof.
  intros Hinv. unfold request_keys. rewrite list_elem_of_In, in_map_iff. split.
  - intros ([key [c r]] & <- & [Hin Hp]%filter_In). apply list_elem_of_In, elem_of_map_to_list in Hin.
    simpl in *. rewrite <- (inv_keys _ Hinv _ _ _ Hin). eauto.
  - intros [Hp [[c r] E]]. exists (k, (c, r)). simpl. split; [by rewrite <- (inv_keys _ Hinv _ _ _ E)|].
    apply filter_In. split; [|done]. by apply list_elem_of_In, elem_of_map_to_list.
Qed.

(** *** Keys *)

Lemma slash_prefix x y (s t : gostring) :
  "/"%char ∉ x -> "/"%char ∉ y ->
  HasPrefix (x ++ lit "/" ++ s) (y ++ lit "/" ++ t) = true <-> x = y /\ HasPrefix s t = true.
Proof.
  rewrite !HasPrefix_spec. change (lit "/") with ["/"%char]. intros Hx Hy. split.
  - intros [r E]. rewrite <- !app_assoc in E. simpl in E.
    assert (Split (x ++ "/"%char :: s) "/"%char = Split (y ++ "/"%char :: t ++ r) "/"%char) as ES by by rewrite E.
    rewrite !Split_cons_sep in ES by done. injection ES as -> _. split; [done|].
    apply app_inv_head in E. injection E as ->. by exists r.
  - intros [-> [r ->]]. exists r. by rewrite <- !app_assoc.
Qed.

Lemma lower_no_slash s : "/"%char ∉ s -> "/"%char ∉ ToLower s.
Proof.
  intros Hs Hin. apply list_elem_of_In, in_map_iff in Hin as (c & Hc & Hin).
  apply Hs. assert (c = "/"%char) as <-; [|by apply list_elem_of_In].
  unfold lower in Hc. destruct (is_upper c) eqn:Hu; [|done].
  exfalso. revert Hc Hu. destruct c as [b0 b1 b2 b3 b4 b5 b6 b7].
  destruct b0, b1, b2, b3, b4, b5, b6, b7; vm_compute; congruence.
Qed.

(** ** Properties *)


(** [StopForCRD] and [Stop] do what they say: with no start waiting, the first
    takes exactly the informers of its CRD out of the map and the second all of
    them, each with its channel closed and without a panic; the channel of the
    resolver's informer is closed by neither. *)
Theorem stop_closes_informers m crd ns (Hr : rtc quiet_step NewInformerManager m) (Hs : syncing m = ∅) :
  let m1 := StopForCRD crd ns m in
  let m2 := Stop m in
  panicked m1 = false /\ panicked m2 = false
  /\ (forall k, m_informers m1 !! k = if HasPrefix k (crd_prefix crd ns) then None else m_informers m !! k)
  /\ (forall c, chans m1 !! c = Some true -> resolver m = Some c \/ exists k r, m_informers m !! k = Some (c, r)
        /\ HasPrefix k (crd_prefix crd ns) = false)
  /\ m_informers m2 = ∅ /\ (forall c, chans m2 !! c = Some true -> resolver m = Some c)
  /\ (forall c, resolver m = Some c -> chans m1 !! c = chans m !! c /\ chans m2 !! c = chans m !! c).
Proof.
  apply inf_reachable_inv in Hr.
  destruct (stop_keys_spec (request_keys (fun k => HasPrefix k (crd_prefix crd ns)) m) m Hr Hs)
    as (I1 & _ & R1 & C1 & M1).
  destruct (stop_keys_spec (request_keys (fun _ => true) m) m Hr Hs) as (I2 & _ & R2 & C2 & M2).
  fold (StopForCRD crd ns m) in I1, R1, C1, M1. fold (Stop m) in I2, R2, C2, M2. intros m1 m2.
  fold m1 in I1, R1, C1, M1. fold m2 in I2, R2, C2, M2.
  assert (forall k, m_informers m1 !! k = if HasPrefix k (crd_prefix crd ns) then None else m_informers m !! k) as M1'.
  { intros k. rewrite M1. case_bool_decide as E; rewrite request_keys_elem in E by done.
    - by destruct E as [-> _].
    - destruct (HasPrefix k _) eqn:Hp; [|done]. apply eq_None_not_Some. tauto. }
  assert (m_informers m2 = ∅) as M2'.
  { apply map_eq. intros k. rewrite M2, lookup_empty. case_bool_decide as E; [done|].
    rewrite request_keys_elem in E by done. apply eq_None_not_Some. tauto. }
  split_and!; try done; try by apply inv_calm.
  - intros c Hc. destruct (inv_owned _ I1 _ Hc) as [E|(k & r & E)]; [left; congruence|right].
    exists k, r. rewrite M1' in E. by destruct (HasPrefix k _).
  - intros c Hc. destruct (inv_owned _ I2 _ Hc) as [E|(k & r & E)]; [congruence|]. by rewrite M2' in E.
  - intros c Hc. split; [by apply C1|by apply C2].
Qed.

Definition example_watch : RequestWatch :=
  mkWatch (lit "ns") (lit "es") (lit "web") (lit "ns") (GVR (lit "apps") (lit "v1") (lit "deployments")).


(** One informer, synced, and that of the resolver. *)
Definition running : Manager :=
  (enableInformer_end 0 (getKeyFromRequestWatch example_watch) CacheSynced
     (Add_start 0 example_watch true (InitializeResolverInformer_start 1 NewInformerManager))).2.

Lemma stop_closes_informers_witness :
  let m1 := StopForCRD (lit "es") (lit "ns") running in
  let m2 := Stop running in
  panicked m1 = false /\ panicked m2 = false
  /\ (forall k, m_informers m1 !! k = if HasPrefix k (crd_prefix (lit "es") (lit "ns")) then None
                                      else m_informers running !! k)
  /\ (forall c, chans m1 !! c = Some true -> resolver running = Some c
        \/ exists k r, m_informers running !! k = Some (c, r) /\ HasPrefix k (crd_prefix (lit "es") (lit "ns")) = false)
  /\ m_informers m2 = ∅ /\ (forall c, chans m2 !! c = Some true -> resolver running = Some c)
  /\ (forall c, resolver running = Some c -> chans m1 !! c = chans running !! c /\ chans m2 !! c = chans running !! c).
Proof.
  apply (stop_closes_informers running (lit "es") (lit "ns")); [|reflexivity].
  eapply rtc_l; [by apply (quiet_init 1)|]. eapply rtc_l; [by apply (quiet_add 0 example_watch true)|].
  eapply rtc_l; [by apply (quiet_end 0 (getKeyFromRequestWatch example_watch) CacheSynced)|]. apply rtc_refl.
Defined.

(** Stopping an informer while its start still waits makes the wait fail, and
    the failing start closes the channel a second time: the operator panics. *)
Theorem stop_while_syncing_panics m c key r
    (Hp : panicked m = false) (Hk : m_informers m !! key = Some (c, r))
    (Hs : syncing m !! c = Some key) (Hc : chans m !! c = Some true) :
  exists m1 m2, inf_step m m1 /\ inf_step m1 m2 /\ panicked m1 = false /\ panicked m2 = true.
Proof.
  set (m1 := (StopInformer key m).2). exists m1, (enableInformer_end c key StopClosed m1).2.
  assert (m1 = mkManager (delete key (m_informers m)) (<[c := false]> (chans m)) (syncing m) (panicked m) (resolver m)) as E.
  { unfold m1, StopInformer, close_chan. by rewrite Hk, Hc. }
  split_and!.
  - apply inf_stop.
  - apply inf_end; rewrite E; [done|]. apply bool_decide_true. simpl. apply lookup_insert_eq.
  - by rewrite E.
  - rewrite E. unfold enableInformer_end, waitForSync, close_chan. simpl. by rewrite !lookup_insert_eq.
Qed.

Lemma stop_while_syncing_panics_witness :
  let m := Add_start 0 example_watch true NewInformerManager in
  exists m1 m2, inf_step m m1 /\ inf_step m1 m2 /\ panicked m1 = false /\ panicked m2 = true.
Proof.
  apply (stop_while_syncing_panics _ 0 (getKeyFromRequestWatch example_watch) example_watch); vm_compute; reflexivity.
Defined.

(** [StopForCRD] selects exactly the informers of its CRD: among keys of
    resources whose names contain no slash, those of the same CRD name and
    namespace up to letter case. *)
Theorem stop_for_crd_selects_own crd ns req
    (H1 : "/"%char ∉ crd) (H2 : "/"%char ∉ ns) (H3 : "/"%char ∉ rw_Req_Name req)
    (H4 : "/"%char ∉ rw_ResourceNamespace req) :
  HasPrefix (getKeyFromRequestWatch req) (crd_prefix crd ns) = true
  <-> ToLower (rw_Req_Name req) = ToLower crd /\ ToLower (rw_ResourceNamespace req) = ToLower ns.
Proof.
  unfold getKeyFromRequestWatch, crd_prefix.
  rewrite slash_prefix by by apply lower_no_slash.
  rewrite <- (app_nil_r (lit "/")) at 3. rewrite slash_prefix by by apply lower_no_slash.
  unfold HasPrefix. simpl. naive_solver.
Qed.

Lemma stop_for_crd_selects_own_witness :
  HasPrefix (getKeyFromRequestWatch example_watch) (crd_prefix (lit "ES") (lit "ns")) = true
  <-> ToLower (lit "es") = ToLower (lit "ES") /\ ToLower (lit "ns") = ToLower (lit "ns").
Proof. apply (stop_for_crd_selects_own (lit "ES") (lit "ns") example_watch); by apply (bool_decide_unpack _). Defined.
