(* ===== verification/Metrics.v ===== *)
(** * Metrics ([operator/internal/prom/prom.go], [resolver/internal/prom/prom.go])

    The metrics both programs declare and every place that uses one.  A use is
    recorded as a call: the metric, the label values and what is done.  What the
    Prometheus client asks of its users is [well_declared] and [well_used]; it
    panics otherwise. *)

From S2P Require Import Prelude GoStrings K8sHelper Types Cluster HostManager Informer.
Local Open Scope Z_scope.

(** ** Declarations *)

(** Buckets are in tenths of a second. *)
Inductive metric_kind := CounterVec | GaugeVec | HistogramVec (buckets : list Z).

Record vec := mkVec { v_name : gostring; v_kind : metric_kind; v_labels : list gostring }.

Inductive metric :=
| CRDReconcileHistogram | CRDFinalizerCounter | CRDUpdateCounter | ModeGauge
| InformerGauge | InformerCounter | InformerHandlerCounter | TargetScaleCounter
| HostExtractionCounter | QueuedRequestGauge | IncomingRequestHistogram | TrafficSwitchCounter | OperatorRPCCounter.
#[export] Instance metric_eq_dec : EqDecision metric.
Proof. solve_decision. Defined.

Definition latency_buckets : list Z := [1; 5; 10; 20; 50; 100].

Definition operator_metrics : list (metric * vec) :=
  [ (CRDReconcileHistogram,
       mkVec (lit "elasti_operator_reconcile") (HistogramVec latency_buckets) [lit "crd_name"; lit "error"]);
    (CRDFinalizerCounter,
       mkVec (lit "elasti_operator_CRD_finalizer_counter") CounterVec [lit "crd_name"; lit "error"]);
    (CRDUpdateCounter,
       mkVec (lit "elasti_operator_CRD_update_counter") CounterVec [lit "crd_name"; lit "mode"; lit "error"]);
    (ModeGauge, mkVec (lit "elasti_operator_mode") GaugeVec [lit "crd_name"]);
    (InformerGauge, mkVec (lit "elasti_operator_informer_count") GaugeVec [lit "informer_name"]);
    (InformerCounter,
       mkVec (lit "elasti_operator_informer_counter") CounterVec [lit "crd_name"; lit "action"; lit "error"]);
    (InformerHandlerCounter,
       mkVec (lit "elasti_operator_informer_handler_counter") CounterVec [lit "crd_name"; lit "key"; lit "error"]);
    (TargetScaleCounter,
       mkVec (lit "elasti_operator_scale_counter") CounterVec
         [lit "service_name"; lit "namespace"; lit "target"; lit "error"]) ].

Definition resolver_metrics : list (metric * vec) :=
  [ (HostExtractionCounter,
       mkVec (lit "elasti_resolver_host_extraction_count") CounterVec
         [lit "extractionType"; lit "source"; lit "hostHeader"; lit "error"]);
    (QueuedRequestGauge, mkVec (lit "elasti_resolver_queued_count") GaugeVec [lit "source"; lit "namespace"]);
    (IncomingRequestHistogram,
       mkVec (lit "elasti_resolver_incoming_requests") (HistogramVec latency_buckets)
         [lit "source"; lit "target"; lit "sourceHost"; lit "targetHost"; lit "namespace"; lit "method";
          lit "requestURI"; lit "status"; lit "error"]);
    (TrafficSwitchCounter, mkVec (lit "elasti_resolver_traffic_switch_count") CounterVec [lit "source"; lit "enabled"]);
    (OperatorRPCCounter, mkVec (lit "elasti_resolver_operator_rpc_count") CounterVec [lit "error"]) ].

(** ** What the client library asks for *)

Definition is_letter_ (c : ascii) : bool := in_range 97 122 c || in_range 65 90 c || bool_decide (c = "_"%char).
Definition label_name (s : gostring) : bool :=
  match s with
  | [] => false
  | c :: _ => is_letter_ c && forallb (fun c => is_letter_ c || is_digit c) s && negb (HasPrefix s (lit "__"))
  end.
Definition metric_name (s : gostring) : bool :=
  match s with
  | [] => false
  | c :: _ => (is_letter_ c || bool_decide (c = ":"%char))
              && forallb (fun c => is_letter_ c || is_digit c || bool_decide (c = ":"%char)) s
  end.

Fixpoint increasing (l : list Z) : bool :=
  match l with
  | a :: ((b :: _) as l') => (a <? b) && increasing l'
  | _ => true
  end.

(** A vector can be registered: names are valid, labels differ, buckets increase
    and do not use the reserved label of histograms. *)
Definition well_declared (v : vec) : bool :=
  metric_name (v_name v) && forallb label_name (v_labels v) && bool_decide (NoDup (v_labels v))
  && match v_kind v with
     | HistogramVec buckets => increasing buckets && negb (bool_decide (lit "le" ∈ v_labels v))
     | _ => true
     end.

(** A registry refuses a second metric of the same name. *)
Definition registers (l : list (metric * vec)) : bool :=
  forallb (fun mv : metric * vec => well_declared mv.2) l
  && bool_decide (NoDup (map (fun mv : metric * vec => v_name mv.2) l)).

Inductive metric_op := Inc | Dec | Set_ (x : Z) | Observe.

Record call := mkCall { c_metric : metric; c_labels : list gostring; c_op : metric_op }.

Definition declared (m : metric) : option vec :=
  snd <$> List.find (fun mv : metric * vec => bool_decide (mv.1 = m)) (operator_metrics ++ resolver_metrics).

(** [WithLabelValues] gets one value for each label, and the operation is one of
    the kind of metric. *)
Definition well_used (c : call) : bool :=
  match declared (c_metric c) with
  | None => false
  | Some v =>
      bool_decide (length (c_labels c) = length (v_labels v))
      && match v_kind v, c_op c with
         | CounterVec, Inc | GaugeVec, (Inc | Dec | Set_ _) | HistogramVec _, Observe => true
         | _, _ => false
         end
  end.

(** The value of a gauge after the calls, in the order they were made. *)
Definition gauge_step (m : metric) (labels : list gostring) (x : Z) (c : call) : Z :=
  if bool_decide (c_metric c = m /\ c_labels c = labels) then
    match c_op c with Inc => x + 1 | Dec => x - 1 | Set_ y => y | Observe => x end
  else x.
Definition gauge_value (m : metric) (labels : list gostring) (cs : list call) : Z := foldl (gauge_step m labels) 0 cs.

(** ** The uses *)

Section uses.
(** [err.Error()] and [http.StatusText]. *)
Context (Error : error -> gostring) (StatusText : Z -> gostring).

Definition Success : gostring := lit "success".
(** The label for an error, and the one where no error is the empty string. *)
Definition err_label (err : option error) : gostring := match err with Some e => Error e | None => Success end.
Definition err_text (err : option error) : gostring := match err with Some e => Error e | None => [] end.

Definition Reconcile_metrics (req : NamespacedName) (err : option error) : list call :=
  [mkCall CRDReconcileHistogram [nn_string req; err_label err] Observe].

Definition updateCRDStatus_metrics (nn : NamespacedName) (mode : gostring) (err : option error) : list call :=
  [ mkCall CRDUpdateCounter [nn_string nn; mode; err_label err] Inc;
    mkCall ModeGauge [nn_string nn] (Set_ (if bool_decide (mode = ProxyMode) then 1 else 0)) ].

Definition finalizeCRDIfDeleted_metrics (req : NamespacedName) (deleting : bool) (err : option error) : list call :=
  if deleting then [mkCall CRDFinalizerCounter [nn_string req; err_label err] Inc] else [].

(** The handlers of both kinds of informers. *)
Definition handler_metrics (req : NamespacedName) (key : gostring) (err : option error) : list call :=
  [mkCall InformerHandlerCounter [nn_string req; key; err_label err] Inc].

(** [scaleTargetForService], once it scales. *)
Definition scaleTarget_metrics (serviceName namespace : gostring) (target : ScaleTargetRef) (err : option error) : list call :=
  [mkCall TargetScaleCounter
     [serviceName; namespace; str_Kind target ++ lit "-" ++ str_Name target; err_label err] Inc].

Definition GetHost_metrics (cached : bool) (incomingHost headerForHost : gostring) (err : option error) : list call :=
  [mkCall HostExtractionCounter
     [(if cached then lit "cache-hit" else match err with Some _ => lit "error" | None => lit "cache-miss" end);
      incomingHost; headerForHost; err_text err] Inc].

Definition switch_metrics (hostName : gostring) (enabled : bool) : list call :=
  [mkCall TrafficSwitchCounter [hostName; if enabled then lit "enabled" else lit "disabled"] Inc].

(** [ServeHTTP], and the gauge of [handleAnyRequest] around the queueing. *)
Definition ServeHTTP_metrics (host : Host) (method requestURI : gostring) (statusCode : Z) (err : option error) : list call :=
  [mkCall IncomingRequestHistogram
     [SourceService host; TargetService host; SourceHost host; TargetHost host; Namespace host; method; requestURI;
      StatusText statusCode; err_text err] Observe].
Definition queued_metrics (host : Host) (returned : bool) : list call :=
  mkCall QueuedRequestGauge [SourceService host; Namespace host] Inc
  :: if returned then [mkCall QueuedRequestGauge [SourceService host; Namespace host] Dec] else [].

(** [SendIncomingRequestInfo]: an error before the answer, a status other than
    200 as its digits, or the empty string; and an error of closing the body. *)
Definition SendIncomingRequestInfo_metrics (label : gostring) (close_err : option error) : list call :=
  mkCall OperatorRPCCounter [label] Inc
  :: match close_err with Some e => [mkCall OperatorRPCCounter [Error e] Inc] | None => [] end.

(** [Add] and [StopInformer]; the gauge follows the informers that were started. *)
Definition Add_metrics (key : gostring) (started : bool) (err : option error) : list call :=
  (if started then [mkCall InformerGauge [key] Inc] else [])
  ++ [mkCall InformerCounter [key; lit "add"; err_label err] Inc].
Definition StopInformer_metrics (key : gostring) (err : option error) : list call :=
  (match err with None => [mkCall InformerGauge [key] Dec] | Some _ => [] end)
  ++ [mkCall InformerCounter [key; lit "stop"; err_label err] Inc].

(** ** The informer manager with its metrics *)

(** The steps of [Informer.v], with the calls each of them makes: [Add] reports
    when it returns, at once or after its wait. *)
Definition Add_start_metrics (req : RequestWatch) (exists_ : bool) (m : Manager) : list call :=
  let key := getKeyFromRequestWatch req in
  if bool_decide (is_Some (m_informers m !! key)) then Add_metrics key false None
  else if exists_ then []
  else Add_metrics key false (Some (ErrWrap (lit "target not found: ") ErrNotFound)).
Definition Add_end_metrics (key : gostring) (r : option error) : list call :=
  match r with
  | None => Add_metrics key true None
  | Some e => Add_metrics key false (Some (ErrWrap (lit "failed to enable to informer: ") e))
  end.

Inductive metered_step : Manager * list call -> Manager * list call -> Prop :=
| metered_add c req e m cs :
    chans m !! c = None -> metered_step (m, cs) (Add_start c req e m, cs ++ Add_start_metrics req e m)
| metered_end c key e m cs :
    syncing m !! c = Some key -> can_end c e m = true ->
    metered_step (m, cs) ((enableInformer_end c key e m).2, cs ++ Add_end_metrics key (enableInformer_end c key e m).1)
| metered_stop key m cs :
    metered_step (m, cs) ((StopInformer key m).2, cs ++ StopInformer_metrics key (StopInformer key m).1).
End uses.

(** ** Lemmas *)

Lemma gauge_app m labels cs ds : gauge_value m labels (cs ++ ds) = foldl (gauge_step m labels) (gauge_value m labels cs) ds.
Proof. apply foldl_app. Qed.

(** The starts of the informer [k] that wait. *)
Definition waiting (k : gostring) (m : Manager) : nat := size (filter (fun ck : nat * gostring => ck.2 = k) (syncing m)).

Lemma waiting_insert k c key m inf ch p r :
  syncing m !! c = None ->
  waiting k (mkManager inf ch (<[c := key]> (syncing m)) p r) = ((if decide (key = k) then 1 else 0) + waiting k m)%nat.
Proof.
  intros Hc. unfold waiting. simpl. rewrite map_filter_insert. simpl. destruct (decide (key = k)) as [->|Hne].
  - rewrite map_size_insert_None; [done|]. apply map_lookup_filter_None. by left.
  - by rewrite delete_id by done.
Qed.

Lemma waiting_delete k c key m inf ch p r :
  syncing m !! c = Some key ->
  waiting k m = ((if decide (key = k) then 1 else 0) + waiting k (mkManager inf ch (delete c (syncing m)) p r))%nat.
Proof.
  intros Hc. unfold waiting. simpl. rewrite map_filter_delete. destruct (decide (key = k)) as [->|Hne].
  - rewrite map_size_delete. rewrite (proj2 (map_lookup_filter_Some _ _ _ _)) by done. simpl.
    assert (size (filter (fun ck : nat * gostring => ck.2 = k) (syncing m)) <> 0%nat); [|lia].
    intros Hz%map_size_empty_inv. apply (f_equal (.!! c)) in Hz. rewrite lookup_empty in Hz.
    apply map_lookup_filter_None in Hz as [Hz|Hz]; [congruence|]. by eapply Hz.
  - rewrite delete_id; [done|]. apply map_lookup_filter_None. right. intros x Hx. simpl. congruence.
Qed.

(** While no channel was closed twice: every waiting start has a channel, and if
    it is open the informer is in the map; the gauge counts the informers in the
    map whose start has returned. *)
Record gauge_inv (m : Manager) (cs : list call) : Prop := {
  gi_chan : forall c k, syncing m !! c = Some k -> is_Some (chans m !! c);
  gi_open : forall c k, syncing m !! c = Some k -> chans m !! c = Some true -> exists r, m_informers m !! k = Some (c, r);
  gi_gauge : forall k, gauge_value InformerGauge [k] cs
    = (if bool_decide (is_Some (m_informers m !! k)) then 1 else 0) - Z.of_nat (waiting k m)
}.

Lemma close_panics c m : panicked (close_chan c m) = false -> panicked m = false /\ chans m !! c = Some true.
Proof. unfold close_chan. destruct (chans m !! c) as [[]|]; by simpl. Qed.

Section proofs.
Context (Error : error -> gostring).

Lemma gauge_other m m' labels labels' op x : m' <> m -> gauge_step m labels x (mkCall m' labels' op) = x.
Proof. intros Hne. unfold gauge_step. rewrite bool_decide_false; [done|]. by intros [? _]. Qed.
Lemma gauge_key k key op x :
  gauge_step InformerGauge [k] x (mkCall InformerGauge [key] op)
  = if bool_decide (key = k) then match op with Inc => x + 1 | Dec => x - 1 | Set_ y => y | Observe => x end else x.
Proof. unfold gauge_step. cbn [c_metric c_labels c_op]. do 2 case_bool_decide; naive_solver. Qed.

Lemma gauge_Add k key started err x :
  foldl (gauge_step InformerGauge [k]) x (Add_metrics Error key started err)
  = if started && bool_decide (key = k) then x + 1 else x.
Proof.
  unfold Add_metrics. destruct started; cbn [app foldl andb]; rewrite gauge_other by done; [|done]. by rewrite gauge_key.
Qed.
Lemma gauge_Stop k key err x :
  foldl (gauge_step InformerGauge [k]) x (StopInformer_metrics Error key err)
  = if bool_decide (err = None) && bool_decide (key = k) then x - 1 else x.
Proof.
  unfold StopInformer_metrics. destruct err as [e|]; cbn [app foldl]; rewrite gauge_other by done.
  - by rewrite (bool_decide_false (Some e = None)).
  - by rewrite gauge_key, (bool_decide_true (None = None)).
Qed.

Lemma gauge_inv_add c req e m cs :
  chans m !! c = None -> gauge_inv m cs -> gauge_inv (Add_start c req e m) (cs ++ Add_start_metrics Error req e m).
Proof.
  intros Hc [Hchan Hopen Hg].
  unfold Add_start, Add_start_metrics in *. case_bool_decide as Hin.
  { split; [done|done|]. intros k. rewrite gauge_app, gauge_Add. apply Hg. }
  destruct e.
  2: { split; [done|done|]. intros k. rewrite gauge_app, gauge_Add. apply Hg. }
  rewrite app_nil_r. set (key := getKeyFromRequestWatch req) in *.
  assert (syncing m !! c = None) as Hsc.
  { destruct (syncing m !! c) eqn:E; [|done]. destruct (Hchan _ _ E). congruence. }
  split; simpl.
  + intros c' k' [[<- <-]|[Hne E]]%lookup_insert_Some; [rewrite lookup_insert_eq; eauto|].
    rewrite lookup_insert_ne by done. by eapply Hchan.
  + intros c' k' [[<- <-]|[Hne E]]%lookup_insert_Some; [intros _; exists req; apply lookup_insert_eq|].
    rewrite lookup_insert_ne by done. intros Ho. destruct (Hopen _ _ E Ho) as [r Hr]. exists r.
    rewrite lookup_insert_ne; [done|]. intros <-. apply Hin. by exists (c', r).
  + intros k. rewrite Hg. unfold enableInformer_start. rewrite waiting_insert by done. fold key.
    destruct (decide (key = k)) as [<-|Hne].
    * rewrite lookup_insert_eq, (bool_decide_false _ Hin), bool_decide_true by eauto. lia.
    * rewrite lookup_insert_ne by done. lia.
Qed.

Lemma gauge_inv_end c key e m cs :
  syncing m !! c = Some key -> panicked (enableInformer_end c key e m).2 = false -> gauge_inv m cs ->
  gauge_inv (enableInformer_end c key e m).2 (cs ++ Add_end_metrics Error key (enableInformer_end c key e m).1).
Proof.
  intros Hk Hp [Hchan Hopen Hg].
  unfold enableInformer_end in *. destruct (waitForSync e); simpl in Hp |- *.
  + split; simpl.
    * intros c' k' [_ E]%lookup_delete_Some. by eapply Hchan.
    * intros c' k' [_ E]%lookup_delete_Some. by eapply Hopen.
    * intros k. rewrite gauge_app, gauge_Add, Hg. simpl.
      rewrite (waiting_delete k c key m (m_informers m) (chans m) (panicked m) (resolver m) Hk).
      destruct (decide (key = k)) as [->|Hne]; [rewrite (bool_decide_true (k = k)) by done|rewrite (bool_decide_false (key = k)) by done]; lia.
  + set (m1 := mkManager _ _ _ _ _) in *. destruct (close_panics c m1 Hp) as [_ Ho]. simpl in Ho.
    destruct (Hopen _ _ Hk Ho) as [r Hr]. assert (close_chan c m1 = mkManager (m_informers m) (<[c := false]> (chans m)) (delete c (syncing m)) (panicked m) (resolver m)) as ->.
    { unfold close_chan. simpl. by rewrite Ho. }
    split; simpl.
    * intros c' k' [Hne E]%lookup_delete_Some. rewrite lookup_insert_ne by done. by eapply Hchan.
    * intros c' k' [Hne E]%lookup_delete_Some. rewrite lookup_insert_ne by done. intros Ho'.
      destruct (Hopen _ _ E Ho') as [r' Hr']. exists r'. rewrite lookup_delete_ne; [done|]. intros <-. congruence.
    * intros k. rewrite gauge_app, gauge_Add, Hg. simpl. rewrite (waiting_delete k c key m (delete key (m_informers m))
        (<[c := false]> (chans m)) (panicked m) (resolver m) Hk). unfold delete_informer. simpl.
      destruct (decide (key = k)) as [->|Hne].
      -- rewrite Hr, lookup_delete_eq, bool_decide_true, bool_decide_false by (eauto || by intros [? [=]]). lia.
      -- rewrite lookup_delete_ne by done. lia.
Qed.

Lemma gauge_inv_stop key m cs :
  panicked (StopInformer key m).2 = false -> gauge_inv m cs ->
  gauge_inv (StopInformer key m).2 (cs ++ StopInformer_metrics Error key (StopInformer key m).1).
Proof.
  intros Hp [Hchan Hopen Hg].
  unfold StopInformer in *. destruct (m_informers m !! key) as [[c r]|] eqn:Hk; simpl in Hp |- *.
  + destruct (close_panics c m Hp) as [_ Ho]. assert (close_chan c m = mkManager (m_informers m) (<[c := false]> (chans m)) (syncing m) (panicked m) (resolver m)) as ->.
    { unfold close_chan. by rewrite Ho. }
    split; simpl.
    * intros c' k' E. destruct (decide (c = c')) as [<-|Hne]; [rewrite lookup_insert_eq; eauto|].
      rewrite lookup_insert_ne by done. by eapply Hchan.
    * intros c' k' E [[_ [=]]|[Hne Ho']]%lookup_insert_Some. destruct (Hopen _ _ E Ho') as [r' Hr']. exists r'.
      rewrite lookup_delete_ne; [done|]. intros <-. congruence.
    * intros k. rewrite gauge_app, gauge_Stop, Hg, (bool_decide_true (None = None)) by done. unfold delete_informer, waiting. simpl.
      destruct (decide (key = k)) as [->|Hne].
      -- rewrite Hk, lookup_delete_eq, (bool_decide_true (k = k)), bool_decide_true, bool_decide_false by (eauto || by intros [? [=]]). lia.
      -- rewrite lookup_delete_ne, (bool_decide_false (key = k)) by done. lia.
  + split; [done|done|]. intros k. rewrite gauge_app, gauge_Stop, bool_decide_false by done. apply Hg.
Qed.

Lemma panicked_step m cs m' cs' : metered_step Error (m, cs) (m', cs') -> panicked m' = false -> panicked m = false.
Proof.
  intros Hs Hp. inversion Hs; subst; clear Hs.
  - revert Hp. unfold Add_start, enableInformer_start. by repeat case_match.
  - revert Hp. unfold enableInformer_end. destruct (waitForSync e); [done|]. simpl. by intros [? _]%close_panics.
  - revert Hp. unfold StopInformer. destruct (m_informers m !! key) as [[c r]|]; [|done]. simpl. by intros [? _]%close_panics.
Qed.

Lemma gauge_reachable m cs :
  rtc (metered_step Error) (NewInformerManager, []) (m, cs) -> panicked m = false -> gauge_inv m cs.
Proof.
  intros Hr. remember (m, cs) as x eqn:Ex. revert m cs Ex.
  refine (rtc_ind_r (R := metered_step Error) (fun x => forall m cs, x = (m, cs) -> panicked m = false -> gauge_inv m cs)
    (NewInformerManager, []) _ _ x Hr).
  - intros m cs [= <- <-] _. by split.
  - intros [m1 cs1] [m2 cs2] _ Hs IH m cs [= <- <-] Hp. specialize (IH _ _ eq_refl (panicked_step _ _ _ _ Hs Hp)).
    inversion Hs; subst; [by apply gauge_inv_add|by apply gauge_inv_end|by apply gauge_inv_stop].
Qed.

Lemma informer_calls_used m cs :
  rtc (metered_step Error) (NewInformerManager, []) (m, cs) -> forallb well_used cs = true.
Proof.
  intros Hr. remember (m, cs) as x eqn:Ex. revert m cs Ex.
  refine (rtc_ind_r (R := metered_step Error) (fun x => forall m cs, x = (m, cs) -> forallb well_used cs = true)
    (NewInformerManager, []) _ _ x Hr).
  - by intros m cs [= <- <-].
  - intros [m1 cs1] [m2 cs2] _ Hs IH m cs [= <- <-]. specialize (IH _ _ eq_refl).
    inversion Hs; subst; rewrite forallb_app, IH; simpl.
    + unfold Add_start_metrics. by repeat case_match.
    + unfold Add_end_metrics. by repeat case_match.
    + unfold StopInformer_metrics. by repeat case_match.
Qed.

(** ** Properties *)


(** No metric of either program panics: all vectors of a program can be
    registered together, every place that uses one gives it as many label values
    as it has labels and an operation of its kind, whatever the values are, and
    the gauge of queued requests goes down as often as it went up once a request
    is answered. *)
Theorem metrics_never_panic StatusText req mode err key serviceName namespace target cached incomingHost header hostName
    enabled host method uri status label m cs
    (Hr : rtc (metered_step Error) (NewInformerManager, []) (m, cs)) :
  registers operator_metrics = true /\ registers resolver_metrics = true
  /\ forallb well_used
       (Reconcile_metrics Error req err ++ updateCRDStatus_metrics Error req mode err
        ++ finalizeCRDIfDeleted_metrics Error req enabled err ++ handler_metrics Error req key err
        ++ scaleTarget_metrics Error serviceName namespace target err
        ++ GetHost_metrics Error cached incomingHost header err ++ switch_metrics hostName enabled
        ++ ServeHTTP_metrics Error StatusText host method uri status err ++ queued_metrics host enabled
        ++ SendIncomingRequestInfo_metrics Error label err ++ cs) = true
  /\ gauge_value QueuedRequestGauge [SourceService host; Namespace host] (queued_metrics host true) = 0.
Proof.
  split; [vm_compute; reflexivity|]. split; [vm_compute; reflexivity|]. split.
  - rewrite !forallb_app, (informer_calls_used _ _ Hr). by destruct err, enabled.
  - unfold gauge_value, queued_metrics, gauge_step. cbn [foldl c_metric c_labels c_op]. by rewrite !bool_decide_true.
Qed.
End proofs.

(** ** Witnesses *)

(** Errors by their constant text. *)
Definition error_text (e : error) : gostring := match e with ErrText msg => msg | _ => lit "error" end.

(** One informer is started and synced. *)
Definition one_key : gostring := getKeyFromRequestWatch example_watch.
Definition one_started : Manager := Add_start 0 example_watch true NewInformerManager.
Definition one_running : Manager := (enableInformer_end 0 one_key CacheSynced one_started).2.

Lemma one_running_reachable :
  rtc (metered_step error_text) (NewInformerManager, []) (one_running, Add_metrics error_text one_key true None).
Proof.
  eapply rtc_l; [by apply (metered_add _ 0 example_watch true)|]. apply rtc_once.
  by apply (metered_end _ 0 one_key CacheSynced).
Qed.


Lemma metrics_never_panic_witness :
  registers operator_metrics = true /\ registers resolver_metrics = true
  /\ forallb well_used
       (Reconcile_metrics error_text (lit "ns", lit "es") None ++ updateCRDStatus_metrics error_text (lit "ns", lit "es") ProxyMode None
        ++ finalizeCRDIfDeleted_metrics error_text (lit "ns", lit "es") true None
        ++ handler_metrics error_text (lit "ns", lit "es") one_key None
        ++ scaleTarget_metrics error_text (lit "svc") (lit "ns") (mkScaleTargetRef [] [] []) None
        ++ GetHost_metrics error_text false (lit "h") (lit "Host") None ++ switch_metrics (lit "h") true
        ++ ServeHTTP_metrics error_text (fun _ => lit "OK") emptyHost (lit "GET") (lit "/") 200 None ++ queued_metrics emptyHost true
        ++ SendIncomingRequestInfo_metrics error_text [] None ++ Add_metrics error_text one_key true None) = true
  /\ gauge_value QueuedRequestGauge [SourceService emptyHost; Namespace emptyHost] (queued_metrics emptyHost true) = 0.
Proof.
  apply (metrics_never_panic error_text (fun _ => lit "OK") (lit "ns", lit "es") ProxyMode None one_key (lit "svc") (lit "ns")
    (mkScaleTargetRef [] [] []) false (lit "h") (lit "Host") (lit "h") true emptyHost (lit "GET") (lit "/") 200 []
    one_running _ one_running_reachable).
Defined.
