(* ===== verification/Controller.v ===== *)
(** * The operator's controller ([operator/internal/controller], [operator/internal/crddirectory])

    Reconciling an ElastiService, switching it between proxy and serve mode, and
    undoing everything when it is deleted.  The functions run in the monad of
    [Cluster.v], so that every API call may fail.  The goroutines of
    [finalizeCRD] are run one after the other: they work on different objects. *)

From S2P Require Import Prelude GoStrings Names CrdCache K8sHelper Types Cluster Informer Scaling Config.
Local Open Scope Z_scope.

(** ** The CRD directory ([directory.go]) *)

(** [InitDirectory] has run: [main] calls it before anything else. *)
Definition AddCRD (serviceName : gostring) (d : CRDDetails) : M unit :=
  modify (fun s => set_directory (<[serviceName := d]> (directory s)) s).
Definition RemoveCRD (serviceName : gostring) : M unit :=
  modify (fun s => set_directory (delete serviceName (directory s)) s).
Definition GetCRD (serviceName : gostring) : M (option CRDDetails) :=
  gets (fun s => directory s !! serviceName).
Definition ListAllCRDs : M (gmap gostring CRDDetails) := gets directory.

Section controller.
Context (ParseGroupVersion : gostring -> result error (gostring * gostring)).
(** [config.GetResolverConfig()], and whether [WATCH_NAMESPACES] is set. *)
Context (rc : ResolverConfig) (scoped : bool).
(** The selector of a workload and its conversion by [FromUnstructured] and
    [LabelSelectorAsSelector] to a test of labels. *)
Context {rawSelector : Type}
  (asSelector : rawSelector -> result error (gmap gostring gostring -> bool)).

(** ** Private services ([opsServices.go]) *)

Definition deletePrivateService (public : NamespacedName) : M unit :=
  let nn := (public.1, GetPrivateServiceName public.2) in
  r ← attempt_call (api_get services nn);
  match r with
  | Err err => if error_is is_not_found err then mret tt
               else fail (ErrWrap (lit "failed to get private service: ") err)
  | Ok _ => wrap (lit "failed to delete private service: ") (api_delete services set_services nn)
  end.

Definition no_node_port (p : ServicePort) : ServicePort := mkPort (port_Name p) (port_Port p) 0.

(** The copy of the public service, owned by the ElastiService. *)
Definition private_copy (public : Service) (owner : gostring) : Service :=
  mkService (GetPrivateServiceName (svc_Name public)) (svc_Namespace public) [] [owner]
    (svc_Selector public) (map no_node_port (svc_Ports public)) [] [].

Definition checkAndCreatePrivateService (publicSVC : Service) (es : ElastiService) : M gostring :=
  let privateServiceName := GetPrivateServiceName (svc_Name publicSVC) in
  let nn := (svc_Namespace publicSVC, privateServiceName) in
  r ← attempt_call (api_get services nn);
  match r with
  | Ok _ => mret privateServiceName
  | Err _ =>
      _ ← wrap (lit "checkAndCreatePrivateService: ")
            (api_create services set_services nn (private_copy publicSVC (es_Name es)));
      mret privateServiceName
  end.

(** [obj] is the object as [UnstructuredToResource] converts it. *)
Definition handlePublicServiceChanges (obj : result error Service) (serviceName : gostring) : M unit :=
  match obj with
  | Err err => fail (ErrWrap (lit "failed to convert unstructured to service: ") err)
  | Ok publicSVC =>
  if negb (bool_decide (svc_Name publicSVC = serviceName)) then
    fail (ErrText (lit "public service is not same as mentioned in CRD; informer misconfigured"))
  else
    let nn := (svc_Namespace publicSVC, GetPrivateServiceName (svc_Name publicSVC)) in
    r ← attempt_call (api_get services nn);
    match r with
    | Err err => fail (ErrWrap (if error_is is_not_found err then lit "private service not found: "
                                else lit "failed to get private service: ") err)
    | Ok _ =>
        wrap (lit "failed to update private service: ")
          (api_update services set_services nn (fun p =>
             mkService (svc_Name p) (svc_Namespace p) (svc_ResourceVersion p) (svc_OwnerReferences p)
               (svc_Selector publicSVC) (map no_node_port (svc_Ports publicSVC))
               (svc_ClusterIP p) (svc_ClusterIPs p)))
    end
  end.

(** ** Endpoint slices ([opsEndpointslices.go]) *)

Definition ErrNoResolverPodFound : error := ErrText (lit "no Resolver pod found").

(** The addresses behind the resolver's service. *)
Definition resolver_ips (s : OpState) : list gostring :=
  concat (concat (map (fun kv : NamespacedName * Slice => slice_addresses kv.2)
    (List.filter (fun kv => bool_decide (slice_service kv.2 = cfg_ServiceName (rc_Config rc))
                            && (negb scoped || bool_decide (kv.1.1 = cfg_Namespace (rc_Config rc))))
       (map_to_list (slices s))))).

Definition getIPsForResolver : M (list gostring) :=
  ips ← wrap (lit "getIPsForResolver: ") (call (gets resolver_ips));
  match ips with [] => fail ErrNoResolverPodFound | _ => mret ips end.

Definition deleteEndpointsliceToResolver (service : NamespacedName) : M unit :=
  let nn := (service.1, GetEndpointSliceToResolverName service.2) in
  r ← attempt_call (api_get slices nn);
  match r with
  | Err err => if error_is is_not_found err then mret tt
               else fail (ErrWrap (lit "failed to get endpointslice: ") err)
  | Ok _ => wrap (lit "failed to delete endpointslice: ") (api_delete slices set_slices nn)
  end.

(** The run-time panic of [service.Spec.Ports[0]] on a service without ports. *)
Definition index_out_of_range : error := ErrText (lit "runtime error: index out of range").
Definition is_panic (e : error) : bool := bool_decide (e = index_out_of_range).

(** Run a call and log its error; a panic is no error and goes on. *)
Definition logged (m : M unit) : M unit :=
  r ← attempt_call m;
  match r with
  | Err err => if error_is is_panic err then fail err else mret tt
  | Ok _ => mret tt
  end.

Definition createOrUpdateEndpointsliceToResolver (service : Service) : M unit :=
  resolverPodIPs ← getIPsForResolver;
  let nn := (svc_Namespace service, GetEndpointSliceToResolverName (svc_Name service)) in
  r ← attempt_call (api_get slices nn);
  match r with
  | Err err =>
      if error_is is_not_found err then
        match svc_Ports service with
        | [] => fail index_out_of_range
        | p :: _ =>
            wrap (lit "createOrUpdateEndpointsliceToResolver: ")
              (api_create slices set_slices nn
                 (mkSlice (svc_Name service) (port_Name p, ReverseProxyPort rc) (map (fun ip => [ip]) resolverPodIPs)))
        end
      else fail (ErrWrap (lit "createOrUpdateEndpointsliceToResolver: ") err)
  | Ok _ =>
      match svc_Ports service with
      | [] => fail index_out_of_range
      | p :: _ =>
          wrap (lit "createOrUpdateEndpointsliceToResolver: ")
            (api_update slices set_slices nn (fun _ =>
               mkSlice (svc_Name service) (port_Name p, ReverseProxyPort rc) (map (fun ip => [ip]) resolverPodIPs)))
      end
  end.

(** ** Informers ([opsInformer.go], [opsCRD.go]) *)

Definition getMutexKeyForPublicSVC (req : NamespacedName) : gostring := nn_string req ++ lit "public-service".
Definition getMutexKeyForTargetRef (req : NamespacedName) : gostring := nn_string req ++ lit "scale-target-ref".

Definition resetMutexForInformer (key : gostring) : M unit :=
  modify (fun s => set_onces (onces s ∖ {[key]}) s).

(** [sync.Once.Do] *)
Definition once_do (key : gostring) (m : M unit) : M unit :=
  done_ ← gets (fun s => bool_decide (key ∈ onces s));
  if done_ : bool then mret tt
  else _ ← modify (fun s => set_onces ({[key]} ∪ onces s) s); m.

(** [InformerManager.Add], run to its end: the target must exist and the cache
    must sync.  A workload exists when its scale does. *)
Definition informer_Add (key : gostring) (verifyTargetExist : M unit) : M unit :=
  running ← gets (fun s => bool_decide (is_Some (informers s !! key)));
  if running : bool then mret tt
  else
    _ ← wrap (lit "target not found: ") verifyTargetExist;
    _ ← wrap (lit "failed to enable to informer: ") fault;
    modify (fun s => set_informers (<[key := mkInfo true key]> (informers s)) s).

Definition informer_Stop (key : gostring) : M unit :=
  modify (fun s => set_informers (delete key (informers s)) s).

Definition informer_StopForCRD (crdName namespace : gostring) : M unit :=
  modify (fun s => set_informers
    (filter (fun kv => HasPrefix kv.1 (crd_prefix crdName namespace) = false) (informers s)) s).

(** Reset the [Once] when the start failed, so that it is tried again. *)
Definition once_or_reset (key : gostring) (m : M unit) : M unit :=
  r ← attempt_call (once_do key m);
  match r with
  | Ok _ => mret tt
  | Err err => _ ← resetMutexForInformer key; fail err
  end.

Definition target_key (req : NamespacedName) (r : ScaleTargetRef) : gostring :=
  GetKey (mkKey req.2 req.1 (KindToResource (str_Kind r)) (str_Name r)).

Definition ErrNoScaleTargetFound : error := ErrText (lit "no scale target found").
Definition ErrNoPublicServiceFound : error := ErrText (lit "no public service found").

Definition watchScaleTargetRef (es : ElastiService) (req : NamespacedName) : M unit :=
  let r := spec_ScaleTargetRef (es_Spec es) in
  if bool_decide (str_Name r = []) || bool_decide (str_Kind r = []) || bool_decide (str_APIVersion r = []) then
    fail (ErrWrap (lit "scaleTargetRef is incomplete: ") ErrNoScaleTargetFound)
  else
    crd ← GetCRD (nn_string (es_Namespace es, spec_Service (es_Spec es)));
    _ ← match crd with
        | Some d =>
            if bool_decide (r = spec_ScaleTargetRef (d_Spec d)) then mret tt
            else
              _ ← informer_Stop (target_key req (spec_ScaleTargetRef (d_Spec d)));
              resetMutexForInformer (getMutexKeyForTargetRef req)
        | None => mret tt
        end;
    once_or_reset (getMutexKeyForTargetRef req)
      (match ParseGroupVersion (str_APIVersion r) with
       | Err err => fail (ErrWrap (lit "failed to parse API version: ") err)
       | Ok (group, _) =>
           wrap (lit "failed to add scaledTargetRef Informer: ")
             (informer_Add (target_key req r)
                (_ ← api_get scales (req.1, (group, KindToResource (str_Kind r)), str_Name r); mret tt))
       end).

Definition watchPublicService (es : ElastiService) (req : NamespacedName) : M unit :=
  let svc := spec_Service (es_Spec es) in
  if bool_decide (svc = []) then fail (ErrWrap (lit "null value for public service: ") ErrNoPublicServiceFound)
  else
    once_or_reset (getMutexKeyForPublicSVC req)
      (wrap (lit "failed to add public service Informer: ")
         (informer_Add (GetKey (mkKey req.2 (es_Namespace es) (lit "services") svc))
            (_ ← api_get services (es_Namespace es, svc); mret tt))).

(** ** Modes ([opsModes.go]) *)

Definition getCRD (nn : NamespacedName) : M ElastiService :=
  wrap (lit "failed to get ElastiService: ") (api_get crds nn).

Definition set_mode (now : Z) (mode : gostring) (es : ElastiService) : ElastiService :=
  mkElastiService (es_Name es) (es_Namespace es) (es_CreationTimestamp es) (es_DeletionTimestamp es)
    (es_Finalizers es) (es_Spec es) (mkStatus now (st_LastScaledUpTime (es_Status es)) mode).

Definition updateCRDStatus (nn : NamespacedName) (mode : gostring) : M unit :=
  r ← attempt_call (api_get crds nn);
  match r with
  | Err _ => fail (ErrText (lit "failed to get elastiService for status update"))
  | Ok _ =>
      now ← gets op_now;
      r ← attempt_call (api_update crds set_crds nn (set_mode now mode));
      match r with
      | Err _ => fail (ErrText (lit "failed to patch CRD status"))
      | Ok _ => mret tt
      end
  end.

Definition enableProxyMode (req : NamespacedName) (es : ElastiService) : M unit :=
  targetSVC ← wrap (lit "failed to get target service: ")
    (api_get services (es_Namespace es, spec_Service (es_Spec es)));
  _ ← wrap (lit "failed to check and create private service: ") (checkAndCreatePrivateService targetSVC es);
  _ ← wrap (lit "failed to create or update endpointslice to resolver: ")
        (createOrUpdateEndpointsliceToResolver targetSVC);
  wrap (lit "failed to add watch on public service: ") (watchPublicService es req).

Definition enableServeMode (es : ElastiService) : M unit :=
  wrap (lit "failed to delete endpointslice to resolver: ")
    (deleteEndpointsliceToResolver (es_Namespace es, spec_Service (es_Spec es))).

(** The deferred status update runs after the mode change, whatever its result. *)
Definition switchMode (req : NamespacedName) (mode : gostring) : M unit :=
  es ← wrap (lit "failed to get CRD: ") (getCRD req);
  r ← attempt_call
        (if bool_decide (mode = ServeMode) then enableServeMode es
         else if bool_decide (mode = ProxyMode) then enableProxyMode req es
         else mret tt);
  _ ← attempt_call (updateCRDStatus req mode);
  match r with
  | Err err => fail err
  | Ok _ => mret tt
  end.

(** ** The state of the target ([opsInformer.go]) *)

(** The fields read from the updated object, each with the error of its lookup. *)
Record update_obj := mkUpdateObj {
  u_specReplicas : result error (option Z);
  u_statusReplicas : result error (option Z);
  u_selector : result error (option rawSelector)
}.

Record updateObjInfo := mkInfoObj {
  specReplicas : Z; statusReplicas : Z; o_selector : option rawSelector; o_namespace : gostring; o_name : gostring
}.

(** [None] is an object that is not unstructured. *)
Definition getUpdateObjInfo (obj : option update_obj) (req : NamespacedName) : result error updateObjInfo :=
  match obj with
  | None => Err (ErrText (lit "failed to convert ScaleTargetRef to unstructured"))
  | Some obj =>
      match u_specReplicas obj with
      | Err err => Err (ErrWrap (lit "failed to get replicas from spec, ") err)
      | Ok None => Ok (mkInfoObj 0 0 None req.1 req.2)
      | Ok (Some spec) =>
          match u_statusReplicas obj with
          | Err err => Err (ErrWrap (lit "failed to get replicas from spec, ") err)
          | Ok None => Ok (mkInfoObj spec 0 None req.1 req.2)
          | Ok (Some status) =>
              match u_selector obj with
              | Err err => Err (ErrWrap (lit "failed to get selector from spec, ") err)
              | Ok None => Ok (mkInfoObj spec status None req.1 req.2)
              | Ok (Some sel) => Ok (mkInfoObj spec status (Some sel) req.1 req.2)
              end
          end
      end
  end.

Definition pod_ready (p : Pod) : bool :=
  negb (pod_Deleting p) && bool_decide ((lit "Ready", lit "True") ∈ pod_Conditions p).

Definition isTargetReady (obj : updateObjInfo) : M bool :=
  if (specReplicas obj <=? 0) || (statusReplicas obj <=? 0) then mret false
  else
    match o_selector obj with
    | None => mret false
    | Some raw =>
        match asSelector raw with
        | Err err => fail (ErrWrap (lit "failed to convert selector: ") err)
        | Ok selector =>
            podList ← wrap (lit "failed to list pods for label selector, ")
              (call (gets (fun s => List.filter (fun p =>
                 bool_decide (pod_Namespace p = o_namespace obj) && selector (pod_Labels p)) (pods s))));
            mret (existsb pod_ready podList)
        end
    end.

Definition handleScaleTargetRefChanges (req : NamespacedName) (obj : option update_obj) : M unit :=
  match getUpdateObjInfo obj req with
  | Err err => fail (ErrWrap (lit "failed to get scale for target resource: ") err)
  | Ok updatedObj =>
      ready ← wrap (lit "failed to get target ready status: ") (isTargetReady updatedObj);
      if negb ready
      then wrap (lit "failed to switch to proxy mode: ") (switchMode req ProxyMode)
      else wrap (lit "failed to switch to serve mode: ") (switchMode req ServeMode)
  end.

(** ** Changes of the resolver ([opsDeployment.go]) *)

(** The entries [Range] visits. *)
Definition resolver_entry (kv : gostring * CRDDetails) : M unit :=
  if negb (bool_decide (st_Mode (d_Status kv.2) = ProxyMode)) then mret tt
  else
    match Split kv.1 "/"%char with
    | [ns; name] =>
        r ← attempt_call (api_get services (ns, name));
        match r with
        | Err _ => mret tt
        | Ok targetService => logged (createOrUpdateEndpointsliceToResolver targetService)
        end
    | _ => mret tt
    end.

Fixpoint for_each {A} (f : A -> M unit) (l : list A) : M unit :=
  match l with
  | [] => mret tt
  | a :: l => _ ← f a; for_each f l
  end.

(** [obj] is the name of the deployment, as converted. *)
Definition handleResolverChanges (obj : result error gostring) : M unit :=
  match obj with
  | Err err => fail (ErrWrap (lit "failed to convert unstructured to deployment: ") err)
  | Ok deploymentName =>
      if negb (bool_decide (deploymentName = cfg_DeploymentName (rc_Config rc))) then mret tt
      else
        entries ← gets (fun s => map_to_list (directory s));
        for_each resolver_entry entries
  end.

(** ** Finalizers ([opsCRD.go]) *)

(** [r.Update] writes the metadata and the spec of its argument; the status is a
    subresource. *)
Definition write_es (es cur : ElastiService) : ElastiService :=
  mkElastiService (es_Name es) (es_Namespace es) (es_CreationTimestamp es) (es_DeletionTimestamp es)
    (es_Finalizers es) (es_Spec es) (es_Status cur).

Definition set_finalizers (f : list gostring) (es : ElastiService) : ElastiService :=
  mkElastiService (es_Name es) (es_Namespace es) (es_CreationTimestamp es) (es_DeletionTimestamp es)
    f (es_Spec es) (es_Status es).

Definition addCRDFinalizer (es : ElastiService) : M unit :=
  if bool_decide (ElastiServiceFinalizer ∈ es_Finalizers es) then mret tt
  else wrap (lit "failed to add finalizer: ")
         (api_update crds set_crds (es_Namespace es, es_Name es)
            (write_es (set_finalizers (es_Finalizers es ++ [ElastiServiceFinalizer]) es))).

(** The update without the finalizer; the API server drops a deleted object with
    no finalizer left. *)
Definition remove_finalizer (es : ElastiService) : M unit :=
  let fs := filter (fun f => f <> ElastiServiceFinalizer) (es_Finalizers es) in
  let nn := (es_Namespace es, es_Name es) in
  if bool_decide (fs = []) && bool_decide (is_Some (es_DeletionTimestamp es))
  then api_delete crds set_crds nn
  else api_update crds set_crds nn (write_es (set_finalizers fs es)).

(** An error that means the object is gone counts as none. *)
Definition forgive_not_found {A} (r : result error A) : option error :=
  match r with
  | Ok _ => None
  | Err e => if error_is is_not_found e then None else Some e
  end.
Definition error_of {A} (r : result error A) : option error :=
  match r with Ok _ => None | Err e => Some e end.

Definition unpause_keda (es : ElastiService) : M unit :=
  match spec_Autoscaler (es_Spec es) with
  | Some a => if EqualFold (as_Type a) (lit "keda")
              then UpdateKedaScaledObjectPausedState (as_Name a) (es_Namespace es) false else mret tt
  | None => mret tt
  end.

Definition join_errors (es : list (option error)) : option error :=
  match omap id es with
  | [] => None
  | e :: es => Some (ErrWrap (lit "failed to finalize CRD. ") (foldl ErrJoin e es))
  end.

Definition finalizeCRD (es : ElastiService) (req : NamespacedName) : M unit :=
  let target := (es_Namespace es, spec_Service (es_Spec es)) in
  _ ← informer_StopForCRD req.2 req.1;
  _ ← resetMutexForInformer (getMutexKeyForTargetRef req);
  _ ← resetMutexForInformer (getMutexKeyForPublicSVC req);
  r1 ← attempt_call (deleteEndpointsliceToResolver target);
  r2 ← attempt_call (deletePrivateService target);
  r3 ← attempt_call (unpause_keda es);
  r4 ← attempt_call (ScaleToMinReplicas ParseGroupVersion (es_Namespace es) (GetSpec es).1);
  _ ← RemoveCRD (nn_string target);
  match join_errors [error_of r1; error_of r2; forgive_not_found r3; forgive_not_found r4] with
  | Some err => fail err
  | None => mret tt
  end.

(** [GetSpec] has rewritten the kind in [es] by the time of the update. *)
Definition finalizeCRDIfDeleted (es : ElastiService) (req : NamespacedName) : M bool :=
  match es_DeletionTimestamp es with
  | None => mret false
  | Some _ =>
      if bool_decide (ElastiServiceFinalizer ∈ es_Finalizers es) then
        _ ← finalizeCRD es req;
        _ ← wrap (lit "failed to remove finalizer: ") (remove_finalizer (GetSpec es).2);
        mret true
      else mret true
  end.

(** ** Reconciling ([elastiservice_controller.go]) *)

Definition Reconcile (req : NamespacedName) : M unit :=
  r ← attempt_call (getCRD req);
  match r with
  | Err esErr => if error_is is_not_found esErr then mret tt else fail esErr
  | Ok es =>
      isDeleted ← finalizeCRDIfDeleted es req;
      if isDeleted : bool then mret tt
      else
        _ ← addCRDFinalizer es;
        _ ← watchScaleTargetRef es req;
        AddCRD (nn_string (es_Namespace es, spec_Service (es_Spec es)))
          (mkDetails (es_Name es) (es_Spec es) (es_Status es))
  end.

Definition reconcile_existing (watchNamespaces : list gostring) (es : ElastiService) : M unit :=
  if negb (namespaceInScope watchNamespaces (es_Namespace es)) then mret tt
  else
    match es_DeletionTimestamp es with
    | Some _ => mret tt
    | None => _ ← attempt_call (Reconcile (es_Namespace es, es_Name es)); mret tt
    end.

Definition reconcileExistingCRDs (watchNamespaces : list gostring) : M unit :=
  items ← wrap (lit "failed to list ElastiServices: ") (call (gets (fun s => (map_to_list (crds s)).*2)));
  for_each (reconcile_existing watchNamespaces) items.

(** ** The server for the resolver ([operator/internal/elastiserver/elastiServer.go]) *)

Definition scaleTargetForService (serviceName namespace : gostring) : M unit :=
  crd ← GetCRD (nn_string (namespace, serviceName));
  match crd with
  | None => fail (ErrText (lit "scaleTargetForService - error: failed to get CRD details from directory"))
  | Some d =>
      _ ← attempt_call (UpdateLastScaledUpTime (CRDName d) namespace);
      _ ← update_keda (d_Spec d) namespace false;
      _ ← wrap (lit "scaleTargetForService - error: ") (ScaleToMinReplicas ParseGroupVersion namespace (d_Spec d));
      mret tt
  end.

(** The status of the answer.  [decoded] is the body as a service and a
    namespace, [written] the result of writing the answer, which comes before
    the scaling. *)
Definition resolverReqHandler (method : gostring) (decoded : result error (gostring * gostring))
    (written : result error unit) : M Z :=
  if negb (bool_decide (method = lit "POST")) then mret 405
  else
    match decoded with
    | Err _ => mret 400
    | Ok (svc, ns) =>
        match written with
        | Err _ => mret 200
        | Ok _ => _ ← attempt_call (scaleTargetForService svc ns); mret 200
        end
    end.

(** [json.Marshal] of a spec and of a status. *)
Context (marshal_spec : ElastiServiceSpec -> result error gostring)
  (marshal_status : ElastiServiceStatus -> result error gostring).

Definition cache_entry (d : CRDDetails) : result error ElastiServiceEntry :=
  match marshal_spec (d_Spec d) with
  | Err err => Err err
  | Ok specJSON =>
      match marshal_status (d_Status d) with
      | Err err => Err err
      | Ok statusJSON => Ok (mkEntry (CRDName d) specJSON statusJSON)
      end
  end.

Fixpoint cache_entries (l : list (gostring * CRDDetails)) (acc : gmap gostring ElastiServiceEntry)
    : result error (gmap gostring ElastiServiceEntry) :=
  match l with
  | [] => Ok acc
  | (key, d) :: l =>
      match cache_entry d with
      | Err err => Err err
      | Ok e => cache_entries l (<[key := e]> acc)
      end
  end.

(** The status and the services of the answer, before its encoding. *)
Definition crdCacheHandler (method : gostring) : M (Z * option (gmap gostring ElastiServiceEntry)) :=
  if negb (bool_decide (method = lit "GET")) then mret (405, None)
  else
    allCRDs ← ListAllCRDs;
    match cache_entries (map_to_list allCRDs) ∅ with
    | Err _ => mret (500, None)
    | Ok services => mret (200, Some services)
    end.
End controller.
