(* ===== verification/ControllerFacts.v ===== *)
(** * What the controller's operations do

    Lemmas on the operations of [Controller.v]: the parts of the state each one
    leaves alone, and the effect of each when it succeeds. *)

From S2P Require Import Prelude GoStrings Names K8sHelper Types Cluster Informer Scaling Config Controller.
Local Open Scope Z_scope.

(** ** Honest servers *)

(** The API server says "not found" only of objects that are not there. *)
Definition honest (s : OpState) : Prop :=
  Forall (fun f => match f with Some e => error_is is_not_found e = false | None => True end) (faults s).

(** A computation that only uses up faults. *)
Definition shrinks {A} (m : M A) : Prop := forall s, faults (m s).2 `suffix_of` faults s.

Lemma honest_suffix s s' : faults s' `suffix_of` faults s -> honest s -> honest s'.
Proof. intros [l Hl] Hh. unfold honest in *. rewrite Hl in Hh. by apply Forall_app in Hh as [_ ?]. Qed.

Lemma shrinks_keeps {A} (m : M A) : keeps faults m -> shrinks m.
Proof. intros Hk s. by rewrite Hk. Qed.
Lemma shrinks_bind {A B} (m : M A) (k : A -> M B) : shrinks m -> (forall a, shrinks (k a)) -> shrinks (m ≫= k).
Proof.
  intros Hm Hk s. unfold mbind, M_bind. specialize (Hm s). destruct (m s) as [[a|e] s1]; simpl in *; [|done].
  etransitivity; [apply Hk|done].
Qed.
Lemma shrinks_attempt {A} (m : M A) : shrinks m -> shrinks (attempt_call m).
Proof. intros Hm s. unfold attempt_call. specialize (Hm s). by destruct (m s). Qed.
Lemma shrinks_wrap {A} msg (m : M A) : shrinks m -> shrinks (wrap msg m).
Proof. intros Hm s. unfold wrap. specialize (Hm s). by destruct (m s) as [[]]. Qed.
Lemma shrinks_fault : shrinks fault.
Proof.
  intros s. unfold fault. destruct (faults s) as [|[e|] fs] eqn:E; simpl; rewrite ?E; try done;
    by apply suffix_cons_r.
Qed.
Lemma shrinks_call {A} (m : M A) : keeps faults m -> shrinks (call m).
Proof. intros Hm. apply shrinks_bind; [apply shrinks_fault|]. intros _. by apply shrinks_keeps. Qed.
Lemma shrinks_get {K A} `{Countable K} (f : OpState -> gmap K A) k : shrinks (api_get f k).
Proof. apply shrinks_call. intros s. by destruct (f s !! k). Qed.
Lemma shrinks_update {K A} `{Countable K} (f : OpState -> gmap K A) g k upd :
  (forall x s, faults (g x s) = faults s) -> shrinks (api_update f g k upd).
Proof. intros Hg. apply shrinks_call. intros s. by destruct (f s !! k); simpl. Qed.
Lemma shrinks_delete {K A} `{Countable K} (f : OpState -> gmap K A) g k :
  (forall x s, faults (g x s) = faults s) -> shrinks (api_delete f g k).
Proof. intros Hg. apply shrinks_call. intros s. by destruct (f s !! k); simpl. Qed.

Ltac shrink :=
  repeat first
    [ match goal with |- forall _, _ => intros end
    | apply shrinks_get
    | apply shrinks_update; solve [auto] | apply shrinks_delete; solve [auto]
    | apply shrinks_attempt | apply shrinks_wrap
    | match goal with
      | |- shrinks (match ?x with _ => _ end) => destruct x
      end
    | solve [apply shrinks_keeps; frame]
    | apply shrinks_bind ].

(** A map of the state that the script of faults does not touch. *)
Class Stored {K A} `{Countable K} (f : OpState -> gmap K A) (g : gmap K A -> OpState -> OpState) : Prop := {
  stored_faults : forall x s, f (set_faults x s) = f s;
  stored_set : forall x s, f (g x s) = x
}.
#[export] Instance stored_crds : Stored crds set_crds. Proof. by split. Qed.
#[export] Instance stored_services : Stored services set_services. Proof. by split. Qed.
#[export] Instance stored_slices : Stored slices set_slices. Proof. by split. Qed.
#[export] Instance stored_scales : Stored scales set_scales. Proof. by split. Qed.
#[export] Instance stored_scaled_objects : Stored scaled_objects set_scaled_objects. Proof. by split. Qed.

Section stored.
Context {K A : Type} `{Countable K} (f : OpState -> gmap K A) (g : gmap K A -> OpState -> OpState) `{!Stored f g}.

Lemma honest_get k s e s' :
  honest s -> api_get f k s = (Err e, s') -> error_is is_not_found e = true -> f s !! k = None.
Proof.
  intros Hh. unfold honest in Hh. unfold api_get, call, mbind, M_bind, fault.
  destruct (faults s) as [|[e'|] fs] eqn:E.
  - by destruct (f s !! k).
  - intros [= <- <-] Hnf. inversion Hh; subst. congruence.
  - rewrite stored_faults. by destruct (f s !! k).
Qed.

Lemma honest_update k upd s e s' :
  honest s -> api_update f g k upd s = (Err e, s') -> error_is is_not_found e = true ->
  f s !! k = None /\ f s' = f s.
Proof.
  intros Hh. unfold honest in Hh. unfold api_update, call, mbind, M_bind, fault.
  destruct (faults s) as [|[e'|] fs] eqn:E.
  - destruct (f s !! k) eqn:Ek; [done|]. intros [= <- <-]. done.
  - intros [= <- <-] Hnf. inversion Hh; subst. congruence.
  - rewrite stored_faults. destruct (f s !! k) eqn:Ek; [done|]. intros [= <- <-]. by rewrite stored_faults.
Qed.

Lemma delete_ok k s s' : api_delete f g k s = (Ok tt, s') -> f s' = delete k (f s).
Proof.
  unfold api_delete, call, mbind, M_bind, fault. destruct (faults s) as [|[e'|] fs] eqn:E; [|done|].
  - destruct (f s !! k); [|done]. intros [= <-]. apply stored_set.
  - rewrite stored_faults. destruct (f s !! k); [|done]. intros [= <-]. rewrite stored_set. done.
Qed.

Lemma create_ok k a s s' :
  api_create f g k a s = (Ok tt, s') -> f s !! k = None /\ f s' = <[k := a]> (f s).
Proof.
  unfold api_create, call, mbind, M_bind, fault. destruct (faults s) as [|[e'|] fs] eqn:E; [|done|].
  - destruct (f s !! k); [done|]. intros [= <-]. split; [done|apply stored_set].
  - rewrite stored_faults. destruct (f s !! k); [done|]. intros [= <-]. by rewrite stored_set.
Qed.

(** "Read, and delete unless it is not there": afterwards it is not there. *)
Lemma get_then_delete k msg1 msg2 s s' :
  honest s ->
  (r ← attempt_call (api_get f k);
   match r with
   | Err err => if error_is is_not_found err then mret tt else fail (ErrWrap msg1 err)
   | Ok _ => wrap msg2 (api_delete f g k)
   end) s = (Ok tt, s') ->
  f s' !! k = None.
Proof.
  intros Hh. destruct (api_get f k s) as [r s1] eqn:Hg. rewrite (attempt_bind _ _ _ _ _ Hg).
  destruct r as [a|e].
  - intros Hw. apply wrap_result in Hw as ([[]|] & Hd & Hr); [|discriminate].
    apply delete_ok in Hd. rewrite Hd. apply lookup_delete_eq.
  - destruct (error_is is_not_found e) eqn:Hnf; [|discriminate]. intros [= <-].
    assert (f s1 = f s) as -> by (eapply get_result; [apply stored_faults|exact Hg]).
    by eapply honest_get.
Qed.
End stored.

(** A framed computation and a run of it. *)
Lemma keeps_run {A B} (p : OpState -> B) (m : M A) s r s' : keeps p m -> m s = (r, s') -> p s' = p s.
Proof. intros Hk Hm. specialize (Hk s). by rewrite Hm in Hk. Qed.
Lemma shrinks_run {A} (m : M A) s r s' : shrinks m -> m s = (r, s') -> honest s -> honest s'.
Proof. intros Hk Hm. specialize (Hk s). rewrite Hm in Hk. by apply honest_suffix. Qed.

Lemma modify_bind {B} f (k : unit -> M B) s : (modify f ≫= k) s = k tt (f s).
Proof. done. Qed.
Lemma gets_bind {A B} (f : OpState -> A) (k : A -> M B) s : (gets f ≫= k) s = k (f s) s.
Proof. done. Qed.

(** ** Finalizing *)

Section finalize.
Context (ParseGroupVersion : gostring -> result error (gostring * gostring)).
Context (es : ElastiService) (req : NamespacedName).

Abbreviation svc_nn := (es_Namespace es, spec_Service (es_Spec es)).
Abbreviation slice_nn := (es_Namespace es, GetEndpointSliceToResolverName (spec_Service (es_Spec es))).
Abbreviation private_nn := (es_Namespace es, GetPrivateServiceName (spec_Service (es_Spec es))).

(** The state in which the cleaning starts: the informers are stopped. *)
Definition informers_stopped (s : OpState) : OpState :=
  let s := set_informers
    (filter (fun kv => HasPrefix kv.1 (crd_prefix req.2 req.1) = false) (informers s)) s in
  let s := set_onces (onces s ∖ {[getMutexKeyForTargetRef req]}) s in
  set_onces (onces s ∖ {[getMutexKeyForPublicSVC req]}) s.

(** The run of [finalizeCRD], call by call. *)
Lemma finalizeCRD_run s r s' :
  finalizeCRD ParseGroupVersion es req s = (r, s') ->
  exists r1 s1 r2 s2 r3 s3 r4 s4,
    deleteEndpointsliceToResolver svc_nn (informers_stopped s) = (r1, s1)
    /\ deletePrivateService svc_nn s1 = (r2, s2)
    /\ unpause_keda es s2 = (r3, s3)
    /\ ScaleToMinReplicas ParseGroupVersion (es_Namespace es) (GetSpec es).1 s3 = (r4, s4)
    /\ s' = set_directory (delete (nn_string svc_nn) (directory s4)) s4
    /\ r = match join_errors [error_of r1; error_of r2; forgive_not_found r3; forgive_not_found r4] with
           | Some err => Err err
           | None => Ok tt
           end.
Proof.
  unfold finalizeCRD, informer_StopForCRD, resetMutexForInformer, RemoveCRD.
  rewrite !modify_bind. fold (informers_stopped s).
  destruct (deleteEndpointsliceToResolver svc_nn _) as [r1 s1] eqn:H1. rewrite (attempt_bind _ _ _ _ _ H1).
  destruct (deletePrivateService svc_nn s1) as [r2 s2] eqn:H2. rewrite (attempt_bind _ _ _ _ _ H2).
  destruct (unpause_keda es s2) as [r3 s3] eqn:H3. rewrite (attempt_bind _ _ _ _ _ H3).
  destruct (ScaleToMinReplicas ParseGroupVersion (es_Namespace es) (GetSpec es).1 s3) as [r4 s4] eqn:H4.
  rewrite (attempt_bind _ _ _ _ _ H4), modify_bind.
  intros HE. exists r1, s1, r2, s2, r3, s3, r4, s4. split_and!; try done.
  all: destruct (join_errors _); by injection HE as <- <-.
Qed.

Lemma join_errors_none l : join_errors l = None -> Forall (fun o => o = None) l.
Proof.
  unfold join_errors. induction l as [|[e|] l IH]; simpl; [constructor|done|].
  intros H. constructor; [done|]. by apply IH.
Qed.

Lemma deleteSlice_keeps {B} (p : OpState -> B) nn :
  (forall x s, p (set_faults x s) = p s) -> (forall x s, p (set_slices x s) = p s) ->
  keeps p (deleteEndpointsliceToResolver nn).
Proof. intros. unfold deleteEndpointsliceToResolver. frame. Qed.
Lemma deletePrivate_keeps {B} (p : OpState -> B) nn :
  (forall x s, p (set_faults x s) = p s) -> (forall x s, p (set_services x s) = p s) ->
  keeps p (deletePrivateService nn).
Proof. intros. unfold deletePrivateService. frame. Qed.
Lemma unpause_keeps {B} (p : OpState -> B) :
  (forall x s, p (set_faults x s) = p s) -> (forall x s, p (set_scaled_objects x s) = p s) ->
  keeps p (unpause_keda es).
Proof. intros. unfold unpause_keda, UpdateKedaScaledObjectPausedState. frame. Qed.

Lemma deleteSlice_shrinks nn : shrinks (deleteEndpointsliceToResolver nn).
Proof. unfold deleteEndpointsliceToResolver. shrink. Qed.
Lemma deletePrivate_shrinks nn : shrinks (deletePrivateService nn).
Proof. unfold deletePrivateService. shrink. Qed.
Lemma unpause_shrinks : shrinks (unpause_keda es).
Proof. unfold unpause_keda, UpdateKedaScaledObjectPausedState. shrink. Qed.

(** KEDA is released, or its object is gone. *)
Definition keda_released (s : OpState) : Prop :=
  match spec_Autoscaler (es_Spec es) with
  | Some a => EqualFold (as_Type a) (lit "keda") = true ->
      scaled_objects s !! (es_Namespace es, as_Name a) = None
      \/ exists ann, scaled_objects s !! (es_Namespace es, as_Name a) = Some ann /\ keda_is false ann
  | None => True
  end.

Lemma unpause_releases s r s' :
  honest s -> unpause_keda es s = (r, s') -> forgive_not_found r = None -> keda_released s'.
Proof.
  intros Hh. unfold unpause_keda, keda_released. destruct (spec_Autoscaler (es_Spec es)) as [a|]; [|done].
  destruct (EqualFold _ _); [|done]. unfold UpdateKedaScaledObjectPausedState.
  intros Hw Hr _. apply wrap_result in Hw as (r0 & Hu & ->). destruct r0 as [[]|e]; simpl in Hr.
  - right. apply update_result in Hu as [(ann & _ & _ & Hs)|(e & [=] & _)]; [|done|done].
    exists (paused_patch false ann). rewrite Hs. split; [apply lookup_insert_eq|apply paused_patch_is].
  - left. destruct (error_is is_not_found e) eqn:Hnf; [|done].
    destruct (honest_update scaled_objects set_scaled_objects _ _ _ _ _ Hh Hu Hnf) as [Hn Hs]. by rewrite Hs.
Qed.

(** The target is back at its minimum, beyond it, or gone. *)
Definition target_restored (s : OpState) : Prop :=
  exists t, target_of ParseGroupVersion (es_Namespace es) (es_Spec es) = Some t
    /\ match scales s !! t with
       | None => True
       | Some sc => sc_spec sc = min_replicas (es_Spec es) \/ min_replicas (es_Spec es) <= sc_status sc
       end.
End finalize.

(** *** Scaling under an honest server *)

Lemma get_scale_not_found n t s e s' :
  honest s -> get_scale n t s = (Err e, s') -> error_is is_not_found e = true ->
  scales s !! t = None.
Proof.
  revert s. induction n as [|[|n] IH]; intros s Hh.
  - by intros [= <- <-].
  - intros Hg Hnf. by eapply (honest_get scales set_scales).
  - change (get_scale (S (S n)) t) with
      (r ← attempt_call (api_get scales t);
       match r with
       | Ok sc => mret sc
       | Err err => if error_is is_no_match err then get_scale (S n) t else fail err
       end).
    destruct (api_get scales t s) as [r1 s1] eqn:Hg. rewrite (attempt_bind _ _ _ _ _ Hg).
    assert (honest s1) as Hh1.
    { eapply honest_suffix; [|exact Hh]. pose proof (shrinks_get scales t s) as Hs. by rewrite Hg in Hs. }
    assert (scales s1 = scales s) as Hs1 by (eapply get_result; [|exact Hg]; done).
    destruct r1 as [sc|e1]; [done|]. destruct (error_is is_no_match e1).
    + intros Hr Hnf. rewrite <- Hs1. by eapply IH.
    + intros [= <- <-] Hnf. by eapply (honest_get scales set_scales).
Qed.

Lemma get_scale_shrinks n t : shrinks (get_scale n t).
Proof.
  induction n as [|[|n] IH]; [by apply shrinks_keeps|apply shrinks_get|].
  change (get_scale (S (S n)) t) with
      (r ← attempt_call (api_get scales t);
       match r with
       | Ok sc => mret sc
       | Err err => if error_is is_no_match err then get_scale (S n) t else fail err
       end).
  apply shrinks_bind; [apply shrinks_attempt, shrinks_get|]. intros [sc|e]; [by apply shrinks_keeps|].
  destruct (error_is is_no_match e); [exact IH|by apply shrinks_keeps].
Qed.

Lemma Scale_not_found ns gvk name d s e s' :
  honest s -> Scale ns gvk name d s = (Err e, s') -> error_is is_not_found e = true ->
  scales s !! scale_target ns gvk name = None /\ scales s' = scales s.
Proof.
  intros Hh HS Hnf. assert (scales s' = scales s) as Hsc.
  { apply Scale_result in HS as [(sc & [=] & _)|[(sc & [=] & _)|(e' & _ & ?)]]; done. }
  split; [|done]. revert HS. unfold Scale. set (t := scale_target ns gvk name).
  destruct (get_scale 2 t s) as [r1 s1] eqn:Hg. rewrite (attempt_bind _ _ _ _ _ Hg).
  destruct r1 as [sc|e1]; [|intros [= <- <-]; by eapply get_scale_not_found].
  assert (scales s1 = scales s) as Hs1 by by apply get_scale_result in Hg as [? _].
  assert (honest s1) as Hh1.
  { eapply honest_suffix; [|exact Hh]. pose proof (get_scale_shrinks 2 t s) as Hs. by rewrite Hg in Hs. }
  destruct (_ =? _); [done|]. destruct (_ && _); [done|].
  destruct (api_update scales set_scales t (fun sc => mkScale d (sc_status sc)) s1) as [r2 s2] eqn:Hu.
  rewrite (attempt_bind _ _ _ _ _ Hu). destruct r2 as [[]|e2]; [done|].
  intros [= <- <-]. rewrite <- Hs1. by eapply (honest_update scales set_scales) in Hu as [? _].
Qed.

Section restored.
Context (ParseGroupVersion : gostring -> result error (gostring * gostring)).
Context (Hparse : forall v e, ParseGroupVersion v = Err e -> error_is is_not_found e = false).

Lemma min_replicas_pos spec : 0 < min_replicas spec.
Proof. unfold min_replicas. destruct (Z.ltb_spec (spec_MinTargetReplicas spec) 1); lia. Qed.

Lemma not_wanted d sc : 0 < d -> ~ wanted d sc -> d <= sc_status sc.
Proof. unfold wanted. intros Hd Hw. destruct (Z.le_gt_cases d (sc_status sc)); [done|]. exfalso. apply Hw. lia. Qed.

(** A scale-up that succeeds, or finds the target gone, restores the target. *)
Lemma ScaleToMin_restores es s r s' :
  honest s -> ScaleToMinReplicas ParseGroupVersion (es_Namespace es) (GetSpec es).1 s = (r, s') ->
  forgive_not_found r = None -> target_restored ParseGroupVersion es s'.
Proof.
  intros Hh HS Hr. pose proof HS as HS'. apply ScaleToMin_result in HS'.
  unfold target_restored. rewrite target_of_GetSpec in HS'.
  change (min_replicas (GetSpec es).1) with (min_replicas (es_Spec es)) in HS'.
  destruct (target_of ParseGroupVersion (es_Namespace es) (es_Spec es)) as [t|] eqn:Ht.
  - exists t. split; [done|].
    destruct HS' as [(sc & -> & Hsc & Hw & Hs)|[(sc & -> & Hsc & Hw & Hs)|(e & -> & Hs)]].
    + rewrite Hs, lookup_insert_eq. by left.
    + rewrite Hs, Hsc. right. apply not_wanted; [apply min_replicas_pos|done].
    + simpl in Hr. destruct (error_is is_not_found e) eqn:Hnf; [|done].
      revert HS Ht. unfold ScaleToMinReplicas. rewrite <- target_of_GetSpec. unfold target_of.
      destruct (APIVersionStrToGVK _ _ _) as [gvk|]; [|done]. intros HS [= <-].
      destruct (Scale_not_found _ _ _ _ _ _ _ Hh HS Hnf) as [Hn _].
      rewrite Hs. by replace (scales s !! _) with (@None ScaleObj).
  - destruct HS' as (e & -> & ->). exfalso. simpl in Hr.
    revert HS Ht. unfold ScaleToMinReplicas. rewrite <- target_of_GetSpec. unfold target_of, APIVersionStrToGVK.
    destruct (ParseGroupVersion _) as [[gr v]|e1] eqn:Hp; [done|]. intros [= <-] _.
    apply Hparse in Hp. simpl in Hr. by rewrite Hp in Hr.
Qed.
End restored.

(** ** Modes *)

Lemma wrap_ok {A} msg (m : M A) s a s' : wrap msg m s = (Ok a, s') -> m s = (Ok a, s').
Proof. unfold wrap. by destruct (m s) as [[]]. Qed.
Lemma bind_Ok {A B} (m : M A) (k : A -> M B) s b s' :
  (m ≫= k) s = (Ok b, s') -> exists a s1, m s = (Ok a, s1) /\ k a s1 = (Ok b, s').
Proof. unfold mbind, M_bind. destruct (m s) as [[a|e] s1]; [eauto|done]. Qed.

Lemma getIPs_ok rc scoped s ips s' :
  getIPsForResolver rc scoped s = (Ok ips, s') ->
  ips <> [] /\ ips = resolver_ips rc scoped s /\ slices s' = slices s /\ services s' = services s.
Proof.
  unfold getIPsForResolver. intros (l & s1 & Hl%wrap_ok & Hr)%bind_Ok.
  assert (l = resolver_ips rc scoped s /\ slices s1 = slices s /\ services s1 = services s) as (-> & ? & ?).
  { revert Hl. unfold call, mbind, M_bind, fault, gets.
    destruct (faults s) as [|[e|] fs]; [| |]; intros [= <- <-]; done. }
  destruct (resolver_ips rc scoped s) eqn:E; [done|]. by injection Hr as <- <-.
Qed.

Lemma checkAndCreate_ok svc es s n s' :
  checkAndCreatePrivateService svc es s = (Ok n, s') ->
  let k := (svc_Namespace svc, GetPrivateServiceName (svc_Name svc)) in
  slices s' = slices s
  /\ ((is_Some (services s !! k) /\ services s' = services s)
      \/ (services s !! k = None /\ services s' = <[k := private_copy svc (es_Name es)]> (services s))).
Proof.
  intros HC k. split.
  { eapply (keeps_run slices); [|exact HC]. unfold checkAndCreatePrivateService. frame. }
  revert HC. unfold checkAndCreatePrivateService. fold k.
  destruct (api_get services k s) as [r s1] eqn:Hg. rewrite (attempt_bind _ _ _ _ _ Hg).
  apply get_result in Hg as [Hs1 Hr]; [|done]. destruct r as [p|e].
  - intros [= <- <-]. left. split; [|done]. exists p. by apply Hr.
  - intros ([] & s2 & Hc%wrap_ok & [= <- <-])%bind_Ok. apply (create_ok services set_services) in Hc as [Hn Hs2].
    right. by rewrite <- Hs1.
Qed.

Lemma createOrUpdate_ok rc scoped svc s s' :
  createOrUpdateEndpointsliceToResolver rc scoped svc s = (Ok tt, s') ->
  exists p ps, svc_Ports svc = p :: ps /\ resolver_ips rc scoped s <> []
    /\ services s' = services s
    /\ slices s' = <[(svc_Namespace svc, GetEndpointSliceToResolverName (svc_Name svc)) :=
         mkSlice (svc_Name svc) (port_Name p, ReverseProxyPort rc) (map (fun ip => [ip]) (resolver_ips rc scoped s))]>
       (slices s).
Proof.
  unfold createOrUpdateEndpointsliceToResolver.
  intros (ips & s1 & (Hne & -> & Hs1 & Hv1)%getIPs_ok & H)%bind_Ok. revert H.
  set (k := (svc_Namespace svc, _)). destruct (api_get slices k s1) as [r s2] eqn:Hg.
  rewrite (attempt_bind _ _ _ _ _ Hg).
  assert (services s2 = services s1) as Hv2 by (eapply (keeps_run services); [|exact Hg]; frame).
  apply get_result in Hg as [Hs2 _]; [|done]. destruct r as [sl|e].
  - destruct (svc_Ports svc) as [|p ps]; [done|]. intros Hu%wrap_ok. exists p, ps.
    assert (services s' = services s2) as Hv3 by (eapply (keeps_run services); [|exact Hu]; frame).
    apply update_result in Hu as [(a & _ & _ & ->)|(e' & [=] & _)]; [|done|done].
    split_and!; congruence.
  - destruct (error_is is_not_found e); [|done]. destruct (svc_Ports svc) as [|p ps]; [done|].
    intros Hu%wrap_ok. exists p, ps.
    assert (services s' = services s2) as Hv3 by (eapply (keeps_run services); [|exact Hu]; frame).
    apply (create_ok slices set_slices) in Hu as [_ ->]. split_and!; congruence.
Qed.

Lemma informer_Add_keeps {B} (p : OpState -> B) key v :
  (forall x s, p (set_faults x s) = p s) -> (forall x s, p (set_informers x s) = p s) ->
  keeps p v -> keeps p (informer_Add key v).
Proof. intros Hf Hi Hv. unfold informer_Add. pose proof (keeps_fault p Hf). frame. Qed.
Lemma once_or_reset_keeps {B} (p : OpState -> B) key m :
  (forall x s, p (set_onces x s) = p s) -> keeps p m -> keeps p (once_or_reset key m).
Proof. intros Ho Hm. unfold once_or_reset, once_do, resetMutexForInformer. frame. Qed.

Lemma watchPublicService_keeps {B} (p : OpState -> B) es req :
  (forall x s, p (set_faults x s) = p s) -> (forall x s, p (set_informers x s) = p s) ->
  (forall x s, p (set_onces x s) = p s) -> keeps p (watchPublicService es req).
Proof.
  intros Hf Hi Ho. unfold watchPublicService. destruct (bool_decide _); [apply keeps_fail|].
  apply once_or_reset_keeps; [done|]. apply keeps_wrap, informer_Add_keeps; [done..|]. frame.
Qed.

Lemma updateCRDStatus_keeps {B} (p : OpState -> B) nn mode :
  (forall x s, p (set_faults x s) = p s) -> (forall x s, p (set_crds x s) = p s) ->
  keeps p (updateCRDStatus nn mode).
Proof. intros Hf Hc. unfold updateCRDStatus. frame. Qed.
