(* ===== verification/ControllerProps.v ===== *)
(** * The controller's guarantees

    What is left of an ElastiService after it was finalized, what the two modes
    set up, and what a wake-up of the resolver does. *)

From S2P Require Import Prelude GoStrings Names CrdCache K8sHelper Types Cluster Informer Scaling Config Controller ControllerFacts.
Local Open Scope Z_scope.

(** ** Lemmas on finalizing *)

Lemma remove_finalizer_keeps {B} (p : OpState -> B) e :
  (forall x s, p (set_faults x s) = p s) -> (forall x s, p (set_crds x s) = p s) ->
  keeps p (remove_finalizer e).
Proof. intros. unfold remove_finalizer. frame. Qed.

Lemma remove_finalizer_ok e s s' :
  remove_finalizer e s = (Ok tt, s') ->
  forall cur, crds s' !! (es_Namespace e, es_Name e) = Some cur -> ElastiServiceFinalizer ∉ es_Finalizers cur.
Proof.
  unfold remove_finalizer. destruct (_ && _).
  - intros Hd cur. apply (delete_ok crds set_crds) in Hd. by rewrite Hd, lookup_delete_eq.
  - intros Hu cur. apply update_result in Hu as [(a & _ & _ & ->)|(e' & [=] & _)]; [|done|done].
    rewrite lookup_insert_eq. intros [= <-]. simpl. rewrite list_elem_of_filter. tauto.
Qed.

Lemma remove_finalizer_err e s err s' : remove_finalizer e s = (Err err, s') -> crds s' = crds s.
Proof.
  unfold remove_finalizer, api_delete, api_update, call, mbind, M_bind, fault.
  destruct (_ && _), (faults s) as [|[f|] fs]; simpl;
    try destruct (crds s !! _); intros [= <- <-]; done.
Qed.

Section finalizing.
Context (ParseGroupVersion : gostring -> result error (gostring * gostring)).
Context (es : ElastiService) (req : NamespacedName).

(** A finalized ElastiService: its two steps. *)
Lemma finalize_steps s r s' :
  is_Some (es_DeletionTimestamp es) -> ElastiServiceFinalizer ∈ es_Finalizers es ->
  finalizeCRDIfDeleted ParseGroupVersion es req s = (r, s') ->
  (exists e, finalizeCRD ParseGroupVersion es req s = (Err e, s') /\ r = Err e)
  \/ exists s1 r2, finalizeCRD ParseGroupVersion es req s = (Ok tt, s1)
      /\ remove_finalizer (GetSpec es).2 s1 = (r2, s')
      /\ match r2 with Ok _ => r = Ok true | Err e => r = Err (ErrWrap (lit "failed to remove finalizer: ") e) end.
Proof.
  intros [t Ht] Hf. unfold finalizeCRDIfDeleted. rewrite Ht, bool_decide_true by done.
  destruct (finalizeCRD ParseGroupVersion es req s) as [[[]|e] s1] eqn:H1.
  - rewrite (bind_ok _ _ _ _ _ H1). destruct (remove_finalizer (GetSpec es).2 s1) as [[[]|e] s2] eqn:H2.
    + intros HE. right. exists s1, (Ok tt). rewrite H2.
      unfold mbind, M_bind, wrap in HE. rewrite H2 in HE. by injection HE as <- <-.
    + intros HE. right. exists s1, (Err e). rewrite H2.
      unfold mbind, M_bind, wrap in HE. rewrite H2 in HE. by injection HE as <- <-.
  - rewrite (bind_err _ _ _ _ _ H1). intros [= <- <-]. left. eauto.
Qed.

Lemma finalizeCRD_keeps_crds : keeps crds (finalizeCRD ParseGroupVersion es req).
Proof.
  intros s. destruct (finalizeCRD ParseGroupVersion es req s) as [r s'] eqn:HF.
  apply finalizeCRD_run in HF as (r1 & s1 & r2 & s2 & r3 & s3 & r4 & s4 & H1 & H2 & H3 & H4 & -> & _). simpl.
  apply (keeps_run crds) in H1; [|by apply deleteSlice_keeps].
  apply (keeps_run crds) in H2; [|by apply deletePrivate_keeps].
  apply (keeps_run crds) in H3; [|by apply unpause_keeps].
  apply (keeps_run crds) in H4; [|by apply ScaleToMin_keeps]. by rewrite H4, H3, H2, H1.
Qed.

(** What [finalizeCRD] has removed when it reports success. *)
Record cleaned (s : OpState) : Prop := {
  no_slice : slices s !! (es_Namespace es, GetEndpointSliceToResolverName (spec_Service (es_Spec es))) = None;
  no_private_service : services s !! (es_Namespace es, GetPrivateServiceName (spec_Service (es_Spec es))) = None;
  not_in_directory : directory s !! nn_string (es_Namespace es, spec_Service (es_Spec es)) = None;
  no_informer : forall k i, informers s !! k = Some i -> HasPrefix k (crd_prefix req.2 req.1) = false;
  onces_reset : getMutexKeyForTargetRef req ∉ onces s /\ getMutexKeyForPublicSVC req ∉ onces s;
  keda_free : keda_released es s;
  target_back : target_restored ParseGroupVersion es s
}.

Context (Hparse : forall v e, ParseGroupVersion v = Err e -> error_is is_not_found e = false).

Lemma finalizeCRD_cleans s s' :
  honest s -> finalizeCRD ParseGroupVersion es req s = (Ok tt, s') -> cleaned s'.
Proof.
  intros Hh HF.
  apply finalizeCRD_run in HF as (r1 & s1 & r2 & s2 & r3 & s3 & r4 & s4 & H1 & H2 & H3 & H4 & -> & Hr).
  assert (honest (informers_stopped req s)) as Hh0 by done.
  pose proof (shrinks_run _ _ _ _ (deleteSlice_shrinks _) H1 Hh0) as Hh1.
  pose proof (shrinks_run _ _ _ _ (deletePrivate_shrinks _) H2 Hh1) as Hh2.
  pose proof (shrinks_run _ _ _ _ (unpause_shrinks es) H3 Hh2) as Hh3.
  assert (r1 = Ok tt /\ r2 = Ok tt /\ forgive_not_found r3 = None /\ forgive_not_found r4 = None)
    as (-> & -> & Hr3 & Hr4).
  { destruct (join_errors _) eqn:Hj; [done|]. apply join_errors_none in Hj. rewrite !Forall_cons in Hj.
    destruct Hj as (E1 & E2 & E3 & E4 & _). by destruct r1 as [[]|], r2 as [[]|]. }
  pose proof (fun B (p : OpState -> B) Hf Hs He =>
    keeps_run p _ _ _ _ (ScaleToMin_keeps ParseGroupVersion p _ _ Hf Hs He) H4) as K4.
  pose proof (fun B (p : OpState -> B) Hf Hs => keeps_run p _ _ _ _ (unpause_keeps es p Hf Hs) H3) as K3.
  pose proof (fun B (p : OpState -> B) Hf Hs => keeps_run p _ _ _ _ (deletePrivate_keeps p _ Hf Hs) H2) as K2.
  pose proof (fun B (p : OpState -> B) Hf Hs => keeps_run p _ _ _ _ (deleteSlice_keeps p _ Hf Hs) H1) as K1.
  pose proof (get_then_delete slices set_slices _ _ _ _ _ Hh0 H1) as C1.
  pose proof (get_then_delete services set_services _ _ _ _ _ Hh1 H2) as C2.
  split; simpl.
  - by rewrite (K4 _ slices), (K3 _ slices), (K2 _ slices).
  - by rewrite (K4 _ services), (K3 _ services).
  - apply lookup_delete_eq.
  - intros k i. rewrite (K4 _ informers), (K3 _ informers), (K2 _ informers), (K1 _ informers) by done.
    simpl. intros [_ ?]%map_lookup_filter_Some. done.
  - rewrite (K4 _ onces), (K3 _ onces), (K2 _ onces), (K1 _ onces) by done. simpl. set_solver.
  - pose proof (unpause_releases es _ _ _ Hh2 H3 Hr3) as Hk. unfold keda_released in *. simpl.
    by rewrite (K4 _ scaled_objects).
  - exact (ScaleToMin_restores ParseGroupVersion Hparse es _ _ _ Hh3 H4 Hr4).
Qed.

Lemma cleaned_ext s s' :
  cleaned s -> slices s' = slices s -> services s' = services s -> directory s' = directory s ->
  informers s' = informers s -> onces s' = onces s -> scaled_objects s' = scaled_objects s ->
  scales s' = scales s -> cleaned s'.
Proof.
  intros [] E1 E2 E3 E4 E5 E6 E7.
  split; unfold keda_released, target_restored in *; rewrite ?E1, ?E2, ?E3, ?E4, ?E5, ?E6; try done.
  by setoid_rewrite E7.
Qed.
End finalizing.

(** ** Lemmas on the modes *)

(** The slice of a redirected service: every address is one of the resolver's. *)
Definition redirect (rc : ResolverConfig) (svc : Service) (p : ServicePort) (ips : list gostring) : Slice :=
  mkSlice (svc_Name svc) (port_Name p, ReverseProxyPort rc) (map (fun ip => [ip]) ips).

(** Traffic to the service of [es] reaches the resolver, and the private service
    keeps a way to the pods. *)
Definition redirected (rc : ResolverConfig) (scoped : bool) (es : ElastiService) (s s' : OpState) : Prop :=
  exists svc p ps,
    services s !! (es_Namespace es, spec_Service (es_Spec es)) = Some svc
    /\ svc_Ports svc = p :: ps
    /\ resolver_ips rc scoped s <> []
    /\ slices s' = <[(svc_Namespace svc, GetEndpointSliceToResolverName (svc_Name svc)) :=
                       redirect rc svc p (resolver_ips rc scoped s)]> (slices s)
    /\ let private := (svc_Namespace svc, GetPrivateServiceName (svc_Name svc)) in
       services s' = match services s !! private with
                     | Some _ => services s
                     | None => <[private := private_copy svc (es_Name es)]> (services s)
                     end.

Lemma enableProxyMode_ok rc scoped req es s s' :
  enableProxyMode rc scoped req es s = (Ok tt, s') -> redirected rc scoped es s s'.
Proof.
  unfold enableProxyMode. intros (svc & s1 & Hg%wrap_ok & H)%bind_Ok.
  apply bind_Ok in H as (n & s2 & Hc%wrap_ok & H). apply bind_Ok in H as ([] & s3 & Hs%wrap_ok & Hw%wrap_ok).
  assert (slices s1 = slices s) as E1 by (eapply (keeps_run slices); [|exact Hg]; frame).
  apply get_result in Hg as [E2 Hsvc]; [|done].
  apply checkAndCreate_ok in Hc as [E3 Hp]. apply createOrUpdate_ok in Hs as (p & ps & Hpo & Hne & E4 & E5).
  assert (slices s' = slices s3) as E6 by (eapply (keeps_run slices); [|exact Hw]; by apply watchPublicService_keeps).
  assert (services s' = services s3) as E7 by (eapply (keeps_run services); [|exact Hw]; by apply watchPublicService_keeps).
  assert (resolver_ips rc scoped s2 = resolver_ips rc scoped s) as E8
    by (unfold resolver_ips; by rewrite E3, E1).
  exists svc, p, ps. rewrite E8 in *. split_and!; try done; [by apply Hsvc|by rewrite E6, E5, E3, E1|].
  simpl. rewrite E7, E4, <- E2. by destruct Hp as [[[x ->] ->]|[-> ->]].
Qed.

Lemma enableServeMode_ok es s s' :
  honest s -> enableServeMode es s = (Ok tt, s') ->
  slices s' !! (es_Namespace es, GetEndpointSliceToResolverName (spec_Service (es_Spec es))) = None.
Proof. intros Hh Hs%wrap_ok. exact (get_then_delete slices set_slices _ _ _ _ _ Hh Hs). Qed.

Lemma getCRD_ok nn s es s' :
  getCRD nn s = (Ok es, s') ->
  crds s !! nn = Some es /\ slices s' = slices s /\ services s' = services s /\ pods s' = pods s.
Proof.
  intros Hg%wrap_ok.
  pose proof (fun B (p : OpState -> B) Hf => keeps_run p _ _ _ _ (keeps_get p crds nn Hf) Hg) as K.
  apply get_result in Hg as [_ Hr]; [|done]. split_and!; [by apply Hr|by apply K..].
Qed.

Lemma switchMode_ok rc scoped req mode s s' :
  switchMode rc scoped req mode s = (Ok tt, s') ->
  exists es s1 s2, getCRD req s = (Ok es, s1)
    /\ (if bool_decide (mode = ServeMode) then enableServeMode es
        else if bool_decide (mode = ProxyMode) then enableProxyMode rc scoped req es else mret tt) s1 = (Ok tt, s2)
    /\ slices s' = slices s2 /\ services s' = services s2.
Proof.
  unfold switchMode. intros (es & s1 & Hg%wrap_ok & H)%bind_Ok. exists es, s1. revert H.
  set (m := if bool_decide (mode = ServeMode) then enableServeMode es
            else if bool_decide (mode = ProxyMode) then enableProxyMode rc scoped req es else mret tt).
  destruct (m s1) as [r s2] eqn:Hm.
  rewrite (attempt_bind _ _ _ _ _ Hm).
  destruct (updateCRDStatus req mode s2) as [r3 s3] eqn:Hu. rewrite (attempt_bind _ _ _ _ _ Hu).
  destruct r as [[]|e]; [|done]. intros [= <-]. exists s2. split_and!; try done.
  - eapply (keeps_run slices); [|exact Hu]. by apply updateCRDStatus_keeps.
  - eapply (keeps_run services); [|exact Hu]. by apply updateCRDStatus_keeps.
Qed.

Lemma redirected_ext rc scoped es s1 s1' s2 s2' :
  redirected rc scoped es s1 s2 -> slices s1' = slices s1 -> services s1' = services s1 ->
  slices s2' = slices s2 -> services s2' = services s2 -> redirected rc scoped es s1' s2'.
Proof.
  unfold redirected, resolver_ips. intros (svc & p & ps & H) E1 E2 E3 E4.
  exists svc, p, ps. by rewrite E1, E2, E3, E4.
Qed.

Lemma getCRD_shrinks nn : shrinks (getCRD nn).
Proof. unfold getCRD. shrink. Qed.

Section readiness.
Context {rawSelector : Type} (asSelector : rawSelector -> result error (gmap gostring gostring -> bool)).

(** The workload has replicas, and one of its pods is ready and stays. *)
Definition target_ready (obj : update_obj (rawSelector := rawSelector)) (ns : gostring) (s : OpState) : Prop :=
  exists n k raw sel p,
    u_specReplicas obj = Ok (Some n) /\ 0 < n /\ u_statusReplicas obj = Ok (Some k) /\ 0 < k
    /\ u_selector obj = Ok (Some raw) /\ asSelector raw = Ok sel
    /\ p ∈ pods s /\ pod_Namespace p = ns /\ sel (pod_Labels p) = true
    /\ pod_Deleting p = false /\ (lit "Ready", lit "True") ∈ pod_Conditions p.

Lemma getUpdateObjInfo_ok (obj : update_obj (rawSelector := rawSelector)) req info :
  getUpdateObjInfo (Some obj) req = Ok info ->
  o_namespace info = req.1
  /\ ((exists n k raw, info = mkInfoObj n k (Some raw) req.1 req.2 /\ u_specReplicas obj = Ok (Some n)
        /\ u_statusReplicas obj = Ok (Some k) /\ u_selector obj = Ok (Some raw))
      \/ (specReplicas info <= 0 /\ u_specReplicas obj = Ok None)
      \/ (statusReplicas info <= 0 /\ u_statusReplicas obj = Ok None)
      \/ (o_selector info = None /\ u_selector obj = Ok None)).
Proof.
  simpl. destruct (u_specReplicas obj) as [[n|]|] eqn:E1; [| |done].
  - destruct (u_statusReplicas obj) as [[k|]|] eqn:E2; [| |done].
    + destruct (u_selector obj) as [[raw|]|] eqn:E3; [| |done]; intros [= <-]; simpl; (split; [done|]).
      * left. by exists n, k, raw.
      * by do 3 right.
    + intros [= <-]. simpl. split; [done|]. by do 2 right; left.
  - intros [= <-]. simpl. split; [done|]. by right; left.
Qed.

Lemma isTargetReady_keeps {B} (p : OpState -> B) info :
  (forall x s, p (set_faults x s) = p s) -> keeps p (isTargetReady asSelector info).
Proof.
  intros Hf. unfold isTargetReady. repeat case_match; try done.
  apply keeps_bind; [|done]. by apply keeps_wrap, keeps_call.
Qed.

Lemma isTargetReady_shrinks info : shrinks (isTargetReady asSelector info).
Proof.
  unfold isTargetReady. repeat case_match; try by apply shrinks_keeps.
  apply shrinks_bind; [|intros ?; by apply shrinks_keeps]. by apply shrinks_wrap, shrinks_call.
Qed.

Lemma pod_ready_spec p :
  pod_ready p = true <-> pod_Deleting p = false /\ (lit "Ready", lit "True") ∈ pod_Conditions p.
Proof. unfold pod_ready. rewrite andb_true_iff, negb_true_iff, bool_decide_eq_true. done. Qed.

Lemma isTargetReady_spec obj req info s b s' :
  getUpdateObjInfo (Some obj) req = Ok info -> isTargetReady asSelector info s = (Ok b, s') ->
  b = true <-> target_ready obj req.1 s.
Proof.
  intros [Hns HI]%getUpdateObjInfo_ok. unfold isTargetReady, target_ready.
  destruct (_ || _) eqn:Hle.
  { intros [= <- <-]. split; [done|]. intros (n & k & raw & sel & p & E1 & ? & E2 & ? & E3 & _).
    apply orb_true_iff in Hle. rewrite !Z.leb_le in Hle.
    destruct HI as [(n' & k' & raw' & -> & H1 & H2 & H3)|[[? ?]|[[? ?]|[? ?]]]]; try congruence.
    simpl in Hle. assert (n' = n /\ k' = k) as [-> ->] by (split; congruence). lia. }
  apply orb_false_iff in Hle as [Hl1 Hl2]. apply Z.leb_gt in Hl1, Hl2.
  destruct HI as [(n & k & raw & -> & H1 & H2 & H3)|[[? ?]|[[? ?]|[Hn ?]]]]; [|lia|lia|].
  2: { rewrite Hn. intros [= <- <-]. split; [done|]. intros (? & ? & ? & ? & ? & ? & ? & ? & ? & ? & _). congruence. }
  simpl in *. destruct (asSelector raw) as [sel|] eqn:Hsel; [|done].
  intros (l & s1 & Hl%wrap_ok & [= <- <-])%bind_Ok.
  assert (l = List.filter (fun p => bool_decide (pod_Namespace p = req.1) && sel (pod_Labels p)) (pods s)) as ->.
  { revert Hl. unfold call, mbind, M_bind, fault, gets. destruct (faults s) as [|[e|] fs]; [| |]; by intros [= <- <-]. }
  rewrite existsb_exists. setoid_rewrite pod_ready_spec. setoid_rewrite List.filter_In.
  setoid_rewrite andb_true_iff. setoid_rewrite bool_decide_eq_true. setoid_rewrite <- list_elem_of_In. split.
  - intros (p & (Hp & Hpn & Hps) & Hd & Hc). by exists n, k, raw, sel, p.
  - intros (n' & k' & raw' & sel' & p & E1 & ? & E2 & ? & E3 & E4 & Hp & Hpn & Hps & Hd & Hc).
    assert (raw' = raw) as -> by congruence. assert (sel' = sel) as -> by congruence. by exists p.
Qed.
End readiness.

(** ** Lemmas on reconciling *)

(** The watch is started by this call: it was never started, or for another target. *)
Definition restarts_watch (es : ElastiService) (req : NamespacedName) (s : OpState) : Prop :=
  getMutexKeyForTargetRef req ∉ onces s
  \/ exists d, directory s !! nn_string (es_Namespace es, spec_Service (es_Spec es)) = Some d
      /\ spec_ScaleTargetRef (es_Spec es) <> spec_ScaleTargetRef (d_Spec d).

Lemma informer_Add_ok key v s s' :
  informer_Add key v s = (Ok tt, s') -> is_Some (informers s' !! key).
Proof.
  unfold informer_Add. rewrite gets_bind. destruct (bool_decide _) eqn:Hr.
  - intros [= <-]. by apply bool_decide_eq_true in Hr.
  - intros ([] & s1 & _ & H)%bind_Ok. apply bind_Ok in H as ([] & s2 & _ & [= <-]). simpl.
    rewrite lookup_insert_eq. eauto.
Qed.

Lemma once_or_reset_ok key m s s' :
  once_or_reset key m s = (Ok tt, s') ->
  (key ∈ onces s /\ s' = s) \/ (key ∉ onces s /\ m (set_onces ({[key]} ∪ onces s) s) = (Ok tt, s')).
Proof.
  unfold once_or_reset. destruct (once_do key m s) as [r s1] eqn:Ho. rewrite (attempt_bind _ _ _ _ _ Ho).
  destruct r as [[]|e]; [|done]. intros [= <-]. revert Ho. unfold once_do. rewrite gets_bind.
  destruct (bool_decide _) eqn:Hk; [apply bool_decide_eq_true in Hk|apply bool_decide_eq_false in Hk].
  - intros [= <-]. by left.
  - rewrite modify_bind. by right.
Qed.

Section reconcile.
Context (ParseGroupVersion : gostring -> result error (gostring * gostring)).

Lemma watchTarget_keeps {B} (p : OpState -> B) es req :
  (forall x s, p (set_faults x s) = p s) -> (forall x s, p (set_informers x s) = p s) ->
  (forall x s, p (set_onces x s) = p s) -> keeps p (watchScaleTargetRef ParseGroupVersion es req).
Proof.
  intros Hf Hi Ho. unfold watchScaleTargetRef. destruct (_ || _); [apply keeps_fail|].
  apply keeps_bind; [done|]. intros crd. apply keeps_bind.
  { destruct crd as [d|]; [|done]. destruct (bool_decide _); [done|].
    apply keeps_bind; [by apply keeps_modify|]. intros _. by apply keeps_modify. }
  intros _. apply once_or_reset_keeps; [done|]. destruct (ParseGroupVersion _) as [[gr v]|]; [|apply keeps_fail].
  apply keeps_wrap, informer_Add_keeps; [done..|]. frame.
Qed.

Lemma watchTarget_ok es req s s' :
  watchScaleTargetRef ParseGroupVersion es req s = (Ok tt, s') ->
  (restarts_watch es req s -> is_Some (informers s' !! target_key req (spec_ScaleTargetRef (es_Spec es))))
  /\ (~ restarts_watch es req s -> informers s' = informers s).
Proof.
  unfold watchScaleTargetRef, restarts_watch. destruct (_ || _); [done|].
  unfold GetCRD. rewrite gets_bind. set (nn := nn_string _). set (key := getMutexKeyForTargetRef req).
  intros ([] & s1 & Hstop & Hw)%bind_Ok.
  assert ((directory s !! nn = None \/ (exists d, directory s !! nn = Some d
             /\ spec_ScaleTargetRef (es_Spec es) = spec_ScaleTargetRef (d_Spec d))) /\ s1 = s
          \/ (exists d, directory s !! nn = Some d
             /\ spec_ScaleTargetRef (es_Spec es) <> spec_ScaleTargetRef (d_Spec d)) /\ key ∉ onces s1) as Hcase.
  { destruct (directory s !! nn) as [d|]; [|injection Hstop as <-; auto].
    destruct (bool_decide _) eqn:Hd; [apply bool_decide_eq_true in Hd|apply bool_decide_eq_false in Hd].
    - injection Hstop as <-. left. split; [|done]. right. eauto.
    - right. split; [eauto|]. unfold informer_Stop, resetMutexForInformer in Hstop.
      rewrite modify_bind in Hstop. injection Hstop as <-. simpl. set_solver. }
  apply once_or_reset_ok in Hw as [[Hk ->]|[Hk Hw]].
  - destruct Hcase as [[Hd ->]|[_ ?]]; [|done]. split; [|done].
    intros [?|(d & E & Hne)]; [done|]. destruct Hd as [|(d' & E' & He)]; congruence.
  - destruct (ParseGroupVersion _) as [[gr v]|]; [|done]. apply wrap_ok, informer_Add_ok in Hw.
    split; [done|]. intros Hn. exfalso. apply Hn. destruct Hcase as [[_ ->]|[Hd _]]; [by left|by right].
Qed.

Lemma addFinalizer_keeps {B} (p : OpState -> B) es :
  (forall x s, p (set_faults x s) = p s) -> (forall x s, p (set_crds x s) = p s) ->
  keeps p (addCRDFinalizer es).
Proof. intros. unfold addCRDFinalizer. frame. Qed.

Lemma addFinalizer_ok es s s' :
  crds s !! (es_Namespace es, es_Name es) = Some es -> addCRDFinalizer es s = (Ok tt, s') ->
  exists es', crds s' !! (es_Namespace es, es_Name es) = Some es' /\ ElastiServiceFinalizer ∈ es_Finalizers es'
    /\ es_Spec es' = es_Spec es.
Proof.
  intros Hes. unfold addCRDFinalizer. destruct (bool_decide _) eqn:Hf.
  - intros [= <-]. exists es. split_and!; try done. by apply bool_decide_eq_true in Hf.
  - intros Hu%wrap_ok. apply update_result in Hu as [(a & _ & Ha & ->)|(e & [=] & _)]; [|done|done].
    rewrite lookup_insert_eq. eexists. split_and!; [done| |done]. simpl. set_solver.
Qed.
End reconcile.

(** ** Lemmas on the server *)

Section answers.
Context (marshal_spec : ElastiServiceSpec -> result error gostring)
  (marshal_status : ElastiServiceStatus -> result error gostring).

Lemma cache_entries_ok l acc m :
  NoDup l.*1 -> (forall k, k ∈ l.*1 -> acc !! k = None) ->
  cache_entries marshal_spec marshal_status l acc = Ok m ->
  forall k e, m !! k = Some e <->
    acc !! k = Some e \/ exists d, (k, d) ∈ l /\ cache_entry marshal_spec marshal_status d = Ok e.
Proof.
  revert acc. induction l as [|[k0 d0] l IH]; simpl; intros acc Hnd Hacc.
  - intros [= <-] k e. split; [by left|]. intros [?|(d & Hd & _)]; [done|]. by apply not_elem_of_nil in Hd.
  - apply NoDup_cons in Hnd as [Hk0 Hnd]. destruct (cache_entry _ _ d0) as [e0|] eqn:He; [|done].
    intros Hm k e. rewrite (IH (<[k0 := e0]> acc) Hnd); [| |exact Hm].
    2: { intros k' Hk'. rewrite lookup_insert_ne by (intros ->; done). apply Hacc. by right. }
    destruct (decide (k0 = k)) as [->|Hne].
    + rewrite lookup_insert_eq. rewrite (Hacc k) by (by left). split.
      * intros [[= <-]|(d & Hd & Hd')]; right; [exists d0; split; [by left|done]|].
        exists d. split; [by right|done].
      * intros [?|(d & Hd & Hd')]; [done|]. apply elem_of_cons in Hd as [[= ->]|Hd]; [left; congruence|].
        exfalso. apply Hk0. rewrite list_elem_of_fmap. by exists (k, d).
    + rewrite lookup_insert_ne by done. apply or_iff_compat_l. apply exist_proper. intros d.
      rewrite elem_of_cons. split; [by intros [? ?]; split; [right|]|]. intros [[[= -> ->]|?] ?]; done.
Qed.
End answers.

(** ** Properties *)

Section properties.
Context (ParseGroupVersion : gostring -> result error (gostring * gostring)).
Context (Hparse : forall v e, ParseGroupVersion v = Err e -> error_is is_not_found e = false).

(** C7: when the deletion of an ElastiService is finalized without error, nothing
    the operator set up is left, whichever of its API calls had failed before:
    the slice to the resolver, the private service, the directory entry and the
    informers are gone, KEDA is released, the target is back at its minimum (or
    has that many pods, or is gone), and only then is the finalizer removed. *)
Theorem finalize_cleans_up es req s s'
    (Hh : honest s) (Hd : is_Some (es_DeletionTimestamp es))
    (Hf : ElastiServiceFinalizer ∈ es_Finalizers es)
    (HF : finalizeCRDIfDeleted ParseGroupVersion es req s = (Ok true, s')) :
  cleaned ParseGroupVersion es req s'
  /\ forall cur, crds s' !! (es_Namespace es, es_Name es) = Some cur ->
       ElastiServiceFinalizer ∉ es_Finalizers cur.
Proof.
  apply finalize_steps in HF as [(e & _ & [=])|(s1 & r2 & H1 & H2 & Hr)]; [|done..].
  destruct r2 as [[]|e]; [|discriminate]. split.
  - eapply cleaned_ext; [by eapply finalizeCRD_cleans|..];
      (eapply keeps_run; [|exact H2]; by apply remove_finalizer_keeps).
  - by eapply (remove_finalizer_ok (GetSpec es).2).
Qed.


Context (rc : ResolverConfig) (scoped : bool).
Context {rawSelector : Type} (asSelector : rawSelector -> result error (gmap gostring gostring -> bool)).

(** C1: the traffic follows the target: an update of the workload that is handled
    without error leaves no slice to the resolver when a pod is ready, and
    otherwise redirects the service to all addresses of the resolver, on the
    proxy's port, with a private service beside it; nothing else changes among
    the slices and services. *)
Theorem traffic_follows_target req obj s s' (Hh : honest s)
    (HU : handleScaleTargetRefChanges rc scoped asSelector req (Some obj) s = (Ok tt, s')) :
  exists es, crds s !! req = Some es
    /\ (target_ready asSelector obj req.1 s ->
        slices s' !! (es_Namespace es, GetEndpointSliceToResolverName (spec_Service (es_Spec es))) = None)
    /\ (~ target_ready asSelector obj req.1 s -> redirected rc scoped es s s').
Proof.
  unfold handleScaleTargetRefChanges in HU. destruct (getUpdateObjInfo (Some obj) req) as [info|] eqn:Hi; [|done].
  apply bind_Ok in HU as (ready & s1 & Hr%wrap_ok & HU).
  pose proof (fun B (p : OpState -> B) Hf => keeps_run p _ _ _ _ (isTargetReady_keeps asSelector p info Hf) Hr) as K.
  pose proof (shrinks_run _ _ _ _ (isTargetReady_shrinks asSelector info) Hr Hh) as Hh1.
  pose proof (isTargetReady_spec asSelector obj req info s ready s1 Hi Hr) as Hready.
  destruct ready; apply wrap_ok, switchMode_ok in HU as (es & s2 & s3 & Hg & Hm & E1 & E2); simpl in Hm;
    pose proof (shrinks_run _ _ _ _ (getCRD_shrinks req) Hg Hh1) as Hh2;
    apply getCRD_ok in Hg as (Hes & E3 & E4 & _); rewrite (K _ crds) in Hes by done; exists es; (split; [done|]).
  - split; [intros _|tauto]. rewrite E1. by eapply enableServeMode_ok.
  - split; [intros ?; exfalso; intuition congruence|intros _].
    eapply redirected_ext; [by eapply enableProxyMode_ok|..]; try done.
    + by rewrite E3, (K _ slices).
    + by rewrite E4, (K _ services).
Qed.

(** The status reports a mode that is not in force: when the switch to proxy
    mode fails, here because the service is missing, the deferred status update
    records [proxy] all the same. *)
Theorem mode_despite_failure req es s (Hf : faults s = [])
    (Hes : crds s !! req = Some es)
    (Hsvc : services s !! (es_Namespace es, spec_Service (es_Spec es)) = None) :
  exists e s' es', switchMode rc scoped req ProxyMode s = (Err e, s')
    /\ slices s' = slices s /\ crds s' !! req = Some es' /\ st_Mode (es_Status es') = ProxyMode.
Proof.
  unfold switchMode, getCRD, enableProxyMode, updateCRDStatus, api_get, api_update, call, fault, attempt_call,
    wrap, mbind, M_bind, gets, fail, mret, M_ret.
  repeat (simpl; rewrite ?Hf, ?Hes, ?Hsvc).
  do 3 eexists. split_and!; [done|done|apply lookup_insert_eq|done].
Qed.

(** C24: a live ElastiService that is reconciled without error has its finalizer,
    its directory entry is the one just read, and its target is watched whenever
    this call was the one to start the watch. *)
Theorem reconcile_registers req es s s' (Hh : honest s)
    (Hreq : req = (es_Namespace es, es_Name es)) (Hes : crds s !! req = Some es)
    (Hlive : es_DeletionTimestamp es = None)
    (HR : Reconcile ParseGroupVersion req s = (Ok tt, s')) :
  directory s' = <[nn_string (es_Namespace es, spec_Service (es_Spec es)) :=
                     mkDetails (es_Name es) (es_Spec es) (es_Status es)]> (directory s)
  /\ (exists es', crds s' !! req = Some es' /\ ElastiServiceFinalizer ∈ es_Finalizers es' /\ es_Spec es' = es_Spec es)
  /\ (restarts_watch es req s -> is_Some (informers s' !! target_key req (spec_ScaleTargetRef (es_Spec es))))
  /\ (~ restarts_watch es req s -> informers s' = informers s).
Proof.
  unfold Reconcile in HR. destruct (getCRD req s) as [r s1] eqn:Hg. rewrite (attempt_bind _ _ _ _ _ Hg) in HR.
  pose proof (fun B (p : OpState -> B) Hf => keeps_run p _ _ _ _ (keeps_wrap p _ _ (keeps_get p crds req Hf)) Hg) as K1.
  destruct r as [es1|e].
  2: { exfalso. destruct (error_is is_not_found e) eqn:Hnf; [|done].
       apply wrap_result in Hg as (r & Hg & Hr). destruct r as [|e0]; [done|]. injection Hr as ->.
       pose proof (honest_get crds set_crds _ _ _ _ Hh Hg Hnf). congruence. }
  apply getCRD_ok in Hg as (Hes1 & _). assert (es1 = es) as -> by congruence.
  unfold finalizeCRDIfDeleted in HR. rewrite Hlive in HR. change (mret false ≫= ?k) with (k false) in HR.
  apply bind_Ok in HR as ([] & s2 & Ha & HR). apply bind_Ok in HR as ([] & s3 & Hw & [= <-]). simpl.
  pose proof (fun B (p : OpState -> B) Hf Hc => keeps_run p _ _ _ _ (addFinalizer_keeps p es Hf Hc) Ha) as K2.
  pose proof (fun B (p : OpState -> B) Hf Hi Ho => keeps_run p _ _ _ _ (watchTarget_keeps _ p es req Hf Hi Ho) Hw) as K3.
  apply watchTarget_ok in Hw as [Hw1 Hw2].
  assert (restarts_watch es req s2 <-> restarts_watch es req s) as Hre.
  { unfold restarts_watch. by rewrite (K2 _ onces), (K1 _ onces), (K2 _ directory), (K1 _ directory). }
  split_and!.
  - by rewrite (K3 _ directory), (K2 _ directory), (K1 _ directory).
  - rewrite (K3 _ crds) by done. subst req. eapply addFinalizer_ok; [|exact Ha]. by rewrite (K1 _ crds).
  - by rewrite <- Hre.
  - rewrite <- Hre. intros Hn. by rewrite (Hw2 Hn), (K2 _ informers), (K1 _ informers).
Qed.

(** A change of the service and the target at once loses the watch: once a
    target is watched, a reconcile whose service has no directory entry yet
    starts no informer for the new target, and the entry of the old service
    stays. *)
Theorem renamed_service_loses_watch req es s (Hf : faults s = [])
    (Hreq : req = (es_Namespace es, es_Name es)) (Hes : crds s !! req = Some es)
    (Hlive : es_DeletionTimestamp es = None) (Hfin : ElastiServiceFinalizer ∈ es_Finalizers es)
    (Hname : str_Name (spec_ScaleTargetRef (es_Spec es)) <> [])
    (Hkind : str_Kind (spec_ScaleTargetRef (es_Spec es)) <> [])
    (Hver : str_APIVersion (spec_ScaleTargetRef (es_Spec es)) <> [])
    (Honce : getMutexKeyForTargetRef req ∈ onces s)
    (Hnew : directory s !! nn_string (es_Namespace es, spec_Service (es_Spec es)) = None) :
  exists s', Reconcile ParseGroupVersion req s = (Ok tt, s') /\ informers s' = informers s
    /\ forall k, k <> nn_string (es_Namespace es, spec_Service (es_Spec es)) -> directory s' !! k = directory s !! k.
Proof.
  unfold Reconcile, getCRD, api_get, call, fault, attempt_call, wrap, mbind, M_bind. rewrite Hf, Hes.
  unfold finalizeCRDIfDeleted, addCRDFinalizer. rewrite Hlive, (bool_decide_true _ Hfin).
  unfold watchScaleTargetRef. rewrite !bool_decide_false by done. simpl.
  unfold GetCRD, gets, mbind, M_bind. rewrite Hnew. unfold once_or_reset, once_do, attempt_call, gets, mbind, M_bind.
  simpl. rewrite bool_decide_true by done. eexists. split; [done|]. split; [done|]. intros k Hk. simpl.
  by rewrite lookup_insert_ne.
Qed.

(** C14: a wake-up of the resolver that is handled without error finds the service
    in the directory, brings its target to the minimum (or finds that many pods
    there), changes no other target, and leaves KEDA running. *)
Theorem wake_up_scales svc ns s s'
    (HS : scaleTargetForService ParseGroupVersion svc ns s = (Ok tt, s')) :
  exists d t sc, directory s !! nn_string (ns, svc) = Some d
    /\ target_of ParseGroupVersion ns (d_Spec d) = Some t /\ scales s !! t = Some sc
    /\ scales s' = (if decide (sc_status sc < min_replicas (d_Spec d))
                    then <[t := mkScale (min_replicas (d_Spec d)) (sc_status sc)]> (scales s) else scales s)
    /\ match keda_autoscaler (d_Spec d) with
       | Some name => exists ann, scaled_objects s' !! (ns, name) = Some ann /\ keda_is false ann
       | None => True
       end.
Proof.
  unfold scaleTargetForService, GetCRD in HS. rewrite gets_bind in HS.
  destruct (directory s !! nn_string (ns, svc)) as [d|] eqn:Hd; [|done].
  destruct (UpdateLastScaledUpTime (CRDName d) ns s) as [r s1] eqn:Hu. rewrite (attempt_bind _ _ _ _ _ Hu) in HS.
  apply (keeps_run scales) in Hu; [|unfold UpdateLastScaledUpTime; frame].
  apply bind_Ok in HS as ([] & s2 & Hk & HS). apply bind_Ok in HS as (b & s3 & Hm%wrap_ok & [= <-]).
  pose proof (keeps_run scales _ _ _ _ (update_keda_keeps scales _ _ _ ltac:(done) ltac:(done)) Hk) as E2.
  apply update_keda_ok in Hk.
  pose proof (keeps_run scaled_objects _ _ _ _
    (ScaleToMin_keeps ParseGroupVersion scaled_objects _ _ ltac:(done) ltac:(done) ltac:(done)) Hm) as E3.
  apply ScaleToMin_result in Hm. destruct (target_of ParseGroupVersion ns (d_Spec d)) as [t|] eqn:Ht.
  2: { by destruct Hm as (e & ? & _). }
  rewrite E2, Hu in Hm. exists d, t. pose proof (min_replicas_pos (d_Spec d)) as Hpos.
  assert (forall sc, wanted (min_replicas (d_Spec d)) sc <-> sc_status sc < min_replicas (d_Spec d)) as Hw
    by (intros; unfold wanted; lia).
  destruct Hm as [(sc & _ & Hsc & Hwant & Hs)|[(sc & _ & Hsc & Hwant & Hs)|(e & ? & _)]]; [| |done];
    exists sc; rewrite Hw in Hwant; (split_and!; [done..| |]).
  1: by rewrite decide_True. 2: by rewrite decide_False.
  all: destruct (keda_autoscaler (d_Spec d)); [by rewrite E3|done].
Qed.

(** The resolver's cache mirrors the operator's directory: after a poll that
    succeeded, a service is found in the cache exactly when it is in the
    directory, with the marshalled spec and status of its entry. *)
Theorem cache_mirrors_directory marshal_spec marshal_status s s' m c
    (HG : crdCacheHandler marshal_spec marshal_status (lit "GET") s = (Ok (200, Some m), s')) k e :
  GetElastiService k (fetch (Ok m) c).2 = Some e
  <-> exists d, directory s !! k = Some d /\ cache_entry marshal_spec marshal_status d = Ok e.
Proof.
  unfold crdCacheHandler, ListAllCRDs in HG. simpl in HG. rewrite gets_bind in HG.
  destruct (cache_entries _ _ _ _) as [m'|] eqn:Hc; [|done]. injection HG as -> <-.
  unfold GetElastiService. simpl. rewrite (cache_entries_ok _ _ _ _ _ (NoDup_fst_map_to_list _) (fun k _ => lookup_empty k) Hc).
  setoid_rewrite elem_of_map_to_list. split; [intros [?|?]; [done|done]|by right].
Qed.
End properties.

(** ** Witnesses *)

Lemma apps_v1_parses v e : apps_v1 v = Err e -> error_is is_not_found e = false.
Proof. discriminate. Qed.

(** The ElastiService of [Scaling.v], live and being deleted, in a cluster with
    its service and one resolver pod; [proxied] is the same cluster after the
    switch to proxy mode. *)
Definition es_nn : NamespacedName := (lit "ns", lit "es").
Definition live_es : ElastiService := set_finalizers [ElastiServiceFinalizer] example_es.
Definition deleted_es : ElastiService :=
  mkElastiService (lit "es") (lit "ns") 0 (Some 5) [ElastiServiceFinalizer] (es_Spec example_es) (es_Status example_es).
Definition example_rc : ResolverConfig :=
  mkResolverConfig (mkConfig (lit "elasti") (lit "resolver") (lit "resolver-svc") 8012) 8012.
Definition public_svc : Service :=
  mkService (lit "svc") (lit "ns") (lit "7") [] ∅ [mkPort (lit "http") 80 30080] (lit "10.0.0.1") [lit "10.0.0.1"].
Definition resolver_slice : Slice := mkSlice (lit "resolver-svc") (lit "http", 8012) [[lit "10.1.0.1"]].
Definition ready_pod : Pod := mkPod (lit "ns") ∅ false [(lit "Ready", lit "True")].
Definition cluster (es : ElastiService) (sc : ScaleObj) (fs : list (option error)) : OpState :=
  mkOp {[ es_nn := es ]} {[ (lit "ns", lit "svc") := public_svc ]}
    {[ (lit "elasti", lit "r1") := resolver_slice ]} {[ web := sc ]} {[ (lit "ns", lit "so") := ∅ ]}
    [ready_pod] [] fs (10 ^ 12)
    {[ lit "ns/svc" := mkDetails (lit "es") (es_Spec es) (es_Status es) ]} ∅ ∅.
Definition proxied : OpState := (enableProxyMode example_rc false es_nn deleted_es (cluster deleted_es (mkScale 0 0) [])).2.
Definition all_labels (_ : unit) : result error (gmap gostring gostring -> bool) := Ok (fun _ => true).

Lemma finalize_cleans_up_witness :
  let s' := (finalizeCRDIfDeleted apps_v1 deleted_es es_nn proxied).2 in
  cleaned apps_v1 deleted_es es_nn s'
  /\ forall cur, crds s' !! (es_Namespace deleted_es, es_Name deleted_es) = Some cur ->
       ElastiServiceFinalizer ∉ es_Finalizers cur.
Proof.
  apply (finalize_cleans_up apps_v1 apps_v1_parses deleted_es es_nn proxied).
  - vm_compute. constructor.
  - by eexists.
  - apply list_elem_of_here.
  - apply run_pair. vm_compute. reflexivity.
Defined.


Definition scaled_down : update_obj := mkUpdateObj (Ok (Some 0)) (Ok (Some 0)) (Ok (Some tt)).

Lemma traffic_follows_target_witness :
  let s := cluster live_es (mkScale 0 0) [] in
  let s' := (handleScaleTargetRefChanges example_rc false all_labels es_nn (Some scaled_down) s).2 in
  exists es, crds s !! es_nn = Some es
    /\ (target_ready all_labels scaled_down es_nn.1 s ->
        slices s' !! (es_Namespace es, GetEndpointSliceToResolverName (spec_Service (es_Spec es))) = None)
    /\ (~ target_ready all_labels scaled_down es_nn.1 s -> redirected example_rc false es s s').
Proof.
  apply (traffic_follows_target example_rc false all_labels es_nn scaled_down (cluster live_es (mkScale 0 0) [])).
  - constructor.
  - apply run_pair. vm_compute. reflexivity.
Defined.

Lemma mode_despite_failure_witness :
  let s := set_services ∅ (cluster live_es (mkScale 0 0) []) in
  exists e s' es', switchMode example_rc false es_nn ProxyMode s = (Err e, s')
    /\ slices s' = slices s /\ crds s' !! es_nn = Some es' /\ st_Mode (es_Status es') = ProxyMode.
Proof. by apply (mode_despite_failure example_rc false es_nn live_es). Defined.

Lemma reconcile_registers_witness :
  let s := cluster live_es (mkScale 1 1) [] in
  let s' := (Reconcile apps_v1 es_nn s).2 in
  directory s' = <[nn_string (es_Namespace live_es, spec_Service (es_Spec live_es)) :=
                     mkDetails (es_Name live_es) (es_Spec live_es) (es_Status live_es)]> (directory s)
  /\ (exists es', crds s' !! es_nn = Some es' /\ ElastiServiceFinalizer ∈ es_Finalizers es'
        /\ es_Spec es' = es_Spec live_es)
  /\ (restarts_watch live_es es_nn s -> is_Some (informers s' !! target_key es_nn (spec_ScaleTargetRef (es_Spec live_es))))
  /\ (~ restarts_watch live_es es_nn s -> informers s' = informers s).
Proof.
  apply (reconcile_registers apps_v1 es_nn live_es (cluster live_es (mkScale 1 1) [])).
  - constructor.
  - reflexivity.
  - reflexivity.
  - reflexivity.
  - apply run_pair. vm_compute. reflexivity.
Defined.

(** The directory knows the service by its old name. *)
Definition renamed : OpState :=
  set_onces {[ getMutexKeyForTargetRef es_nn ]}
    (set_directory {[ lit "ns/old" := mkDetails (lit "es") (es_Spec live_es) (es_Status live_es) ]}
       (cluster live_es (mkScale 1 1) [])).

Lemma renamed_service_loses_watch_witness :
  exists s', Reconcile apps_v1 es_nn renamed = (Ok tt, s') /\ informers s' = informers renamed
    /\ forall k, k <> nn_string (es_Namespace live_es, spec_Service (es_Spec live_es)) ->
         directory s' !! k = directory renamed !! k.
Proof.
  apply (renamed_service_loses_watch apps_v1 es_nn live_es renamed); try reflexivity; try discriminate.
  apply list_elem_of_here.
Defined.

Lemma wake_up_scales_witness :
  let s := cluster live_es (mkScale 0 0) [] in
  let s' := (scaleTargetForService apps_v1 (lit "svc") (lit "ns") s).2 in
  exists d t sc, directory s !! nn_string (lit "ns", lit "svc") = Some d
    /\ target_of apps_v1 (lit "ns") (d_Spec d) = Some t /\ scales s !! t = Some sc
    /\ scales s' = (if decide (sc_status sc < min_replicas (d_Spec d))
                    then <[t := mkScale (min_replicas (d_Spec d)) (sc_status sc)]> (scales s) else scales s)
    /\ match keda_autoscaler (d_Spec d) with
       | Some name => exists ann, scaled_objects s' !! (lit "ns", name) = Some ann /\ keda_is false ann
       | None => True
       end.
Proof.
  apply (wake_up_scales apps_v1 (lit "svc") (lit "ns") (cluster live_es (mkScale 0 0) [])).
  apply run_pair. vm_compute. reflexivity.
Defined.

Lemma run_cache ms mt s m :
  cache_entries ms mt (map_to_list (directory s)) ∅ = Ok m ->
  crdCacheHandler ms mt (lit "GET") s = (Ok (200, Some m), s).
Proof. intros Hc. unfold crdCacheHandler, ListAllCRDs. simpl. by rewrite gets_bind, Hc. Qed.

Lemma cache_mirrors_directory_witness :
  let ms := fun _ : ElastiServiceSpec => Ok (lit "{}") in
  let mt := fun st : ElastiServiceStatus => @Ok error _ (st_Mode st) in
  let s := cluster live_es (mkScale 0 0) [] in
  let e := mkEntry (lit "es") (lit "{}") [] in
  GetElastiService (lit "ns/svc") (fetch (Ok {[ lit "ns/svc" := e ]}) (New 0)).2 = Some e
  <-> exists d, directory s !! lit "ns/svc" = Some d /\ cache_entry ms mt d = Ok e.
Proof.
  intros ms mt s e. apply (cache_mirrors_directory ms mt s s {[ lit "ns/svc" := e ]} (New 0)).
  apply run_cache. vm_compute. reflexivity.
Defined.
