(* ===== verification/Concurrency.v ===== *)
(** * The operator's goroutines, call by call ([opsCRD.go], [opsModes.go])

    [Controller.v] runs each operation as a whole.  Here the goroutines of
    [finalizeCRD] and the calls of [switchMode] are cut at their API calls and
    interleave. *)

From S2P Require Import Prelude GoStrings Names K8sHelper Types Cluster Goroutines Informer Scaling Config Controller ControllerFacts ControllerProps.
Local Open Scope Z_scope.

(** ** The goroutines of [finalizeCRD] *)

Definition stop_informers_p (req : NamespacedName) : prog unit :=
  _ ← Act (informer_StopForCRD req.2 req.1) Done;
  _ ← Act (resetMutexForInformer (getMutexKeyForTargetRef req)) Done;
  Act (resetMutexForInformer (getMutexKeyForPublicSVC req)) Done.

Definition deleteEndpointsliceToResolver_p (service : NamespacedName) : prog unit :=
  let nn := (service.1, GetEndpointSliceToResolverName service.2) in
  r ← attempt_p (get_p slices nn);
  match r with
  | Err err => if error_is is_not_found err then mret tt
               else fail_p (ErrWrap (lit "failed to get endpointslice: ") err)
  | Ok _ => wrap_p (lit "failed to delete endpointslice: ") (delete_p slices set_slices nn)
  end.

Definition deletePrivateService_p (public : NamespacedName) : prog unit :=
  let nn := (public.1, GetPrivateServiceName public.2) in
  r ← attempt_p (get_p services nn);
  match r with
  | Err err => if error_is is_not_found err then mret tt
               else fail_p (ErrWrap (lit "failed to get private service: ") err)
  | Ok _ => wrap_p (lit "failed to delete private service: ") (delete_p services set_services nn)
  end.

Definition unpause_keda_p (es : ElastiService) : prog unit :=
  match spec_Autoscaler (es_Spec es) with
  | Some a => if EqualFold (as_Type a) (lit "keda")
              then wrap_p (lit "failed to patch ScaledObject: ")
                     (update_p scaled_objects set_scaled_objects (es_Namespace es, as_Name a) (paused_patch false))
              else mret tt
  | None => mret tt
  end.

(** The four goroutines the wait group waits for. *)
Definition finalize_goroutines (es : ElastiService) (req : NamespacedName) : list (prog unit) :=
  let target := (es_Namespace es, spec_Service (es_Spec es)) in
  [stop_informers_p req; deleteEndpointsliceToResolver_p target; deletePrivateService_p target; unpause_keda_p es].

Section finalize.
Context (ParseGroupVersion : gostring -> result error (gostring * gostring)).

(** What follows [wg.Wait]. *)
Definition finalize_rest (es : ElastiService) (rs : list (result error unit)) : M unit :=
  r4 ← attempt_call (ScaleToMinReplicas ParseGroupVersion (es_Namespace es) (GetSpec es).1);
  _ ← RemoveCRD (nn_string (es_Namespace es, spec_Service (es_Spec es)));
  match rs with
  | [_; r1; r2; r3] =>
      match join_errors [error_of r1; error_of r2; forgive_not_found r3; forgive_not_found r4] with
      | Some err => fail err
      | None => mret tt
      end
  | _ => fail (ErrText (lit "wait group"))
  end.
End finalize.

(** ** The calls of [switchMode] *)

Section switching.
Context (rc : ResolverConfig) (scoped : bool).

Definition checkAndCreatePrivateService_p (publicSVC : Service) (es : ElastiService) : prog gostring :=
  let privateServiceName := GetPrivateServiceName (svc_Name publicSVC) in
  let nn := (svc_Namespace publicSVC, privateServiceName) in
  r ← attempt_p (get_p services nn);
  match r with
  | Ok _ => mret privateServiceName
  | Err _ =>
      _ ← wrap_p (lit "checkAndCreatePrivateService: ")
            (create_p services set_services nn (private_copy publicSVC (es_Name es)));
      mret privateServiceName
  end.

Definition getIPsForResolver_p : prog (list gostring) :=
  ips ← wrap_p (lit "getIPsForResolver: ") (call_p (gets (resolver_ips rc scoped)));
  match ips with [] => fail_p ErrNoResolverPodFound | _ => mret ips end.

Definition createOrUpdateEndpointsliceToResolver_p (service : Service) : prog unit :=
  resolverPodIPs ← getIPsForResolver_p;
  let nn := (svc_Namespace service, GetEndpointSliceToResolverName (svc_Name service)) in
  r ← attempt_p (get_p slices nn);
  match r with
  | Err err =>
      if error_is is_not_found err then
        match svc_Ports service with
        | [] => fail_p index_out_of_range
        | p :: _ =>
            wrap_p (lit "createOrUpdateEndpointsliceToResolver: ")
              (create_p slices set_slices nn
                 (mkSlice (svc_Name service) (port_Name p, ReverseProxyPort rc) (map (fun ip => [ip]) resolverPodIPs)))
        end
      else fail_p (ErrWrap (lit "createOrUpdateEndpointsliceToResolver: ") err)
  | Ok _ =>
      match svc_Ports service with
      | [] => fail_p index_out_of_range
      | p :: _ =>
          wrap_p (lit "createOrUpdateEndpointsliceToResolver: ")
            (update_p slices set_slices nn (fun _ =>
               mkSlice (svc_Name service) (port_Name p, ReverseProxyPort rc) (map (fun ip => [ip]) resolverPodIPs)))
      end
  end.

Definition once_do_p (key : gostring) (p : prog unit) : prog unit :=
  done_ ← gets_p (fun s => bool_decide (key ∈ onces s));
  if done_ : bool then mret tt
  else _ ← modify_p (fun s => set_onces ({[key]} ∪ onces s) s); p.

Definition once_or_reset_p (key : gostring) (p : prog unit) : prog unit :=
  r ← attempt_p (once_do_p key p);
  match r with
  | Ok _ => mret tt
  | Err err => _ ← modify_p (fun s => set_onces (onces s ∖ {[key]}) s); fail_p err
  end.

Definition informer_Add_p (key : gostring) (verifyTargetExist : prog unit) : prog unit :=
  running ← gets_p (fun s => bool_decide (is_Some (informers s !! key)));
  if running : bool then mret tt
  else
    _ ← wrap_p (lit "target not found: ") verifyTargetExist;
    _ ← wrap_p (lit "failed to enable to informer: ") (call_p (mret tt));
    modify_p (fun s => set_informers (<[key := mkInfo true key]> (informers s)) s).

Definition watchPublicService_p (es : ElastiService) (req : NamespacedName) : prog unit :=
  let svc := spec_Service (es_Spec es) in
  if bool_decide (svc = []) then fail_p (ErrWrap (lit "null value for public service: ") ErrNoPublicServiceFound)
  else
    once_or_reset_p (getMutexKeyForPublicSVC req)
      (wrap_p (lit "failed to add public service Informer: ")
         (informer_Add_p (GetKey (mkKey req.2 (es_Namespace es) (lit "services") svc))
            (_ ← get_p services (es_Namespace es, svc); mret tt))).

Definition getCRD_p (nn : NamespacedName) : prog ElastiService :=
  wrap_p (lit "failed to get ElastiService: ") (get_p crds nn).

Definition updateCRDStatus_p (nn : NamespacedName) (mode : gostring) : prog unit :=
  r ← attempt_p (get_p crds nn);
  match r with
  | Err _ => fail_p (ErrText (lit "failed to get elastiService for status update"))
  | Ok _ =>
      now ← gets_p op_now;
      r ← attempt_p (update_p crds set_crds nn (set_mode now mode));
      match r with
      | Err _ => fail_p (ErrText (lit "failed to patch CRD status"))
      | Ok _ => mret tt
      end
  end.

Definition enableProxyMode_p (req : NamespacedName) (es : ElastiService) : prog unit :=
  targetSVC ← wrap_p (lit "failed to get target service: ")
    (get_p services (es_Namespace es, spec_Service (es_Spec es)));
  _ ← wrap_p (lit "failed to check and create private service: ") (checkAndCreatePrivateService_p targetSVC es);
  _ ← wrap_p (lit "failed to create or update endpointslice to resolver: ")
        (createOrUpdateEndpointsliceToResolver_p targetSVC);
  wrap_p (lit "failed to add watch on public service: ") (watchPublicService_p es req).

Definition enableServeMode_p (es : ElastiService) : prog unit :=
  wrap_p (lit "failed to delete endpointslice to resolver: ")
    (deleteEndpointsliceToResolver_p (es_Namespace es, spec_Service (es_Spec es))).

(** What runs between the lock and the unlock of the mutex of [req]. *)
Definition switchMode_p (req : NamespacedName) (mode : gostring) : prog unit :=
  es ← wrap_p (lit "failed to get CRD: ") (getCRD_p req);
  r ← attempt_p
        (if bool_decide (mode = ServeMode) then enableServeMode_p es
         else if bool_decide (mode = ProxyMode) then enableProxyMode_p req es
         else mret tt);
  _ ← attempt_p (updateCRDStatus_p req mode);
  match r with
  | Err err => fail_p err
  | Ok _ => mret tt
  end.

(** [switchMode] for each of [modes], one after the other in the order of their
    indices, with the results in [gs]. *)
Inductive switches (P : option error -> Prop) (req : NamespacedName) (modes : list gostring) (gs : list (guarded unit))
    : list nat -> OpState -> OpState -> Prop :=
| switches_nil s : switches P req modes gs [] s s
| switches_cons i mode fs r order s s1 s' :
    modes !! i = Some mode -> gs !! i = Some (Finished r) -> Forall P fs ->
    (forall rest, switchMode rc scoped req mode (set_faults (fs ++ rest) s) = (r, set_faults rest s1)) ->
    switches P req modes gs order s1 s' -> switches P req modes gs (i :: order) s s'.
End switching.

(** The part of the state each goroutine works on. *)
Definition memory_lens : lens :=
  mkLens (gmap gostring informer_info * gset gostring) (fun s => (informers s, onces s))
    (fun v s => set_onces v.2 (set_informers v.1 s)) (fun _ _ => eq_refl) (fun _ _ _ => eq_refl).
Definition slices_lens : lens := mkLens _ slices set_slices (fun _ _ => eq_refl) (fun _ _ _ => eq_refl).
Definition services_lens : lens := mkLens _ services set_services (fun _ _ => eq_refl) (fun _ _ _ => eq_refl).
Definition scaled_objects_lens : lens :=
  mkLens _ scaled_objects set_scaled_objects (fun _ _ => eq_refl) (fun _ _ _ => eq_refl).

(** ** Lemmas *)

Lemma impl_stop_informers req :
  implements (stop_informers_p req)
    (_ ← informer_StopForCRD req.2 req.1; _ ← resetMutexForInformer (getMutexKeyForTargetRef req);
     resetMutexForInformer (getMutexKeyForPublicSVC req)).
Proof. unfold stop_informers_p. repeat (apply impl_bind; [apply impl_act|intros _]). apply impl_act. Qed.
Lemma impl_deleteSlice nn : implements (deleteEndpointsliceToResolver_p nn) (deleteEndpointsliceToResolver nn).
Proof. unfold deleteEndpointsliceToResolver_p, deleteEndpointsliceToResolver. implement. Qed.
Lemma impl_deletePrivate nn : implements (deletePrivateService_p nn) (deletePrivateService nn).
Proof. unfold deletePrivateService_p, deletePrivateService. implement. Qed.
Lemma impl_unpause es : implements (unpause_keda_p es) (unpause_keda es).
Proof. unfold unpause_keda_p, unpause_keda, UpdateKedaScaledObjectPausedState. implement. Qed.

#[export] Instance memory_lawful : Lawful memory_lens.
Proof. split; [by intros []|by intros []]. Qed.
#[export] Instance slices_lawful : Lawful slices_lens.
Proof. split; [done|by intros []]. Qed.
#[export] Instance services_lawful : Lawful services_lens.
Proof. split; [done|by intros []]. Qed.
#[export] Instance scaled_objects_lawful : Lawful scaled_objects_lens.
Proof. split; [done|by intros []]. Qed.

Lemma confined_modify L (g : l_view L -> l_view L) f : (forall s, f s = l_put L (g (l_get L s)) s) -> confined L (modify f).
Proof. intros H. exists (fun v => (Ok tt, g v)). intros s. unfold modify. by rewrite H. Qed.

Section map_lens.
Context {K A} `{Countable K} (f : OpState -> gmap K A) (g : gmap K A -> OpState -> OpState).
Context (Hget : forall x s, f (set_faults x s) = f s) (Hput : forall x v s, g v (set_faults x s) = set_faults x (g v s)).
Let L := mkLens (gmap K A) f g Hget Hput.
Context (HL : Lawful L).

Lemma confined_read k : confined L (read_ f k).
Proof.
  exists (fun v => (match v !! k with Some a => Ok a | None => Err ErrNotFound end, v)). intros s. unfold read_.
  pose proof (law_put (L := L) s) as E. simpl in *. by destruct (f s !! k); simpl; rewrite E.
Qed.
Lemma confined_update k upd : confined L (update_ f g k upd).
Proof.
  exists (fun v => match v !! k with Some a => (Ok tt, <[k := upd a]> v) | None => (Err ErrNotFound, v) end).
  intros s. unfold update_. pose proof (law_put (L := L) s) as E. simpl in *. by destruct (f s !! k); simpl; rewrite ?E.
Qed.
Lemma confined_delete k : confined L (delete_ f g k).
Proof.
  exists (fun v => match v !! k with Some a => (Ok tt, delete k v) | None => (Err ErrNotFound, v) end).
  intros s. unfold delete_. pose proof (law_put (L := L) s) as E. simpl in *. by destruct (f s !! k); simpl; rewrite ?E.
Qed.
End map_lens.

Create HintDb lenses.
#[export] Hint Resolve memory_lawful slices_lawful services_lawful scaled_objects_lawful : lenses.

(** Close a goal [local L p] by walking through [p]. *)
Ltac localize :=
  repeat first
    [ match goal with |- forall _, _ => intros end
    | exact I
    | apply local_attempt | apply local_wrap
    | apply local_call; first [refine (confined_read _ _ _ _ _ _)|refine (confined_update _ _ _ _ _ _ _)|refine (confined_delete _ _ _ _ _ _)]; solve [auto with lenses]
    | match goal with |- local _ (match ?x with _ => _ end) => destruct x end
    | apply local_bind ].

Lemma local_deleteSlice nn : local slices_lens (deleteEndpointsliceToResolver_p nn).
Proof. unfold deleteEndpointsliceToResolver_p. localize. Qed.
Lemma local_deletePrivate nn : local services_lens (deletePrivateService_p nn).
Proof. unfold deletePrivateService_p. localize. Qed.
Lemma local_unpause es : local scaled_objects_lens (unpause_keda_p es).
Proof. unfold unpause_keda_p. localize. Qed.
Lemma local_stop_informers req : local memory_lens (stop_informers_p req).
Proof.
  unfold stop_informers_p. repeat (apply local_bind; [|intros _]); apply local_act.
  1: apply (confined_modify memory_lens (fun v =>
    (filter (fun kv => HasPrefix kv.1 (crd_prefix req.2 req.1) = false) v.1, v.2))).
  2: apply (confined_modify memory_lens (fun v => (v.1, v.2 ∖ {[getMutexKeyForTargetRef req]}))).
  3: apply (confined_modify memory_lens (fun v => (v.1, v.2 ∖ {[getMutexKeyForPublicSVC req]}))).
  all: by intros [].
Qed.

Definition finalize_lenses : list lens := [memory_lens; slices_lens; services_lens; scaled_objects_lens].

Lemma finalize_lenses_lawful : Forall Lawful finalize_lenses.
Proof. unfold finalize_lenses. rewrite !Forall_cons, Forall_nil. auto with lenses. Qed.

Lemma finalize_lenses_apart : apart finalize_lenses.
Proof.
  intros i j L1 L2 Hij H1 H2. unfold finalize_lenses in *.
  destruct i as [|[|[|[|]]]]; [| | | |done]; injection H1 as <-;
    destruct j as [|[|[|[|]]]]; try done; injection H2 as <-; by split.
Qed.

Lemma finalize_goroutines_local es req : Forall2 (fun L p => local L p) finalize_lenses (finalize_goroutines es req).
Proof.
  constructor; [apply local_stop_informers|]. constructor; [apply local_deleteSlice|].
  constructor; [apply local_deletePrivate|]. constructor; [apply local_unpause|constructor].
Qed.

(** The interleaved goroutines end as some sequential run of them does. *)
Lemma finalize_pool es req s rs s1 :
  rtc pool_step (finalize_goroutines es req, s) (map Done rs, s1) ->
  exists r0 r1 r2 r3 f1 f2 f3 s1' s2',
    rs = [r0; r1; r2; r3]
    /\ (forall rest, deleteEndpointsliceToResolver (es_Namespace es, spec_Service (es_Spec es))
          (set_faults (f1 ++ rest) (informers_stopped req s)) = (r1, set_faults rest s1'))
    /\ (forall rest, deletePrivateService (es_Namespace es, spec_Service (es_Spec es))
          (set_faults (f2 ++ rest) s1') = (r2, set_faults rest s2'))
    /\ (forall rest, unpause_keda es (set_faults (f3 ++ rest) s2') = (r3, set_faults rest s1)).
Proof.
  intros Hr. destruct (pool_sequential finalize_lenses _ _ _ _ finalize_lenses_lawful finalize_lenses_apart
    (finalize_goroutines_local es req) Hr) as [fs Hs]. unfold finalize_goroutines in Hs.
  inversion Hs as [|? ? ? f0 r0 t0 ? ? ? E0 Hs1]; subst. inversion Hs1 as [|? ? ? f1 r1 t1 ? ? ? E1 Hs2]; subst.
  inversion Hs2 as [|? ? ? f2 r2 t2 ? ? ? E2 Hs3]; subst. inversion Hs3 as [|? ? ? f3 r3 t3 ? ? ? E3 Hs4]; subst.
  inversion Hs4; subst. simpl in E0. destruct f0; [|done].
  assert (t0 = informers_stopped req s) as -> by (by injection E0 as <- <-).
  exists r0, r1, r2, r3, f1, f2, f3, t1, t2. split; [done|]. split_and!; intros rest.
  - rewrite <- impl_deleteSlice. by eapply exec_denote; [eapply local_blind, local_deleteSlice|].
  - rewrite <- impl_deletePrivate. by eapply exec_denote; [eapply local_blind, local_deletePrivate|].
  - rewrite <- impl_unpause. by eapply exec_denote; [eapply local_blind, local_unpause|].
Qed.

(** ** Lemmas on [switchMode] *)

Section switching_lemmas.
Context (rc : ResolverConfig) (scoped : bool).

Lemma impl_checkAndCreate svc es : implements (checkAndCreatePrivateService_p svc es) (checkAndCreatePrivateService svc es).
Proof. unfold checkAndCreatePrivateService_p, checkAndCreatePrivateService. implement. Qed.
Lemma impl_getIPs : implements (getIPsForResolver_p rc scoped) (getIPsForResolver rc scoped).
Proof. unfold getIPsForResolver_p, getIPsForResolver. implement. Qed.
Hint Resolve impl_checkAndCreate impl_getIPs impl_deleteSlice : impl.
Lemma impl_createOrUpdate svc :
  implements (createOrUpdateEndpointsliceToResolver_p rc scoped svc) (createOrUpdateEndpointsliceToResolver rc scoped svc).
Proof. unfold createOrUpdateEndpointsliceToResolver_p, createOrUpdateEndpointsliceToResolver. implement. Qed.
Lemma impl_once key p m : implements p m -> implements (once_or_reset_p key p) (once_or_reset key m).
Proof. intros Hp. unfold once_or_reset_p, once_or_reset, once_do_p, once_do, resetMutexForInformer. implement. Qed.
Lemma impl_fault : implements (call_p (mret tt)) fault.
Proof. intros s. unfold call_p. simpl. unfold call, mbind, M_bind, fault, mret, M_ret. by destruct (faults s) as [|[]]. Qed.
Hint Resolve impl_createOrUpdate impl_fault : impl.
Lemma impl_informer_Add key p m : implements p m -> implements (informer_Add_p key p) (informer_Add key m).
Proof. intros Hp. unfold informer_Add_p, informer_Add. implement. Qed.
Lemma impl_watchPublic es req : implements (watchPublicService_p es req) (watchPublicService es req).
Proof.
  unfold watchPublicService_p, watchPublicService. destruct (bool_decide _); [apply impl_fail|].
  apply impl_once, impl_wrap, impl_informer_Add. implement.
Qed.
Lemma impl_getCRD nn : implements (getCRD_p nn) (getCRD nn).
Proof. unfold getCRD_p, getCRD. implement. Qed.
Lemma impl_updateStatus nn mode : implements (updateCRDStatus_p nn mode) (updateCRDStatus nn mode).
Proof. unfold updateCRDStatus_p, updateCRDStatus. implement. Qed.
Hint Resolve impl_watchPublic impl_getCRD impl_updateStatus : impl.
Lemma impl_switchMode req mode : implements (switchMode_p rc scoped req mode) (switchMode rc scoped req mode).
Proof.
  unfold switchMode_p, switchMode, enableServeMode_p, enableServeMode, enableProxyMode_p, enableProxyMode. implement.
Qed.

Lemma blind_deleteSlice nn : blind (deleteEndpointsliceToResolver_p nn).
Proof. eapply local_blind, local_deleteSlice. Qed.
Lemma blind_getIPs : blind (getIPsForResolver_p rc scoped).
Proof.
  unfold getIPsForResolver_p. apply blind_bind; [|by intros []]. apply blind_wrap. by split.
Qed.
Hint Resolve blind_deleteSlice blind_getIPs : blind.
Lemma blind_fault : blind (call_p (mret tt)).
Proof. by split. Qed.
Hint Resolve blind_fault : blind.
Lemma blind_switchMode req mode : blind (switchMode_p rc scoped req mode).
Proof.
  unfold switchMode_p, getCRD_p, enableServeMode_p, enableProxyMode_p, updateCRDStatus_p, checkAndCreatePrivateService_p,
    createOrUpdateEndpointsliceToResolver_p, watchPublicService_p, once_or_reset_p, once_do_p, informer_Add_p. blindly.
Qed.

(** A serial run in terms of whole calls. *)
Lemma serial_switches P req modes gs s gs' s' :
  serial P gs s gs' s' -> Forall (fun g => exists r, g = Finished r) gs' ->
  (forall i p, gs !! i = Some (Waiting p) -> exists mode, modes !! i = Some mode /\ p = switchMode_p rc scoped req mode) ->
  (forall i, is_Some (gs !! i) -> (exists p, gs !! i = Some (Waiting p)) \/ (exists r, gs !! i = Some (Finished r))) ->
  exists order, NoDup order /\ (forall i, i ∈ order <-> exists p, gs !! i = Some (Waiting p))
    /\ (forall i r, gs !! i = Some (Finished r) -> gs' !! i = Some (Finished r))
    /\ switches rc scoped P req modes gs' order s s'.
Proof.
  induction 1 as [gs s|i p fs r gs s s1 gs' s' Hi Hfs Hex Hser IH]; intros Hfin Hw Hwf.
  - exists []. split_and!; [constructor| |done|constructor]. intros i. split; [by intros ?%not_elem_of_nil|].
    intros [p Hp]. by destruct (proj1 (Forall_lookup _ _) Hfin _ _ Hp) as [r [=]].
  - pose proof (lookup_lt_Some _ _ _ Hi) as Hlt. destruct IH as (order & Hnd & Hord & Hkeep & Hsw); [done| | |].
    + intros j q. rewrite list_lookup_insert_Some. intros [(_ & [=] & _)|[_ Hj]]. by apply Hw.
    + intros j. destruct (decide (i = j)) as [<-|Hne]; [rewrite list_lookup_insert_eq by done; right; by eexists|].
      rewrite list_lookup_insert_ne by done. apply Hwf.
    + destruct (Hw i p Hi) as (mode & Hm & ->). exists (i :: order). split_and!.
      * constructor; [|done]. rewrite Hord. intros [q Hq]. by rewrite list_lookup_insert_eq in Hq.
      * intros j. rewrite elem_of_cons, Hord. setoid_rewrite list_lookup_insert_Some. destruct (decide (i = j)); naive_solver.
      * intros j r' Hj. apply Hkeep. rewrite list_lookup_insert_ne; [done|]. intros ->. congruence.
      * apply (switches_cons _ _ _ _ _ _ i mode fs r _ _ s1); try done.
        -- apply Hkeep. by apply list_lookup_insert_eq.
        -- intros rest. rewrite <- impl_switchMode. by apply exec_denote; [apply blind_switchMode|].
Qed.

(** The last switch decides. *)
Lemma switches_last P req modes gs order i s s' :
  switches rc scoped P req modes gs (order ++ [i]) s s' ->
  exists mode fs r s0, modes !! i = Some mode /\ gs !! i = Some (Finished r) /\ Forall P fs
    /\ forall rest, switchMode rc scoped req mode (set_faults (fs ++ rest) s0) = (r, set_faults rest s').
Proof.
  revert s. induction order as [|j order IH]; intros s Hs; simpl in Hs.
  - inversion Hs as [|? mode fs r ? ? s1 ? H1 H2 H3 H4 H5]; subst. inversion H5; subst. by exists mode, fs, r, s.
  - inversion Hs; subst. by eapply IH.
Qed.
End switching_lemmas.

(** ** Properties *)


(** The API server reports an object as missing only when it is. *)
Definition honest_outcome (f : option error) : Prop :=
  match f with Some e => error_is is_not_found e = false | None => True end.

(** A switch that succeeded with honest outcomes. *)
Lemma switched rc scoped req mode fs s0 s' :
  Forall honest_outcome fs ->
  (forall rest, switchMode rc scoped req mode (set_faults (fs ++ rest) s0) = (Ok tt, set_faults rest s')) ->
  exists es, crds s0 !! req = Some es
    /\ (mode = ProxyMode -> redirected rc scoped es s0 s')
    /\ (mode = ServeMode ->
        slices s' !! (es_Namespace es, GetEndpointSliceToResolverName (spec_Service (es_Spec es))) = None).
Proof.
  intros Hfs Hsw. specialize (Hsw []). rewrite app_nil_r in Hsw.
  apply switchMode_ok in Hsw as (es & s1 & s2 & Hg & Hm & E1 & E2). pose proof Hg as (Hc & G1 & G2 & _)%getCRD_ok.
  exists es. split; [done|]. split.
  - intros ->. rewrite bool_decide_false in Hm by discriminate. rewrite bool_decide_true in Hm by done.
    apply enableProxyMode_ok in Hm. eapply redirected_ext; [exact Hm|symmetry; exact G1|symmetry; exact G2|exact E1|exact E2].
  - intros ->. rewrite bool_decide_true in Hm by done. change (slices s') with (slices (set_faults [] s')). rewrite E1.
    eapply enableServeMode_ok; [|exact Hm]. eapply (shrinks_run (getCRD req)); [apply getCRD_shrinks|exact Hg|exact Hfs].
Qed.


(** A switch and a reconciliation take different mutexes. *)
Definition race_pool : list (prog unit) :=
  [switchMode_p example_rc false es_nn ProxyMode; Act (Reconcile apps_v1 es_nn) Done].

(** The switch has created the private service when the reconciliation runs. *)
Definition race_schedule : list (nat * option error) :=
  replicate 4 (0%nat, None) ++ [(1%nat, None)] ++ replicate 10 (0%nat, None).

Definition race_end : list (result error unit) * OpState :=
  default ([], cluster deleted_es (mkScale 0 0) []) (results (schedule race_schedule (race_pool, cluster deleted_es (mkScale 0 0) []))).

Lemma results_default {A} (c : option (list (prog A) * OpState)) d :
  bool_decide (is_Some (results c)) = true -> results c = Some (default d (results c)).
Proof. intros [x E]%bool_decide_eq_true. by rewrite E. Qed.

(** The mutexes of the two operations are different, and a switch to proxy mode
    that has read the ElastiService before its deletion undoes the finalizer's
    work: both succeed, the ElastiService and its directory entry are gone, the
    private service is deleted, yet the endpoint slice to the resolver stays, and
    an informer on the public service runs. *)
Theorem switch_survives_finalizer :
  rtc pool_step (race_pool, cluster deleted_es (mkScale 0 0) []) (map Done [Ok tt; Ok tt], race_end.2)
  /\ crds race_end.2 !! es_nn = None
  /\ directory race_end.2 !! lit "ns/svc" = None
  /\ services race_end.2 !! (lit "ns", GetPrivateServiceName (lit "svc")) = None
  /\ is_Some (slices race_end.2 !! (lit "ns", GetEndpointSliceToResolverName (lit "svc")))
  /\ size (informers race_end.2) = 1%nat.
Proof.
  split.
  - assert ([Ok tt; Ok tt] = race_end.1) as -> by (vm_compute; reflexivity).
    apply (schedule_results race_schedule). unfold race_end. rewrite <- surjective_pairing.
    apply results_default. vm_compute. reflexivity.
  - split_and!; [vm_compute; reflexivity..|apply (bool_decide_unpack _); vm_compute; exact I|vm_compute; reflexivity].
Qed.

(** ** Witnesses *)

(** The goroutines step in turn, and the call of the third one fails. *)
Definition turns : list (nat * option error) :=
  [(1%nat, None); (2%nat, Some ErrNoMatch); (0%nat, None); (3%nat, None); (1%nat, None); (0%nat, None); (0%nat, None)].
Definition turns_end : list (result error unit) * OpState :=
  default ([], proxied) (results (schedule turns (finalize_goroutines deleted_es es_nn, proxied))).


(** A handler that sees ready pods waits while another one switches to proxy mode. *)
Definition two_handlers : list lock_event :=
  [LockBy 1] ++ replicate 16 (StepBy 1 None) ++ [UnlockBy 1; LockBy 0] ++ replicate 6 (StepBy 0 None) ++ [UnlockBy 0].
Definition two_switches : list (guarded unit) * OpState :=
  (map Waiting (map (switchMode_p example_rc false es_nn) [ServeMode; ProxyMode]), cluster live_es (mkScale 0 0) []).
Definition two_end : list (guarded unit) * OpState := default two_switches (lock_schedule two_handlers two_switches).

Lemma two_end_finished : two_end.1 = [Finished (Ok tt); Finished (Ok tt)].
Proof. vm_compute. reflexivity. Qed.

Lemma two_end_run : rtc (lock_step honest_outcome) two_switches two_end.
Proof.
  apply (lock_schedule_run _ two_handlers); [by repeat constructor|].
  assert (bool_decide (is_Some (lock_schedule two_handlers two_switches)) = true) as [x Hx]%bool_decide_eq_true
    by (vm_compute; reflexivity).
  unfold two_end. by rewrite Hx.
Qed.

