(* ===== verification/JsonCache.v ===== *)
(** * The answer of [/crd-cache] as JSON

    What [crdCacheHandler] writes and [GetElastiServiceCache] reads
    ([pkg/messages/operator.go]), down to the texts of the specs, which the
    resolver keeps raw and decodes when it looks for a probe response.  The
    encoder and the decoder of every struct follow the [json] tags of
    [elastiservice_types.go] and [operator.go]. *)

From stdpp Require Import sorting.
From S2P Require Import Prelude GoStrings Types ProbeMatch CrdCache RpcClient Json JsonText JsonCodec Cluster Controller ControllerFacts ControllerProps.
Local Open Scope Z_scope.

(** ** The structs of the custom resource *)

Definition is_empty {A} (l : list A) : bool := match l with [] => true | _ => false end.
Definition is_nil {A} (o : option A) : bool := match o with None => true | Some _ => false end.
Definition pointed {A} (enc : A -> gostring) (o : option A) : gostring :=
  match o with Some x => enc x | None => lit "null" end.

(** [ScaleTargetRef] *)
Definition enc_ScaleTargetRef (r : ScaleTargetRef) : gostring :=
  object_text
    (member (lit "apiVersion") (json_string (str_APIVersion r)) ++
     member (lit "kind") (json_string (str_Kind r)) ++
     member (lit "name") (json_string (str_Name r)) ++ []).
Definition zero_ScaleTargetRef : ScaleTargetRef := mkScaleTargetRef [] [] [].
Definition ScaleTargetRef_fields : list (gostring * decoder ScaleTargetRef) :=
  [field (lit "apiVersion") str_APIVersion (fun x r => mkScaleTargetRef x (str_Kind r) (str_Name r)) dec_string;
   field (lit "kind") str_Kind (fun x r => mkScaleTargetRef (str_APIVersion r) x (str_Name r)) dec_string;
   field (lit "name") str_Name (fun x r => mkScaleTargetRef (str_APIVersion r) (str_Kind r) x) dec_string].

(** [ProbeResponsePathMatch] *)
Definition enc_PathMatch (p : ProbeResponsePathMatch) : gostring :=
  object_text
    (omitempty (is_empty (pm_Type p)) (lit "type") (json_string (pm_Type p)) ++
     omitempty (is_empty (pm_Value p)) (lit "value") (json_string (pm_Value p)) ++ []).
Definition zero_PathMatch : ProbeResponsePathMatch := mkPathMatch [] [].
Definition PathMatch_fields : list (gostring * decoder ProbeResponsePathMatch) :=
  [field (lit "type") pm_Type (fun x p => mkPathMatch x (pm_Value p)) dec_string;
   field (lit "value") pm_Value (fun x p => mkPathMatch (pm_Type p) x) dec_string].

(** [ProbeResponseHeaderMatch] and [ProbeResponseQueryParamMatch] *)
Definition enc_ValueMatch (v : ProbeResponseValueMatch) : gostring :=
  object_text
    (member (lit "name") (json_string (vm_Name v)) ++
     omitempty (is_empty (vm_Type v)) (lit "type") (json_string (vm_Type v)) ++
     member (lit "value") (json_string (vm_Value v)) ++ []).
Definition zero_ValueMatch : ProbeResponseValueMatch := mkValueMatch [] [] [].
Definition ValueMatch_fields : list (gostring * decoder ProbeResponseValueMatch) :=
  [field (lit "name") vm_Name (fun x v => mkValueMatch x (vm_Type v) (vm_Value v)) dec_string;
   field (lit "type") vm_Type (fun x v => mkValueMatch (vm_Name v) x (vm_Value v)) dec_string;
   field (lit "value") vm_Value (fun x v => mkValueMatch (vm_Name v) (vm_Type v) x) dec_string].

(** [ProbeResponse] *)
Definition enc_ProbeResponse (r : ProbeResponse) : gostring :=
  object_text
    (member (lit "status") (Itoa (pr_Status r)) ++
     member (lit "body") (json_string (pr_Body r)) ++ []).
Definition zero_ProbeResponse : ProbeResponse := mkProbeResponse 0 [].
Definition ProbeResponse_fields : list (gostring * decoder ProbeResponse) :=
  [field (lit "status") pr_Status (fun x r => mkProbeResponse x (pr_Body r)) (dec_int 64);
   field (lit "body") pr_Body (fun x r => mkProbeResponse (pr_Status r) x) dec_string].

(** [ProbeResponseRule] *)
Definition enc_Rule (r : ProbeResponseRule) : gostring :=
  object_text
    (omitempty (is_nil (rule_Path r)) (lit "path") (pointed enc_PathMatch (rule_Path r)) ++
     omitempty (is_empty (rule_Headers r)) (lit "headers") (array_text (map enc_ValueMatch (rule_Headers r))) ++
     omitempty (is_empty (rule_QueryParams r)) (lit "queryParams") (array_text (map enc_ValueMatch (rule_QueryParams r))) ++
     omitempty (is_nil (rule_Method r)) (lit "method") (pointed json_string (rule_Method r)) ++
     member (lit "response") (enc_ProbeResponse (rule_Response r)) ++ []).
Definition zero_Rule : ProbeResponseRule := mkProbeRule None [] [] None zero_ProbeResponse.
Definition Rule_fields : list (gostring * decoder ProbeResponseRule) :=
  [field (lit "path") rule_Path
     (fun x r => mkProbeRule x (rule_Headers r) (rule_QueryParams r) (rule_Method r) (rule_Response r))
     (dec_pointer zero_PathMatch (dec_struct PathMatch_fields));
   field (lit "headers") rule_Headers
     (fun x r => mkProbeRule (rule_Path r) x (rule_QueryParams r) (rule_Method r) (rule_Response r))
     (dec_slice zero_ValueMatch (dec_struct ValueMatch_fields));
   field (lit "queryParams") rule_QueryParams
     (fun x r => mkProbeRule (rule_Path r) (rule_Headers r) x (rule_Method r) (rule_Response r))
     (dec_slice zero_ValueMatch (dec_struct ValueMatch_fields));
   field (lit "method") rule_Method
     (fun x r => mkProbeRule (rule_Path r) (rule_Headers r) (rule_QueryParams r) x (rule_Response r))
     (dec_pointer [] dec_string);
   field (lit "response") rule_Response
     (fun x r => mkProbeRule (rule_Path r) (rule_Headers r) (rule_QueryParams r) (rule_Method r) x)
     (dec_struct ProbeResponse_fields)].

(** [ScaleTrigger]: the metadata is a raw message. *)
Definition enc_Trigger (t : ScaleTrigger) : result error gostring :=
  metadata ← raw_text (trig_Metadata t);
  Ok (object_text
    (member (lit "type") (json_string (trig_Type t)) ++
     omitempty (is_empty (trig_Metadata t)) (lit "metadata") metadata ++ [])).
Definition zero_Trigger : ScaleTrigger := mkScaleTrigger [] [].
Definition Trigger_fields : list (gostring * decoder ScaleTrigger) :=
  [field (lit "type") trig_Type (fun x t => mkScaleTrigger x (trig_Metadata t)) dec_string;
   field (lit "metadata") trig_Metadata (fun x t => mkScaleTrigger (trig_Type t) x) dec_raw].

(** [AutoscalerSpec] *)
Definition enc_Autoscaler (a : AutoscalerSpec) : gostring :=
  object_text
    (member (lit "type") (json_string (as_Type a)) ++
     member (lit "name") (json_string (as_Name a)) ++ []).
Definition zero_Autoscaler : AutoscalerSpec := mkAutoscaler [] [].
Definition Autoscaler_fields : list (gostring * decoder AutoscalerSpec) :=
  [field (lit "type") as_Type (fun x a => mkAutoscaler x (as_Name a)) dec_string;
   field (lit "name") as_Name (fun x a => mkAutoscaler (as_Type a) x) dec_string].

(** [EnabledPeriod] *)
Definition enc_EnabledPeriod (p : EnabledPeriod) : gostring :=
  object_text
    (omitempty (is_empty (ep_Schedule p)) (lit "schedule") (json_string (ep_Schedule p)) ++
     omitempty (is_empty (ep_Duration p)) (lit "duration") (json_string (ep_Duration p)) ++ []).
Definition zero_EnabledPeriod : EnabledPeriod := mkEnabledPeriod [] [].
Definition EnabledPeriod_fields : list (gostring * decoder EnabledPeriod) :=
  [field (lit "schedule") ep_Schedule (fun x p => mkEnabledPeriod x (ep_Duration p)) dec_string;
   field (lit "duration") ep_Duration (fun x p => mkEnabledPeriod (ep_Schedule p) x) dec_string].

(** Encoding a list whose elements may fail: the first error ends it. *)
Fixpoint enc_all {A} (enc : A -> result error gostring) (l : list A) : result error (list gostring) :=
  match l with
  | [] => Ok []
  | x :: l => t ← enc x; ts ← enc_all enc l; Ok (t :: ts)
  end.

(** [json.Marshal] of an [ElastiServiceSpec] *)
Definition Marshal_spec (s : ElastiServiceSpec) : result error gostring :=
  triggers ← enc_all enc_Trigger (spec_Triggers s);
  Ok (object_text
    (member (lit "scaleTargetRef") (enc_ScaleTargetRef (spec_ScaleTargetRef s)) ++
     member (lit "service") (json_string (spec_Service s)) ++
     omitempty (is_empty (spec_ProbeResponse s)) (lit "probeResponse") (array_text (map enc_Rule (spec_ProbeResponse s))) ++
     omitempty (spec_MinTargetReplicas s =? 0) (lit "minTargetReplicas") (Itoa (spec_MinTargetReplicas s)) ++
     omitempty (spec_CooldownPeriod s =? 0) (lit "cooldownPeriod") (Itoa (spec_CooldownPeriod s)) ++
     omitempty (is_empty (spec_Triggers s)) (lit "triggers") (array_text triggers) ++
     omitempty (is_nil (spec_Autoscaler s)) (lit "autoscaler") (pointed enc_Autoscaler (spec_Autoscaler s)) ++
     omitempty (is_nil (spec_EnabledPeriod s)) (lit "enabledPeriod") (pointed enc_EnabledPeriod (spec_EnabledPeriod s)) ++ [])).

Definition zero_Spec : ElastiServiceSpec := mkSpec zero_ScaleTargetRef [] [] 0 0 [] None None.

Definition with_ProbeResponse (x : list ProbeResponseRule) (s : ElastiServiceSpec) : ElastiServiceSpec :=
  mkSpec (spec_ScaleTargetRef s) (spec_Service s) x (spec_MinTargetReplicas s) (spec_CooldownPeriod s)
    (spec_Triggers s) (spec_Autoscaler s) (spec_EnabledPeriod s).
Definition with_Service (x : gostring) (s : ElastiServiceSpec) : ElastiServiceSpec :=
  mkSpec (spec_ScaleTargetRef s) x (spec_ProbeResponse s) (spec_MinTargetReplicas s) (spec_CooldownPeriod s)
    (spec_Triggers s) (spec_Autoscaler s) (spec_EnabledPeriod s).
Definition with_MinTargetReplicas (x : Z) (s : ElastiServiceSpec) : ElastiServiceSpec :=
  mkSpec (spec_ScaleTargetRef s) (spec_Service s) (spec_ProbeResponse s) x (spec_CooldownPeriod s)
    (spec_Triggers s) (spec_Autoscaler s) (spec_EnabledPeriod s).
Definition with_CooldownPeriod (x : Z) (s : ElastiServiceSpec) : ElastiServiceSpec :=
  mkSpec (spec_ScaleTargetRef s) (spec_Service s) (spec_ProbeResponse s) (spec_MinTargetReplicas s) x
    (spec_Triggers s) (spec_Autoscaler s) (spec_EnabledPeriod s).
Definition with_Triggers (x : list ScaleTrigger) (s : ElastiServiceSpec) : ElastiServiceSpec :=
  mkSpec (spec_ScaleTargetRef s) (spec_Service s) (spec_ProbeResponse s) (spec_MinTargetReplicas s)
    (spec_CooldownPeriod s) x (spec_Autoscaler s) (spec_EnabledPeriod s).
Definition with_Autoscaler (x : option AutoscalerSpec) (s : ElastiServiceSpec) : ElastiServiceSpec :=
  mkSpec (spec_ScaleTargetRef s) (spec_Service s) (spec_ProbeResponse s) (spec_MinTargetReplicas s)
    (spec_CooldownPeriod s) (spec_Triggers s) x (spec_EnabledPeriod s).
Definition with_EnabledPeriod (x : option EnabledPeriod) (s : ElastiServiceSpec) : ElastiServiceSpec :=
  mkSpec (spec_ScaleTargetRef s) (spec_Service s) (spec_ProbeResponse s) (spec_MinTargetReplicas s)
    (spec_CooldownPeriod s) (spec_Triggers s) (spec_Autoscaler s) x.

Definition Spec_fields : list (gostring * decoder ElastiServiceSpec) :=
  [field (lit "scaleTargetRef") spec_ScaleTargetRef set_ScaleTargetRef (dec_struct ScaleTargetRef_fields);
   field (lit "service") spec_Service with_Service dec_string;
   field (lit "probeResponse") spec_ProbeResponse with_ProbeResponse (dec_slice zero_Rule (dec_struct Rule_fields));
   field (lit "minTargetReplicas") spec_MinTargetReplicas with_MinTargetReplicas (dec_int 32);
   field (lit "cooldownPeriod") spec_CooldownPeriod with_CooldownPeriod (dec_int 32);
   field (lit "triggers") spec_Triggers with_Triggers (dec_slice zero_Trigger (dec_struct Trigger_fields));
   field (lit "autoscaler") spec_Autoscaler with_Autoscaler (dec_pointer zero_Autoscaler (dec_struct Autoscaler_fields));
   field (lit "enabledPeriod") spec_EnabledPeriod with_EnabledPeriod
     (dec_pointer zero_EnabledPeriod (dec_struct EnabledPeriod_fields))].

(** [json.Unmarshal(specJSON, &s)], as the probe responses use it. *)
Definition Unmarshal_spec : gostring -> result error ElastiServiceSpec :=
  Unmarshal zero_Spec (dec_struct Spec_fields).

(** ** The answer *)

Section answer.
(** [metav1.Time.MarshalJSON] *)
Context (time_text : Z -> gostring).

(** [json.Marshal] of an [ElastiServiceStatus]: a struct is never empty, so the
    first time is always there. *)
Definition Marshal_status (st : ElastiServiceStatus) : result error gostring :=
  Ok (object_text
    (member (lit "lastReconciledTime") (time_text (st_LastReconciledTime st)) ++
     omitempty (is_nil (st_LastScaledUpTime st)) (lit "lastScaledUpTime") (pointed time_text (st_LastScaledUpTime st)) ++
     omitempty (is_empty (st_Mode st)) (lit "mode") (json_string (st_Mode st)) ++ [])).

(** [messages.ElastiServiceEntry] *)
Definition enc_Entry (e : ElastiServiceEntry) : result error gostring :=
  spec ← raw_text (ent_Spec e);
  status ← raw_text (ent_Status e);
  Ok (object_text
    (member (lit "name") (json_string (ent_Name e)) ++
     member (lit "spec") spec ++
     member (lit "status") status ++ [])).
Definition zero_Entry : ElastiServiceEntry := mkEntry [] [] [].
Definition Entry_fields : list (gostring * decoder ElastiServiceEntry) :=
  [field (lit "name") ent_Name (fun x e => mkEntry x (ent_Spec e) (ent_Status e)) dec_string;
   field (lit "spec") ent_Spec (fun x e => mkEntry (ent_Name e) x (ent_Status e)) dec_raw;
   field (lit "status") ent_Status (fun x e => mkEntry (ent_Name e) (ent_Spec e) x) dec_raw].

(** The entries of a map are printed in the order of their keys. *)
Definition sorted_entries (m : gmap gostring ElastiServiceEntry) : list (gostring * ElastiServiceEntry) :=
  omap (fun k => pair k <$> (m !! k)) (merge_sort str_le (range_keys m)).

Fixpoint enc_entries (l : list (gostring * ElastiServiceEntry)) : result error (list (gostring * gostring)) :=
  match l with
  | [] => Ok []
  | (k, e) :: l => t ← enc_Entry e; ts ← enc_entries l; Ok ((k, t) :: ts)
  end.

(** [json.NewEncoder(w).Encode(resp)] *)
Definition Encode_CacheResponse (m : gmap gostring ElastiServiceEntry) : result error gostring :=
  entries ← enc_entries (sorted_entries m);
  Ok (object_text (member (lit "services") (object_text entries) ++ []) ++ ["010"%char]).

Definition CacheResponse_fields : list (gostring * decoder (gmap gostring ElastiServiceEntry)) :=
  [field (lit "services") (fun m => m) (fun x _ => x) (dec_map zero_Entry (dec_struct Entry_fields))].

(** [json.NewDecoder(resp.Body).Decode(&result)] *)
Definition Decode_CacheResponse : gostring -> result error (gmap gostring ElastiServiceEntry) :=
  Decode ∅ (dec_struct CacheResponse_fields).

(** [http.Error] writes the text and a line end. *)
Definition http_Error (text : gostring) : gostring := text ++ ["010"%char].

(** [crdCacheHandler] with the body it writes. *)
Definition crdCacheHandler_http (method : gostring) : M (Z * gostring) :=
  '(status, services) ← crdCacheHandler Marshal_spec Marshal_status method;
  match services with
  | None => mret (status, http_Error (if status =? 405 then lit "Method not allowed" else lit "Internal server error"))
  | Some services =>
      match Encode_CacheResponse services with
      | Err _ => mret (500, http_Error (lit "Internal server error"))
      | Ok body => mret (status, body)
      end
  end.

(** One poll of the resolver that gets the answer of the operator. *)
Definition poll_once (answer : Z * gostring) (c : Cache) : option error * Cache :=
  fetch (GetElastiServiceCache (Answered answer.1 answer.2 (Decode_CacheResponse answer.2))) c.
End answer.

(** ** What is encoded without loss *)

Definition ascii_text (s : gostring) : bool := forallb is_ascii s.
Definition int_in (bits n : Z) : bool := (- 2 ^ (bits - 1) <=? n) && (n <? 2 ^ (bits - 1)).

(** A JSON text as the encoder prints it. *)
Definition canonical_text (t : gostring) : bool :=
  match value_of t with
  | Some v => wf_json v && bool_decide (print v = t)
  | None => false
  end.

Definition portable_value (v : ProbeResponseValueMatch) : bool :=
  ascii_text (vm_Name v) && ascii_text (vm_Type v) && ascii_text (vm_Value v).
Definition portable_path (p : ProbeResponsePathMatch) : bool := ascii_text (pm_Type p) && ascii_text (pm_Value p).
Definition portable_rule (r : ProbeResponseRule) : bool :=
  match rule_Path r with Some p => portable_path p | None => true end
  && forallb portable_value (rule_Headers r) && forallb portable_value (rule_QueryParams r)
  && match rule_Method r with Some m => ascii_text m | None => true end
  && int_in 64 (pr_Status (rule_Response r)) && ascii_text (pr_Body (rule_Response r)).
Definition portable_trigger (t : ScaleTrigger) : bool :=
  ascii_text (trig_Type t) && (is_empty (trig_Metadata t) || canonical_text (trig_Metadata t)).

(** ASCII texts, integers of their width, metadata as the API server prints it. *)
Definition portable_spec (s : ElastiServiceSpec) : bool :=
  ascii_text (str_APIVersion (spec_ScaleTargetRef s)) && ascii_text (str_Kind (spec_ScaleTargetRef s))
  && ascii_text (str_Name (spec_ScaleTargetRef s)) && ascii_text (spec_Service s)
  && forallb portable_rule (spec_ProbeResponse s)
  && int_in 32 (spec_MinTargetReplicas s) && int_in 32 (spec_CooldownPeriod s)
  && forallb portable_trigger (spec_Triggers s)
  && match spec_Autoscaler s with Some a => ascii_text (as_Type a) && ascii_text (as_Name a) | None => true end
  && match spec_EnabledPeriod s with Some p => ascii_text (ep_Schedule p) && ascii_text (ep_Duration p) | None => true end.

(** ** Lemmas *)

(** Steps through the members of a struct, in the order of its fields. *)
Ltac required i := eapply (fills_member _ i); [reflexivity|reflexivity|auto with json|].
Ltac optional i x := eapply (fills_omitempty _ i x); [reflexivity|reflexivity|reflexivity| | |].

Create HintDb json.
#[export] Hint Resolve dec_string_conveys dec_struct_conveys fills_nil : json.

Lemma canonical_printed t : canonical_text t = true -> printed t.
Proof.
  unfold canonical_text. destruct (value_of t) as [v|]; [|done]. intros [Hw Hp%bool_decide_eq_true]%andb_true_iff. by exists v.
Qed.

Lemma int_in_spec bits n : int_in bits n = true -> - 2 ^ (bits - 1) <= n < 2 ^ (bits - 1).
Proof. unfold int_in. rewrite andb_true_iff, Z.leb_le, Z.ltb_lt. done. Qed.

Lemma empty_string {A} (l : list A) : is_empty l = true -> l = [].
Proof. by destruct l. Qed.

Lemma slice_conveys {A} (zero : A) d enc l :
  Forall (fun x => conveys d (enc x) zero x) l -> conveys (dec_slice zero d) (array_text (map enc l)) [] l.
Proof. intros Hl. apply dec_slice_conveys. induction Hl; simpl; by constructor. Qed.

Lemma ScaleTargetRef_conveys r :
  ascii_text (str_APIVersion r) = true -> ascii_text (str_Kind r) = true -> ascii_text (str_Name r) = true ->
  conveys (dec_struct ScaleTargetRef_fields) (enc_ScaleTargetRef r) zero_ScaleTargetRef r.
Proof.
  intros H1 H2 H3. apply dec_struct_conveys. required 0%nat. required 1%nat. required 2%nat. destruct r. apply fills_nil.
Qed.

Lemma PathMatch_conveys p : portable_path p = true -> conveys (dec_struct PathMatch_fields) (enc_PathMatch p) zero_PathMatch p.
Proof.
  intros [H1 H2]%andb_true_iff. apply dec_struct_conveys.
  optional 0%nat (pm_Type p); [apply empty_string|auto with json|].
  optional 1%nat (pm_Value p); [apply empty_string|auto with json|]. destruct p. apply fills_nil.
Qed.

Lemma ValueMatch_conveys v : portable_value v = true -> conveys (dec_struct ValueMatch_fields) (enc_ValueMatch v) zero_ValueMatch v.
Proof.
  intros [[H1 H2]%andb_true_iff H3]%andb_true_iff. apply dec_struct_conveys. required 0%nat.
  optional 1%nat (vm_Type v); [apply empty_string|auto with json|]. required 2%nat. destruct v. apply fills_nil.
Qed.

Lemma ProbeResponse_conveys r :
  int_in 64 (pr_Status r) = true -> ascii_text (pr_Body r) = true ->
  conveys (dec_struct ProbeResponse_fields) (enc_ProbeResponse r) zero_ProbeResponse r.
Proof.
  intros H1%int_in_spec H2. pose proof (fun old => dec_int_conveys 64 (pr_Status r) old ltac:(lia) H1) as Hi.
  apply dec_struct_conveys. required 0%nat. required 1%nat. destruct r. apply fills_nil.
Qed.

Lemma values_convey l :
  forallb portable_value l = true ->
  conveys (dec_slice zero_ValueMatch (dec_struct ValueMatch_fields)) (array_text (map enc_ValueMatch l)) [] l.
Proof.
  intros Hl. apply slice_conveys, Forall_forall. intros v Hv. apply ValueMatch_conveys.
  rewrite forallb_forall in Hl. by apply Hl, list_elem_of_In.
Qed.

(** A pointer to a struct, left out when it is nil. *)
Lemma pointer_conveys {A} (zero : A) d enc (o : option A) :
  match o with Some x => is_null (enc x) = false /\ conveys d (enc x) zero x | None => True end ->
  is_nil o = false -> conveys (dec_pointer zero d) (pointed enc o) None o.
Proof. destruct o as [x|]; [|done]. intros [Hn Hx] _. by apply dec_pointer_conveys. Qed.

Lemma nil_pointer {A} (o : option A) : is_nil o = true -> o = None.
Proof. by destruct o. Qed.

#[export] Hint Resolve ScaleTargetRef_conveys PathMatch_conveys ProbeResponse_conveys values_convey
  empty_string nil_pointer object_not_null : json.

Lemma Rule_conveys r : portable_rule r = true -> conveys (dec_struct Rule_fields) (enc_Rule r) zero_Rule r.
Proof.
  unfold portable_rule. rewrite !andb_true_iff. intros [[[[[Hp Hh] Hq] Hm] Hs] Hb]. apply dec_struct_conveys.
  optional 0%nat (rule_Path r); [auto with json| |].
  { apply pointer_conveys. destruct (rule_Path r); [|done]. split; [apply object_not_null|auto with json]. }
  optional 1%nat (rule_Headers r); [auto with json|auto with json|].
  optional 2%nat (rule_QueryParams r); [auto with json|auto with json|].
  optional 3%nat (rule_Method r); [auto with json| |].
  { apply pointer_conveys. destruct (rule_Method r); [|done]. split; [by apply is_null_head|auto with json]. }
  required 4%nat. destruct r. apply fills_nil.
Qed.

Lemma Trigger_conveys t :
  portable_trigger t = true ->
  exists text, enc_Trigger t = Ok text /\ conveys (dec_struct Trigger_fields) text zero_Trigger t.
Proof.
  intros [Ht Hm]%andb_true_iff. unfold enc_Trigger. destruct (trig_Metadata t) as [|c m] eqn:E.
  - eexists. split; [reflexivity|]. apply dec_struct_conveys. required 0%nat. destruct t. simpl in *. subst. apply fills_nil.
  - pose proof (canonical_printed _ Hm) as Hp. rewrite raw_text_printed by done. eexists. split; [reflexivity|].
    apply dec_struct_conveys. required 0%nat. optional 1%nat (c :: m); [done|intros _; by apply dec_raw_conveys|].
    destruct t. simpl in *. subst. apply fills_nil.
Qed.

Lemma triggers_convey l :
  forallb portable_trigger l = true ->
  exists texts, enc_all enc_Trigger l = Ok texts
    /\ conveys (dec_slice zero_Trigger (dec_struct Trigger_fields)) (array_text texts) [] l.
Proof.
  intros Hl. enough (exists texts, enc_all enc_Trigger l = Ok texts
    /\ Forall2 (fun text x => conveys (dec_struct Trigger_fields) text zero_Trigger x) texts l) as (texts & E & Hf).
  { exists texts. split; [done|]. by apply dec_slice_conveys. }
  induction l as [|t l IH]; [by exists []|]. apply andb_true_iff in Hl as [Ht Hl]. destruct (Trigger_conveys t Ht) as (x & Ex & Hx).
  destruct (IH Hl) as (xs & Exs & Hxs). exists (x :: xs). simpl. rewrite Ex, Exs. split; [done|by constructor].
Qed.

Lemma Autoscaler_conveys a :
  ascii_text (as_Type a) && ascii_text (as_Name a) = true ->
  conveys (dec_struct Autoscaler_fields) (enc_Autoscaler a) zero_Autoscaler a.
Proof.
  intros [H1 H2]%andb_true_iff. apply dec_struct_conveys. required 0%nat. required 1%nat. destruct a. apply fills_nil.
Qed.

Lemma EnabledPeriod_conveys p :
  ascii_text (ep_Schedule p) && ascii_text (ep_Duration p) = true ->
  conveys (dec_struct EnabledPeriod_fields) (enc_EnabledPeriod p) zero_EnabledPeriod p.
Proof.
  intros [H1 H2]%andb_true_iff. apply dec_struct_conveys.
  optional 0%nat (ep_Schedule p); [auto with json|auto with json|].
  optional 1%nat (ep_Duration p); [auto with json|auto with json|]. destruct p. apply fills_nil.
Qed.

Lemma rules_convey l :
  forallb portable_rule l = true ->
  conveys (dec_slice zero_Rule (dec_struct Rule_fields)) (array_text (map enc_Rule l)) [] l.
Proof.
  intros Hl. apply slice_conveys, Forall_forall. intros r Hr. apply Rule_conveys.
  rewrite forallb_forall in Hl. by apply Hl, list_elem_of_In.
Qed.

#[export] Hint Resolve Autoscaler_conveys EnabledPeriod_conveys rules_convey : json.

Lemma spec_conveys s :
  portable_spec s = true ->
  exists text, Marshal_spec s = Ok text /\ conveys (dec_struct Spec_fields) text zero_Spec s.
Proof.
  unfold portable_spec. rewrite !andb_true_iff. intros [[[[[[[[[H1 H2] H3] H4] Hr] Hm%int_in_spec] Hc%int_in_spec] Ht] Ha] He].
  destruct (triggers_convey _ Ht) as (triggers & Et & Htr). unfold Marshal_spec. rewrite Et. eexists. split; [reflexivity|].
  apply dec_struct_conveys. required 0%nat. required 1%nat.
  optional 2%nat (spec_ProbeResponse s); [auto with json|auto with json|].
  optional 3%nat (spec_MinTargetReplicas s); [by intros ?%Z.eqb_eq|intros _; by apply dec_int_conveys|].
  optional 4%nat (spec_CooldownPeriod s); [by intros ?%Z.eqb_eq|intros _; by apply dec_int_conveys|].
  optional 5%nat (spec_Triggers s); [auto with json|done|].
  optional 6%nat (spec_Autoscaler s); [auto with json| |].
  { apply pointer_conveys. destruct (spec_Autoscaler s); [|done]. split; [apply object_not_null|auto with json]. }
  optional 7%nat (spec_EnabledPeriod s); [auto with json| |].
  { apply pointer_conveys. destruct (spec_EnabledPeriod s); [|done]. split; [apply object_not_null|auto with json]. }
  destruct s. apply fills_nil.
Qed.

(** *** The answer *)

Lemma printed_not_empty t : printed t -> t <> [].
Proof. intros (v & Hw & ->). by destruct (print_head v Hw) as (c & r & -> & _). Qed.

Definition portable_entry (e : ElastiServiceEntry) : Prop :=
  ascii_text (ent_Name e) = true /\ printed (ent_Spec e) /\ printed (ent_Status e).

Lemma Entry_conveys e :
  portable_entry e -> exists text, enc_Entry e = Ok text /\ conveys (dec_struct Entry_fields) text zero_Entry e.
Proof.
  intros (Hn & Hs & Ht). unfold enc_Entry. rewrite !raw_text_printed by done. eexists. split; [reflexivity|].
  apply dec_struct_conveys. required 0%nat. eapply (fills_member _ 1); [reflexivity|reflexivity|by apply dec_raw_conveys|].
  eapply (fills_member _ 2); [reflexivity|reflexivity|by apply dec_raw_conveys|]. destruct e. apply fills_nil.
Qed.

Lemma entries_convey l :
  Forall (fun ke => portable_entry ke.2) l ->
  exists ms, enc_entries l = Ok ms
    /\ Forall2 (fun kv e => kv.1 = e.1 /\ conveys (dec_struct Entry_fields) kv.2 zero_Entry e.2) ms l.
Proof.
  induction 1 as [|[k e] l He _ (ms & E & Hms)]; [by exists []|]. destruct (Entry_conveys e He) as (t & Et & Ht).
  exists ((k, t) :: ms). simpl. rewrite Et, E. split; [done|by constructor].
Qed.

Lemma omap_keys (m : gmap gostring ElastiServiceEntry) l :
  Forall (fun ke => m !! ke.1 = Some ke.2) l -> omap (fun k => pair k <$> (m !! k)) l.*1 = l.
Proof. induction 1 as [|[k e] l He _ IH]; [done|]. simpl in *. rewrite He. simpl. f_equal. exact IH. Qed.

Lemma sorted_entries_perm m : sorted_entries m ≡ₚ map_to_list m.
Proof.
  unfold sorted_entries. rewrite merge_sort_Permutation. unfold range_keys. rewrite omap_keys; [done|].
  apply Forall_forall. intros [k e] He. by apply elem_of_map_to_list.
Qed.

Lemma CacheResponse_conveys m :
  map_Forall (fun k e => ascii_text k = true /\ portable_entry e) m ->
  exists body, Encode_CacheResponse m = Ok body /\ Decode_CacheResponse body = Ok m.
Proof.
  intros Hm. assert (Forall (fun ke => ascii_text ke.1 = true /\ portable_entry ke.2) (sorted_entries m)) as Hl.
  { rewrite sorted_entries_perm. apply Forall_forall. intros [k e] He%elem_of_map_to_list. exact (Hm k e He). }
  destruct (entries_convey (sorted_entries m)) as (ms & E & Hms); [by eapply Forall_impl; [exact Hl|intros ? []]|].
  unfold Encode_CacheResponse. rewrite E. eexists. split; [reflexivity|]. apply Decode_conveys; [|done].
  apply dec_struct_conveys. eapply (fills_member _ 0); [reflexivity|reflexivity| |apply fills_nil].
  eapply dec_map_conveys; [|apply sorted_entries_perm|exact Hms]. apply Forall_forall. intros kv Hkv.
  apply list_elem_of_lookup in Hkv as [i Hi]. destruct (Forall2_lookup_l _ _ _ _ _ Hms Hi) as (e & He & -> & _).
  rewrite Forall_lookup in Hl. by destruct (Hl i e He).
Qed.

Section directory.
Context (time_text : Z -> gostring) (Htime : forall t, printed (time_text t)).

Lemma status_printed st :
  ascii_text (st_Mode st) = true -> exists text, Marshal_status time_text st = Ok text /\ printed text.
Proof.
  intros Hm. eexists. split; [reflexivity|]. set (ms := _ ++ _). destruct (object_printed ms) as (jms & Hw & E & _).
  2: by exists (JsonObject jms).
  unfold ms, omitempty, member. constructor; [by split; [|apply Htime]|].
  destruct (st_LastScaledUpTime st); simpl; repeat (apply Forall_cons; split; [by split; [|apply Htime]|]);
    (destruct (st_Mode st) as [|c mode] eqn:Emode; simpl; [done|]); constructor; try done; split; try done;
    by apply (dec_string_conveys _ []).
Qed.

Definition portable_details (d : CRDDetails) : bool :=
  ascii_text (CRDName d) && portable_spec (d_Spec d) && ascii_text (st_Mode (d_Status d)).

Lemma entry_of_details d :
  portable_details d = true ->
  exists e, cache_entry Marshal_spec (Marshal_status time_text) d = Ok e /\ portable_entry e
    /\ ent_Name e = CRDName d /\ Unmarshal_spec (ent_Spec e) = Ok (d_Spec d).
Proof.
  intros [[Hn Hs]%andb_true_iff Hm]%andb_true_iff. destruct (spec_conveys _ Hs) as (spec & Es & Hc).
  destruct (status_printed _ Hm) as (status & Et & Ht). unfold cache_entry. rewrite Es, Et. eexists. split; [reflexivity|].
  split; [by split_and!; [|apply Hc|]|]. split; [done|]. by apply Unmarshal_conveys.
Qed.

Lemma cache_entries_total l acc :
  Forall (fun kd => portable_details kd.2 = true) l ->
  exists m, cache_entries Marshal_spec (Marshal_status time_text) l acc = Ok m.
Proof.
  intros Hl. revert acc. induction Hl as [|[k d] l Hd _ IH]; intros acc; [by eexists|]. simpl.
  destruct (entry_of_details d Hd) as (e & -> & _). apply IH.
Qed.
End directory.

(** ** Properties *)

(** C13: a spec survives the way to the resolver: for ASCII texts, integers of
    their width and metadata in canonical form, [json.Marshal] succeeds and
    [json.Unmarshal] of its text gives the spec back, omitted fields, nil
    pointers and raw metadata included. *)
Theorem spec_roundtrip s (Hs : portable_spec s = true) :
  exists text, Marshal_spec s = Ok text /\ Unmarshal_spec text = Ok s.
Proof. destruct (spec_conveys s Hs) as (text & E & Hc). exists text. split; [done|]. by apply Unmarshal_conveys. Qed.

(** A spec with a rule of every kind of matcher and a trigger. *)
Definition example_rule : ProbeResponseRule :=
  mkProbeRule (Some (mkPathMatch (lit "Exact") (lit "/healthz"))) [mkValueMatch (lit "User-Agent") [] (lit "<probe> & co")]
    [] (Some (lit "GET")) (mkProbeResponse 204 []).
Definition example_metadata : gostring :=
  print (JsonObject [(lit "query", JsonString (lit "sum(rate(x[1m])) > 0")); (lit "threshold", JsonNumber (lit "0.5"))]).
Definition example_spec : ElastiServiceSpec :=
  mkSpec (mkScaleTargetRef (lit "apps/v1") (lit "Deployment") (lit "web")) (lit "svc") [example_rule] 0 900
    [mkScaleTrigger (lit "prometheus") example_metadata] None (Some (mkEnabledPeriod (lit "0 9 * * 1-5") (lit "8h"))).

Lemma spec_roundtrip_witness : exists text, Marshal_spec example_spec = Ok text /\ Unmarshal_spec text = Ok example_spec.
Proof. apply spec_roundtrip. vm_compute. reflexivity. Defined.

(** C9: the operator and the resolver agree on probe responses, through the bytes
    that are sent: [GET /crd-cache] answers 200, the poll that receives the
    body succeeds, and then the resolver knows exactly the services of the
    directory; for each of them it decodes the operator's own spec, and answers
    a request as the rules of that spec say. *)
Theorem probes_reach_resolver time_text s c
    (Htime : forall t, printed (time_text t))
    (Hdir : map_Forall (fun k d => ascii_text k && portable_details d = true) (directory s)) :
  exists body c',
    crdCacheHandler_http time_text (lit "GET") s = (Ok (200, body), s)
    /\ poll_once (200, body) c = (None, c')
    /\ forall key,
         match directory s !! key with
         | None => GetElastiService key c' = None
         | Some d => exists e, GetElastiService key c' = Some e
             /\ ent_Name e = CRDName d /\ Unmarshal_spec (ent_Spec e) = Ok (d_Spec d)
             /\ forall Compile req, MatchProbeResponseFromSpec Compile Unmarshal_spec (ent_Spec e) (Some req)
                  = match_rules Compile (spec_ProbeResponse (d_Spec d)) req
         end.
Proof.
  destruct (cache_entries_total time_text Htime (map_to_list (directory s)) ∅) as [m Hm].
  { apply Forall_forall. intros [k d] Hd%elem_of_map_to_list. specialize (Hdir k d Hd). by apply andb_true_iff in Hdir as [_ ?]. }
  assert (forall k e, m !! k = Some e <-> exists d, directory s !! k = Some d
    /\ cache_entry Marshal_spec (Marshal_status time_text) d = Ok e) as Hlook.
  { intros k e. rewrite (cache_entries_ok _ _ _ _ _ (NoDup_fst_map_to_list _) (fun k _ => lookup_empty k) Hm).
    setoid_rewrite elem_of_map_to_list. split; [intros [?|?]; done|by right]. }
  destruct (CacheResponse_conveys m) as (body & Eb & Db).
  { intros k e (d & Hd & He)%Hlook. specialize (Hdir k d Hd). apply andb_true_iff in Hdir as [Hk Hp].
    destruct (entry_of_details time_text Htime d Hp) as (e' & He' & Hpe & _). rewrite He in He'. by injection He' as <-. }
  exists body, (mkCache m (pollInterval c) (stopped c)). split_and!.
  - unfold crdCacheHandler_http, mbind, M_bind. rewrite (run_cache _ _ s m Hm). by rewrite Eb.
  - unfold poll_once. simpl. by rewrite Db.
  - intros key. destruct (directory s !! key) as [d|] eqn:Hd.
    + pose proof (Hdir key d Hd) as [_ Hp]%andb_true_iff. destruct (entry_of_details time_text Htime d Hp) as (e & He & Hpe & Hn & Hu).
      exists e. split_and!; [by apply Hlook; exists d|done|done|]. intros Compile req. unfold MatchProbeResponseFromSpec.
      rewrite bool_decide_false by (by apply printed_not_empty, Hpe). by rewrite Hu.
    + unfold GetElastiService. simpl. apply eq_None_not_Some. intros (e & (d & Hd' & _)%Hlook). congruence.
Qed.

(** [null] for the zero time, and the text of one moment for any other. *)
Definition example_time (t : Z) : gostring :=
  if t =? 0 then lit "null" else json_string (lit "2024-01-01T00:00:00Z").
Lemma example_time_printed t : printed (example_time t).
Proof. unfold example_time. destruct (t =? 0); [by exists JsonNull|by exists (JsonString (lit "2024-01-01T00:00:00Z"))]. Qed.

Definition probe_state : OpState :=
  mkOp ∅ ∅ ∅ ∅ ∅ [] [] [] 0 {[ lit "ns/svc" := mkDetails (lit "es") example_spec (mkStatus 5 None (lit "proxy")) ]} ∅ ∅.

Lemma probes_reach_resolver_witness :
  exists body c',
    crdCacheHandler_http example_time (lit "GET") probe_state = (Ok (200, body), probe_state)
    /\ poll_once (200, body) (New 0) = (None, c')
    /\ forall key,
         match directory probe_state !! key with
         | None => GetElastiService key c' = None
         | Some d => exists e, GetElastiService key c' = Some e
             /\ ent_Name e = CRDName d /\ Unmarshal_spec (ent_Spec e) = Ok (d_Spec d)
             /\ forall Compile req, MatchProbeResponseFromSpec Compile Unmarshal_spec (ent_Spec e) (Some req)
                  = match_rules Compile (spec_ProbeResponse (d_Spec d)) req
         end.
Proof.
  apply (probes_reach_resolver example_time probe_state (New 0)).
  - apply example_time_printed.
  - apply map_Forall_singleton. vm_compute. reflexivity.
Defined.
