(* ===== verification/InformerRefines.v ===== *)
(** * The informers of the controller and the informer manager

    [Controller.v] works with the set of running informers only; [Informer.v]
    has their stop channels and waits.  Here the first is shown to be a view of
    the second: each call of the controller on its set is matched by the
    manager, and the keys the two sides use are the same. *)

From S2P Require Import Prelude GoStrings K8sHelper Types Cluster Informer Scaling Config Controller ControllerFacts.

(** No start waits, and the controller's set is that of the manager. *)
Record view (m : Manager) (s : OpState) : Prop := {
  view_inv : inf_inv m;
  view_calm : syncing m = ∅;
  view_keys : dom (m_informers m) = dom (informers s)
}.

(** ** Lemmas *)

Lemma view_lookup m s k : view m s -> is_Some (m_informers m !! k) <-> is_Some (informers s !! k).
Proof. intros Hv. by rewrite <- !elem_of_dom, (view_keys _ _ Hv). Qed.

Lemma view_init : view NewInformerManager (mkOp ∅ ∅ ∅ ∅ ∅ [] [] [] 0 ∅ ∅ ∅).
Proof. split; [apply inf_inv_init|done|reflexivity]. Qed.

(** A start that is not interrupted: the informer runs, or nothing is left. *)
Lemma Add_spec c req e m :
  inf_inv m -> syncing m = ∅ -> chans m !! c = None ->
  let key := getKeyFromRequestWatch req in
  m_informers m !! key = None ->
  let '(err, m') := enableInformer_end c key e (enableInformer_start c req m) in
  inf_inv m' /\ syncing m' = ∅
  /\ if waitForSync e then err = None /\ dom (m_informers m') = {[key]} ∪ dom (m_informers m)
     else is_Some err /\ m_informers m' = m_informers m.
Proof.
  intros Hinv Hs Hc key Hk.
  assert (inf_inv (enableInformer_start c req m)) as H1.
  { pose proof (inf_inv_add c req true m Hc Hinv) as H. unfold Add_start in H.
    rewrite bool_decide_false in H; [done|]. fold key. rewrite Hk. by intros [? [=]]. }
  assert (syncing (enableInformer_start c req m) !! c = Some key) as H2 by apply lookup_insert_eq.
  pose proof (inf_inv_end c key e _ H1 H2) as H3. unfold enableInformer_end in *. cbn [fst snd] in H3.
  assert (delete c (<[c:=key]> (syncing m)) = ∅) as Hd by (rewrite Hs, delete_insert_eq; apply delete_empty).
  destruct (waitForSync e); cbn [snd] in H3.
  - split; [done|]. split; [exact Hd|]. split; [done|]. simpl. fold key. apply dom_insert_L.
  - split; [done|]. unfold close_chan. cbn [chans enableInformer_start]. rewrite lookup_insert_eq.
    split; [exact Hd|]. split; [by eexists|]. simpl. fold key. by rewrite delete_insert_id.
Qed.

(** The controller's start of an informer, by the outcomes of its two calls. *)
Lemma informer_Add_run key v s rv s1 rf s2 :
  informers s !! key = None -> v s = (rv, s1) -> fault s1 = (rf, s2) ->
  informer_Add key v s =
    match rv, rf with
    | Err e, _ => (Err (ErrWrap (lit "target not found: ") e), s1)
    | Ok _, Err e => (Err (ErrWrap (lit "failed to enable to informer: ") e), s2)
    | Ok _, Ok _ => (Ok tt, set_informers (<[key := mkInfo true key]> (informers s2)) s2)
    end.
Proof.
  intros Hk Hv Hf. unfold informer_Add. change ((gets ?f ≫= ?k) s) with (k (f s) s). cbv beta.
  rewrite bool_decide_false by (rewrite Hk; by intros [? [=]]). unfold mbind, M_bind, wrap, modify. rewrite Hv.
  destruct rv; [|done]. rewrite Hf. by destruct rf.
Qed.

(** ** Properties *)


(** The manager of one synced informer, and the controller's view of it. *)
Definition one_informer : OpState :=
  let key := getKeyFromRequestWatch example_watch in
  mkOp ∅ ∅ ∅ ∅ ∅ [] [] [] 0 ∅ {[ key := mkInfo true key ]} ∅.

Lemma running_view : view running one_informer.
Proof.
  split; [|reflexivity|].
  - apply inf_reachable_inv. eapply rtc_l; [by apply (quiet_init 1)|].
    eapply rtc_l; [by apply (quiet_add 0 example_watch true)|]. apply rtc_once.
    by apply (quiet_end 0 (getKeyFromRequestWatch example_watch) CacheSynced).
  - unfold running, one_informer, enableInformer_end, Add_start. simpl.
    rewrite bool_decide_false by (by intros [? [=]]). simpl.
    by rewrite dom_insert_L, dom_empty_L, dom_singleton_L, (right_id_L ∅ (∪)).
Qed.

