(* ===== verification/Events.v ===== *)
(** * The operator's event handlers ([opsInformer.go], [elastiservice_controller.go], [scale_handler.go])

    What the informers call on an event, which events reach [Reconcile], the
    start of the controller, and the ticker of the scale-down watcher. *)

From S2P Require Import Prelude GoStrings K8sHelper Types Cron PromScaler Cluster Informer Scaling Config Controller.
Local Open Scope Z_scope.

(** ** Handlers *)

(** [cache.ResourceEventHandlerFuncs]: a function that is nil ignores its events. *)
Record ResourceEventHandlerFuncs (O : Type) := mkHandlers {
  AddFunc : option (O -> M unit);
  UpdateFunc : option (O -> O -> M unit);
  DeleteFunc : option (O -> M unit)
}.
Arguments mkHandlers {O}.
Arguments AddFunc {O}.
Arguments UpdateFunc {O}.
Arguments DeleteFunc {O}.

Inductive resource_event (O : Type) :=
| Added (obj : O)
| Updated (oldObj newObj : O)
| Deleted (obj : O).
Arguments Added {O}.
Arguments Updated {O}.
Arguments Deleted {O}.

Definition handle_event {O} (h : ResourceEventHandlerFuncs O) (e : resource_event O) : M unit :=
  match e with
  | Added obj => from_option (fun f => f obj) (mret tt) (AddFunc h)
  | Updated oldObj newObj => from_option (fun f => f oldObj newObj) (mret tt) (UpdateFunc h)
  | Deleted obj => from_option (fun f => f obj) (mret tt) (DeleteFunc h)
  end.

Section events.
Context (ParseGroupVersion : gostring -> result error (gostring * gostring)).
Context (rc : ResolverConfig) (scoped : bool).
Context {rawSelector : Type}
  (asSelector : rawSelector -> result error (gmap gostring gostring -> bool)).

(** The deployment of the resolver; its deletion is only logged. *)
Definition getResolverChangeHandler : ResourceEventHandlerFuncs (result error gostring) :=
  mkHandlers
    (Some (fun obj => logged (handleResolverChanges rc scoped obj)))
    (Some (fun _ newObj => logged (handleResolverChanges rc scoped newObj)))
    (Some (fun _ => mret tt)).

(** The service named in the spec the watch was started for. *)
Definition getPublicServiceChangeHandler (es : ElastiService) : ResourceEventHandlerFuncs (result error Service) :=
  mkHandlers
    (Some (fun obj => logged (handlePublicServiceChanges obj (spec_Service (es_Spec es)))))
    (Some (fun _ newObj => logged (handlePublicServiceChanges newObj (spec_Service (es_Spec es)))))
    (Some (fun _ => mret tt)).

(** The workload: only updates are handled. *)
Definition getScaleTargetRefChangeHandler (req : NamespacedName)
    : ResourceEventHandlerFuncs (option (update_obj (rawSelector := rawSelector))) :=
  mkHandlers None
    (Some (fun _ obj => logged (handleScaleTargetRefChanges rc scoped asSelector req obj)))
    None.

(** ** Start ([elastiservice_controller.go]) *)

(** The filter of [SetupWithManager] on the objects whose events are reconciled;
    [None] is an object of another type. *)
Definition eventFilter (watchNamespaces : list gostring) (obj : option ElastiService) : bool :=
  match obj with
  | None => false
  | Some es => namespaceInScope watchNamespaces (es_Namespace es)
  end.

(** ** The scale-down watcher ([scale_handler.go]) *)

Context (ParseDuration : gostring -> result error Z).

(** [time.NewTicker] panics unless the interval is positive. *)
Definition NewTicker (d : Z) : option Z := if d <=? 0 then None else Some d.

(** The interval from [POLLING_INTERVAL]. *)
Definition pollingInterval (envInterval : gostring) : Z :=
  if bool_decide (envInterval = []) then 30 * second
  else
    match ParseDuration envInterval with
    | Err _ => 30 * second
    | Ok duration => if duration <=? 0 then 30 * second else duration
    end.

(** The ticker that the goroutine is started with; [None] is a panic. *)
Definition StartScaleDownWatcher (envInterval : gostring) : option Z := NewTicker (pollingInterval envInterval).

(** The ticker, when the start succeeds. *)
Definition Initialize (watchNamespaces : list gostring) (envInterval : gostring) : M (option Z) :=
  _ ← wrap (lit "failed to reconcile existing CRDs: ") (reconcileExistingCRDs ParseGroupVersion watchNamespaces);
  _ ← wrap (lit "failed to initialize resolver informer: ") fault;
  mret (StartScaleDownWatcher envInterval).

(** The goroutine.  Each entry of the script is one turn of its [select], with
    the state and the metrics as they are by then. *)
Context (Parse : gostring -> result error Schedule).
Context {SC W : Type} `{Scaler SC W} (NewScaler : gostring -> Z -> result error SC).

Inductive turn :=
| CtxDone
| Tick (interference : OpState * W -> OpState * W).

(** The states after each check; [None] is a panic of a scaler. *)
Fixpoint watcher_loop (watchNamespaces : list gostring) (turns : list turn) (sw : OpState * W)
    : option (list (OpState * OpState)) :=
  match turns with
  | [] | CtxDone :: _ => Some []
  | Tick interference :: turns =>
      let '(s, w) := interference sw in
      '(_, s', w') ← checkAndScale ParseGroupVersion Parse ParseDuration NewScaler watchNamespaces s w;
      l ← watcher_loop watchNamespaces turns (s', w');
      Some ((s, s') :: l)
  end.
End events.

Arguments CtxDone {W}.
Arguments Tick {W} interference.
