(* ===== verification/Operator.v ===== *)
(** * The operator as a whole

    Every way the operator's state changes, as steps of one relation: reconciles,
    events of the informers, ticks of the scale-down watcher, calls of the
    resolver, and what users and Kubernetes do meanwhile.  The theorems hold after
    any sequence of steps, whichever API calls fail. *)

From S2P Require Import Prelude GoStrings Names K8sHelper Types Cron PromScaler Cluster Informer Scaling Config Controller ControllerFacts ControllerProps Events.
Local Open Scope Z_scope.

(** ** Computations that respect a relation on states *)

Definition respects {A} (R : relation OpState) (m : M A) : Prop := forall s, R s (m s).2.

(** The relation holds of states that agree on [p]. *)
Class Framed (R : relation OpState) {B} (p : OpState -> B) : Prop := framed : forall s s', p s' = p s -> R s s'.

Lemma respects_framed {A B} (R : relation OpState) (p : OpState -> B) `{!Framed R p} (m : M A) :
  keeps p m -> respects R m.
Proof. intros Hk s. by apply framed. Qed.

Section respects.
Context (R : relation OpState) `{!PreOrder R}.

Lemma respects_ret {A} (a : A) : respects R (mret a).
Proof. intros s. change (R s s). reflexivity. Qed.
Lemma respects_fail {A} e : respects R (@fail A e).
Proof. intros s. change (R s s). reflexivity. Qed.
Lemma respects_gets {A} (f : OpState -> A) : respects R (gets f).
Proof. intros s. change (R s s). reflexivity. Qed.
Lemma respects_bind {A B} (m : M A) (k : A -> M B) :
  respects R m -> (forall a, respects R (k a)) -> respects R (m ≫= k).
Proof.
  intros Hm Hk s. unfold mbind, M_bind. specialize (Hm s). destruct (m s) as [[a|e] s1]; simpl in *; [|done].
  etransitivity; [done|apply Hk].
Qed.
Lemma respects_attempt {A} (m : M A) : respects R m -> respects R (attempt_call m).
Proof. intros Hm s. unfold attempt_call. specialize (Hm s). by destruct (m s). Qed.
Lemma respects_wrap {A} msg (m : M A) : respects R m -> respects R (wrap msg m).
Proof. intros Hm s. unfold wrap. specialize (Hm s). by destruct (m s) as [[]]. Qed.
Lemma bind_wrap {A} msg (m : M A) s : R s (m s).2 -> R s (wrap msg m s).2.
Proof. unfold wrap. by destruct (m s) as [[]]. Qed.
Lemma bind_state {A B} (m : M A) (k : A -> M B) s :
  R s (m s).2 -> (forall a s1, m s = (Ok a, s1) -> R s1 (k a s1).2) -> R s ((m ≫= k) s).2.
Proof.
  intros Hm Hk. unfold mbind, M_bind. destruct (m s) as [[a|e] s1]; simpl in *; [|done].
  etransitivity; [done|by apply Hk].
Qed.
Lemma respects_logged m : respects R m -> respects R (logged m).
Proof.
  intros Hm. apply respects_bind; [by apply respects_attempt|]. intros [?|e]; [apply respects_ret|].
  destruct (error_is is_panic e); [apply respects_fail|apply respects_ret].
Qed.
Lemma respects_for_each {A} (f : A -> M unit) l : (forall a, respects R (f a)) -> respects R (for_each f l).
Proof.
  intros Hf. induction l as [|a l IH]; [apply respects_ret|]. apply respects_bind; [apply Hf|]. intros _. exact IH.
Qed.
End respects.

(** A relation of two states about one projection, about the keys of a map that
    may change, and about a property of every entry of a map. *)
Definition same {B} (p : OpState -> B) : relation OpState := fun s s' => p s' = p s.
Definition only_at {K A} `{Countable K} (f : OpState -> gmap K A) (P : K -> Prop) : relation OpState :=
  fun s s' => forall k, ~ P k -> f s' !! k = f s !! k.
Definition still {K A} `{Countable K} (f : OpState -> gmap K A) (Q : K -> A -> Prop) : relation OpState :=
  fun s s' => map_Forall Q (f s) -> map_Forall Q (f s').

#[export] Instance same_PreOrder {B} (p : OpState -> B) : PreOrder (same p).
Proof. split; [done|]. intros s1 s2 s3. unfold same. congruence. Qed.
#[export] Instance only_at_PreOrder {K A} `{Countable K} (f : OpState -> gmap K A) P : PreOrder (only_at f P).
Proof. split; [done|]. intros s1 s2 s3 H1 H2 k Hk. by rewrite H2, H1. Qed.
#[export] Instance still_PreOrder {K A} `{Countable K} (f : OpState -> gmap K A) Q : PreOrder (still f Q).
Proof. split; [by intros s Hs|]. intros s1 s2 s3 H1 H2 Hs. auto. Qed.
#[export] Instance same_framed {B} (p : OpState -> B) : Framed (same p) p.
Proof. intros s s' E. exact E. Qed.
#[export] Instance only_at_framed {K A} `{Countable K} (f : OpState -> gmap K A) P : Framed (only_at f P) f.
Proof. intros s s' E k _. by rewrite E. Qed.
#[export] Instance still_framed {K A} `{Countable K} (f : OpState -> gmap K A) Q : Framed (still f Q) f.
Proof. intros s s' E Hs. by rewrite E. Qed.

Section calls.
Context {K A : Type} `{Countable K} (f : OpState -> gmap K A) (g : gmap K A -> OpState -> OpState) `{!Stored f g}.
Implicit Types (P : K -> Prop) (Q : K -> A -> Prop).

(** The four kinds of API calls. *)
Lemma call_state {B} (m : M B) s :
  (exists e fs, (call m s) = (Err e, set_faults fs s)) \/ exists s0, call m s = m s0 /\ f s0 = f s.
Proof.
  unfold call, mbind, M_bind, fault. destruct (faults s) as [|[e|] fs].
  - right. by exists s.
  - left. eauto.
  - right. exists (set_faults fs s). split; [done|]. apply (stored_faults (g := g)).
Qed.

Lemma update_state k upd s :
  f (api_update f g k upd s).2 = f s
  \/ exists a, f s !! k = Some a /\ f (api_update f g k upd s).2 = <[k := upd a]> (f s).
Proof.
  unfold api_update. destruct (call_state (fun s => match f s !! k with
    | Some a => (Ok tt, g (<[k := upd a]> (f s)) s) | None => (Err ErrNotFound, s) end) s)
    as [(e & fs & ->)|(s0 & -> & E)]; [left; apply (stored_faults (g := g))|].
  rewrite E. destruct (f s !! k) as [a|]; [|by left]. right. exists a. split; [done|]. apply (stored_set (f := f) (g := g)).
Qed.
Lemma create_state k a s :
  f (api_create f g k a s).2 = f s \/ f (api_create f g k a s).2 = <[k := a]> (f s).
Proof.
  unfold api_create. destruct (call_state (fun s => match f s !! k with
    | Some _ => (Err (ErrText (lit "already exists")), s) | None => (Ok tt, g (<[k := a]> (f s)) s) end) s)
    as [(e & fs & ->)|(s0 & -> & E)]; [left; apply (stored_faults (g := g))|].
  rewrite E. destruct (f s !! k); [by left|]. right. apply (stored_set (f := f) (g := g)).
Qed.
Lemma delete_state k s :
  f (api_delete f g k s).2 = f s \/ f (api_delete f g k s).2 = delete k (f s).
Proof.
  unfold api_delete. destruct (call_state (fun s => match f s !! k with
    | Some _ => (Ok tt, g (delete k (f s)) s) | None => (Err ErrNotFound, s) end) s)
    as [(e & fs & ->)|(s0 & -> & E)]; [left; apply (stored_faults (g := g))|].
  rewrite E. destruct (f s !! k); [|by left]. right. apply (stored_set (f := f) (g := g)).
Qed.

Lemma only_at_update P k upd : P k -> respects (only_at f P) (api_update f g k upd).
Proof.
  intros Hk s x Hx. destruct (update_state k upd s) as [->|(a & _ & ->)]; [done|].
  apply lookup_insert_ne. congruence.
Qed.
Lemma only_at_create P k a : P k -> respects (only_at f P) (api_create f g k a).
Proof.
  intros Hk s x Hx. destruct (create_state k a s) as [->| ->]; [done|]. apply lookup_insert_ne. congruence.
Qed.
Lemma only_at_delete P k : P k -> respects (only_at f P) (api_delete f g k).
Proof.
  intros Hk s x Hx. destruct (delete_state k s) as [->| ->]; [done|]. apply lookup_delete_ne. congruence.
Qed.

Lemma still_update Q k upd : (forall a, Q k a -> Q k (upd a)) -> respects (still f Q) (api_update f g k upd).
Proof.
  intros Hq s Hs. destruct (update_state k upd s) as [->|(a & Ha & ->)]; [done|].
  apply map_Forall_insert_2; [|done]. apply Hq. by eapply map_Forall_lookup_1.
Qed.
Lemma still_create Q k a : Q k a -> respects (still f Q) (api_create f g k a).
Proof.
  intros Hq s Hs. destruct (create_state k a s) as [->| ->]; [done|]. by apply map_Forall_insert_2.
Qed.
Lemma still_delete Q k : respects (still f Q) (api_delete f g k).
Proof. intros s Hs. destruct (delete_state k s) as [->| ->]; [done|]. by apply map_Forall_delete. Qed.

(** Updates that change nothing in the view [h] of the entries. *)
Lemma same_update {B} (h : A -> B) k upd :
  (forall a, h (upd a) = h a) -> respects (same (fun s => h <$> f s)) (api_update f g k upd).
Proof.
  intros Hh s. unfold same. destruct (update_state k upd s) as [->|(a & Ha & ->)]; [done|].
  rewrite fmap_insert, Hh. apply insert_id. by rewrite lookup_fmap, Ha.
Qed.
End calls.

(** ** Which objects the operator writes *)

Definition generated_service (k : NamespacedName) : Prop := exists name, k.2 = GetPrivateServiceName name.
Definition generated_slice (k : NamespacedName) : Prop := exists name, k.2 = GetEndpointSliceToResolverName name.

(** The annotations of a ScaledObject that are not about pausing. *)
Definition other_annotations (ann : gmap gostring gostring) : gmap gostring gostring :=
  delete kedaPausedAnnotation (delete kedaPausedReplicasAnnotation ann).

(** What the operator never changes in an ElastiService: all but its finalizers
    and status, and the kind of its target up to the legacy spelling. *)
Definition fixed_part (es : ElastiService) : gostring * gostring * Z * option Z * ElastiServiceSpec :=
  (es_Name es, es_Namespace es, es_CreationTimestamp es, es_DeletionTimestamp es, (GetSpec es).1).

(** An ElastiService keeps its fixed part, and goes only when it was deleted. *)
Definition crd_change (o o' : option ElastiService) : Prop :=
  fixed_part <$> o' = fixed_part <$> o \/ (o' = None /\ exists es, o = Some es /\ is_Some (es_DeletionTimestamp es)).

(** *** Well-formed states *)

Definition known_mode (mode : gostring) : Prop := mode = [] \/ mode = ServeMode \/ mode = ProxyMode.

Definition crd_wf (k : NamespacedName) (es : ElastiService) : Prop :=
  k = (es_Namespace es, es_Name es) /\ known_mode (st_Mode (es_Status es)).
Definition service_wf (k : NamespacedName) (svc : Service) : Prop := k = (svc_Namespace svc, svc_Name svc).
Definition details_wf (k : gostring) (d : CRDDetails) : Prop :=
  (exists ns, k = nn_string (ns, spec_Service (d_Spec d))) /\ known_mode (st_Mode (d_Status d)).
Definition informer_wf (k : gostring) (i : informer_info) : Prop := StopCh_open i = true /\ info_key i = k.

(** Objects are stored under their own names, directory entries under their
    service, informers under their key with an open channel, and every recorded
    mode is one of the two modes or not set yet. *)
Record wf (s : OpState) : Prop := {
  wf_crds : map_Forall crd_wf (crds s);
  wf_services : map_Forall service_wf (services s);
  wf_directory : map_Forall details_wf (directory s);
  wf_informers : map_Forall informer_wf (informers s)
}.

(** *** The footprint of a computation *)

Record footprint (s s' : OpState) : Prop := {
  fp_pods : same pods s s';
  fp_now : same op_now s s';
  fp_services : only_at services generated_service s s';
  fp_slices : only_at slices generated_slice s s';
  fp_scales : same (fun s => sc_status <$> scales s) s s';
  fp_scaled_objects : same (fun s => other_annotations <$> scaled_objects s) s s';
  fp_crds : forall k, crd_change (crds s !! k) (crds s' !! k);
  fp_wf_crds : still crds crd_wf s s';
  fp_wf_services : still services service_wf s s';
  fp_wf_directory : still directory details_wf s s';
  fp_wf_informers : still informers informer_wf s s'
}.

Lemma crd_change_trans o1 o2 o3 : crd_change o1 o2 -> crd_change o2 o3 -> crd_change o1 o3.
Proof.
  unfold crd_change. intros [E1|[-> H1]] [E2|[-> H2]].
  - left. congruence.
  - right. split; [done|]. destruct H2 as (es & -> & Hd). destruct o1 as [es1|]; [|done]. exists es1. split; [done|].
    injection E1 as _ _ _ E1 _. by rewrite <- E1.
  - right. by destruct o3.
  - by destruct H2 as (es & [=] & _).
Qed.

#[export] Instance footprint_PreOrder : PreOrder footprint.
Proof.
  split.
  - intros s. split; try reflexivity. intros k. by left.
  - intros s1 s2 s3 [] []. split; try (etransitivity; eassumption). intros k. by eapply crd_change_trans.
Qed.

(** One step of the state: the parts that it does not change. *)
Ltac fp_one :=
  split; first [reflexivity | intros ?; by left | intros ? _; reflexivity | intros Hwf; exact Hwf | idtac].

Lemma fp_set_faults x s : footprint s (set_faults x s).
Proof. fp_one. Qed.
Lemma fp_fault : respects footprint fault.
Proof. intros s. unfold fault. destruct (faults s) as [|[e|] fs]; simpl; [reflexivity|apply fp_set_faults..]. Qed.
Lemma fp_call {A} (m : M A) : respects footprint m -> respects footprint (call m).
Proof. intros Hm. apply respects_bind; [apply _|apply fp_fault|]. intros _. exact Hm. Qed.
Lemma fp_get {K A} `{Countable K} (f : OpState -> gmap K A) k : respects footprint (api_get f k).
Proof. apply fp_call. intros s. destruct (f s !! k); simpl; reflexivity. Qed.
Lemma fp_event e : respects footprint (record_event e).
Proof. intros s. unfold record_event. simpl. destruct (_ || _); [fp_one|reflexivity]. Qed.
Lemma fp_onces x : respects footprint (modify (fun s => set_onces (x s) s)).
Proof. intros s. fp_one. Qed.

(** The parts that an API call on another map does not change. *)
Ltac fp_calls_at s :=
  split;
  first [ match goal with |- ?R s (?m s).2 => apply (fun H : respects R m => H s) end;
          eapply respects_framed; [apply _|solve [frame]]
        | let x := fresh in intros x; left; f_equal; f_equal;
          match goal with |- crds (?m s).2 = _ => apply (fun H : keeps crds m => H s); solve [frame] end
        | idtac ].
Ltac fp_calls := let s := fresh "s" in intros s; fp_calls_at s.

Lemma fp_update_service k upd :
  generated_service k -> (forall a, service_wf k a -> service_wf k (upd a)) ->
  respects footprint (api_update services set_services k upd).
Proof. intros Hk Hq. fp_calls; [apply (only_at_update services set_services)|apply (still_update services set_services)]; (apply _ || done). Qed.
Lemma fp_create_service k a :
  generated_service k -> service_wf k a -> respects footprint (api_create services set_services k a).
Proof. intros Hk Hq. fp_calls; [apply (only_at_create services set_services)|apply (still_create services set_services)]; (apply _ || done). Qed.
Lemma fp_delete_service k : generated_service k -> respects footprint (api_delete services set_services k).
Proof. intros Hk. fp_calls; [apply (only_at_delete services set_services)|apply (still_delete services set_services)]; (apply _ || done). Qed.
Lemma fp_update_slice k upd : generated_slice k -> respects footprint (api_update slices set_slices k upd).
Proof. intros Hk. fp_calls. apply (only_at_update slices set_slices); (apply _ || done). Qed.
Lemma fp_create_slice k a : generated_slice k -> respects footprint (api_create slices set_slices k a).
Proof. intros Hk. fp_calls. apply (only_at_create slices set_slices); (apply _ || done). Qed.
Lemma fp_delete_slice k : generated_slice k -> respects footprint (api_delete slices set_slices k).
Proof. intros Hk. fp_calls. apply (only_at_delete slices set_slices); (apply _ || done). Qed.
Lemma fp_update_scale t d :
  respects footprint (api_update scales set_scales t (fun sc => mkScale d (sc_status sc))).
Proof. fp_calls. apply (same_update scales set_scales); (apply _ || done). Qed.

Lemma other_annotations_patch paused ann : other_annotations (paused_patch paused ann) = other_annotations ann.
Proof.
  unfold other_annotations, paused_patch. apply map_eq. intros k. destruct paused;
    rewrite !lookup_delete, ?lookup_insert, ?lookup_delete, ?lookup_insert; repeat case_decide; congruence.
Qed.
Lemma fp_update_scaled_object k paused :
  respects footprint (api_update scaled_objects set_scaled_objects k (paused_patch paused)).
Proof. fp_calls. apply (same_update scaled_objects set_scaled_objects); intros; apply other_annotations_patch. Qed.

Lemma fp_update_crd_at k upd s :
  (forall a, crds s !! k = Some a -> (crd_wf k a -> crd_wf k (upd a)) /\ fixed_part (upd a) = fixed_part a) ->
  footprint s (api_update crds set_crds k upd s).2.
Proof.
  intros Hu. fp_calls_at s.
  - intros x. left. destruct (update_state crds set_crds k upd s) as [->|(a & Ha & ->)]; [done|].
    destruct (decide (k = x)) as [<-|]; [|by rewrite lookup_insert_ne].
    rewrite lookup_insert_eq, Ha. simpl. f_equal. by apply Hu.
  - intros Hwf. destruct (update_state crds set_crds k upd s) as [->|(a & Ha & ->)]; [done|].
    apply map_Forall_insert_2; [|done]. apply Hu; [done|]. by apply Hwf.
Qed.
Lemma fp_update_crd k upd :
  (forall a, crd_wf k a -> crd_wf k (upd a)) -> (forall a, fixed_part (upd a) = fixed_part a) ->
  respects footprint (api_update crds set_crds k upd).
Proof. intros Hq Hu s. apply fp_update_crd_at. auto. Qed.

Lemma fp_AddCRD k d : details_wf k d -> respects footprint (AddCRD k d).
Proof. intros Hd s. fp_one. intros Hwf. by apply map_Forall_insert_2. Qed.
Lemma fp_RemoveCRD k : respects footprint (RemoveCRD k).
Proof. intros s. fp_one. intros Hwf. by apply map_Forall_delete. Qed.
Lemma fp_informer_Stop k : respects footprint (informer_Stop k).
Proof. intros s. fp_one. intros Hwf. by apply map_Forall_delete. Qed.
Lemma fp_informer_StopForCRD crd ns : respects footprint (informer_StopForCRD crd ns).
Proof. intros s. fp_one. intros Hwf k i [Hk _]%map_lookup_filter_Some. by apply Hwf. Qed.
Lemma fp_informer_Add key v : respects footprint v -> respects footprint (informer_Add key v).
Proof.
  intros Hv. unfold informer_Add. apply respects_bind; [apply _|apply respects_gets, _|]. intros [].
  { apply respects_ret, _. }
  apply respects_bind; [apply _|by apply respects_wrap|]. intros _.
  apply respects_bind; [apply _|apply respects_wrap, fp_fault|]. intros _ s. fp_one.
  intros Hwf. by apply map_Forall_insert_2.
Qed.

Create HintDb footprint discriminated.
#[export] Hint Resolve fp_get fp_fault fp_event fp_onces fp_update_scale fp_update_scaled_object fp_RemoveCRD
  fp_informer_Stop fp_informer_StopForCRD : footprint.

(** Walk through a computation; the writes whose side conditions need an
    argument are left. *)
Ltac respect :=
  repeat first
    [ match goal with |- forall _, _ => intros end
    | solve [auto with footprint]
    | apply respects_ret; apply _ | apply respects_fail; apply _ | apply respects_gets; apply _
    | apply fp_informer_Add
    | apply respects_logged; [apply _|] | apply respects_for_each; [apply _|]
    | apply respects_attempt | apply respects_wrap
    | match goal with |- respects _ (match ?x with _ => _ end) => destruct x end
    | match goal with |- respects _ (mbind _ _) => apply respects_bind; [apply _|..] end ].

(** *** The operations *)

Section operations.
Context (ParseGroupVersion : gostring -> result error (gostring * gostring)).
Context (rc : ResolverConfig) (scoped : bool).
Context {rawSelector : Type}
  (asSelector : rawSelector -> result error (gmap gostring gostring -> bool)).

Lemma fp_Scale ns gvk name d : respects footprint (Scale ns gvk name d).
Proof. unfold Scale, get_scale, createEvent. respect. Qed.
Hint Resolve fp_Scale : footprint.
Lemma fp_ScaleToMin ns spec : respects footprint (ScaleToMinReplicas ParseGroupVersion ns spec).
Proof. unfold ScaleToMinReplicas. respect. Qed.
Lemma fp_paused name ns paused : respects footprint (UpdateKedaScaledObjectPausedState name ns paused).
Proof. unfold UpdateKedaScaledObjectPausedState. respect. Qed.
Hint Resolve fp_ScaleToMin fp_paused : footprint.
Lemma fp_update_keda spec ns paused : respects footprint (update_keda spec ns paused).
Proof. unfold update_keda. respect. Qed.
Lemma fp_LastScaledUpTime crd ns : respects footprint (UpdateLastScaledUpTime crd ns).
Proof. unfold UpdateLastScaledUpTime. respect. by apply fp_update_crd. Qed.
Hint Resolve fp_update_keda fp_LastScaledUpTime : footprint.

Lemma fp_handleScaleToZero es : respects footprint (handleScaleToZero ParseGroupVersion es).
Proof. unfold handleScaleToZero. respect. Qed.
Lemma fp_handleScaleFromZero es : respects footprint (handleScaleFromZero ParseGroupVersion es).
Proof. unfold handleScaleFromZero. respect. Qed.
Lemma fp_scaleTargetForService svc ns : respects footprint (scaleTargetForService ParseGroupVersion svc ns).
Proof. unfold scaleTargetForService, GetCRD. respect. Qed.

Lemma fp_createOrUpdateSlice svc : respects footprint (createOrUpdateEndpointsliceToResolver rc scoped svc).
Proof.
  unfold createOrUpdateEndpointsliceToResolver, getIPsForResolver. respect;
    [apply fp_call, respects_gets, _|apply fp_update_slice|apply fp_create_slice]; by eexists.
Qed.
Lemma fp_deleteSlice nn : respects footprint (deleteEndpointsliceToResolver nn).
Proof. unfold deleteEndpointsliceToResolver. respect. apply fp_delete_slice. by eexists. Qed.
Lemma fp_deletePrivate nn : respects footprint (deletePrivateService nn).
Proof. unfold deletePrivateService. respect. apply fp_delete_service. by eexists. Qed.
Lemma fp_checkAndCreatePrivate svc es : respects footprint (checkAndCreatePrivateService svc es).
Proof. unfold checkAndCreatePrivateService. respect. apply fp_create_service; [by eexists|done]. Qed.
Lemma fp_publicServiceChanges obj name : respects footprint (handlePublicServiceChanges obj name).
Proof. unfold handlePublicServiceChanges. respect. apply fp_update_service; [by eexists|done]. Qed.
Hint Resolve fp_createOrUpdateSlice fp_deleteSlice fp_deletePrivate fp_checkAndCreatePrivate
  fp_publicServiceChanges : footprint.

Lemma fp_once_or_reset key m : respects footprint m -> respects footprint (once_or_reset key m).
Proof. intros Hm. unfold once_or_reset, once_do, resetMutexForInformer. respect; done. Qed.
Lemma fp_watchPublicService es req : respects footprint (watchPublicService es req).
Proof. unfold watchPublicService. respect. apply fp_once_or_reset. respect. Qed.
Lemma fp_watchScaleTargetRef es req : respects footprint (watchScaleTargetRef ParseGroupVersion es req).
Proof. unfold watchScaleTargetRef, GetCRD, resetMutexForInformer. respect. apply fp_once_or_reset. respect. Qed.
Hint Resolve fp_watchPublicService fp_watchScaleTargetRef : footprint.

Lemma fp_updateCRDStatus nn mode : known_mode mode -> respects footprint (updateCRDStatus nn mode).
Proof. intros Hm. unfold updateCRDStatus. respect. apply fp_update_crd; [|done]. by intros ? [-> _]. Qed.
Lemma fp_switchMode req mode : known_mode mode -> respects footprint (switchMode rc scoped req mode).
Proof.
  intros Hm. unfold switchMode, getCRD, enableServeMode, enableProxyMode. respect; by apply fp_updateCRDStatus.
Qed.
Lemma fp_targetChanges req obj : respects footprint (handleScaleTargetRefChanges rc scoped asSelector req obj).
Proof.
  unfold handleScaleTargetRefChanges, isTargetReady. respect;
    [apply fp_call, respects_gets, _|apply fp_switchMode; unfold known_mode; auto..].
Qed.
Lemma fp_resolverChanges obj : respects footprint (handleResolverChanges rc scoped obj).
Proof. unfold handleResolverChanges, resolver_entry. respect. Qed.
Lemma fp_finalizeCRD es req : respects footprint (finalizeCRD ParseGroupVersion es req).
Proof. unfold finalizeCRD, unpause_keda, resetMutexForInformer. respect. Qed.

(** An ElastiService is written as it was just read. *)
Lemma addFinalizer_footprint es s :
  crds s !! (es_Namespace es, es_Name es) = Some es -> footprint s (addCRDFinalizer es s).2.
Proof.
  intros Hes. unfold addCRDFinalizer. destruct (bool_decide _); [reflexivity|].
  apply (bind_wrap footprint), fp_update_crd_at. intros a Ha. assert (a = es) as -> by congruence.
  split; [by intros [_ ?]|done].
Qed.
Lemma remove_finalizer_footprint es s :
  crds s !! (es_Namespace es, es_Name es) = Some es -> is_Some (es_DeletionTimestamp es) ->
  footprint s (remove_finalizer (GetSpec es).2 s).2.
Proof.
  intros Hes Hd. unfold remove_finalizer. change (es_Namespace (GetSpec es).2) with (es_Namespace es).
  change (es_Name (GetSpec es).2) with (es_Name es). cbv zeta. destruct (_ && _).
  - fp_calls_at s.
    + intros x. destruct (delete_state crds set_crds (es_Namespace es, es_Name es) s) as [->| ->]; [by left|].
      destruct (decide ((es_Namespace es, es_Name es) = x)) as [<-|]; [|left; by rewrite lookup_delete_ne].
      right. rewrite lookup_delete_eq. eauto.
    + by apply (still_delete crds set_crds).
  - apply fp_update_crd_at. intros a Ha. assert (a = es) as -> by congruence. split; [by intros [_ ?]|].
    unfold fixed_part, write_es, set_finalizers. simpl. f_equal. exact (f_equal fst (GetSpec_idem es)).
Qed.

Lemma fp_getCRD nn : respects footprint (getCRD nn).
Proof. unfold getCRD. respect. Qed.

Lemma finalizeIfDeleted_footprint es req s :
  crds s !! (es_Namespace es, es_Name es) = Some es ->
  footprint s (finalizeCRDIfDeleted ParseGroupVersion es req s).2.
Proof.
  intros Hes. unfold finalizeCRDIfDeleted. destruct (es_DeletionTimestamp es) as [t|] eqn:Hd; [|simpl; reflexivity].
  destruct (bool_decide _); [|simpl; reflexivity].
  apply (bind_state footprint); [apply fp_finalizeCRD|]. intros [] s1 H1.
  apply (bind_state footprint); [|intros [] ? _; simpl; reflexivity].
  apply (bind_wrap footprint), remove_finalizer_footprint; [|by eexists].
  by rewrite (keeps_run crds _ _ _ _ (finalizeCRD_keeps_crds ParseGroupVersion es req) H1).
Qed.

Lemma Reconcile_footprint req s : wf s -> footprint s (Reconcile ParseGroupVersion req s).2.
Proof.
  intros Hwf. unfold Reconcile. apply (bind_state footprint); [apply respects_attempt, fp_getCRD|].
  intros r s1 Hr. assert (getCRD req s = (r, s1)) as Hg.
  { unfold attempt_call in Hr. destruct (getCRD req s). by injection Hr as <- <-. }
  destruct r as [es|e]; [|destruct (error_is _ _); simpl; reflexivity].
  assert (crds s1 = crds s) as Ec by (eapply (keeps_run crds); [|exact Hg]; unfold getCRD; frame).
  apply getCRD_ok in Hg as [Hes _]. destruct (wf_crds _ Hwf _ _ Hes) as [-> Hmode].
  apply (bind_state footprint); [apply finalizeIfDeleted_footprint; by rewrite Ec|].
  intros [] s2 H2; [simpl; reflexivity|].
  assert (s2 = s1) as ->.
  { revert H2. unfold finalizeCRDIfDeleted. destruct (es_DeletionTimestamp es); [|by intros [= <-]].
    destruct (bool_decide _); [|done]. intros ([] & ? & _ & H2)%bind_Ok. by apply bind_Ok in H2 as ([] & ? & _ & [=]). }
  apply (bind_state footprint); [apply addFinalizer_footprint; by rewrite Ec|]. intros [] s3 _.
  apply (bind_state footprint); [apply fp_watchScaleTargetRef|]. intros [] s4 _.
  apply fp_AddCRD. split; [by eexists|done].
Qed.
End operations.

(** A well-formed state stays so within its footprint. *)
Lemma footprint_wf s s' : footprint s s' -> wf s -> wf s'.
Proof. intros [] []. split; auto. Qed.

Definition sound (s s' : OpState) : Prop := wf s -> footprint s s' /\ wf s'.
#[export] Instance sound_PreOrder : PreOrder sound.
Proof.
  split; [intros s Hs; split; [reflexivity|done]|]. intros s1 s2 s3 H1 H2 Hs.
  destruct (H1 Hs) as [F1 Hs2]. destruct (H2 Hs2) as [F2 Hs3]. split; [by transitivity s2|done].
Qed.
Lemma footprint_sound s s' : footprint s s' -> sound s s'.
Proof. intros Hf Hs. split; [done|]. by eapply footprint_wf. Qed.


(** ** Steps *)

Section steps.
Context (ParseGroupVersion : gostring -> result error (gostring * gostring)).
Context (rc : ResolverConfig) (watchNamespaces : list gostring).
Context {rawSelector : Type}
  (asSelector : rawSelector -> result error (gmap gostring gostring -> bool)).
Context (Parse : gostring -> result error Schedule) (ParseDuration : gostring -> result error Z).
Context {SC W : Type} `{Scaler SC W} (NewScaler : gostring -> Z -> result error SC).

(** Whether the operator is confined to some namespaces. *)
Definition is_scoped : bool := negb (bool_decide (watchNamespaces = [])).

(** The operator's own steps: the start, a reconcile of an object in scope, an
    event of an informer, a check of the watcher, a request of the resolver. *)
Inductive op_step : relation OpState :=
| step_initialize envInterval s :
    op_step s (Initialize ParseGroupVersion ParseDuration watchNamespaces envInterval s).2
| step_reconcile es s :
    eventFilter watchNamespaces (Some es) = true ->
    op_step s (Reconcile ParseGroupVersion (es_Namespace es, es_Name es) s).2
| step_target req e s :
    op_step s (handle_event (getScaleTargetRefChangeHandler rc is_scoped asSelector req) e s).2
| step_service es e s :
    op_step s (handle_event (getPublicServiceChangeHandler es) e s).2
| step_resolver e s :
    op_step s (handle_event (getResolverChangeHandler rc is_scoped) e s).2
| step_tick w err s s' w' :
    checkAndScale ParseGroupVersion Parse ParseDuration NewScaler watchNamespaces s w = Some (err, s', w') ->
    op_step s s'
| step_request method decoded written s :
    op_step s (resolverReqHandler ParseGroupVersion method decoded written s).2.

(** The object a user applies: the status belongs to the API server. *)
Definition applied (es : ElastiService) (cur : option ElastiService) : ElastiService :=
  match cur with
  | Some cur => write_es es cur
  | None => mkElastiService (es_Name es) (es_Namespace es) (es_CreationTimestamp es) (es_DeletionTimestamp es)
              (es_Finalizers es) (es_Spec es) (mkStatus 0 None [])
  end.

(** What users, Kubernetes and time do, and a restart of the operator, which
    loses its memory. *)
Inductive env_step : relation OpState :=
| env_apply es s :
    let k := (es_Namespace es, es_Name es) in
    env_step s (set_crds (<[k := applied es (crds s !! k)]> (crds s)) s)
| env_remove k s : env_step s (set_crds (delete k (crds s)) s)
| env_service svc s : env_step s (set_services (<[(svc_Namespace svc, svc_Name svc) := svc]> (services s)) s)
| env_remove_service k s : env_step s (set_services (delete k (services s)) s)
| env_slices x s : env_step s (set_slices x s)
| env_scales x s : env_step s (set_scales x s)
| env_scaled_objects x s : env_step s (set_scaled_objects x s)
| env_pods x s : env_step s (set_pods x s)
| env_faults x s : env_step s (set_faults x s)
| env_time t s : op_now s <= t -> env_step s (set_op_now t s)
| env_restart s : env_step s (set_directory ∅ (set_informers ∅ (set_onces ∅ s))).

Definition any_step (s s' : OpState) : Prop := op_step s s' \/ env_step s s'.

(** *** Steps respect the footprint *)

Lemma check_rel (R : relation OpState) `{!PreOrder R} s w err s' w' :
  (forall es, respects R (handleScaleToZero ParseGroupVersion es)) ->
  (forall es, respects R (handleScaleFromZero ParseGroupVersion es)) ->
  (forall ns, respects R (list_crds ns)) ->
  checkAndScale ParseGroupVersion Parse ParseDuration NewScaler watchNamespaces s w = Some (err, s', w') -> R s s'.
Proof.
  intros Hz Hf Hl. unfold checkAndScale. generalize (listNamespaces watchNamespaces) (@nil error). intros nss.
  assert (forall l s w s' w', check_services ParseGroupVersion Parse ParseDuration NewScaler l s w = Some (s', w') ->
            R s s') as Hs.
  { induction l as [|es l IH]; intros s0 w0 s1 w1; simpl; [intros [= <- <-]; reflexivity|].
    unfold check_service. destruct (calculateScaleDirection _ _ _ _ _ _ _) as [[d w2]|]; [|done]. simpl.
    destruct d as [[]|]; intros Hr; apply IH in Hr; try done; (etransitivity; [|exact Hr]); [apply Hf|apply Hz]. }
  revert s w. induction nss as [|ns nss IH]; intros s w errs; simpl; [intros [= _ <- _]; reflexivity|].
  specialize (Hl ns s). destruct (list_crds ns s) as [[items|e] s1]; simpl in Hl.
  - destruct (check_services _ _ _ _ items s1 w) as [[s2 w2]|] eqn:Hc; [|done]. simpl. intros Hr%IH.
    apply Hs in Hc. by rewrite Hl, Hc.
  - intros Hr%IH. by rewrite Hl.
Qed.

Lemma op_step_sound s s' : op_step s s' -> sound s s'.
Proof.
  assert (forall req, respects sound (Reconcile ParseGroupVersion req)) as Hrec.
  { intros req s0 Hwf. apply footprint_sound; [by apply Reconcile_footprint|done]. }
  destruct 1; [| intros ?; by apply Hrec|apply footprint_sound..].
  - revert s. change (respects sound (Initialize ParseGroupVersion ParseDuration watchNamespaces envInterval)).
    unfold Initialize, reconcileExistingCRDs, reconcile_existing.
    assert (forall A (m : M A), respects footprint m -> respects sound m) as Hlift
      by (intros A m Hm s; apply footprint_sound, Hm).
    apply respects_bind; [apply _|apply respects_wrap, respects_bind; [apply _|..]|].
    + apply Hlift, respects_wrap, fp_call, respects_gets, _.
    + intros items. apply respects_for_each; [apply _|]. intros es. destruct (negb _); [apply respects_ret, _|].
      destruct (es_DeletionTimestamp es); [apply respects_ret, _|].
      apply respects_bind; [apply _|apply respects_attempt, Hrec|]. intros _. apply respects_ret, _.
    + intros _. apply Hlift. respect.
  - destruct e; simpl; [reflexivity|apply respects_logged; [apply _|apply fp_targetChanges]|reflexivity].
  - destruct e; simpl; [apply respects_logged; [apply _|apply fp_publicServiceChanges]..|reflexivity].
  - destruct e; simpl; [apply respects_logged; [apply _|apply fp_resolverChanges]..|reflexivity].
  - revert H0. apply check_rel; [apply _|apply fp_handleScaleToZero|apply fp_handleScaleFromZero|].
    intros ns. apply fp_call. intros ?. simpl. reflexivity.
  - unfold resolverReqHandler. destruct (negb _); [simpl; reflexivity|].
    destruct decoded as [[svc ns]|]; [|simpl; reflexivity]. destruct written; [|simpl; reflexivity].
    apply respects_bind; [apply _|apply respects_attempt, fp_scaleTargetForService|]. intros _. apply respects_ret, _.
Qed.

Lemma env_step_wf s s' : env_step s s' -> wf s -> wf s'.
Proof.
  intros He [H1 H2 H3 H4]. destruct He; split; simpl; try done;
    try (by apply map_Forall_delete); try (by apply map_Forall_insert_2); try apply map_Forall_empty.
  apply map_Forall_insert_2; [|done]. subst k. unfold applied. destruct (crds s !! _) as [cur|] eqn:Hc.
  - split; [done|]. simpl. by apply H1 in Hc as [_ ?].
  - split; [done|]. by left.
Qed.

Lemma any_step_wf s s' : any_step s s' -> wf s -> wf s'.
Proof. intros [Ho|He]; [|by apply env_step_wf]. intros Hwf. apply op_step_sound in Ho. by apply Ho. Qed.

Lemma op_steps_sound s s' : rtc op_step s s' -> sound s s'.
Proof. induction 1 as [|s1 s2 s3 H1 _ IH]; [reflexivity|]. by transitivity s2; [apply op_step_sound|]. Qed.
End steps.
