(* ===== verification/OperatorProps.v ===== *)
(** * Guarantees of the operator as a whole

    Invariants and write protection over every run of the operator, and what its
    start, a change of the resolver and the scale-down watcher achieve. *)

From S2P Require Import Prelude GoStrings Names K8sHelper Types Cron PromScaler Cluster Informer Scaling Config Controller ControllerFacts ControllerProps Events Operator.
Local Open Scope Z_scope.

(** ** Runs without faults *)

Section free.
Context {K A : Type} `{Countable K} (f : OpState -> gmap K A) (g : gmap K A -> OpState -> OpState).

Lemma call_free {B} (m : M B) s : faults s = [] -> call m s = m s.
Proof. intros Hf. unfold call, mbind, M_bind, fault. by rewrite Hf. Qed.
Lemma get_free k a s : faults s = [] -> f s !! k = Some a -> api_get f k s = (Ok a, s).
Proof. intros Hf Ha. unfold api_get. by rewrite call_free, Ha. Qed.
Lemma get_free_none k s : faults s = [] -> f s !! k = None -> api_get f k s = (Err ErrNotFound, s).
Proof. intros Hf Ha. unfold api_get. by rewrite call_free, Ha. Qed.
Lemma update_free k upd a s :
  faults s = [] -> f s !! k = Some a -> api_update f g k upd s = (Ok tt, g (<[k := upd a]> (f s)) s).
Proof. intros Hf Ha. unfold api_update. by rewrite call_free, Ha. Qed.
Lemma create_free k a s :
  faults s = [] -> f s !! k = None -> api_create f g k a s = (Ok tt, g (<[k := a]> (f s)) s).
Proof. intros Hf Ha. unfold api_create. by rewrite call_free, Ha. Qed.
End free.

Lemma wrap_free {A} msg (m : M A) s a s' : m s = (Ok a, s') -> wrap msg m s = (Ok a, s').
Proof. intros Hm. unfold wrap. by rewrite Hm. Qed.
Lemma attempt_free {A} (m : M A) s r s' : m s = (r, s') -> attempt_call m s = (Ok r, s').
Proof. intros Hm. unfold attempt_call. by rewrite Hm. Qed.
Lemma logged_free m s s' : m s = (Ok tt, s') -> logged m s = (Ok tt, s').
Proof. intros Hm. unfold logged. by rewrite (attempt_bind _ _ _ _ _ Hm). Qed.

(** No fault comes up in a run without faults. *)
Lemma shrinks_free {A} (m : M A) s r s' : shrinks m -> m s = (r, s') -> faults s = [] -> faults s' = [].
Proof. intros Hs Hm Hf. specialize (Hs s). rewrite Hm, Hf in Hs. simpl in Hs. by apply suffix_nil_inv in Hs. Qed.

(** ** The slice to the resolver *)

Section slices.
Context (rc : ResolverConfig) (scoped : bool).

(** A slice that is not one of the resolver's own. *)
Definition foreign (o : option Slice) : Prop :=
  match o with Some sl => slice_service sl <> cfg_ServiceName (rc_Config rc) | None => True end.

Lemma filter_insert_foreign {K A} `{Countable K} (P : K * A -> bool) (m : gmap K A) k a :
  P (k, a) = false -> (forall b, m !! k = Some b -> P (k, b) = false) ->
  List.filter P (map_to_list (<[k := a]> m)) ≡ₚ List.filter P (map_to_list m).
Proof.
  intros Ha Hb. rewrite <- (insert_delete_eq m k a).
  rewrite (map_to_list_insert (delete k m) k a) by apply lookup_delete_eq. simpl. rewrite Ha.
  destruct (m !! k) as [b|] eqn:Hk; [|by rewrite delete_id].
  rewrite <- (insert_delete_id m k b Hk) at 2.
  rewrite (map_to_list_insert (delete k m) k b) by apply lookup_delete_eq. simpl.
  by rewrite (Hb b eq_refl).
Qed.

Lemma resolver_ips_insert k sl s :
  foreign (Some sl) -> foreign (slices s !! k) ->
  resolver_ips rc scoped (set_slices (<[k := sl]> (slices s)) s) ≡ₚ resolver_ips rc scoped s.
Proof.
  intros Hsl Hold. unfold resolver_ips. simpl. rewrite filter_insert_foreign; [done|..].
  - simpl. by rewrite bool_decide_false.
  - intros b Hb. rewrite Hb in Hold. simpl. by rewrite bool_decide_false.
Qed.

Lemma createOrUpdate_free svc p ps s :
  faults s = [] -> svc_Ports svc = p :: ps -> resolver_ips rc scoped s <> [] ->
  createOrUpdateEndpointsliceToResolver rc scoped svc s
  = (Ok tt, set_slices (<[(svc_Namespace svc, GetEndpointSliceToResolverName (svc_Name svc)) :=
       redirect rc svc p (resolver_ips rc scoped s)]> (slices s)) s).
Proof.
  intros Hf Hp Hne. unfold createOrUpdateEndpointsliceToResolver.
  assert (getIPsForResolver rc scoped s = (Ok (resolver_ips rc scoped s), s)) as Hi.
  { unfold getIPsForResolver. rewrite (bind_ok _ _ s (resolver_ips rc scoped s) s).
    - by destruct (resolver_ips rc scoped s).
    - apply wrap_free. by rewrite call_free. }
  rewrite (bind_ok _ _ _ _ _ Hi). set (k := (svc_Namespace svc, _)). rewrite Hp.
  destruct (slices s !! k) as [sl|] eqn:Hk.
  - rewrite (attempt_bind _ _ _ _ _ (get_free slices k sl s Hf Hk)).
    apply wrap_free. exact (update_free slices set_slices k _ sl s Hf Hk).
  - rewrite (attempt_bind _ _ _ _ _ (get_free_none slices k s Hf Hk)). simpl.
    apply wrap_free. exact (create_free slices set_slices k _ s Hf Hk).
Qed.
End slices.

(** ** Changes of the resolver *)

Section resolver.
Context (rc : ResolverConfig) (scoped : bool).

(** A directory key and its two parts. *)
Lemma key_parts ns name : "/"%char ∉ ns -> "/"%char ∉ name -> Split (nn_string (ns, name)) "/"%char = [ns; name].
Proof. intros Hn Hm. unfold nn_string. simpl. by rewrite Split_cons_sep, Split_no_sep. Qed.
Lemma parts_key k ns name : Split k "/"%char = [ns; name] -> k = nn_string (ns, name).
Proof. intros Hs. rewrite <- (Join_Split k "/"%char), Hs. unfold nn_string. simpl. done. Qed.

(** The directory has the service in proxy mode. *)
Definition in_proxy_mode (ns name : gostring) (s : OpState) : Prop :=
  exists k d, directory s !! k = Some d /\ st_Mode (d_Status d) = ProxyMode /\ Split k "/"%char = [ns; name].

(** A slice that sends its traffic to the resolver's current addresses. *)
Definition to_resolver (ips : list gostring) (o : option Slice) : Prop :=
  exists sl, o = Some sl /\ (slice_port sl).2 = ReverseProxyPort rc
    /\ slice_addresses sl ≡ₚ map (fun ip => [ip]) ips.

(** What a run over the directory keeps: the state [s0] it started from, up to
    the slices of the resolver that were written meanwhile. *)
Record repointing (s0 s : OpState) : Prop := {
  rp_faults : faults s = [];
  rp_services : services s = services s0;
  rp_ips : resolver_ips rc scoped s ≡ₚ resolver_ips rc scoped s0;
  rp_foreign : forall k, generated_slice k -> foreign rc (slices s !! k)
}.

(** Every service in proxy mode has a port, and is not the resolver itself. *)
Definition proxyable (s : OpState) : Prop :=
  forall ns name svc, in_proxy_mode ns name s -> services s !! (ns, name) = Some svc ->
    svc_Ports svc <> [] /\ svc_Name svc <> cfg_ServiceName (rc_Config rc).

Lemma entry_run s0 s k d :
  map_Forall service_wf (services s0) -> resolver_ips rc scoped s0 <> [] -> proxyable s0 ->
  directory s0 !! k = Some d -> repointing s0 s ->
  exists s', resolver_entry rc scoped (k, d) s = (Ok tt, s') /\ repointing s0 s'
    /\ (forall x, to_resolver (resolver_ips rc scoped s0) (slices s !! x) ->
          to_resolver (resolver_ips rc scoped s0) (slices s' !! x))
    /\ (forall ns name svc, st_Mode (d_Status d) = ProxyMode -> Split k "/"%char = [ns; name] ->
          services s0 !! (ns, name) = Some svc ->
          to_resolver (resolver_ips rc scoped s0) (slices s' !! (ns, GetEndpointSliceToResolverName name))).
Proof.
  intros Hwf Hne Hp Hk Hrp. unfold resolver_entry. cbn [fst snd].
  destruct (bool_decide (st_Mode (d_Status d) = ProxyMode)) eqn:Hm;
    [apply bool_decide_eq_true in Hm|apply bool_decide_eq_false in Hm];
    cbv beta iota delta [negb].
  2: { exists s. by split_and!. }
  destruct (Split k "/"%char) as [|ns [|name [|]]] eqn:Hs; try (exists s; by split_and!).
  pose proof (rp_faults _ _ Hrp) as Hf.
  destruct (services s0 !! (ns, name)) as [svc|] eqn:Hsvc.
  2: { rewrite <- (rp_services _ _ Hrp) in Hsvc.
       rewrite (attempt_bind _ _ _ _ _ (get_free_none services _ s Hf Hsvc)). exists s. split_and!; [done..|].
       intros ns' name' svc' _ [= <- <-] E. rewrite <- (rp_services _ _ Hrp) in E. congruence. }
  destruct (Hp ns name svc ltac:(by exists k, d) Hsvc) as [Hports Hname].
  pose proof (Hwf _ _ Hsvc) as Hself. unfold service_wf in Hself. injection Hself as Ens Ename.
  rewrite <- (rp_services _ _ Hrp) in Hsvc. rewrite (attempt_bind _ _ _ _ _ (get_free services _ _ s Hf Hsvc)).
  destruct (svc_Ports svc) as [|p ps] eqn:Hpo; [done|].
  assert (resolver_ips rc scoped s <> []) as Hne'.
  { intros E. pose proof (rp_ips _ _ Hrp) as HP. rewrite E in HP. by apply Permutation_nil in HP. }
  eexists. split; [by apply logged_free, (createOrUpdate_free rc scoped svc p ps)|].
  assert (to_resolver (resolver_ips rc scoped s0) (Some (redirect rc svc p (resolver_ips rc scoped s)))) as Hto.
  { eexists. split; [done|]. split; [done|]. simpl. by rewrite (rp_ips _ _ Hrp). }
  rewrite <- Ens, <- Ename. split_and!.
  - split; simpl; [done|by rewrite (rp_services _ _ Hrp)|..].
    + etransitivity; [|apply (rp_ips _ _ Hrp)].
      apply resolver_ips_insert; [done|]. apply (rp_foreign _ _ Hrp). by eexists.
    + intros x Hx. destruct (decide (x = (ns, GetEndpointSliceToResolverName name))) as [->|];
        [by rewrite lookup_insert_eq|]. rewrite lookup_insert_ne by done. by apply (rp_foreign _ _ Hrp).
  - intros x Hx. simpl. destruct (decide (x = (ns, GetEndpointSliceToResolverName name))) as [->|];
      [by rewrite lookup_insert_eq|by rewrite lookup_insert_ne].
  - intros ns' name' svc' _ [= <- <-] _. simpl. by rewrite lookup_insert_eq.
Qed.
Lemma entries_run s0 l s :
  map_Forall service_wf (services s0) -> resolver_ips rc scoped s0 <> [] -> proxyable s0 ->
  (forall k d, (k, d) ∈ l -> directory s0 !! k = Some d) -> repointing s0 s ->
  exists s', for_each (resolver_entry rc scoped) l s = (Ok tt, s') /\ repointing s0 s'
    /\ (forall x, to_resolver (resolver_ips rc scoped s0) (slices s !! x) ->
          to_resolver (resolver_ips rc scoped s0) (slices s' !! x))
    /\ (forall k d ns name svc, (k, d) ∈ l -> st_Mode (d_Status d) = ProxyMode -> Split k "/"%char = [ns; name] ->
          services s0 !! (ns, name) = Some svc ->
          to_resolver (resolver_ips rc scoped s0) (slices s' !! (ns, GetEndpointSliceToResolverName name))).
Proof.
  intros Hwf Hne Hp. revert s. induction l as [|[k d] l IH]; intros s Hl Hrp.
  { exists s. split_and!; [done..|]. intros k d ns name svc []%not_elem_of_nil. }
  destruct (entry_run s0 s k d Hwf Hne Hp (Hl k d ltac:(by left)) Hrp) as (s1 & H1 & R1 & T1 & E1).
  destruct (IH s1) as (s2 & H2 & R2 & T2 & E2); [intros k' d' Hin; apply Hl; by right|done|].
  exists s2. split_and!.
  - simpl. by rewrite (bind_ok _ _ _ _ _ H1).
  - done.
  - auto.
  - intros k' d' ns name svc [[= -> ->]|Hin]%elem_of_cons Hm Hs Hv; [eauto|by eapply E2].
Qed.
End resolver.

(** ** The start *)

Section start.
Context (ParseGroupVersion : gostring -> result error (gostring * gostring)).

(** A live object whose target can be watched: its reference is complete and the
    workload exists. *)
Definition watchable (es : ElastiService) (s : OpState) : Prop :=
  let r := spec_ScaleTargetRef (es_Spec es) in
  str_Name r <> [] /\ str_Kind r <> [] /\ str_APIVersion r <> []
  /\ exists group version sc, ParseGroupVersion (str_APIVersion r) = Ok (group, version)
      /\ scales s !! (es_Namespace es, (group, KindToResource (str_Kind r)), str_Name r) = Some sc.

Definition details (es : ElastiService) : CRDDetails := mkDetails (es_Name es) (es_Spec es) (es_Status es).
Definition service_key (es : ElastiService) : gostring := nn_string (es_Namespace es, spec_Service (es_Spec es)).

Lemma watchTarget_free es s :
  faults s = [] -> watchable es s ->
  (watchScaleTargetRef ParseGroupVersion es (es_Namespace es, es_Name es) s).1 = Ok tt.
Proof.
  intros Hf (Hn & Hk & Hv & group & version & sc & Hgv & Hsc). unfold watchScaleTargetRef.
  rewrite !bool_decide_false by done. cbv beta iota delta [orb]. unfold GetCRD. rewrite gets_bind.
  set (st := match directory s !! _ with Some d => _ | None => _ end).
  assert (exists s1, st s = (Ok tt, s1) /\ faults s1 = [] /\ scales s1 = scales s) as (s1 & H1 & Hf1 & Hs1).
  { subst st. destruct (directory s !! _) as [d|]; [|by exists s]. destruct (bool_decide _); [by exists s|].
    unfold informer_Stop, resetMutexForInformer. rewrite modify_bind. by eexists. }
  rewrite (bind_ok _ _ _ _ _ H1), Hgv. clear st H1. unfold once_or_reset.
  set (m := once_do _ _).
  assert (exists s2, m s1 = (Ok tt, s2)) as [s2 H2]; [|by rewrite (attempt_bind _ _ _ _ _ H2)].
  subst m. unfold once_do. rewrite gets_bind. destruct (bool_decide _); [by eexists|]. rewrite modify_bind.
  set (s3 := set_onces _ s1).
  enough (exists s4, informer_Add (target_key (es_Namespace es, es_Name es) (spec_ScaleTargetRef (es_Spec es)))
    (_ ← api_get scales ((es_Namespace es, es_Name es).1, (group, KindToResource (str_Kind (spec_ScaleTargetRef (es_Spec es)))),
      str_Name (spec_ScaleTargetRef (es_Spec es))); mret tt) s3 = (Ok tt, s4)) as [s4 H4].
  { exists s4. by apply wrap_free. }
  unfold informer_Add. rewrite gets_bind. destruct (bool_decide _); [by eexists|].
  assert (faults s3 = []) as Hf3 by done.
  rewrite (bind_ok _ _ s3 tt s3).
  - rewrite (bind_ok _ _ s3 tt s3); [by eexists|]. apply wrap_free. unfold fault. by rewrite Hf3.
  - apply wrap_free. rewrite (bind_ok _ _ s3 sc s3); [done|]. apply get_free; [done|]. simpl. by rewrite Hs1.
Qed.
Lemma watchTarget_shrinks es req : shrinks (watchScaleTargetRef ParseGroupVersion es req).
Proof.
  unfold watchScaleTargetRef, GetCRD, informer_Stop, once_or_reset, once_do, resetMutexForInformer, informer_Add.
  pose proof shrinks_fault. shrink; auto.
Qed.

(** A live object is registered in the directory, when its target can be watched;
    no other object is changed. *)
Lemma reconcile_live es s :
  let nn := (es_Namespace es, es_Name es) in
  faults s = [] -> crds s !! nn = Some es -> es_DeletionTimestamp es = None ->
  let s' := (Reconcile ParseGroupVersion nn s).2 in
  faults s' = [] /\ scales s' = scales s /\ (forall k, k <> nn -> crds s' !! k = crds s !! k)
  /\ (directory s' = directory s \/ directory s' = <[service_key es := details es]> (directory s))
  /\ (watchable es s -> directory s' = <[service_key es := details es]> (directory s)).
Proof.
  intros nn Hf Hes Hlive. unfold Reconcile.
  assert (getCRD nn s = (Ok es, s)) as Hg by (apply wrap_free; by apply get_free).
  rewrite (attempt_bind _ _ _ _ _ Hg). unfold finalizeCRDIfDeleted. rewrite Hlive.
  change (mret false ≫= ?k) with (k false). cbv beta iota.
  assert (exists s1, addCRDFinalizer es s = (Ok tt, s1) /\ faults s1 = [] /\ scales s1 = scales s
    /\ directory s1 = directory s /\ forall k, k <> nn -> crds s1 !! k = crds s !! k)
    as (s1 & H1 & Hf1 & Hs1 & Hd1 & Hc1).
  { unfold addCRDFinalizer. destruct (bool_decide _); [by exists s|]. eexists. split_and!.
    - apply wrap_free. by apply (update_free crds set_crds _ _ es).
    - done.
    - done.
    - done.
    - intros k Hk. simpl. by rewrite lookup_insert_ne. }
  rewrite (bind_ok _ _ _ _ _ H1). destruct (watchScaleTargetRef ParseGroupVersion es nn s1) as [r s2] eqn:H2.
  pose proof (shrinks_free _ _ _ _ (watchTarget_shrinks es nn) H2 Hf1) as Hf2.
  pose proof (fun B (p : OpState -> B) Ha Hb Hc => keeps_run p _ _ _ _ (watchTarget_keeps _ p es nn Ha Hb Hc) H2) as K.
  destruct r as [[]|e]; [rewrite (bind_ok _ _ _ _ _ H2)|rewrite (bind_err _ _ _ _ _ H2)]; simpl;
    rewrite (K _ scales), (K _ crds), (K _ directory), Hd1, Hs1 by done; split_and!; auto.
  intros Hw. pose proof (watchTarget_free es s1 Hf1) as Hok. fold nn in Hok. rewrite H2 in Hok.
  unfold watchable in *. rewrite Hs1 in Hok. by specialize (Hok Hw).
Qed.

(** A run over a list of objects as they are stored, each under its own name. *)
Lemma reconcile_all watch (all : list ElastiService) l s :
  faults s = [] -> NoDup (map (fun es => (es_Namespace es, es_Name es)) l) ->
  (forall es, es ∈ l -> crds s !! (es_Namespace es, es_Name es) = Some es) -> l ⊆ all ->
  let live es := es ∈ all /\ es_DeletionTimestamp es = None in
  exists s', for_each (reconcile_existing ParseGroupVersion watch) l s = (Ok tt, s')
    /\ faults s' = [] /\ scales s' = scales s
    /\ (forall k es, live es -> k = service_key es -> directory s !! k = Some (details es) ->
          exists es', live es' /\ k = service_key es' /\ directory s' !! k = Some (details es'))
    /\ forall es, es ∈ l -> es_DeletionTimestamp es = None -> namespaceInScope watch (es_Namespace es) = true ->
          watchable es s ->
          exists es', live es' /\ service_key es = service_key es'
            /\ directory s' !! service_key es = Some (details es').
Proof.
  intros Hf Hnd Hst Hsub live. revert s Hf Hst. induction l as [|es l IH]; intros s Hf Hst.
  { exists s. split_and!; [done..| |].
    - intros k es Hl -> Hd. by exists es.
    - intros es []%not_elem_of_nil. }
  simpl in Hnd. apply NoDup_cons in Hnd as [Hnin Hnd].
  assert (exists s1, reconcile_existing ParseGroupVersion watch es s = (Ok tt, s1) /\ faults s1 = []
    /\ scales s1 = scales s /\ (forall k, k <> (es_Namespace es, es_Name es) -> crds s1 !! k = crds s !! k)
    /\ (directory s1 = directory s
        \/ es_DeletionTimestamp es = None /\ directory s1 = <[service_key es := details es]> (directory s))
    /\ (es_DeletionTimestamp es = None -> namespaceInScope watch (es_Namespace es) = true -> watchable es s ->
        directory s1 = <[service_key es := details es]> (directory s))) as (s1 & H1 & Hf1 & Hs1 & Hc1 & Hd1 & Hw1).
  { unfold reconcile_existing. destruct (namespaceInScope watch (es_Namespace es)); cbv beta iota delta [negb].
    2: { exists s. split_and!; auto. done. }
    destruct (es_DeletionTimestamp es) eqn:Hlive; [exists s; split_and!; auto; done|].
    pose proof (reconcile_live es s Hf (Hst es ltac:(by left)) Hlive) as (H1 & H2 & H3 & H4 & H5).
    pose proof (surjective_pairing (Reconcile ParseGroupVersion (es_Namespace es, es_Name es) s)) as Hr.
    eexists. split; [by rewrite (attempt_bind _ _ _ _ _ Hr)|]. split_and!; auto.
    destruct H4; auto. }
  destruct (IH ltac:(done) ltac:(set_solver) s1) as (s2 & H2 & Hf2 & Hs2 & Hd2 & Hw2); [done|..].
  { intros es' Hin. rewrite Hc1; [apply Hst; by right|]. intros E. apply Hnin. rewrite <- E.
    apply list_elem_of_In, (in_map (fun es => (es_Namespace es, es_Name es))). by apply list_elem_of_In. }
  assert (forall k e, live e -> k = service_key e -> directory s !! k = Some (details e) ->
    exists e', live e' /\ k = service_key e' /\ directory s1 !! k = Some (details e')) as Hd.
  { intros k e Hl -> Hk. destruct Hd1 as [->|[Hlive ->]]; [by exists e|].
    destruct (decide (service_key es = service_key e)) as [E|Hne].
    - exists es. rewrite E, lookup_insert_eq. split_and!; [|done|done]. split; [set_solver|done].
    - exists e. by rewrite lookup_insert_ne. }
  exists s2. split_and!; [by simpl; rewrite (bind_ok _ _ _ _ _ H1)|done|congruence|..].
  - intros k e Hl E Hk. destruct (Hd k e Hl E Hk) as (e' & Hl' & E' & Hk'). by eapply Hd2.
  - intros e [->|Hin]%elem_of_cons Hlive Hns Hw.
    + assert (directory s1 !! service_key es = Some (details es)) as Hk by (rewrite Hw1; [apply lookup_insert_eq|done..]).
      eapply Hd2; [|done|done]. split; [set_solver|done].
    + apply Hw2; [done..|]. unfold watchable. by rewrite Hs1.
Qed.
End start.

(** ** The scale-down watcher *)

Section watcher.
Context (ParseGroupVersion : gostring -> result error (gostring * gostring)).
Context (Parse : gostring -> result error Schedule) (ParseDuration : gostring -> result error Z).
Context {SC W : Type} `{Scaler SC W} (NewScaler : gostring -> Z -> result error SC).

Lemma watcher_starts envInterval :
  StartScaleDownWatcher ParseDuration envInterval = Some (pollingInterval ParseDuration envInterval).
Proof.
  unfold StartScaleDownWatcher, NewTicker. destruct (Z.leb_spec (pollingInterval ParseDuration envInterval) 0) as [Hle|]; [|done].
  exfalso. revert Hle. apply Z.lt_nge. unfold pollingInterval, second. repeat case_match; bool_to_prop; lia.
Qed.

(** The turns before the context is done. *)
Fixpoint ticks (turns : list (turn (W := W))) : nat :=
  match turns with
  | [] | CtxDone :: _ => 0
  | Tick _ :: turns => S (ticks turns)
  end.

Lemma watcher_loop_checks watch turns sw l :
  watcher_loop ParseGroupVersion ParseDuration Parse NewScaler watch turns sw = Some l ->
  length l = ticks turns
  /\ Forall (fun ss => forall t, allowed ParseGroupVersion Parse ParseDuration NewScaler (op_now ss.1) t
                                (scales ss.1 !! t) (scales ss.2 !! t)) l.
Proof.
  revert sw l. induction turns as [|[|f] turns IH]; intros sw l; simpl; [by intros [= <-]..|].
  destruct (f sw) as [s w]. destruct (checkAndScale _ _ _ _ watch s w) as [[[e s'] w']|] eqn:Hc; simpl; [|done].
  destruct (watcher_loop _ _ _ _ watch turns (s', w')) as [l'|] eqn:Hl; simpl; [|done].
  intros [= <-]. apply IH in Hl as [Hn Hf]. split; [simpl; lia|]. constructor; [|done]. simpl.
  eapply check_namespaces_ok in Hc. by apply Hc.
Qed.
End watcher.

(** ** Properties *)

Section properties.
Context (ParseGroupVersion : gostring -> result error (gostring * gostring)).
Context (rc : ResolverConfig) (watchNamespaces : list gostring).
Context {rawSelector : Type}
  (asSelector : rawSelector -> result error (gmap gostring gostring -> bool)).
Context (Parse : gostring -> result error Schedule) (ParseDuration : gostring -> result error Z).
Context {SC W : Type} `{Scaler SC W} (NewScaler : gostring -> Z -> result error SC).

Abbreviation op_step := (op_step ParseGroupVersion rc watchNamespaces asSelector Parse ParseDuration NewScaler).
Abbreviation any_step := (any_step ParseGroupVersion rc watchNamespaces asSelector Parse ParseDuration NewScaler).

(** A cluster with nothing in it, and an operator that has just started. *)
Definition fresh_cluster : OpState := mkOp ∅ ∅ ∅ ∅ ∅ [] [] [] 0 ∅ ∅ ∅.

Lemma fresh_wf : wf fresh_cluster.
Proof. split; apply map_Forall_empty. Qed.

Lemma reachable_wf s : rtc any_step fresh_cluster s -> wf s.
Proof.
  intros Hr. pose proof fresh_wf as Hwf. induction Hr as [|s1 s2 s3 Hs _ IH]; [done|].
  apply IH. by eapply any_step_wf.
Qed.


(** C4: the operator writes only what is its own.  Over any number of its steps,
    from any state it can be in and whichever API calls fail: no pod is changed;
    no service but those with generated private names and no endpoint slice but
    those with generated names; of a scale only the wanted replicas, of a
    ScaledObject only the two pause annotations; of an ElastiService only its
    finalizers, its status and the spelling of its target's kind; and none is
    created, and none removed that was not deleted before. *)
Theorem operator_writes_only_its_own s s'
    (Hr : rtc any_step fresh_cluster s) (Hrun : rtc op_step s s') :
  pods s' = pods s
  /\ (forall k, (forall name, k.2 <> GetPrivateServiceName name) -> services s' !! k = services s !! k)
  /\ (forall k, (forall name, k.2 <> GetEndpointSliceToResolverName name) -> slices s' !! k = slices s !! k)
  /\ sc_status <$> scales s' = sc_status <$> scales s
  /\ other_annotations <$> scaled_objects s' = other_annotations <$> scaled_objects s
  /\ (forall k, fixed_part <$> (crds s' !! k) = fixed_part <$> (crds s !! k)
      \/ (crds s' !! k = None /\ exists es, crds s !! k = Some es /\ is_Some (es_DeletionTimestamp es))).
Proof.
  apply reachable_wf in Hr. apply op_steps_sound in Hrun. destruct (Hrun Hr) as [Hfp _].
  split_and!; try apply Hfp; intros k Hk; apply Hfp; intros [name E]; by eapply Hk.
Qed.


(** C22: a start of the operator, with the API server answering, rebuilds the
    directory: every live ElastiService in scope whose target exists has its
    service in the directory again, with the spec and status of an ElastiService
    of that service, and the scale-down watcher runs. *)
Theorem restart_restores_directory envInterval s (Hf : faults s = []) (Hwf : wf s) :
  exists s' interval, Initialize ParseGroupVersion ParseDuration watchNamespaces envInterval s = (Ok (Some interval), s')
    /\ forall es, crds s !! (es_Namespace es, es_Name es) = Some es -> es_DeletionTimestamp es = None ->
         namespaceInScope watchNamespaces (es_Namespace es) = true -> watchable ParseGroupVersion es s ->
         exists es', crds s !! (es_Namespace es', es_Name es') = Some es' /\ es_DeletionTimestamp es' = None
           /\ service_key es' = service_key es /\ directory s' !! service_key es = Some (details es').
Proof.
  set (items := (map_to_list (crds s)).*2).
  assert (forall es, es ∈ items <-> crds s !! (es_Namespace es, es_Name es) = Some es) as Hitems.
  { intros es. unfold items. rewrite list_elem_of_fmap. split.
    - intros ([k es'] & -> & Hin). apply elem_of_map_to_list in Hin. simpl.
      by destruct (wf_crds _ Hwf _ _ Hin) as [<- _].
    - intros He. exists ((es_Namespace es, es_Name es), es). by rewrite elem_of_map_to_list. }
  assert (NoDup (map (fun es => (es_Namespace es, es_Name es)) items)) as Hnd.
  { unfold items. change (map ?f (?l.*2)) with (f <$> l.*2). rewrite <- list_fmap_compose.
    erewrite list_fmap_ext; [apply NoDup_fst_map_to_list|]. intros i [k es] Hi. simpl.
    apply list_elem_of_lookup_2, elem_of_map_to_list in Hi. symmetry. by apply (wf_crds _ Hwf). }
  destruct (reconcile_all ParseGroupVersion watchNamespaces items items s Hf Hnd) as (s' & H1 & Hf' & _ & _ & H2);
    [by intros es ?%Hitems|done|].
  exists s', (pollingInterval ParseDuration envInterval). split.
  - unfold Initialize. rewrite (bind_ok _ _ s tt s').
    + rewrite (bind_ok _ _ s' tt s'); [|apply wrap_free; unfold fault; by rewrite Hf'].
      by rewrite watcher_starts.
    + apply wrap_free. unfold reconcileExistingCRDs. rewrite (bind_ok _ _ s items s); [done|].
      apply wrap_free. by rewrite call_free.
  - intros es He Hlive Hns Hw. destruct (H2 es) as (es' & [Hin Hl] & E & Hd); [by apply Hitems|done..|].
    exists es'. split_and!; try done. by apply Hitems.
Qed.

End properties.

(** ** Witnesses *)

#[local] Instance witness_prom : Scaler prometheusScaler prom_world := prometheus_Scaler always_one no_url any_url [].

(** An ElastiService is created and reconciled. *)
Definition created : OpState := set_crds (<[es_nn := applied live_es None]> (crds fresh_cluster)) fresh_cluster.
Definition reconciled : OpState := (Reconcile apps_v1 es_nn created).2.

Abbreviation example_op_step :=
  (op_step apps_v1 example_rc [] all_labels no_cron no_duration new_example).
Abbreviation example_any_step :=
  (any_step apps_v1 example_rc [] all_labels no_cron no_duration new_example).

Lemma reach_created : rtc example_any_step fresh_cluster created.
Proof. apply rtc_once. right. exact (env_apply live_es fresh_cluster). Qed.
Lemma step_reconciled : example_op_step created reconciled.
Proof. exact (step_reconcile apps_v1 example_rc [] all_labels no_cron no_duration new_example live_es created eq_refl). Qed.


Lemma operator_writes_only_its_own_witness :
  pods reconciled = pods created
  /\ (forall k, (forall name, k.2 <> GetPrivateServiceName name) -> services reconciled !! k = services created !! k)
  /\ (forall k, (forall name, k.2 <> GetEndpointSliceToResolverName name) -> slices reconciled !! k = slices created !! k)
  /\ sc_status <$> scales reconciled = sc_status <$> scales created
  /\ other_annotations <$> scaled_objects reconciled = other_annotations <$> scaled_objects created
  /\ (forall k, fixed_part <$> (crds reconciled !! k) = fixed_part <$> (crds created !! k)
      \/ (crds reconciled !! k = None
          /\ exists es, crds created !! k = Some es /\ is_Some (es_DeletionTimestamp es))).
Proof.
  apply (operator_writes_only_its_own apps_v1 example_rc [] all_labels no_cron no_duration new_example).
  - apply reach_created.
  - apply rtc_once, step_reconciled.
Defined.

(** The directory has the service in proxy mode. *)
Definition in_proxy : OpState :=
  set_directory {[ lit "ns/svc" := mkDetails (lit "es") (es_Spec live_es) (mkStatus 0 None ProxyMode) ]}
    (cluster live_es (mkScale 0 0) []).

Lemma in_proxy_wf : wf in_proxy.
Proof.
  split; [apply map_Forall_singleton..|apply map_Forall_empty].
  - split; [done|by left].
  - done.
  - split; [by exists (lit "ns")|by right; right].
Qed.


Lemma restart_restores_directory_witness :
  exists s' interval, Initialize apps_v1 no_duration [] [] in_proxy = (Ok (Some interval), s')
    /\ forall es, crds in_proxy !! (es_Namespace es, es_Name es) = Some es -> es_DeletionTimestamp es = None ->
         namespaceInScope [] (es_Namespace es) = true -> watchable apps_v1 es in_proxy ->
         exists es', crds in_proxy !! (es_Namespace es', es_Name es') = Some es' /\ es_DeletionTimestamp es' = None
           /\ service_key es' = service_key es /\ directory s' !! service_key es = Some (details es').
Proof.
  apply (restart_restores_directory apps_v1 [] no_duration [] in_proxy); [reflexivity|apply in_proxy_wf].
Defined.

