(* ===== verification/WakeUp.v ===== *)
(** * One wake-up, end to end

    The composition of both programs over the first request to a service that
    was scaled to zero: the resolver's handler, its client, the message, the
    operator's server and scale handler, and the resolver's retries until the
    service is ready. *)

From S2P Require Import Prelude GoStrings Names K8sHelper HostManager Breaker Throttler Types ProbeMatch CrdCache RpcClient Json Handler Cron PromScaler Cluster Scaling Config Informer Controller ControllerFacts ControllerProps Events Operator OperatorProps.
Local Open Scope Z_scope.

(** ** From the client to the server *)

(** The body of the request that reports a service. *)
Definition message (q : post) : gostring :=
  Marshal_RequestCount (lit "1") (mkRequestCount 1 (post_svc q) (post_ns q)).

(** What the server makes of a body. *)
Definition decoded (body : gostring) : result error (gostring * gostring) :=
  match Decode_RequestCount body with
  | Ok r => Ok (rc_Svc r, rc_Namespace r)
  | Err e => Err e
  end.

(** ** From zero to the minimum *)

Section operator.
Context (ParseGroupVersion : gostring -> result error (gostring * gostring)).

(** The request of the client at the operator. *)
Definition deliver (q : post) : M Z :=
  resolverReqHandler ParseGroupVersion (lit "POST") (decoded (message q)) (Ok tt).

Lemma Scale_free ns gvk name d s :
  faults s = [] -> scales s !! scale_target ns gvk name = Some (mkScale 0 0) -> 0 < d ->
  let s' := (Scale ns gvk name d s).2 in
  (Scale ns gvk name d s).1 = Ok true /\ scales s' !! scale_target ns gvk name = Some (mkScale d 0).
Proof.
  intros Hf Hs Hd. unfold Scale. set (t := scale_target ns gvk name) in *.
  assert (get_scale 2 t s = (Ok (mkScale 0 0), s)) as Hg.
  { change (get_scale 2 t) with
      (r ← attempt_call (api_get scales t);
       match r with
       | Ok sc => mret sc
       | Err err => if error_is is_no_match err then get_scale 1 t else fail err
       end).
    by rewrite (attempt_bind _ _ _ _ _ (get_free scales t _ s Hf Hs)). }
  rewrite (attempt_bind _ _ _ _ _ Hg). cbn [sc_status].
  destruct (Z.eqb_spec 0 d); [lia|]. destruct (Z.ltb_spec d 0); [lia|]. rewrite andb_false_r.
  rewrite (attempt_bind _ _ _ _ _ (update_free scales set_scales t _ _ s Hf Hs)). simpl.
  split; [done|apply lookup_insert_eq].
Qed.

(** The service is known, its target is at zero, and its ScaledObject, if it has
    one, exists. *)
Definition asleep (svc ns : gostring) (d : CRDDetails) (t : target) (s : OpState) : Prop :=
  faults s = [] /\ directory s !! nn_string (ns, svc) = Some d
  /\ target_of ParseGroupVersion ns (d_Spec d) = Some t /\ scales s !! t = Some (mkScale 0 0)
  /\ match keda_autoscaler (d_Spec d) with
     | Some name => is_Some (scaled_objects s !! (ns, name))
     | None => True
     end.

Lemma UpdateLastScaledUpTime_shrinks crd ns : shrinks (UpdateLastScaledUpTime crd ns).
Proof. unfold UpdateLastScaledUpTime. shrink. Qed.

Lemma scaleTargetForService_free svc ns d t s :
  asleep svc ns d t s ->
  let s' := (scaleTargetForService ParseGroupVersion svc ns s).2 in
  (scaleTargetForService ParseGroupVersion svc ns s).1 = Ok tt
  /\ scales s' !! t = Some (mkScale (min_replicas (d_Spec d)) 0).
Proof.
  intros (Hf & Hd & Ht & Hs & Hk). unfold scaleTargetForService, GetCRD. rewrite gets_bind, Hd.
  destruct (UpdateLastScaledUpTime (CRDName d) ns s) as [r s1] eqn:Hu. rewrite (attempt_bind _ _ _ _ _ Hu).
  pose proof (shrinks_free _ _ _ _ (UpdateLastScaledUpTime_shrinks _ _) Hu Hf) as Hf1.
  assert (keeps scales (UpdateLastScaledUpTime (CRDName d) ns)
          /\ keeps scaled_objects (UpdateLastScaledUpTime (CRDName d) ns)) as [K1 K2]
    by (unfold UpdateLastScaledUpTime; split; frame).
  pose proof (keeps_run _ _ _ _ _ K1 Hu) as E1. pose proof (keeps_run _ _ _ _ _ K2 Hu) as E2.
  assert (exists s2, update_keda (d_Spec d) ns false s1 = (Ok tt, s2) /\ faults s2 = [] /\ scales s2 = scales s)
    as (s2 & H2 & Hf2 & E3).
  { unfold update_keda. destruct (keda_autoscaler (d_Spec d)) as [name|]; [|by exists s1].
    destruct Hk as [ann Hann]. rewrite <- E2 in Hann. eexists. split_and!.
    - apply wrap_free, wrap_free. exact (update_free scaled_objects set_scaled_objects _ _ ann s1 Hf1 Hann).
    - done.
    - done. }
  rewrite (bind_ok _ _ _ _ _ H2). unfold ScaleToMinReplicas, target_of in *.
  destruct (APIVersionStrToGVK _ _ _) as [gvk|]; [|done]. injection Ht as <-. rewrite <- E3 in Hs.
  destruct (Scale_free _ _ _ (min_replicas (d_Spec d)) s2 Hf2 Hs (min_replicas_pos _)) as [H3 H4].
  unfold min_replicas in H3, H4. set (sc := Scale _ _ _ _) in *.
  pose proof (surjective_pairing (sc s2)) as H5. rewrite H3 in H5.
  rewrite (bind_ok _ _ s2 true (sc s2).2) by (by apply wrap_free). by split.
Qed.

Lemma deliver_free q d t s :
  forallb is_ascii (post_svc q) = true -> forallb is_ascii (post_ns q) = true ->
  asleep (post_svc q) (post_ns q) d t s ->
  (deliver q s).1 = Ok 200 /\ scales (deliver q s).2 !! t = Some (mkScale (min_replicas (d_Spec d)) 0).
Proof.
  intros Hsvc Hns Ha. destruct (scaleTargetForService_free _ _ _ _ _ Ha) as [H1 H2].
  unfold deliver, decoded, message. pose proof (Decode_Marshal (post_svc q) (post_ns q) [] Hsvc Hns) as Hm.
  rewrite app_nil_r in Hm. rewrite Hm. unfold resolverReqHandler. rewrite bool_decide_true by done.
  cbv beta iota delta [negb rc_Svc rc_Namespace].
  pose proof (surjective_pairing (scaleTargetForService ParseGroupVersion (post_svc q) (post_ns q) s)) as H3.
  by rewrite (attempt_bind _ _ _ _ _ H3).
Qed.
End operator.

(** ** The retries of the resolver *)

Section rounds.
Context (p : ThrottlerParams) (host : Host) (env : nat -> attempt proxy_outcome) (R D slack : Z).

(** The readiness of the target as a round sees it, and a backend that answers. *)
Definition sees_ready (i : nat) : Prop := CheckIfServiceEndpointSliceActive (listing (env i)) = Ok true.
Definition answered (x : proxy_outcome) : Prop :=
  exists hdr status payload, x = BackendAnswer hdr status payload /\ bodyAllowedForStatus status = true.

Abbreviation ready_key := (Throttler.service_key (Namespace host) (TargetService host)).

(** The rounds of one request.  The breaker has room; a round that starts before
    the deadline [D] is not interrupted; a round is followed by the next after the
    retry duration and at most [slack] more; other requests record readiness only
    once the target is ready; and a backend that is ready answers. *)
Record retrying : Prop := {
  rt_room : forall i, refused (env i) = None;
  rt_deadline : forall i, at_time (env i) < D -> ctx_err (env i) = None;
  rt_paced : forall i, at_time (env i) + QueueRetryDuration p <= at_time (env (S i))
                       <= at_time (env i) + QueueRetryDuration p + slack;
  rt_cache : forall i t, serviceReadyMap t !! ready_key = None ->
    serviceReadyMap (interference (env i) t) !! ready_key = None
    \/ (serviceReadyMap (interference (env i) t) !! ready_key = Some true /\ R <= at_time (env i));
  rt_backend : forall i, sees_ready i \/ R <= at_time (env i) -> answered (backend (env i))
}.

Context (Hr : retrying).

Lemma retry_loop k i n t :
  serviceReadyMap t !! ready_key = None -> R <= at_time (env (i + k)) -> sees_ready (i + k) ->
  (forall j, (i <= j <= i + k)%nat -> at_time (env j) < D) ->
  exists es t' n' x, Try_loop (proxy_err None) p host (map env (seq i (S k))) n t = (Returned None, es, t')
    /\ resolves es = [(n', x)] /\ answered x.
Proof.
  revert i n t. induction k as [|k IH]; intros i n t Hcold HR Hsee HD.
  all: change (map env (seq i (S ?k))) with (env i :: map env (seq (S i) k)); cbn [Try_loop]; rewrite (rt_room Hr).
  all: unfold thunk, thunk_serve, checkIfServiceReady; rewrite (rt_deadline Hr i) by (apply HD; lia).
  all: set (t1 := set_clock _ _); change (serviceReadyMap t1) with (serviceReadyMap (interference (env i) t)).
  all: assert (forall x, answered x -> proxy_err None x = None) as Hok by (by intros ? (? & ? & ? & -> & _)).
  all: destruct (rt_cache Hr i t Hcold) as [Hmiss|[Hhit Hle]]; [rewrite Hmiss|rewrite Hhit];
    [|rewrite Hok by (apply (rt_backend Hr); by right); do 4 eexists; (split; [reflexivity|]);
      (split; [reflexivity|]); apply (rt_backend Hr); by right].
  - rewrite Nat.add_0_r in Hsee. rewrite Hsee, Hok by (apply (rt_backend Hr); by left).
    do 4 eexists. split; [reflexivity|]. split; [reflexivity|]. apply (rt_backend Hr). by left.
  - destruct (CheckIfServiceEndpointSliceActive (listing (env i))) as [[]|e] eqn:Hl.
    { rewrite Hok by (apply (rt_backend Hr); by left). do 4 eexists. split; [reflexivity|].
      split; [reflexivity|]. apply (rt_backend Hr). by left. }
    all: cbn [reenqueue tryCount];
      destruct (IH (S i) (int64 (n + 1)) t1) as (es & t' & n' & x & HL & Hres & Hx);
      [done|by rewrite Nat.add_succ_comm|by rewrite Nat.add_succ_comm|intros j Hj; apply HD; lia|];
      rewrite HL; do 4 eexists; (split; [reflexivity|]); split; [by rewrite resolves_app|done].
Qed.
(** The first round that starts when the target is ready. *)
Lemma first_ready n :
  (exists k, R <= at_time (env k) /\ forall j, (j < k)%nat -> at_time (env j) < R)
  \/ forall j, (j <= n)%nat -> at_time (env j) < R.
Proof.
  induction n as [|n [IH|IH]]; [|by left|].
  - destruct (Z.le_gt_cases R (at_time (env 0%nat))) as [Hle|Hlt]; [left; exists 0%nat; split; [done|lia]|].
    right. intros j Hj. by replace j with 0%nat by lia.
  - destruct (Z.le_gt_cases R (at_time (env (S n)))) as [Hle|Hlt].
    + left. exists (S n). split; [done|]. intros j Hj. apply IH. lia.
    + right. intros j Hj. destruct (decide (j = S n)) as [->|]; [done|]. apply IH. lia.
Qed.

Context (Hpos : 0 < QueueRetryDuration p).

Lemma rounds_time i : at_time (env 0%nat) + Z.of_nat i * QueueRetryDuration p <= at_time (env i).
Proof.
  induction i as [|i IH]; [lia|]. destruct (rt_paced Hr i) as [Hs _].
  rewrite Nat2Z.inj_succ, Z.mul_succ_l. lia.
Qed.

Lemma ready_round :
  exists k, R <= at_time (env k) /\ (forall j, (j < k)%nat -> at_time (env j) < R)
    /\ (Z.of_nat k - 1) * QueueRetryDuration p < Z.max 1 (R - at_time (env 0%nat)).
Proof.
  set (n := Z.to_nat (R - at_time (env 0%nat))).
  destruct (first_ready n) as [(k & Hk & Hj)|Hall].
  - exists k. split_and!; [done|done|]. destruct k as [|k]; [nia|].
    pose proof (rounds_time k). specialize (Hj k ltac:(lia)). lia.
  - exfalso. pose proof (rounds_time n). specialize (Hall n ltac:(lia)). nia.
Qed.

Lemma Try_serves t :
  serviceReadyMap t !! ready_key = None -> (forall i, R <= at_time (env i) -> sees_ready i) ->
  at_time (env 0%nat) < D -> R + QueueRetryDuration p + slack < D ->
  exists N es t' n x, Try (proxy_err None) p host (map env (seq 0 N)) t = (Returned None, es, t')
    /\ resolves es = [(n, x)] /\ answered x
    /\ (Z.of_nat N - 2) * QueueRetryDuration p < Z.max 1 (R - at_time (env 0%nat)).
Proof.
  intros Hcold Hsee H0 HD. destruct ready_round as (k & HR & Hlt & Hk).
  assert (0 <= slack) as Hslack by (destruct (rt_paced Hr 0); lia).
  assert (forall j, (j <= k)%nat -> at_time (env j) < D) as Hall.
  { intros j Hj. destruct (decide (j = k)) as [->|]; [|specialize (Hlt j ltac:(lia)); lia].
    destruct k as [|k]; [done|]. specialize (Hlt k ltac:(lia)). destruct (rt_paced Hr k). lia. }
  destruct (retry_loop k 0 1 (incrementQueueSize (Namespace host) (SourceService host) t))
    as (es & t' & n & x & HL & Hres & Hx); [done|done|by apply Hsee|intros j Hj; apply Hall; lia|].
  exists (S k), es, (decrementQueueSize (Namespace host) (SourceService host) t'), n, x.
  unfold Try. rewrite HL. split_and!; try done. lia.
Qed.
End rounds.

(** ** Properties *)

Section properties.
Context (ParseGroupVersion : gostring -> result error (gostring * gostring)).
Context {HM : Type} `{HostManagerLaws HM}.
Context (Compile : gostring -> result error (gostring -> bool)).
Context (Unmarshal : gostring -> result error ElastiServiceSpec).
Context (params : ThrottlerParams).

(** C2: the first request to a sleeping service wakes it up and is served.  The
    resolver reports the service, the operator reads the report and sets the
    target to its minimum, and if that makes Kubernetes give the service a ready
    endpoint by the time [R], a retry of the request reaches the private service
    before the deadline and the client gets the backend's answer, after at most
    as many rounds as retry durations fit before [R], and two. *)
Theorem first_request_is_served req host m (s : @world HM) env R D slack c d t op
    (Hget : hm_GetHost req (manager s) = Some (host, None, m))
    (Hprobe : probe_answer Compile Unmarshal req host s = None)
    (Hon : TrafficAllowed host = true) (Hw : writer s = newResponseWriter)
    (Hfree : SourceService host ∉ serviceRPCLocks c)
    (Hascii : forallb is_ascii (SourceService host) = true /\ forallb is_ascii (Namespace host) = true)
    (Hasleep : asleep ParseGroupVersion (SourceService host) (Namespace host) d t op)
    (Hrounds : retrying params host env R D slack) (Hpos : 0 < QueueRetryDuration params)
    (Hcold : serviceReadyMap (throttler s) !! Throttler.service_key (Namespace host) (TargetService host) = None)
    (Hstart : at_time (env 0%nat) < D) (Hbudget : R + QueueRetryDuration params + slack < D) :
  let c' := SendIncomingRequestInfo (Namespace host) (SourceService host) c in
  exists q op' sc, posts c' = q :: posts c
    /\ deliver ParseGroupVersion q op = (Ok 200, op')
    /\ scales op' !! t = Some sc /\ sc_spec sc = min_replicas (d_Spec d) /\ 0 < sc_spec sc
    /\ ((0 < sc_spec sc -> forall i, R <= at_time (env i) -> sees_ready env i) ->
        exists N s' n hdr status payload rest,
          handleAnyRequest Compile Unmarshal params None req (map env (seq 0 N)) s = Some (Done host None, s')
          /\ notified s' = notified s ++ (Namespace host, SourceService host) :: rest
          /\ Handler.proxied s' = Handler.proxied s ++ [(TargetHost host, n)]
          /\ BackendAnswer hdr status payload ∈ map (fun i => backend (env i)) (seq 0 N)
          /\ sent (writer s') = Some status /\ wire (writer s') = payload
          /\ (Z.of_nat N - 2) * QueueRetryDuration params < Z.max 1 (R - at_time (env 0%nat))).
Proof.
  intros c'. set (q := Post (rpc_now c) (Namespace host) (SourceService host)).
  destruct (deliver_free ParseGroupVersion q d t op) as [Hd1 Hd2]; [apply Hascii..|done|].
  exists q, (deliver ParseGroupVersion q op).2, (mkScale (min_replicas (d_Spec d)) 0).
  pose proof (min_replicas_pos (d_Spec d)) as Hmin. split_and!; try done.
  - unfold c', SendIncomingRequestInfo, getMutexForServiceRPC. by rewrite bool_decide_false.
  - rewrite <- Hd1. apply surjective_pairing.
  - intros Hk8s. specialize (Hk8s Hmin).
    destruct (Try_serves params host env R D slack Hrounds Hpos (throttler s) Hcold Hk8s Hstart Hbudget)
      as (N & es & t' & n & x & Htry & Hres & Hx & HN).
    assert (x ∈ map (fun i => backend (env i)) (seq 0 N)) as Hin.
    { pose proof (Try_loop_spec (proxy_err None) params host (map env (seq 0 N)) 1
        (incrementQueueSize (Namespace host) (SourceService host) (throttler s))) as Hspec.
      change (int64 1) with 1 in Hspec. unfold Try in Htry.
      destruct (Try_loop _ _ _ _ _ _) as [[[r|] es'] t1]; [|done]. injection Htry as -> -> _.
      destruct Hspec as (pre & a & post & E & _ & Hspec).
      assert (resolves es = [(int64 (1 + Z.of_nat (length pre)), backend a)]) as E2.
      { by destruct (refused a), (ctx_err a) as [|]; destruct Hspec as [? [? ?]] || destruct Hspec as [? ?]; congruence. }
      rewrite Hres in E2. injection E2 as _ ->. rewrite <- (map_map env backend), E, map_app.
      apply elem_of_app. right. by left. }
    destruct Hx as (hdr & status & payload & -> & Hbody).
    destruct (handle_served Compile Unmarshal params req (map env (seq 0 N)) host m s es t' n hdr status payload)
      as (s' & Hh & Hnot & Hprox & _ & Hsent & _ & Hwire & _); try done.
    exists N, s', n, hdr, status, payload, (replicate (callbacks es) (Namespace host, SourceService host)).
    split_and!; done.
Qed.
End properties.

(** ** Witness *)

(** The service [a] in the namespace [b], with its target at zero, and a request
    that retries every five time units; the service is ready from the third round
    on. *)
Definition sleeping : OpState :=
  mkOp ∅ ∅ ∅ {[ (lit "b", (lit "apps", lit "deployments"), lit "web") := mkScale 0 0 ]}
    {[ (lit "b", lit "so") := ∅ ]} [] [] [] 0
    {[ lit "b/a" := mkDetails (lit "es") (es_Spec example_es) (es_Status example_es) ]} ∅ ∅.
Definition five : ThrottlerParams := {| QueueRetryDuration := 5; TrafficReEnableDuration := 30 |}.
Definition waking (i : nat) : attempt proxy_outcome :=
  mkAttempt (fun t => t) None (5 * Z.of_nat i)
    (Ok (if (2 <=? i)%nat then [[Some true]] else [])) (BackendAnswer ∅ 200 (lit "hello")) None.
Definition hm_config : HMConfig :=
  {| trafficReEnableDuration := 30; trafficDisableGraceDuration := 15; headerForHost := lit "Host" |}.
#[local] Instance witness_ops : HostManagerOps HostManager := HostManager_ops hm_config.
#[local] Instance witness_laws : HostManagerLaws HostManager := HostManager_laws hm_config.
Definition nothing_sent : Client := NewOperatorClient 0.

Lemma waking_retries : retrying five example_host waking 10 100 0.
Proof.
  split; intros; simpl; try done; try lia.
  - by left.
  - by eexists _, _, _.
Qed.

Lemma first_request_is_served_witness :
  exists q op' sc, posts (SendIncomingRequestInfo (lit "b") (lit "a") nothing_sent) = [q]
    /\ deliver apps_v1 q sleeping = (Ok 200, op')
    /\ scales op' !! (lit "b", (lit "apps", lit "deployments"), lit "web") = Some sc
    /\ sc_spec sc = min_replicas (es_Spec example_es) /\ 0 < sc_spec sc
    /\ ((0 < sc_spec sc -> forall i, 10 <= at_time (waking i) -> sees_ready waking i) ->
        exists N s' n hdr status payload rest,
          handleAnyRequest no_regexp health_spec five None example_req (map waking (seq 0 N)) (example_world None)
            = Some (Done example_host None, s')
          /\ notified s' = (lit "b", lit "a") :: rest
          /\ Handler.proxied s' = [(TargetHost example_host, n)]
          /\ BackendAnswer hdr status payload ∈ map (fun i => backend (waking i)) (seq 0 N)
          /\ sent (writer s') = Some status /\ wire (writer s') = payload
          /\ (Z.of_nat N - 2) * 5 < Z.max 1 (10 - 0)).
Proof.
  apply (first_request_is_served apps_v1 no_regexp health_spec five example_req example_host example_manager
    (example_world None) waking 10 100 0 nothing_sent
    (mkDetails (lit "es") (es_Spec example_es) (es_Status example_es))
    (lit "b", (lit "apps", lit "deployments"), lit "web") sleeping).
  - vm_compute. reflexivity.
  - reflexivity.
  - reflexivity.
  - reflexivity.
  - apply not_elem_of_empty.
  - split; reflexivity.
  - split_and!; [reflexivity..|]. vm_compute. by eexists.
  - apply waking_retries.
  - reflexivity.
  - reflexivity.
  - reflexivity.
  - reflexivity.
Defined.
